(* ===== verification/_CoqProject ===== *)
-Q . S2P
Prelude.v
Status.v
FixedString.v
Time.v
BinaryFutex.v
FutexThreads.v
LockableBinaryFutex.v
Signal.v
Lockstep.v
LockstepProofs.v
LockstepRuns.v
RtQueue.v
RtQueueProofs.v
MultiWriter.v
AsyncBuffer.v
RtPromise.v
RtPromiseProofs.v
AsyncRequest.v
SegmentHeader.v
RefCountThreads.v
SharedMemory.v
SharedMemoryProofs.v
MemorySegment.v
MemorySegmentProofs.v
SegmentRuns.v
RealtimeClock.v
ClockRuns.v
Interfaces.v
InterfacesProofs.v
RemoteTrigger.v
RemoteTriggerProofs.v
DomainSocket.v
DomainSocketProofs.v
DomainSocketServer.v
DomainSocketServerProofs.v
HalState.v
HalRuntime.v
HalRuntimeProofs.v
HalRuntimeRuns.v
ModuleRuntime.v
ModuleRuntimeProofs.v
Doubles.v
JointLimits.v
StatusMacros.v
JointData.v
TimeFormat.v
Log.v
ClockInterface.v
EndToEnd.v
ControlPeriod.v
PromiseLocks.v
Cleanup.v
