(* ===== verification/Prelude.v ===== *)
(** * icon-shared-memory: a verification library

    icon-shared-memory connects a hardware module (the process that talks to a robot)
    with the ICON control process.  Both map the same shared memory segments; a domain
    socket hands the file descriptors of the segments from the module to the control
    process; futexes in shared memory start the callbacks of the module once per
    control cycle, and a lockstep in shared memory lets the module drive the clock.
    This library models that code in Rocq and proves what makes it correct.

    ** The program and the files

    Foundations
    - [Prelude]: machine integers with their wrap-around, the result types [expected]
      ([tl::expected]) and [checked] (fatal checks), characters and strings, sums over
      the threads of a configuration ([weight]), tactics and hints.
    - [Status]: [icon/utils/status.h], [status_helpers.h].  [StatusMacros]: the early
      returns of [icon/utils/status_and_expected_macros.h], as functions of the expression
      and of the rest of the body.  [FixedString]: [icon/flatbuffers/fixed_string.h],
      [flatbuffer_utils.h].
    - [Time], [TimeFormat]: [icon/utils/time.{h,cc}], 64-bit time points, and times as
      text.  [Log]: [icon/utils/log.h], [strerror.h], [mutex.h].  [Cleanup]:
      [icon/utils/cleanup.h].
    - [Doubles]: IEEE 754 doubles on [SpecFloat] of the Standard Library.

    Synchronisation
    - [BinaryFutex], [FutexThreads]: [icon/interprocess/binary_futex.{h,cc}], one call
      against the documented behaviour of the futex system call, and a pool of threads.
    - [LockableBinaryFutex]: [icon/interprocess/lockable_binary_futex.h].
    - [Signal]: the class of what the futex promises to its clients (a token that is
      posted, taken, closed), with [BinaryFutex] as its instance.  [Lockstep],
      [RemoteTrigger] and [RealtimeClock] are proved against the class.
    - [Lockstep], [LockstepProofs], [LockstepRuns]: [util/thread/lockstep.{h,cc}].  Each
      call is split at its atomic accesses; any number of threads interleave.
    - [RtQueue], [RtQueueProofs]: [platform/common/buffers/rt_queue*.h], one reader and
      one writer, split at the accesses to the indices.  [MultiWriter]: any number of
      writers under the mutex of [rt_queue_multi_writer.h], mapped to the runs of one.
    - [AsyncBuffer]: [icon/utils/async_buffer.h], the triple buffer.
    - [RtPromise], [RtPromiseProofs], [PromiseLocks], [AsyncRequest]:
      [platform/common/buffers/rt_promise.h] and [icon/utils/async_request.h], on a heap
      of contexts.

    Shared memory
    - [SegmentHeader]: [segment_header.{h,cc}] (all of
      [icon/interprocess/shared_memory_manager/]).  [RefCountThreads]: the reference counts
      of the header, access by access, by any number of processes.
    - [SharedMemory], [SharedMemoryProofs]: [shared_memory_manager.{h,cc}] and
      [segment_info_utils.{h,cc}] over a [world] of files, descriptors and mappings.
    - [MemorySegment], [MemorySegmentProofs], [SegmentRuns]: [memory_segment.{h,cc}], the
      reference-counted handles; and adding and opening segments on a working kernel.
    - [DomainSocket], [DomainSocketProofs]: [domain_socket_utils.{h,cc}] and the messages
      of [domain_socket_server.cc].  [DomainSocketServer], [DomainSocketServerProofs]:
      [domain_socket_server.{h,cc}].
    - [RemoteTrigger], [RemoteTriggerProofs]: [icon/interprocess/remote_trigger/].
    - [RealtimeClock]: [icon/hal/realtime_clock.{h,cc}], [shared_memory_lockstep.{h,cc}],
      [icon/utils/current_cycle.{h,cc}].  [ClockRuns]: the clock and the control process
      in all interleavings of their accesses.  [ClockInterface]:
      [icon/control/realtime_clock_interface.{h,cc}], a type class with the clock as its
      instance.

    Hardware modules
    - [HalState]: [icon/hal/hardware_module_util.{h,cc}] and
      [icon/hal/interfaces/hardware_module_state_utils.{h,cc}]: the guard of the state
      machine and the state in shared memory.
    - [HalRuntime], [HalRuntimeProofs], [HalRuntimeRuns]:
      [icon/hal/hardware_module_runtime.{h,cc}], the handler of the callbacks; the
      module ([icon/hal/hardware_module_interface.h]) is the class [HardwareModule].
    - [ModuleRuntime], [ModuleRuntimeProofs]: the class [HardwareModuleRuntime] of the same
      files ([Create], [Connect], [Run], [Stop]) and the options of its threads
      ([util/thread/thread_options.h]).
    - [Interfaces], [InterfacesProofs], [ControlPeriod]: the registry
      ([icon/hal/hardware_interface_registry.{h,cc}]), typed and strict handles
      ([get_hardware_interface.h], [hardware_interface_handle.h]), the ICON state and the
      control period ([icon/hal/interfaces/icon_state_utils.cc], [control_period_utils.cc]).
    - [JointLimits], [JointData]: [kinematics/types/joint_limits.{h,cc}], and the tables for
      joint limits, commands and states ([icon/hal/interfaces/joint_*_utils.cc]).
    - [EndToEnd]: an interface of a module on its way to the control process, through the
      registry, the shared memory, the domain socket and the handles.

    ** How the code is represented

    A field of a class is a field of a Record of the same name; a method is a function
    from the object (and what it shares) to its result and the new object.  Errors are
    values: [Status], [RealtimeStatus], [expected]; a fatal check ends in [Aborts].
    What the code shares between threads or processes is a component of a
    configuration, and a step relation ([step], [lstep], [qstep], [bstep], [tstep],
    [hstep], [sstep], [rstep], [mstep], [kstep]) has one constructor per atomic access or per call.  Results of
    system calls and of code outside of the repository are arguments; what the proofs
    need of them (a new descriptor is new, a wait that times out says so, the smallest
    coefficient of a vector is one of its elements) is a hypothesis of the theorem
    ([kernel_ok], [reliable], [minCoeff_ok]).  The iteration order of
    [std::unordered_map] is the class [IterOrder].

    ** What is shown

    - Lockstep: A and B alternate and exclude each other, and every call returns what is
      documented for it; there is one token; a cancellation reaches every waiter; races
      around [Cancel] and [Reset] lose a cancellation or a token, and a [Reset] outside of
      its rules lets A and B overlap.
    - Futexes: no lost wake-up, conservation of tokens, mutual exclusion, deadlines.
    - Buffers: the queue refines a FIFO queue, also with several writers; the triple buffer always yields the
      latest value; neither ever shares an element between its two sides; a promise
      hands over its value once, and cancellation is final.
    - Shared memory: reference counts are exact in every history, and the semaphore makes
      them atomic; segments are read back as written; what a failing call leaves behind.
    - Domain sockets: a client gets the whole map or an error, and returns after at most
      as many messages as are announced; one server per module.
    - Remote triggers: callbacks exclude each other and requests are answered.
    - Clock: creation and resets; every update reads the timestamp of its tick, one update
      per tick; timeouts on the monotonic clock.
    - Runtime: every single store of the state is an allowed transition, commands only
      while motion is enabled, requests are answered once, the copies of the state agree;
      [Run] starts the servers, or stops them and shuts the module down.
    - Interfaces: a strict handle refines a slot with a cycle number and counts its updates; an advertised
      interface is opened by its type only; a client that was served the descriptors opens
      the segment, which passes the checks of its type, and reads what the module writes.
    - Joint data: [IsValid] (where no difference of positions is NaN) and [operator==] agree
      with their pointwise definitions on doubles; limits survive the way through a flatbuffer; sizes stay consistent; a
      mismatch of sizes is an error with a known effect.
    - Text: formatted times determine their second (or millisecond).

    ** What is assumed of the users and of the system

    - [lstep]: a thread ends only an operation that it started; [Reset] of a cancelled
      lockstep is not called inside an operation (documented) nor while another [Reset] is
      under way (not documented).  [LockstepRuns] shows the overlaps without these rules.
    - [tstep true]: a stopped trigger server is started or queried again only after its
      loop has returned (documented for the asynchronous thread); one [Query] at a time, no
      start of a stopped server during a [Query], no [RequestStop] during the check of a
      [Query] (not documented).  [RemoteTriggerProofs] shows overlaps without these rules.
    - [hstep]: callbacks that write the state do not run in parallel, as the comments of
      hardware_module_runtime.cc require; each is one step.
    - [kstep]: the control process, which is not in the repository, follows the protocol of
      the lockstep and does not cancel it; ticks end with the first that fails.
    - [rstep false]: [sem_wait] is not interrupted by a signal.
    - Clients of the domain socket: no [sendmsg] is short; a message announces at most as
      many names as its array has entries.
    - Creating a [std::jthread] and allocating memory succeed; the exceptions with which
      they report failures are not modelled.

    ** Bounds and fuel

    Loops over lists are structural.  A whole lockstep call takes at most four steps
    after its first ([call_fuel]); [StartOperationA_blocks_iff] shows that running out
    means waiting.  A tick takes at most eight steps besides repeated attempts of its wait
    ([tick_fuel]).  A wait loop consumes one entry of a list of attempts (wake-ups, or
    results of [recvmsg], [connect], [flock]); [client_returns] and [Wait_outcome] show
    that the loops return.  The byte loop of [GetSingleMessage] has the number of
    expected bytes as its fuel.

    ** Not modelled

    The effect of log calls inside of the other components ([Log] models the logger
    itself); the text of [std::format] other than what is written out here; the scheduling
    of threads; memory orders (every atomic access is sequentially consistent); bytes of a
    partly sent message; exceptions; the overflow of [std::chrono] arithmetic, which C++
    leaves open and which is modelled as wrap-around; templates that cannot be instantiated
    (the overloads on a map of descriptors in [get_hardware_interface.h] and one overload of
    [AdvertiseMutableInterface]); payloads of NaN; the flatbuffer library and the code generated
    from the schemas (tables are records whose fields can be absent); Eigen
    ([eigenmath/types.h] only names its types); compiler attributes
    ([icon/utils/attributes.h], [realtime_guard.h]); declarations that delete or default
    constructors; matchers, mocks, tests and build files. *)

From Stdlib Require Export Ascii ZArith Lia.
From stdpp Require Export prelude gmap strings pretty relations.
From stdpp Require Export numbers.
From stdpp Require Export list.

Declare Scope icon_scope.
Delimit Scope icon_scope with icon.
Open Scope Z_scope.
Open Scope icon_scope.

(** ** Machine integers *)

(** Unsigned wrap-around at [w] bits. *)
Definition wrap_u (w : Z) (z : Z) : Z := z mod 2 ^ w.

(** Two's complement wrap-around at [w] bits. *)
Definition wrap_s (w : Z) (z : Z) : Z :=
  (z + 2 ^ (w - 1)) mod 2 ^ w - 2 ^ (w - 1).

Definition u64_max : Z := 2 ^ 64 - 1.
Definition s64_max : Z := 2 ^ 63 - 1.
Definition s64_min : Z := - 2 ^ 63.
Definition int_max : Z := 2 ^ 31 - 1.
Definition int_min : Z := - 2 ^ 31.

Definition in_s (w z : Z) : Prop := - 2 ^ (w - 1) <= z < 2 ^ (w - 1).
Definition in_u (w z : Z) : Prop := 0 <= z < 2 ^ w.

Lemma wrap_u_id (w z : Z) : in_u w z -> wrap_u w z = z.
Proof. intros [? ?]. apply Z.mod_small. lia. Qed.

Lemma wrap_u_range (w z : Z) : 0 <= w -> in_u w (wrap_u w z).
Proof. intros ?. apply Z.mod_pos_bound. apply Z.pow_pos_nonneg; lia. Qed.

Lemma pow_half (w : Z) : 0 < w -> 2 ^ w = 2 ^ (w - 1) + 2 ^ (w - 1).
Proof.
  intros ?. replace w with (Z.succ (w - 1)) at 1 by lia.
  rewrite Z.pow_succ_r; lia.
Qed.

Lemma wrap_s_id (w z : Z) : 0 < w -> in_s w z -> wrap_s w z = z.
Proof.
  intros Hw [? ?]. unfold wrap_s. pose proof (pow_half w Hw).
  rewrite Z.mod_small; lia.
Qed.

Lemma wrap_s_range (w z : Z) : 0 < w -> in_s w (wrap_s w z).
Proof.
  intros Hw. unfold wrap_s, in_s. pose proof (pow_half w Hw).
  assert (0 < 2 ^ w) by (apply Z.pow_pos_nonneg; lia).
  pose proof (Z.mod_pos_bound (z + 2 ^ (w - 1)) (2 ^ w)). lia.
Qed.

(** ** [std::atomic<T>::compare_exchange_strong]

    Returns the boolean result, the new content of the atomic, and the new
    content of the variable [expected] (on failure the actual value is written
    there). *)
Definition compare_exchange_strong {A} `{EqDecision A} (cur expected desired : A)
  : bool * A * A :=
  if decide (cur = expected) then (true, desired, expected)
  else (false, cur, cur).

(** ** [tl::expected<A, E>] *)
Inductive expected (A E : Type) : Type :=
| Value (a : A)
| Unexpected (e : E).
Arguments Value {A E} a.
Arguments Unexpected {A E} e.

Definition has_value {A E} (x : expected A E) : bool :=
  match x with Value _ => true | Unexpected _ => false end.

#[export] Instance expected_eq_dec {A E} `{EqDecision A, EqDecision E} :
  EqDecision (expected A E).
Proof. solve_decision. Defined.

(** ** Code that can abort the process

    [INTR_CHECK(cond, msg)] calls [std::abort()] when the condition is false;
    [INTRINSIC_SHARED_MEMORY_LOG(FATAL, ...)] exits.  Functions that contain
    such a check return [checked A]. *)
Inductive checked (A : Type) : Type :=
| Returns (a : A)
| Aborts (msg : string).
Arguments Returns {A} a.
Arguments Aborts {A} msg.

Definition cbind {A B} (c : checked A) (k : A -> checked B) : checked B :=
  match c with Returns a => k a | Aborts m => Aborts m end.

Notation "'let!' x ':=' c 'in' k" := (cbind c (fun x => k))
  (at level 10, x pattern, c at level 100, k at level 200) : icon_scope.

(** [INTR_CHECK] *)
Definition check (cond : bool) (msg : string) : checked unit :=
  if cond then Returns tt else Aborts msg.

Definition has_returned {A} (c : checked A) : bool :=
  match c with Returns _ => true | Aborts _ => false end.

Lemma cbind_returns {A B} (c : checked A) (k : A -> checked B) b :
  cbind c k = Returns b <-> exists a, c = Returns a /\ k a = Returns b.
Proof.
  destruct c; simpl; split.
  - eauto.
  - by intros (? & [= ->] & ?).
  - done.
  - by intros (? & ? & ?).
Qed.

(** ** Interleavings: a pool of threads is the list of their program counters *)

(** Weight of a thread pool: the sum of a per-thread weight. *)
Abbreviation weight := sum_list_with.

Lemma weight_insert {A} (f : A -> nat) (l : list A) (i : nat) (x y : A) :
  l !! i = Some x ->
  (weight f (<[i:=y]> l) + f x = weight f l + f y)%nat.
Proof.
  revert i. induction l as [|a l IH]; intros [|i] H; simplify_eq/=; [lia|].
  specialize (IH _ H). lia.
Qed.

Lemma weight_lookup_le {A} (f : A -> nat) (l : list A) (i : nat) (x : A) :
  l !! i = Some x -> (f x <= weight f l)%nat.
Proof.
  revert i. induction l as [|a l IH]; intros [|i] H; simplify_eq/=; [lia|].
  specialize (IH _ H). lia.
Qed.

Lemma weight_insert_eq {A} (f : A -> nat) (l : list A) (i : nat) (x y : A) :
  l !! i = Some x -> weight f (<[i:=y]> l) = (weight f l - f x + f y)%nat.
Proof.
  intros Hi. pose proof (weight_insert f l i x y Hi).
  pose proof (weight_lookup_le f l i x Hi). lia.
Qed.

Lemma weight_two_le {A} (f : A -> nat) (l : list A) (i j : nat) (x y : A) :
  i <> j -> l !! i = Some x -> l !! j = Some y -> (f x + f y <= weight f l)%nat.
Proof.
  revert i j. induction l as [|a l IH]; intros [|i] [|j] Hne Hi Hj; simplify_eq/=.
  - pose proof (weight_lookup_le f l j y Hj). lia.
  - pose proof (weight_lookup_le f l i x Hi). lia.
  - specialize (IH i j ltac:(lia) Hi Hj). lia.
Qed.

Lemma weight_pos_lookup {A} (f : A -> nat) (l : list A) :
  (0 < weight f l)%nat -> exists i x, l !! i = Some x /\ (0 < f x)%nat.
Proof.
  induction l as [|a l IH]; simpl; [lia|]. intros H.
  destruct (decide (0 < f a)%nat) as [Ha|Ha].
  - exists 0%nat, a. eauto.
  - destruct IH as (i & x & ? & ?); [lia|]. exists (S i), x. eauto.
Qed.

Lemma weight_replicate {A} (f : A -> nat) (n : nat) (x : A) :
  weight f (replicate n x) = (n * f x)%nat.
Proof. induction n; simpl; lia. Qed.

Lemma insert_perm {A} (l : list A) i x y : l !! i = Some x ->
  exists l', l ≡ₚ x :: l' /\ <[i := y]> l ≡ₚ y :: l'.
Proof.
  intros Hi. exists (take i l ++ drop (S i) l). split.
  - rewrite <-(take_drop_middle l i x Hi) at 1. by rewrite Permutation_middle.
  - rewrite insert_take_drop by (by eapply lookup_lt_Some). by rewrite Permutation_middle.
Qed.

(** ** Invariants along a transition system *)
Lemma rtc_invariant {A} (R : relation A) (P : A -> Prop) (x y : A) :
  (forall a b, P a -> R a b -> P b) -> P x -> rtc R x y -> P y.
Proof. intros HR Hx Hxy. induction Hxy; eauto. Qed.

(** ** Automation *)
Create HintDb icon.
#[export] Hint Resolve wrap_u_range wrap_s_range : icon.

(** Split every [match]/[if] of the goal or of a hypothesis, then simplify. *)
Ltac split_cases :=
  repeat (case_match || case_decide); simplify_eq/=.

(** Close a goal by case analysis on the code's branches. *)
Ltac branch := split_cases; try done; eauto with icon.

(** Close a ground goal by evaluation. *)
Ltac evaluate :=
  vm_compute; repeat split; (reflexivity || (let H := fresh in intros H; discriminate H)).

(** ** Characters *)

(** The terminating zero of a C string. *)
Definition NUL : ascii := Ascii.zero.

(** The characters before the first zero: what [std::find(b, e, '\0')],
    [strlen] or a scan for the terminator delimit. *)
Fixpoint until_nul (l : list ascii) : list ascii :=
  match l with
  | [] => []
  | c :: l' => if decide (c = NUL) then [] else c :: until_nul l'
  end.

Definition no_nul (l : list ascii) : Prop := Forall (fun c => c <> NUL) l.

#[export] Instance no_nul_dec l : Decision (no_nul l) := _.

Lemma until_nul_no_nul l : no_nul l -> until_nul l = l.
Proof. induction 1; simpl; [done|]. case_decide; [done|]. by f_equal. Qed.

Lemma until_nul_is_no_nul l : no_nul (until_nul l).
Proof. induction l; simpl; [constructor|]. case_decide; constructor; auto. Qed.

Lemma until_nul_app_nul l k : until_nul (l ++ NUL :: k) = until_nul l.
Proof. induction l; simpl; [done|]. case_decide; [done|]. by f_equal. Qed.

Lemma until_nul_app_zeros l n : until_nul (l ++ replicate n NUL) = until_nul l.
Proof. destruct n; simpl; [by rewrite app_nil_r | apply until_nul_app_nul]. Qed.

Lemma until_nul_length l : (length (until_nul l) <= length l)%nat.
Proof. induction l; simpl; [lia|]. case_decide; simpl; lia. Qed.

Lemma until_nul_length_lt l : NUL ∈ l -> (length (until_nul l) < length l)%nat.
Proof.
  induction l as [|c l IH]; [by intros ?%not_elem_of_nil|].
  intros [<-|H]%elem_of_cons; simpl.
  - lia.
  - case_decide; simpl; [lia|]. specialize (IH H). lia.
Qed.

Lemma no_nul_take l n : no_nul l -> no_nul (take n l).
Proof. apply Forall_take. Qed.

#[export] Hint Resolve until_nul_is_no_nul no_nul_take : icon.
#[export] Hint Rewrite until_nul_app_zeros until_nul_app_nul : icon.

(** Strings and their characters. *)
Definition chars : string -> list ascii := String.list_ascii_of_string.
Definition str : list ascii -> string := String.string_of_list_ascii.

Lemma str_chars s : str (chars s) = s.
Proof. apply String.string_of_list_ascii_of_string. Qed.

Lemma chars_str l : chars (str l) = l.
Proof. apply String.list_ascii_of_string_of_list_ascii. Qed.

#[export] Hint Rewrite str_chars chars_str : icon.

(** A zero-initialised array of [n] characters into which [l] is copied,
    [l] being cut at [n] characters. *)
Definition padded (n : nat) (l : list ascii) : list ascii :=
  take n l ++ replicate (n - length (take n l)) NUL.

Lemma padded_length n l : length (padded n l) = n.
Proof.
  unfold padded. rewrite length_app, length_replicate, length_take. lia.
Qed.

Lemma until_nul_padded n l : until_nul (padded n l) = until_nul (take n l).
Proof. apply until_nul_app_zeros. Qed.

#[export] Hint Rewrite padded_length until_nul_padded : icon.
