(* ===== verification/Status.v ===== *)
(** * Status values ([icon/utils/status.h], [icon/utils/status_helpers.h])

    [Status] carries a heap string, [RealtimeStatus] a zero-terminated array of
    101 characters.  [std::format] is represented by its result: the text that a
    call formats is an argument of [FormatStatus] / [FormatRealtimeStatus]. *)
From S2P Require Import Prelude.

(** [enum class StatusCode] *)
Inductive StatusCode : Set :=
| kOk | kCancelled | kUnknown | kInvalidArgument | kDeadlineExceeded | kNotFound
| kAlreadyExists | kPermissionDenied | kResourceExhausted | kFailedPrecondition
| kAborted | kOutOfRange | kUnimplemented | kInternal | kUnavailable | kDataLoss
| kUnauthenticated.

#[export] Instance StatusCode_eq_dec : EqDecision StatusCode.
Proof. solve_decision. Defined.

(** [StatusCodeName]; its [default] branch is for integers that are no
    enumerator. *)
Definition StatusCodeName (c : StatusCode) : string :=
  match c with
  | kOk => "OK"
  | kCancelled => "CANCELLED"
  | kUnknown => "UNKNOWN"
  | kInvalidArgument => "INVALID_ARGUMENT"
  | kDeadlineExceeded => "DEADLINE_EXCEEDED"
  | kNotFound => "NOT_FOUND"
  | kAlreadyExists => "ALREADY_EXISTS"
  | kPermissionDenied => "PERMISSION_DENIED"
  | kResourceExhausted => "RESOURCE_EXHAUSTED"
  | kFailedPrecondition => "FAILED_PRECONDITION"
  | kAborted => "ABORTED"
  | kOutOfRange => "OUT_OF_RANGE"
  | kUnimplemented => "UNIMPLEMENTED"
  | kInternal => "INTERNAL"
  | kUnavailable => "UNAVAILABLE"
  | kDataLoss => "DATA_LOSS"
  | kUnauthenticated => "UNAUTHENTICATED"
  end%string.

(** The integer behind an enumerator. *)
Definition StatusCode_value (c : StatusCode) : Z :=
  match c with
  | kOk => 0 | kCancelled => 1 | kUnknown => 2 | kInvalidArgument => 3
  | kDeadlineExceeded => 4 | kNotFound => 5 | kAlreadyExists => 6
  | kPermissionDenied => 7 | kResourceExhausted => 8 | kFailedPrecondition => 9
  | kAborted => 10 | kOutOfRange => 11 | kUnimplemented => 12 | kInternal => 13
  | kUnavailable => 14 | kDataLoss => 15 | kUnauthenticated => 16
  end.

(** [struct Status] *)
Record Status := mkStatus { st_code : StatusCode; st_message : string }.

#[export] Instance Status_eq_dec : EqDecision Status.
Proof. solve_decision. Defined.

(** [Status::ok] *)
Definition status_ok (s : Status) : bool := bool_decide (st_code s = kOk).

(** [OkStatus] *)
Definition OkStatus : Status := mkStatus kOk "".

(** [ToString(const Status&)] *)
Definition ToString (s : Status) : string :=
  if bool_decide (st_message s = ""%string) then StatusCodeName (st_code s)
  else (StatusCodeName (st_code s) ++ ": " ++ st_message s)%string.

(** [FormatStatus] *)
Definition FormatStatus (code : StatusCode) (text : string) : Status :=
  mkStatus code text.

(** [RealtimeStatus::kMaxMessageLength] *)
Definition kMaxMessageLength : nat := 100.

(** [struct RealtimeStatus]; [message] is [std::array<char, 101>]. *)
Record RealtimeStatus := mkRealtimeStatus {
  rt_code : StatusCode;
  rt_message : list ascii }.

#[export] Instance RealtimeStatus_eq_dec : EqDecision RealtimeStatus.
Proof. solve_decision. Defined.

(** The array has its size and holds a terminator. *)
Definition RealtimeStatus_wf (s : RealtimeStatus) : Prop :=
  length (rt_message s) = S kMaxMessageLength /\ NUL ∈ rt_message s.

(** [RealtimeStatus::ok] *)
Definition rt_ok (s : RealtimeStatus) : bool := bool_decide (rt_code s = kOk).

(** [RtOkStatus] *)
Definition RtOkStatus : RealtimeStatus :=
  mkRealtimeStatus kOk (replicate (S kMaxMessageLength) NUL).

(** [RealtimeStatus::GetMessage] *)
Definition GetMessage (s : RealtimeStatus) : string :=
  if rt_ok s then "" else str (until_nul (rt_message s)).

(** [ToStatus] *)
Definition ToStatus (s : RealtimeStatus) : Status :=
  mkStatus (rt_code s) (GetMessage s).

(** [ToString(const RealtimeStatus&)] *)
Definition rt_ToString (s : RealtimeStatus) : string := ToString (ToStatus s).

(** [FormatRealtimeStatus]: [std::format_to_n] writes at most 100 characters of
    the text, the character after the last one written is set to zero, and the
    array was zero-initialised. *)
Definition FormatRealtimeStatus (code : StatusCode) (text : string) : RealtimeStatus :=
  let out := take kMaxMessageLength (chars text) in
  mkRealtimeStatus code
    (out ++ NUL :: replicate (kMaxMessageLength - length out) NUL).

(** [OverwriteIfError] on [RealtimeStatus] *)
Definition OverwriteIfError_rt (previous_status new_status : RealtimeStatus) :=
  if negb (rt_ok new_status) then new_status else previous_status.

(** [OverwriteIfError] on [Status] *)
Definition OverwriteIfError (previous_status new_status : Status) :=
  if negb (status_ok new_status) then new_status else previous_status.

(** [OverwriteIfNotError] on [RealtimeStatus] *)
Definition OverwriteIfNotError_rt (previous_status new_status : RealtimeStatus) :=
  if rt_ok previous_status then new_status else previous_status.

(** [OverwriteIfNotError] on [Status] *)
Definition OverwriteIfNotError (previous_status new_status : Status) :=
  if status_ok previous_status then new_status else previous_status.

(** ** Facts *)

Lemma rt_ok_RtOkStatus : rt_ok RtOkStatus = true.
Proof. reflexivity. Qed.

Lemma rt_ok_Format c t : rt_ok (FormatRealtimeStatus c t) = bool_decide (c = kOk).
Proof. reflexivity. Qed.

Lemma rt_code_Format c t : rt_code (FormatRealtimeStatus c t) = c.
Proof. reflexivity. Qed.

Lemma rt_ok_true s : rt_ok s = true <-> rt_code s = kOk.
Proof. unfold rt_ok. by rewrite bool_decide_eq_true. Qed.

Lemma rt_ok_false s : rt_ok s = false <-> rt_code s <> kOk.
Proof. unfold rt_ok. by rewrite bool_decide_eq_false. Qed.

#[export] Hint Rewrite rt_ok_RtOkStatus rt_ok_Format rt_code_Format : icon.

Lemma RtOkStatus_wf : RealtimeStatus_wf RtOkStatus.
Proof. split; [done|]. apply list_elem_of_here. Qed.

Lemma FormatRealtimeStatus_wf c t : RealtimeStatus_wf (FormatRealtimeStatus c t).
Proof.
  unfold FormatRealtimeStatus. split; cbn [rt_message].
  - rewrite length_app; cbn [length]. rewrite length_replicate, length_take. lia.
  - apply elem_of_app. right. apply list_elem_of_here.
Qed.

#[export] Hint Resolve RtOkStatus_wf FormatRealtimeStatus_wf : icon.

(** The message of a formatted error is the text, cut at 100 characters and at
    its first zero. *)
Lemma GetMessage_Format c t :
  GetMessage (FormatRealtimeStatus c t) =
  if bool_decide (c = kOk) then ""%string
  else str (until_nul (take kMaxMessageLength (chars t))).
Proof.
  unfold GetMessage. rewrite rt_ok_Format. case_bool_decide; [done|].
  unfold FormatRealtimeStatus; cbn [rt_message]. by rewrite until_nul_app_nul.
Qed.

(** A message of a well-formed status has at most 100 characters and no zero, so
    formatting it again changes nothing. *)
Lemma GetMessage_wf s :
  RealtimeStatus_wf s ->
  (length (chars (GetMessage s)) <= kMaxMessageLength)%nat
  /\ no_nul (chars (GetMessage s)).
Proof.
  intros [Hlen Hin]. unfold GetMessage. destruct (rt_ok s).
  - split; [simpl; lia | constructor].
  - rewrite chars_str. split; [|apply until_nul_is_no_nul].
    pose proof (until_nul_length_lt _ Hin). lia.
Qed.

(** Copying a status message into a new status with
    [FormatRealtimeStatus(code, "{:s}", s.GetMessage())] keeps the message
    exactly, for every error code and every well-formed status: nothing is cut
    and nothing stale is read behind the terminator. *)
Theorem FormatRealtimeStatus_roundtrip (s : RealtimeStatus) (c : StatusCode) :
  RealtimeStatus_wf s -> c <> kOk ->
  GetMessage (FormatRealtimeStatus c (GetMessage s)) = GetMessage s.
Proof.
  intros [Hlen Hnul]%GetMessage_wf Hc. rewrite GetMessage_Format.
  rewrite bool_decide_eq_false_2 by done.
  rewrite take_ge, until_nul_no_nul by done. apply str_chars.
Qed.

Lemma FormatRealtimeStatus_roundtrip_witness :
  GetMessage (FormatRealtimeStatus kAborted
    (GetMessage (FormatRealtimeStatus kInternal "Futex is not locked"))) =
  "Futex is not locked"%string.
Proof.
  rewrite (FormatRealtimeStatus_roundtrip (FormatRealtimeStatus kInternal "Futex is not locked") kAborted);
    [reflexivity | apply FormatRealtimeStatus_wf | discriminate].
Defined.

Lemma OverwriteIfNotError_keeps s l :
  rt_ok s = false -> fold_left OverwriteIfNotError_rt l s = s.
Proof.
  intros Hs. induction l as [|n l IH]; simpl; [done|].
  unfold OverwriteIfNotError_rt at 2. by rewrite Hs.
Qed.

(** A chain [status = OverwriteIfNotError(status, next())] returns the first
    status of the sequence that is not OK, and the last status when all are OK. *)
Theorem OverwriteIfNotError_first (s : RealtimeStatus) (l : list RealtimeStatus) :
  exists pre post,
    s :: l = pre ++ fold_left OverwriteIfNotError_rt l s :: post
    /\ Forall (fun x => rt_ok x = true) pre
    /\ (rt_ok (fold_left OverwriteIfNotError_rt l s) = false \/ post = []).
Proof.
  revert s. induction l as [|n l IH]; intros s; simpl.
  - exists [], []. auto.
  - unfold OverwriteIfNotError_rt at 2 4. destruct (rt_ok s) eqn:Hs.
    + destruct (IH n) as (pre & post & Heq & Hpre & Hor).
      exists (s :: pre), post. simpl. rewrite Heq. auto.
    + rewrite (OverwriteIfNotError_keeps s l Hs). exists [], (n :: l). auto.
Qed.

(** A chain [status = OverwriteIfError(status, next())] returns the last
    status of the sequence that is not OK, and the first status when all the
    later ones are OK. *)
Theorem OverwriteIfError_last (s : RealtimeStatus) (l : list RealtimeStatus) :
  exists pre post,
    s :: l = pre ++ fold_left OverwriteIfError_rt l s :: post
    /\ Forall (fun x => rt_ok x = true) post
    /\ (rt_ok (fold_left OverwriteIfError_rt l s) = false \/ pre = []).
Proof.
  induction l as [|n l IH] using rev_ind; simpl.
  - exists [], []. auto.
  - rewrite fold_left_app; simpl. unfold OverwriteIfError_rt at 1 3.
    destruct (rt_ok n) eqn:Hn; simpl.
    + destruct IH as (pre & post & Heq & Hpost & Hor).
      exists pre, (post ++ [n]). rewrite app_comm_cons, Heq, <-app_assoc.
      split; [done|]. split; [|done]. apply Forall_app; auto.
    + exists (s :: l), []. rewrite app_comm_cons. auto.
Qed.
