(* ===== verification/FixedString.v ===== *)
(** * Strings in fixed-size flatbuffer arrays
    ([icon/flatbuffers/fixed_string.h], [icon/flatbuffers/flatbuffer_utils.h])

    A [flatbuffers::Array<T, size>] of characters is the list of its [size]
    characters; a null pointer is [None]. *)
From S2P Require Import Prelude Status.

(** ** Zero-terminated arrays *)

(** [StringCopy], for a pointer to an array: the array is
    cleared, then [min(size - 1, source.size())] characters are copied. *)
Definition StringCopy (destination : option (list ascii)) (source : string)
  : RealtimeStatus * option (list ascii) :=
  match destination with
  | None =>
      (FormatRealtimeStatus kInvalidArgument "destination must not be nullptr", None)
  | Some d =>
      let size := length d in
      let zeroed := replicate size NUL in
      let copy_count := Nat.min (size - 1) (length (chars source)) in
      (RtOkStatus, Some (take copy_count (chars source) ++ drop copy_count zeroed))
  end.

(** The scan of [StringView]: the index of the first zero at or after [i], or
    [size]. *)
Fixpoint scan_nul (data : list ascii) (i : nat) : nat :=
  match data with
  | [] => i
  | c :: data' => if decide (c = NUL) then i else scan_nul data' (S i)
  end.

(** [StringView], for a pointer to an array *)
Definition StringView (source : option (list ascii)) : expected string RealtimeStatus :=
  match source with
  | None => Unexpected (FormatRealtimeStatus kInvalidArgument "source must not be nullptr")
  | Some data => Value (str (take (scan_nul data 0) data))
  end.

(** ** Arrays with an explicit size *)

(** A flatbuffer struct with a [data] array and an unsigned [size] field of
    [sized_width] bits. *)
Record SizedString := mkSizedString {
  sized_data : list ascii;
  sized_size : Z;
  sized_width : Z }.

(** [StringCopy], for a pointer to such a struct: no terminator, and the characters behind
    the copied ones stay as they were. *)
Definition StringCopy_sized (destination : option SizedString) (source : string)
  : option SizedString :=
  match destination with
  | None => None
  | Some d =>
      let copy_count := Nat.min (length (sized_data d)) (length (chars source)) in
      Some (mkSizedString
              (take copy_count (chars source) ++ drop copy_count (sized_data d))
              (wrap_u (sized_width d) (Z.of_nat copy_count))
              (sized_width d))
  end.

(** [StringView], for a pointer to such a struct *)
Definition StringView_sized (source : option SizedString) : string :=
  match source with
  | None => ""
  | Some s => str (take (Z.to_nat (sized_size s)) (sized_data s))
  end.

(** ** [CopyFbsVector] *)
Definition CopyFbsVector {T} (from to : list T) : RealtimeStatus * list T :=
  if negb (length from =? length to)%nat then
    (FormatRealtimeStatus kOutOfRange
       ("Vector sizes are not equal: " ++ pretty (length from) ++ " != "
          ++ pretty (length to)), to)
  else (RtOkStatus, take (length from) from ++ drop (length from) to).

(** ** Facts *)

Lemma scan_nul_until (data : list ascii) i :
  scan_nul data i = (i + length (until_nul data))%nat.
Proof.
  revert i. induction data as [|c data IH]; intros i; simpl; [lia|].
  case_decide; simpl; [lia|]. rewrite IH. lia.
Qed.

Lemma take_until_nul l : take (length (until_nul l)) l = until_nul l.
Proof. induction l; simpl; [done|]. case_decide; simpl; [done|]. by f_equal. Qed.

Lemma StringView_until data : StringView (Some data) = Value (str (until_nul data)).
Proof. unfold StringView. by rewrite scan_nul_until, Nat.add_0_l, take_until_nul. Qed.

Lemma StringCopy_Some d source :
  StringCopy (Some d) source =
  (RtOkStatus,
   Some (take (length d - 1) (chars source)
           ++ replicate (length d - Nat.min (length d - 1) (length (chars source))) NUL)).
Proof.
  unfold StringCopy. rewrite drop_replicate. do 3 f_equal.
  destruct (decide (length (chars source) <= length d - 1)%nat).
  - rewrite Nat.min_r by lia. rewrite !take_ge; (done || lia).
  - rewrite Nat.min_l by lia. done.
Qed.

(** What [StringView] reads back after [StringCopy] wrote [source] into an
    array of any size: the first [size - 1] characters of [source], up to its
    first zero.  The copy reports OK and keeps the size of the array in every
    case, so a source that does not fit is cut, not refused. *)
Theorem StringCopy_StringView (d : list ascii) (source : string) :
  exists d', StringCopy (Some d) source = (RtOkStatus, Some d')
    /\ length d' = length d
    /\ StringView (Some d') =
         Value (str (until_nul (take (length d - 1) (chars source)))).
Proof.
  rewrite StringCopy_Some. eexists. split; [done|]. split.
  - rewrite length_app, length_take, length_replicate. lia.
  - rewrite StringView_until. by rewrite until_nul_app_zeros.
Qed.

(** Round trip: a string without zeros that is shorter than the array is read
    back unchanged. *)
Theorem StringCopy_roundtrip (d : list ascii) (source : string) :
  no_nul (chars source) -> (length (chars source) < length d)%nat ->
  exists d', StringCopy (Some d) source = (RtOkStatus, Some d')
    /\ StringView (Some d') = Value source.
Proof.
  intros Hn Hlt. rewrite StringCopy_Some. eexists. split; [done|].
  rewrite StringView_until, until_nul_app_zeros, take_ge by lia.
  by rewrite until_nul_no_nul, str_chars.
Qed.

Lemma StringCopy_roundtrip_witness :
  exists d', StringCopy (Some (replicate 8 "x"%char)) "joint_1" = (RtOkStatus, Some d')
    /\ StringView (Some d') = Value "joint_1"%string.
Proof.
  apply (StringCopy_roundtrip (replicate 8 "x"%char) "joint_1").
  - by apply (bool_decide_unpack _).
  - vm_compute. lia.
Defined.

(** An array without a terminator is read as a string of the array's full
    size: [StringView] reports no error for it. *)
Theorem StringView_unterminated (d : list ascii) :
  no_nul d -> StringView (Some d) = Value (str d).
Proof. intros H. by rewrite StringView_until, until_nul_no_nul. Qed.

Lemma StringView_unterminated_witness :
  StringView (Some ["a"; "b"]%char) = Value "ab"%string.
Proof. apply (StringView_unterminated ["a"; "b"]%char). by apply (bool_decide_unpack _). Defined.

(** Round trip of the sized variant: the first [MaxSize] characters of the
    source come back, zeros included, when the [size] field is wide enough for
    [MaxSize]. *)
Theorem StringCopy_sized_roundtrip (d : SizedString) (source : string) :
  Z.of_nat (length (sized_data d)) < 2 ^ sized_width d ->
  StringView_sized (StringCopy_sized (Some d) source) =
    str (take (length (sized_data d)) (chars source)).
Proof.
  intros Hw. unfold StringCopy_sized, StringView_sized. cbn [sized_data sized_size].
  rewrite wrap_u_id by (split; lia). rewrite Nat2Z.id. f_equal.
  rewrite take_app_length' by (rewrite length_take; lia).
  destruct (decide (length (chars source) <= length (sized_data d))%nat).
  - rewrite Nat.min_r by lia. rewrite !take_ge; (done || lia).
  - rewrite Nat.min_l by lia. done.
Qed.

Lemma StringCopy_sized_roundtrip_witness :
  StringView_sized (StringCopy_sized (Some (mkSizedString (replicate 4 "z"%char) 0 8)) "abcdef")
  = "abcd"%string.
Proof.
  rewrite (StringCopy_sized_roundtrip (mkSizedString (replicate 4 "z"%char) 0 8) "abcdef");
    [reflexivity | vm_compute; reflexivity].
Defined.

(** [CopyFbsVector] makes the target equal to the source when the sizes
    agree, and otherwise returns [kOutOfRange] and leaves the target alone. *)
Theorem CopyFbsVector_spec {T} (from to : list T) :
  (length from = length to -> CopyFbsVector from to = (RtOkStatus, from))
  /\ (length from <> length to ->
      rt_code (CopyFbsVector from to).1 = kOutOfRange /\ (CopyFbsVector from to).2 = to).
Proof.
  unfold CopyFbsVector. split; intros H.
  - rewrite (proj2 (Nat.eqb_eq _ _)) by done. simpl.
    rewrite take_ge by lia. by rewrite drop_ge, app_nil_r by lia.
  - by rewrite (proj2 (Nat.eqb_neq _ _)) by done.
Qed.
