(* ===== verification/Time.v ===== *)
(** * Time points and durations ([icon/utils/time.h] and its uses of [std::chrono])

    [Time] is [std::chrono::time_point<std::chrono::steady_clock>]: a signed
    64-bit count of nanoseconds.  A clock reading ([Now()]) is an argument of the
    definitions that use it.  The arithmetic of [std::chrono] on the 64-bit counts
    is written with wrap-around; inside the 64-bit range it is exact.  (Outside of it
    C++ leaves the result open; wrap-around is what compilers produce.) *)
From S2P Require Import Prelude.

Definition nanos_per_sec : Z := 1000000000.
Definition nanos_per_milli : Z := 1000000.

(** [Time::max()], and [std::chrono::nanoseconds::max()]. *)
Definition Time_max : Z := s64_max.

(** [t + d] *)
Definition time_add (t d : Z) : Z := wrap_s 64 (t + d).

(** [t - u] *)
Definition time_sub (t u : Z) : Z := wrap_s 64 (t - u).

(** [std::chrono::seconds(s)] converted to nanoseconds. *)
Definition seconds (s : Z) : Z := wrap_s 64 (s * nanos_per_sec).

(** [std::chrono::milliseconds(m)] converted to nanoseconds. *)
Definition milliseconds (m : Z) : Z := wrap_s 64 (m * nanos_per_milli).

(** [std::chrono::duration_cast] to a coarser unit truncates toward zero. *)
Definition cast_seconds (d : Z) : Z := Z.quot d nanos_per_sec.
Definition cast_milliseconds (d : Z) : Z := Z.quot d nanos_per_milli.

Lemma time_add_exact t d : in_s 64 (t + d) -> time_add t d = t + d.
Proof. intros. apply wrap_s_id; [lia|done]. Qed.

Lemma time_sub_exact t u : in_s 64 (t - u) -> time_sub t u = t - u.
Proof. intros. apply wrap_s_id; [lia|done]. Qed.

(** A deadline computed from a clock reading and a timeout that do not overflow
    together lies after the reading exactly when the timeout is positive. *)
Lemma deadline_after now timeout :
  in_s 64 (now + timeout) -> (now < time_add now timeout <-> 0 < timeout).
Proof. intros H. rewrite time_add_exact by done. lia. Qed.

(** Adding a timeout that overflows 64 bits wraps to a time before the reading:
    the reason why [BinaryFutex::WaitFor] treats the largest duration apart. *)
Lemma deadline_overflow now timeout :
  in_s 64 now -> in_s 64 timeout -> s64_max < now + timeout ->
  time_add now timeout < now.
Proof.
  unfold time_add, wrap_s, in_s, s64_max. simpl (2 ^ (64 - 1)). simpl (2 ^ 63). simpl (2 ^ 64).
  intros. pose proof (Z.mod_pos_bound (now + timeout + 9223372036854775808) 18446744073709551616).
  rewrite <-(Z_mod_plus_full _ (-1)). rewrite Z.mod_small; lia.
Qed.
