(* ===== verification/BinaryFutex.v ===== *)
(** * Binary futex ([icon/interprocess/binary_futex.h], [binary_futex.cc]) and the
    mutex built on it ([lockable_binary_futex.h])

    The atomic [val_] is an unsigned 32-bit integer.  Sequential definitions
    return the futex after the call, the status, and the [futex(2)] system calls
    that the function makes.  The kernel is not part of the program: what a
    blocking system call returns, and the value that other threads left in [val_]
    meanwhile, are arguments ([futex_event]). *)
From S2P Require Import Prelude Status Time.

(** ** The class *)

(** [BinaryFutex::kReady], [kPosted], [kClosed] *)
Definition kReady : Z := 0.
Definition kPosted : Z := 1.
Definition kClosed : Z := 2.

Record BinaryFutex := mkBinaryFutex {
  val_ : Z;
  private_futex_ : bool }.

#[export] Instance BinaryFutex_eq_dec : EqDecision BinaryFutex.
Proof. solve_decision. Defined.

(** The values that the class documents for [Value()]. *)
Definition futex_wf (f : BinaryFutex) : Prop :=
  val_ f = kReady \/ val_ f = kPosted \/ val_ f = kClosed.

(** [BinaryFutex::BinaryFutex(bool posted, bool private_futex)] *)
Definition new_BinaryFutex (posted private_futex : bool) : BinaryFutex :=
  mkBinaryFutex (if posted then kPosted else kReady) private_futex.

(** [BinaryFutex::BinaryFutex(BinaryFutex&& other)]; [other] keeps its value. *)
Definition move_BinaryFutex (other : BinaryFutex) : BinaryFutex :=
  mkBinaryFutex (val_ other) (private_futex_ other).

(** [BinaryFutex::operator=(BinaryFutex&& other)]; [same] is [this == &other]. *)
Definition assign_BinaryFutex (same : bool) (this other : BinaryFutex) : BinaryFutex :=
  if negb same then mkBinaryFutex (val_ other) (private_futex_ other) else this.

(** ** System calls *)

(** Constants of [<linux/futex.h>] and [<errno.h>]. *)
Definition FUTEX_WAKE : Z := 1.
Definition FUTEX_WAIT_BITSET : Z := 9.
Definition FUTEX_PRIVATE_FLAG : Z := 128.
Definition EINTR : Z := 4.
Definition EAGAIN : Z := 11.
Definition ETIMEDOUT : Z := 110.

(** [struct timespec] *)
Record timespec := mkTimespec { tv_sec : Z; tv_nsec : Z }.

(** What a call of the helper [futex] passes to the kernel. *)
Record futex_call := mkFutexCall {
  fc_op : Z;
  fc_val : Z;
  fc_timeout : option timespec }.

(** [futex(uaddr, futex_op, val, private_futex, timeout)] *)
Definition futex (futex_op val : Z) (private_futex : bool) (timeout : option timespec)
  : futex_call :=
  mkFutexCall (if private_futex then Z.lor futex_op FUTEX_PRIVATE_FLAG else futex_op)
    val timeout.

(** What a blocking [FUTEX_WAIT_BITSET] ends with: the [errno] of a return value
    of -1 ([None] for another return value), the value other threads left in
    [val_], and the clock at that moment. *)
Record futex_event := mkFutexEvent {
  fe_errno : option Z;
  fe_val : Z;
  fe_now : Z }.

Section Strerror.
(** [strerror_r] is a function of the C library. *)
Context (StrError : Z -> string).

(** ** Waiting *)

(** [TryWait(std::atomic<uint32_t>& val)]: the value before the reset, and the
    new value. *)
Definition TryWait_val (val : Z) : Z * Z :=
  let '(_, val', expected) := compare_exchange_strong val kPosted kReady in
  (expected, val').

(** [Wait(val, ts_absolute, private_futex)], with one [futex_event] per system
    call; [None] when the thread is still blocked after the events.  The third
    component lists the system calls. *)
Fixpoint Wait (ts_absolute : option timespec) (private_futex : bool) (start_time : Z)
    (val : Z) (events : list futex_event)
  : option RealtimeStatus * Z * list futex_call :=
  let '(value, val') := TryWait_val val in
  if decide (value = kReady) then
    let call := futex FUTEX_WAIT_BITSET kReady private_futex ts_absolute in
    match events with
    | [] => (None, val', [call])
    | ev :: events' =>
        let '(st, v, calls) :=
          if decide (fe_errno ev = Some ETIMEDOUT) then
            (Some (FormatRealtimeStatus kDeadlineExceeded
                     ("Timeout after "
                        ++ pretty (cast_milliseconds (time_sub (fe_now ev) start_time))
                        ++ " ms")), fe_val ev, [])
          else
            match fe_errno ev with
            | Some e =>
                if decide (e <> EAGAIN /\ e <> EINTR) then
                  (Some (FormatRealtimeStatus kInternal
                           ("Futex wait failed with error: " ++ StrError e)),
                   fe_val ev, [])
                else Wait ts_absolute private_futex start_time (fe_val ev) events'
            | None => Wait ts_absolute private_futex start_time (fe_val ev) events'
            end in
        (st, v, call :: calls)
    end
  else if decide (value = kClosed) then
    (Some (FormatRealtimeStatus kAborted "BinaryFutex is closed, aborting Wait()"),
     val', [])
  else if decide (value = kPosted) then (Some RtOkStatus, val', [])
  else
    (Some (FormatRealtimeStatus kInternal
             ("BinaryFutex took unexpected value: " ++ pretty value)), val', []).

(** [Wait] on the members of a futex object. *)
Definition Wait_on (f : BinaryFutex) (ts_absolute : option timespec) (start_time : Z)
    (events : list futex_event)
  : option RealtimeStatus * BinaryFutex * list futex_call :=
  let '(st, v, calls) := Wait ts_absolute (private_futex_ f) start_time (val_ f) events in
  (st, mkBinaryFutex v (private_futex_ f), calls).

(** The timespec that [WaitUntil] computes for a deadline: [now] is the reading of
    [Now()], [mono] that of [clock_gettime(CLOCK_MONOTONIC)]. *)
Definition deadline_timespec (deadline now : Z) (mono : timespec) : timespec :=
  let duration := time_sub deadline now in
  let now_duration := time_add (seconds (tv_sec mono)) (tv_nsec mono) in
  let deadline_duration := time_add now_duration duration in
  let secs := cast_seconds deadline_duration in
  let ns := time_sub deadline_duration (seconds secs) in
  mkTimespec (Z.max 0 secs) (Z.max 0 ns).

(** Clock readings of one call of [WaitUntil]: [Now()] in [WaitUntil], the result
    of [clock_gettime] (an [errno] on failure), and [Now()] at the start of
    [Wait]. *)
Record wait_clock := mkWaitClock {
  wc_now : Z;
  wc_mono : timespec + Z;
  wc_start : Z }.

(** [BinaryFutex::WaitUntil(Time deadline)] *)
Definition WaitUntil (f : BinaryFutex) (deadline : Z) (clock : wait_clock)
    (events : list futex_event)
  : option RealtimeStatus * BinaryFutex * list futex_call :=
  if decide (deadline = Time_max) then Wait_on f None (wc_start clock) events
  else
    match wc_mono clock with
    | inr errno =>
        (Some (FormatRealtimeStatus kInternal
                 ("clock_gettime failed with error: " ++ StrError errno)), f, [])
    | inl mono =>
        Wait_on f (Some (deadline_timespec deadline (wc_now clock) mono))
          (wc_start clock) events
    end.

(** [BinaryFutex::WaitFor(std::chrono::nanoseconds timeout)]; [now] is the reading
    of [Now()] with which the deadline is computed. *)
Definition WaitFor (f : BinaryFutex) (timeout now : Z) (clock : wait_clock)
    (events : list futex_event)
  : option RealtimeStatus * BinaryFutex * list futex_call :=
  if decide (timeout = Time_max) then Wait_on f None (wc_start clock) events
  else WaitUntil f (time_add now timeout) clock events.

End Strerror.

(** [BinaryFutex::TryWait()] *)
Definition TryWait (f : BinaryFutex) : option bool * BinaryFutex :=
  let '(value, v) := TryWait_val (val_ f) in
  let f' := mkBinaryFutex v (private_futex_ f) in
  if decide (value = kReady) then (Some false, f')
  else if decide (value = kPosted) then (Some true, f')
  else (None, f').

(** ** Posting and closing *)

(** [BinaryFutex::Post()] *)
Definition Post (f : BinaryFutex) : RealtimeStatus * BinaryFutex * list futex_call :=
  let private_futex := private_futex_ f in
  let '(ok, v, expected) := compare_exchange_strong (val_ f) kReady kPosted in
  let f' := mkBinaryFutex v (private_futex_ f) in
  if ok : bool then (RtOkStatus, f', [futex FUTEX_WAKE 1 private_futex None])
  else if decide (expected = kClosed) then
    (FormatRealtimeStatus kAborted "BinaryFutex is closed, aborting Post()", f', [])
  else (RtOkStatus, f', []).

(** [BinaryFutex::Value()] *)
Definition Value_ (f : BinaryFutex) : Z := val_ f.

(** [BinaryFutex::Close()]; the destructor calls it. *)
Definition Close (f : BinaryFutex) : BinaryFutex * list futex_call :=
  let private_futex := private_futex_ f in
  let old := val_ f in
  let f' := mkBinaryFutex kClosed (private_futex_ f) in
  if decide (old <> kClosed) then (f', [futex FUTEX_WAKE int_max private_futex None])
  else (f', []).

(** ** Facts on single calls *)

Lemma TryWait_val_posted : TryWait_val kPosted = (kPosted, kReady).
Proof. reflexivity. Qed.

Lemma TryWait_val_other v : v <> kPosted -> TryWait_val v = (v, v).
Proof. intros. unfold TryWait_val, compare_exchange_strong. by rewrite decide_False. Qed.

Lemma new_BinaryFutex_wf p q : futex_wf (new_BinaryFutex p q).
Proof. destruct p; cbv; auto. Qed.

Lemma Post_wf f : futex_wf f -> futex_wf (Post f).1.2.
Proof. unfold futex_wf, Post, compare_exchange_strong. intros. split_cases; auto. Qed.

Lemma Close_wf f : futex_wf (Close f).1.
Proof. unfold futex_wf, Close. case_decide; simpl; auto. Qed.

Lemma TryWait_wf f : futex_wf f -> futex_wf (TryWait f).2.
Proof.
  unfold futex_wf, TryWait, TryWait_val, compare_exchange_strong. intros.
  split_cases; auto.
Qed.

#[export] Hint Resolve new_BinaryFutex_wf Post_wf Close_wf TryWait_wf : icon.

(** The timespec that [WaitUntil] hands to the kernel is a valid one, and it
    denotes the point of the monotonic clock that lies as far from [mono] as the
    deadline lies from [Now()] (or zero, when that point is negative). *)
Theorem deadline_timespec_exact (deadline now : Z) (mono : timespec) :
  0 <= tv_sec mono -> 0 <= tv_nsec mono < nanos_per_sec ->
  in_s 64 (deadline - now) ->
  in_s 64 (tv_sec mono * nanos_per_sec + tv_nsec mono) ->
  in_s 64 (tv_sec mono * nanos_per_sec + tv_nsec mono + (deadline - now)) ->
  let ts := deadline_timespec deadline now mono in
  0 <= tv_sec ts /\ 0 <= tv_nsec ts < nanos_per_sec
  /\ tv_sec ts * nanos_per_sec + tv_nsec ts =
     Z.max 0 (tv_sec mono * nanos_per_sec + tv_nsec mono + (deadline - now)).
Proof.
  intros Hs Hn Hd Hm Ht. unfold deadline_timespec.
  rewrite (time_sub_exact deadline now) by done.
  assert (Hsec : seconds (tv_sec mono) = tv_sec mono * nanos_per_sec).
  { apply wrap_s_id; [lia|]. unfold in_s, nanos_per_sec in *. lia. }
  rewrite Hsec, !time_add_exact by (rewrite ?time_add_exact; done).
  remember (_ + (deadline - now)) as T eqn:HT. clear HT Hd Hm Hsec.
  unfold cast_seconds, seconds, time_sub, in_s, nanos_per_sec in *.
  rewrite (wrap_s_id _ (T ÷ _ * _)) by (unfold in_s; Z.to_euclidean_division_equations; lia).
  rewrite (wrap_s_id _ (T - _)) by (unfold in_s; Z.to_euclidean_division_equations; lia).
  cbn [tv_sec tv_nsec]. Z.to_euclidean_division_equations; lia.
Qed.

Lemma deadline_timespec_exact_witness :
  deadline_timespec 1500000000 400000000 (mkTimespec 7 999999999)
    = mkTimespec 9 99999999
  /\ 0 <= tv_sec (deadline_timespec 1500000000 400000000 (mkTimespec 7 999999999)).
Proof.
  split; [evaluate|].
  apply (deadline_timespec_exact 1500000000 400000000 (mkTimespec 7 999999999)); evaluate.
Defined.

(** ** Outcome of [Wait] *)

(** A system call returns and the loop goes on. *)
Definition benign (ev : futex_event) : Prop :=
  fe_errno ev = None \/ fe_errno ev = Some EAGAIN \/ fe_errno ev = Some EINTR.

(** A spurious return: the value is still [kReady]. *)
Definition spurious (ev : futex_event) : Prop := benign ev /\ fe_val ev = kReady.

Section WaitOutcome.
Context (StrError : Z -> string) (ts : option timespec) (priv : bool) (start : Z).

Abbreviation call := (futex FUTEX_WAIT_BITSET kReady priv ts).
Abbreviation wait := (Wait StrError ts priv start).

Lemma Wait_not_ready v events :
  v <> kReady -> (wait v events).2 = [] /\ is_Some (wait v events).1.1.
Proof.
  intros Hv. assert ((TryWait_val v).1 = v) as Ht.
  { unfold TryWait_val, compare_exchange_strong. by case_decide. }
  destruct events; simpl; destruct (TryWait_val v) as [w v'] eqn:?; simplify_eq/=;
    rewrite decide_False by done; split_cases; eauto.
Qed.

(** The loop passes over an event after which it goes on. *)
Lemma Wait_benign ev events :
  benign ev ->
  wait kReady (ev :: events) =
    ((wait (fe_val ev) events).1, call :: (wait (fe_val ev) events).2).
Proof.
  intros Hb. simpl. destruct (wait (fe_val ev) events) as [[st v] calls] eqn:Hw.
  destruct Hb as [->|[->| ->]]; simpl; by rewrite ?Hw.
Qed.

Lemma Wait_spurious pre events :
  Forall spurious pre ->
  wait kReady (pre ++ events) =
    ((wait kReady events).1, replicate (length pre) call ++ (wait kReady events).2).
Proof.
  induction 1 as [|ev pre [Hb Hv] _ IH].
  - change ([] ++ events) with events. by destruct (wait kReady events).
  - rewrite <-app_comm_cons, Wait_benign, Hv, IH by done. done.
Qed.

Lemma Wait_posted pre ev rest :
  Forall spurious pre -> benign ev -> fe_val ev = kPosted ->
  wait kReady (pre ++ ev :: rest) =
    (Some RtOkStatus, kReady, replicate (S (length pre)) call).
Proof.
  intros Hpre Hb Hv. rewrite replicate_S_end, Wait_spurious, Wait_benign, Hv by done.
  by destruct rest.
Qed.

(** A value other than [kReady] and [kPosted] ends the call with an error. *)
Lemma Wait_other v events :
  v <> kReady -> v <> kPosted ->
  exists st, (wait v events).1.1 = Some st /\ rt_ok st = false.
Proof.
  intros Hr Hp. destruct events; simpl; rewrite TryWait_val_other by done;
    rewrite decide_False by done; case_decide; simpl; eauto;
    rewrite decide_False by done; simpl; eauto.
Qed.

Lemma Wait_ok_value v events :
  (exists st, (wait v events).1.1 = Some st /\ rt_ok st = true) -> v = kPosted \/ v = kReady.
Proof.
  intros (st & Hst & Hok). destruct (decide (v = kPosted)); [auto|].
  destruct (decide (v = kReady)); [auto|].
  destruct (Wait_other v events) as (? & ? & ?); congruence.
Qed.

(** So does a failing system call. *)
Lemma Wait_fails ev events :
  ~ benign ev -> exists st, (wait kReady (ev :: events)).1.1 = Some st /\ rt_ok st = false.
Proof.
  intros Hb. unfold benign in Hb. simpl.
  case_decide; simpl; [eauto|]. destruct (fe_errno ev) as [e|]; [|tauto].
  rewrite decide_True by (split; intros ->; tauto). simpl. eauto.
Qed.

#[local] Instance benign_dec ev : Decision (benign ev).
Proof. unfold benign. apply _. Defined.

(** C40: [Wait] on a [kReady] futex, after any number of spurious returns, (1)
    returns OK and takes the token as soon as it observes [kPosted], (2) returns
    Aborted and leaves the futex closed as soon as it observes [kClosed], (3)
    returns DeadlineExceeded when the kernel reports [ETIMEDOUT], (4) returns
    Internal on any [errno] other than [EAGAIN] and [EINTR], and (5) is still
    blocked otherwise; it makes one system call per event and passes the same
    operation, expected value and timeout every time. *)
Theorem Wait_outcome (pre : list futex_event) (ev : futex_event) (rest : list futex_event) :
  Forall spurious pre ->
  let calls := replicate (S (length pre)) call in
  (benign ev -> fe_val ev = kPosted ->
     wait kReady (pre ++ ev :: rest) = (Some RtOkStatus, kReady, calls))
  /\ (benign ev -> fe_val ev = kClosed ->
     wait kReady (pre ++ ev :: rest) =
       (Some (FormatRealtimeStatus kAborted "BinaryFutex is closed, aborting Wait()"),
        kClosed, calls))
  /\ (fe_errno ev = Some ETIMEDOUT ->
     exists msg, wait kReady (pre ++ ev :: rest) =
       (Some (FormatRealtimeStatus kDeadlineExceeded msg), fe_val ev, calls))
  /\ (forall e, fe_errno ev = Some e -> e <> ETIMEDOUT -> e <> EAGAIN -> e <> EINTR ->
     wait kReady (pre ++ ev :: rest) =
       (Some (FormatRealtimeStatus kInternal
                ("Futex wait failed with error: " ++ StrError e)), fe_val ev, calls))
  /\ wait kReady pre = (None, kReady, calls).
Proof.
  intros Hpre calls. split; [|split; [|split; [|split]]]; subst calls.
  { by apply Wait_posted. }
  all: rewrite replicate_S_end.
  - intros Hb Hv. rewrite Wait_spurious, Wait_benign, Hv by done. by destruct rest.
  - intros He. rewrite Wait_spurious by done. simpl. rewrite He. simpl. eauto.
  - intros e He ? ? ?. rewrite Wait_spurious by done. simpl. rewrite He.
    rewrite decide_False by congruence. by rewrite decide_True by done.
  - rewrite <-(app_nil_r pre) at 1. by rewrite Wait_spurious.
Qed.

(** [Wait] returns OK exactly when it observes the value [kPosted] (at once,
    or after spurious returns and a last system call that did not fail), and then
    it has reset the futex to [kReady]: a token is never reported without being
    taken. *)
Theorem Wait_ok_iff (v : Z) (events : list futex_event) :
  (exists st, (wait v events).1.1 = Some st /\ rt_ok st = true) <->
  (v = kPosted \/
   v = kReady /\ exists pre ev rest, events = pre ++ ev :: rest
     /\ Forall spurious pre /\ benign ev /\ fe_val ev = kPosted)
  /\ (wait v events).1.2 = kReady.
Proof.
  split.
  - revert v. induction events as [|ev events IH]; intros v Hok;
      destruct (Wait_ok_value v _ Hok) as [->| ->]; try (split; [by left|done]).
    { destruct Hok as (? & Hs & ?). discriminate Hs. }
    destruct (decide (benign ev)) as [Hb|Hnb]; last first.
    { destruct (Wait_fails ev events Hnb) as (? & ? & ?), Hok as (? & ? & ?). congruence. }
    rewrite Wait_benign in Hok |- * by done.
    destruct (IH (fe_val ev) Hok) as [[Hv|(Hv & pre & ev' & rest & -> & ? & ? & ?)] Hr].
    + split; [|done]. right. split; [done|]. exists [], ev, events. eauto.
    + split; [|done]. right. split; [done|]. exists (ev :: pre), ev', rest.
      repeat split; auto. constructor; [by split|done].
  - intros [[->|(-> & pre & ev & rest & -> & Hpre & Hb & Hv)] _].
    + destruct events; simpl; eauto.
    + rewrite Wait_posted by done. eauto.
Qed.

End WaitOutcome.

Lemma Wait_outcome_witness :
  Forall spurious [mkFutexEvent (Some EINTR) kReady 0]
  /\ Wait (fun _ => "?"%string) None true 0 kReady
       [mkFutexEvent (Some EINTR) kReady 0; mkFutexEvent None kPosted 5]
     = (Some RtOkStatus, kReady, replicate 2 (futex FUTEX_WAIT_BITSET kReady true None)).
Proof.
  assert (H : Forall spurious [mkFutexEvent (Some EINTR) kReady 0]).
  { constructor; [split; [by right; right|done]|constructor]. }
  split; [exact H|].
  apply (Wait_outcome (fun _ => "?"%string) None true 0 _
           (mkFutexEvent None kPosted 5) [] H); [by left|reflexivity].
Defined.

(** closing is final for every operation of the class but assignment: on a
    closed futex [Post], [Wait], [WaitUntil] without a deadline and [TryWait] fail
    with the documented results, make no system call, and leave it closed;
    [Close] is idempotent and wakes waiters only the first time. *)
Theorem closed_is_final (StrError : Z -> string) (f : BinaryFutex)
    (clock : wait_clock) (events : list futex_event) :
  let c := (Close f).1 in
  val_ c = kClosed
  /\ Close c = (c, [])
  /\ Post c = (FormatRealtimeStatus kAborted "BinaryFutex is closed, aborting Post()", c, [])
  /\ TryWait c = (None, c)
  /\ WaitUntil StrError c Time_max clock events =
       (Some (FormatRealtimeStatus kAborted "BinaryFutex is closed, aborting Wait()"), c, [])
  /\ WaitFor StrError c Time_max 0 clock events =
       (Some (FormatRealtimeStatus kAborted "BinaryFutex is closed, aborting Wait()"), c, []).
Proof.
  destruct f as [v p]. unfold Close. simpl. case_decide; simpl;
    repeat split; try (by destruct events).
Qed.
