(* ===== verification/FutexThreads.v ===== *)
(** * Threads on one [BinaryFutex] ([icon/interprocess/binary_futex.cc])

    [Post], [Close], [TryWait] and the loop of [Wait] run as sequences of atomic
    steps: one step per atomic instruction on [val_] and one per system call.
    Any number of threads interleave them in any order.  The kernel is an
    interface ([FutexKernel]): which waiters a [FUTEX_WAKE] wakes. *)
From S2P Require Import Prelude BinaryFutex.

(** ** The kernel *)

(** [futex(2)], [FUTEX_WAKE]: "wakes at most [val] of the waiters that are
    waiting"; no order is promised.  [wakes n sleeping woken]: a call with
    argument [n] may wake exactly [woken]. *)
Class FutexKernel := {
  wakes : Z -> gset nat -> gset nat -> Prop;
  wakes_waiting n S W : wakes n S W -> W ⊆ S;
  wakes_at_most n S W : wakes n S W -> Z.of_nat (size W) <= n;
  wakes_some n S W : wakes n S W -> 1 <= n -> S <> ∅ -> W <> ∅;
  wakes_all n S W : wakes n S W -> Z.of_nat (size S) <= n -> W = S }.

(** A kernel that wakes the waiters with the smallest identifiers. *)
Definition wakes_first (n : Z) (S W : gset nat) : Prop :=
  0 <= n /\ W = list_to_set (take (Z.to_nat n) (elements S)).

(** ** Program counters *)

(** Where a thread is inside the operations of the class. *)
Inductive pc :=
| Idle        (** outside of the class *)
| WaitTry     (** in [Wait], before [TryWait(val)] *)
| WaitSys     (** in [Wait], before the system call [FUTEX_WAIT_BITSET] *)
| Asleep      (** in [Wait], queued in the kernel *)
| PostWake    (** in [Post], before [FUTEX_WAKE] with 1 *)
| CloseWake.  (** in [Close], before [FUTEX_WAKE] with [INT_MAX] *)

#[export] Instance pc_eq_dec : EqDecision pc.
Proof. solve_decision. Defined.

(** The futex, the threads, and two ghost counters: successful posts, and tokens
    that waiters took. *)
Record config := mkConfig {
  c_futex : BinaryFutex;
  c_pcs : list pc;
  c_posts : nat;
  c_takes : nat }.

Definition asleep (pcs : list pc) : gset nat :=
  list_to_set (filter (fun i => pcs !! i = Some Asleep) (seq 0 (length pcs))).

(** Woken threads go back to the top of the loop of [Wait]. *)
Definition wake (W : gset nat) (pcs : list pc) : list pc :=
  imap (fun i p => if decide (i ∈ W) then WaitTry else p) pcs.

(** The initial configuration: [n] threads, none inside of the class. *)
Definition initial (posted private_futex : bool) (n : nat) : config :=
  mkConfig (new_BinaryFutex posted private_futex) (replicate n Idle) 0 0.

Section Threads.
Context `{FutexKernel}.

Definition set_pc (c : config) (i : nat) (p : pc) : config :=
  mkConfig (c_futex c) (<[i:=p]> (c_pcs c)) (c_posts c) (c_takes c).

(** A thread takes the value it sees in [TryWait(val)]: it is done with [kPosted],
    blocks with [kReady], and returns an error otherwise. *)
Definition try_wait_step (c : config) (i : nat) (blocking : bool) : config :=
  let f := c_futex c in
  let '(value, v) := TryWait_val (val_ f) in
  let next := if decide (value = kReady) then (if blocking then WaitSys else Idle) else Idle in
  mkConfig (mkBinaryFutex v (private_futex_ f)) (<[i:=next]> (c_pcs c)) (c_posts c)
    (if decide (value = kPosted) then S (c_takes c) else c_takes c).

(** The atomic instruction of [Post]. *)
Definition post_step (c : config) (i : nat) : config :=
  let '(_, f', calls) := Post (c_futex c) in
  mkConfig f' (<[i:=match calls with [] => Idle | _ => PostWake end]> (c_pcs c))
    (match calls with [] => c_posts c | _ => S (c_posts c) end) (c_takes c).

(** The atomic instruction of [Close]. *)
Definition close_step (c : config) (i : nat) : config :=
  let '(f', calls) := Close (c_futex c) in
  mkConfig f' (<[i:=match calls with [] => Idle | _ => CloseWake end]> (c_pcs c))
    (c_posts c) (c_takes c).

(** The threads after a [FUTEX_WAKE] that wakes [W]. *)
Definition wake_step (c : config) (i : nat) (W : gset nat) : config :=
  mkConfig (c_futex c) (wake W (<[i:=Idle]> (c_pcs c))) (c_posts c) (c_takes c).

(** One step of thread [i]. *)
Inductive step : config -> config -> Prop :=
| step_call_wait c i : c_pcs c !! i = Some Idle -> step c (set_pc c i WaitTry)
| step_try_wait c i : c_pcs c !! i = Some Idle -> step c (try_wait_step c i false)
| step_wait_try c i : c_pcs c !! i = Some WaitTry -> step c (try_wait_step c i true)
| step_sleep c i : c_pcs c !! i = Some WaitSys -> val_ (c_futex c) = kReady ->
    step c (set_pc c i Asleep)
| step_again c i : c_pcs c !! i = Some WaitSys -> val_ (c_futex c) <> kReady ->
    step c (set_pc c i WaitTry)
| step_interrupted c i : c_pcs c !! i = Some Asleep -> step c (set_pc c i WaitTry)
| step_timeout c i : c_pcs c !! i = Some Asleep -> step c (set_pc c i Idle)
| step_post c i : c_pcs c !! i = Some Idle -> step c (post_step c i)
| step_post_wake c i W : c_pcs c !! i = Some PostWake ->
    wakes 1 (asleep (c_pcs c)) W -> step c (wake_step c i W)
| step_close c i : c_pcs c !! i = Some Idle -> step c (close_step c i)
| step_close_wake c i W : c_pcs c !! i = Some CloseWake ->
    wakes int_max (asleep (c_pcs c)) W -> step c (wake_step c i W).

End Threads.

(** ** Facts on the thread pool *)

Lemma elem_of_asleep pcs i : i ∈ asleep pcs <-> pcs !! i = Some Asleep.
Proof.
  unfold asleep. rewrite elem_of_list_to_set, list_elem_of_filter, elem_of_seq.
  split; [tauto|]. intros Hi. split; [done|]. apply lookup_lt_Some in Hi. lia.
Qed.

Lemma size_asleep pcs : (size (asleep pcs) <= length pcs)%nat.
Proof.
  unfold asleep. rewrite size_list_to_set by (apply list.NoDup_filter, NoDup_seq).
  etrans; [apply length_filter|]. by rewrite length_seq.
Qed.

Lemma lookup_wake W pcs i p :
  wake W pcs !! i = Some p <->
  exists q, pcs !! i = Some q /\ p = if decide (i ∈ W) then WaitTry else q.
Proof.
  unfold wake. rewrite list_lookup_imap. destruct (pcs !! i); simpl; naive_solver.
Qed.

#[export] Program Instance first_kernel : FutexKernel := {| wakes := wakes_first |}.
Next Obligation.
  intros n S W [_ ->] i. rewrite elem_of_list_to_set. intros Hi.
  apply elem_of_elements. apply list_elem_of_lookup in Hi as [k Hk].
  rewrite lookup_take_Some in Hk. destruct Hk. by eapply list_elem_of_lookup_2.
Qed.
Next Obligation.
  intros n S W [Hn ->]. rewrite size_list_to_set.
  - rewrite length_take. lia.
  - eapply sublist_NoDup; [|apply sublist_take]. apply NoDup_elements.
Qed.
Next Obligation.
  intros n S W [_ ->] Hn HS Hempty. apply HS, leibniz_equiv, elements_empty_iff.
  destruct (elements S) as [|x l]; [done|]. exfalso.
  destruct (Z.to_nat n) eqn:E; [lia|]. simpl in Hempty. set_solver.
Qed.
Next Obligation.
  intros n S W [_ ->] Hn. rewrite take_ge; [|unfold size, set_size in Hn; simpl in Hn; lia].
  apply leibniz_equiv, list_to_set_elements.
Qed.

(** ** Covered sleepers *)

(** While a thread sleeps, some thread satisfies [P]. *)
Definition covered (P : pc -> Prop) (pcs : list pc) : Prop :=
  forall i, pcs !! i = Some Asleep -> exists j p, pcs !! j = Some p /\ P p.

Lemma covered_set_live (P : pc -> Prop) pcs i p q :
  pcs !! i = Some p -> P q -> covered P (<[i:=q]> pcs).
Proof.
  intros Hi Hq k _. exists i, q. split; [|done].
  apply list_lookup_insert_eq. by eapply lookup_lt_Some.
Qed.

Lemma covered_set_dead (P : pc -> Prop) pcs i p q :
  pcs !! i = Some p -> ~ P p -> q <> Asleep -> covered P pcs ->
  covered P (<[i:=q]> pcs).
Proof.
  intros Hi Hp Hq Hc k Hk.
  rewrite list_lookup_insert_Some in Hk. destruct Hk as [(_ & -> & _)|[Hik Hk]]; [done|].
  destruct (Hc k Hk) as (j & r & Hj & Hr). exists j, r. split; [|done].
  rewrite list_lookup_insert_ne; [done|]. intros ->. congruence.
Qed.

Lemma covered_wake_some (P : pc -> Prop) pcs W :
  W ⊆ asleep pcs -> (asleep pcs <> ∅ -> W <> ∅) -> P WaitTry -> covered P (wake W pcs).
Proof.
  intros HW Hsome HP k Hk.
  apply lookup_wake in Hk as (q & Hq & Hk).
  destruct (decide (k ∈ W)); [done|]. subst q.
  destruct (set_choose_L W) as [j Hj].
  { apply Hsome. apply elem_of_asleep in Hq. set_solver. }
  exists j, WaitTry. split; [|done]. apply lookup_wake.
  specialize (HW _ Hj). apply elem_of_asleep in HW. exists Asleep. by rewrite decide_True.
Qed.

Lemma covered_wake_keep (P : pc -> Prop) pcs W :
  W ⊆ asleep pcs -> ~ P Asleep -> covered P pcs -> covered P (wake W pcs).
Proof.
  intros HW HP Hc k Hk. apply lookup_wake in Hk as (q & Hq & Hk).
  destruct (decide (k ∈ W)); [done|]. subst q.
  destruct (Hc k Hq) as (j & r & Hj & Hr). exists j, r. split; [|done].
  apply lookup_wake. exists r. split; [done|]. case_decide as Hin; [|done].
  specialize (HW _ Hin). apply elem_of_asleep in HW. congruence.
Qed.

Lemma covered_wake_all (P : pc -> Prop) pcs : covered P (wake (asleep pcs) pcs).
Proof.
  intros k Hk. apply lookup_wake in Hk as (q & Hq & Hk).
  case_decide as Hin; [done|]. subst q. by apply elem_of_asleep in Hq.
Qed.

Lemma asleep_insert pcs i p :
  pcs !! i = Some p -> p <> Asleep -> asleep (<[i:=Idle]> pcs) = asleep pcs.
Proof.
  intros Hi Hp. apply set_eq. intros k. rewrite !elem_of_asleep, list_lookup_insert_Some.
  split; [intros [(_ & ? & _)|[_ ?]]; done|]. intros Hk. right. split; [|done].
  intros ->. congruence.
Qed.

(** ** The invariant *)

(** A thread that will look at [val_] again, or will wake a waiter. *)
Definition will_take (p : pc) : Prop := p = WaitTry \/ p = WaitSys \/ p = PostWake.

Definition token (f : BinaryFutex) : nat := if decide (val_ f = kPosted) then 1 else 0.

Record inv (init : nat) (c : config) : Prop := mkInv {
  inv_wf : futex_wf (c_futex c);
  inv_posted : val_ (c_futex c) = kPosted -> covered will_take (c_pcs c);
  inv_closed : val_ (c_futex c) = kClosed -> covered (eq CloseWake) (c_pcs c);
  inv_tokens : (c_takes c + token (c_futex c) <= c_posts c + init)%nat;
  inv_conserved : val_ (c_futex c) <> kClosed ->
    (c_takes c + token (c_futex c) = c_posts c + init)%nat }.

Lemma initial_inv posted priv n : inv (Nat.b2n posted) (initial posted priv n).
Proof.
  split; simpl; auto with icon.
  - intros _ i Hi. by apply lookup_replicate in Hi as [? _].
  - by destruct posted.
  - by destruct posted.
  - by destruct posted.
Qed.

Ltac dead := intros; eapply covered_set_dead;
  [eassumption | unfold will_take; naive_solver | done | auto].
Ltac live := intros; eapply covered_set_live; [eassumption | unfold will_take; naive_solver].

Section Invariant.
Context `{FutexKernel}.

Lemma set_pc_inv init c i p q :
  c_pcs c !! i = Some p -> inv init c ->
  (val_ (c_futex c) = kPosted -> covered will_take (<[i:=q]> (c_pcs c))) ->
  (val_ (c_futex c) = kClosed -> covered (eq CloseWake) (<[i:=q]> (c_pcs c))) ->
  inv init (set_pc c i q).
Proof. intros Hi [] Hp Hc. by split. Qed.

Lemma try_wait_step_inv init c i p b :
  c_pcs c !! i = Some p -> p = Idle \/ p = WaitTry -> inv init c ->
  inv init (try_wait_step c i b).
Proof.
  intros Hi Hp [Hwf Hpo Hcl Hle Heq]. unfold try_wait_step.
  destruct c as [[v priv] pcs posts takes]; simpl in *. unfold token in *.
  destruct Hwf as [Hv|[Hv|Hv]]; simpl in Hv; subst v; simpl in *;
    split; simpl; try done; try (by cbv; auto); try lia.
  - unfold token. simpl. lia.
  - intros _. specialize (Heq ltac:(done)). unfold token. simpl. lia.
  - intros _. destruct Hp; subst; dead.
Qed.

Lemma post_step_inv init c i :
  c_pcs c !! i = Some Idle -> inv init c -> inv init (post_step c i).
Proof.
  intros Hi [Hwf Hpo Hcl Hle Heq]. unfold post_step.
  destruct c as [[v priv] pcs posts takes]; simpl in *. unfold token in *.
  destruct Hwf as [Hv|[Hv|Hv]]; simpl in Hv; subst v; simpl in *;
    split; simpl; try done; try (by cbv; auto); unfold token; simpl; try lia.
  - live.
  - intros _. specialize (Heq ltac:(done)). lia.
  - dead.
  - dead.
Qed.

Lemma close_step_inv init c i :
  c_pcs c !! i = Some Idle -> inv init c -> inv init (close_step c i).
Proof.
  intros Hi [Hwf Hpo Hcl Hle Heq]. unfold close_step.
  destruct c as [[v priv] pcs posts takes]; simpl in *. unfold token in *.
  destruct Hwf as [Hv|[Hv|Hv]]; simpl in Hv; subst v; simpl in *;
    split; simpl; try done; try (by cbv; auto); unfold token; simpl; try lia.
  - live.
  - live.
  - dead.
Qed.

Lemma wake_step_inv init c i p n W :
  c_pcs c !! i = Some p -> p = PostWake /\ n = 1 \/ p = CloseWake /\ n = int_max ->
  Z.of_nat (length (c_pcs c)) <= int_max ->
  wakes n (asleep (c_pcs c)) W -> inv init c -> inv init (wake_step c i W).
Proof.
  intros Hi Hp Hlen HW [Hwf Hpo Hcl Hle Heq]. pose proof (size_asleep (c_pcs c)) as Hsz.
  assert (p <> Asleep) as Hne by (destruct Hp as [[-> _]|[-> _]]; done).
  rewrite <-(asleep_insert _ _ _ Hi Hne) in HW, Hsz.
  split; simpl; auto; intros Hv.
  - apply covered_wake_some; [by eapply wakes_waiting| |by left].
    intros Hsome. eapply wakes_some; [done| |done].
    destruct Hp as [[_ ->]|[_ ->]]; unfold int_max; lia.
  - destruct Hp as [[-> ->]|[-> ->]].
    + apply covered_wake_keep; [by eapply wakes_waiting|done|]. dead.
    + erewrite (wakes_all _ _ _ HW) by lia. apply covered_wake_all.
Qed.

Lemma step_length c c' : step c c' -> length (c_pcs c') = length (c_pcs c).
Proof.
  destruct 1; unfold set_pc, try_wait_step, post_step, close_step, wake_step, wake;
    repeat case_match; simpl; by rewrite ?length_imap, ?length_insert.
Qed.

Lemma step_inv init c c' :
  Z.of_nat (length (c_pcs c)) <= int_max -> inv init c -> step c c' -> inv init c'.
Proof.
  intros Hlen Hinv Hstep. pose proof Hinv as [Hwf Hpo Hcl _ _].
  destruct Hstep; eauto using try_wait_step_inv, post_step_inv, close_step_inv, wake_step_inv;
    eapply set_pc_inv; eauto; try (by dead); try (by live);
    unfold kReady, kPosted, kClosed in *; intros; congruence.
Qed.

Lemma reachable_inv posted priv n c :
  Z.of_nat n <= int_max -> rtc step (initial posted priv n) c ->
  inv (Nat.b2n posted) c /\ length (c_pcs c) = n.
Proof.
  intros Hn Hr.
  eapply (rtc_invariant step (fun c => inv _ c /\ length (c_pcs c) = n)); [| |exact Hr].
  - intros a b [Ha Hl] Hab. rewrite (step_length _ _ Hab). split; [|done].
    eapply step_inv; eauto. by rewrite Hl.
  - split; [apply initial_inv|apply length_replicate].
Qed.

(** C38: no wake-up is lost.  In every interleaving of [Wait], [TryWait], [Post] and
    [Close] by at most [INT_MAX] threads, with any kernel: while a token is posted
    and a thread sleeps in [Wait], some thread is about to re-examine the value or
    to wake a waiter; while the futex is closed and a thread sleeps, some thread
    is about to wake all waiters, and after that step none sleeps. *)
Theorem no_lost_wakeup (posted priv : bool) (n : nat) (c : config) (i : nat) :
  Z.of_nat n <= int_max ->
  rtc step (initial posted priv n) c ->
  c_pcs c !! i = Some Asleep ->
  (val_ (c_futex c) = kPosted -> exists j p, c_pcs c !! j = Some p /\ will_take p)
  /\ (val_ (c_futex c) = kClosed -> exists j, c_pcs c !! j = Some CloseWake
        /\ forall W, wakes int_max (asleep (c_pcs c)) W ->
             asleep (c_pcs (wake_step c j W)) = ∅).
Proof.
  intros Hn Hr Hi. destruct (reachable_inv _ _ _ _ Hn Hr) as [[_ Hpo Hcl _ _] Hlen].
  split; intros Hv; [by apply (Hpo Hv i)|].
  destruct (Hcl Hv i Hi) as (j & p & Hj & <-). exists j. split; [done|].
  intros W HW. rewrite (wakes_all _ _ _ HW).
  - simpl. rewrite <-(asleep_insert _ _ _ Hj) by done.
    apply set_eq. intros k. rewrite elem_of_asleep, lookup_wake. split; [|set_solver].
    intros (q & Hq & Hk). case_decide as Hin; [done|]. subst q. by rewrite elem_of_asleep in Hin.
  - pose proof (size_asleep (c_pcs c)). lia.
Qed.

(** tokens are conserved.  A successful [Post] deposits one token and each
    waiter that returns OK takes one: with [k] successful posts, at most
    [k] + (1 if constructed as posted) waits have succeeded, and as long as the
    futex is not closed exactly the token in [val_] is still to be taken. *)
Theorem tokens_conserved (posted priv : bool) (n : nat) (c : config) :
  Z.of_nat n <= int_max ->
  rtc step (initial posted priv n) c ->
  (c_takes c + token (c_futex c) <= c_posts c + Nat.b2n posted)%nat
  /\ (val_ (c_futex c) <> kClosed ->
       (c_takes c + token (c_futex c) = c_posts c + Nat.b2n posted)%nat).
Proof. intros Hn Hr. by destruct (reachable_inv _ _ _ _ Hn Hr) as [[] _]. Qed.

End Invariant.

(** A run of two threads: thread 0 goes to sleep in [Wait], thread 1 posts and is
    about to wake it. *)
Definition sleeper : config :=
  post_step (set_pc (try_wait_step (set_pc (initial false true 2) 0 WaitTry) 0 true)
    0 Asleep) 1.

Lemma sleeper_reachable : rtc step (initial false true 2) sleeper.
Proof.
  eapply rtc_l; [by apply (step_call_wait _ 0)|].
  eapply rtc_l; [by apply (step_wait_try _ 0)|].
  eapply rtc_l; [by apply (step_sleep _ 0)|].
  eapply rtc_l; [by apply (step_post _ 1)|]. apply rtc_refl.
Qed.

Lemma no_lost_wakeup_witness :
  c_pcs sleeper !! 0%nat = Some Asleep
  /\ exists j p, c_pcs sleeper !! j = Some p /\ will_take p.
Proof.
  split; [reflexivity|].
  apply (no_lost_wakeup false true 2 sleeper 0); [evaluate|apply sleeper_reachable|done|done].
Defined.

Lemma tokens_conserved_witness :
  (c_takes sleeper + token (c_futex sleeper) <= c_posts sleeper + 0)%nat.
Proof.
  apply (tokens_conserved false true 2 sleeper); [evaluate|apply sleeper_reachable].
Defined.
