(* ===== verification/LockableBinaryFutex.v ===== *)
(** * Mutex on a binary futex ([icon/interprocess/lockable_binary_futex.h])

    [LockableBinaryFutex] and its scoped lock [BinaryFutexLock], then any number
    of threads that lock, try to lock and unlock one mutex. *)
From S2P Require Import Prelude Status Time BinaryFutex.

Record LockableBinaryFutex := mkLockableBinaryFutex { futex_ : BinaryFutex }.

(** [LockableBinaryFutex::LockableBinaryFutex(bool private_futex)] *)
Definition new_LockableBinaryFutex (private_futex : bool) : LockableBinaryFutex :=
  mkLockableBinaryFutex (new_BinaryFutex true private_futex).

(** [LockableBinaryFutex::~LockableBinaryFutex()]; the member is destroyed, hence
    closed, after the check. *)
Definition destroy_LockableBinaryFutex (m : LockableBinaryFutex)
  : checked (BinaryFutex * list futex_call) :=
  let! _ := check (bool_decide (Value_ (futex_ m) = 1))
              "Futex was not unlocked before destruction" in
  Returns (Close (futex_ m)).

(** [LockableBinaryFutex::Lock()] *)
Definition Lock (StrError : Z -> string) (m : LockableBinaryFutex) (clock : wait_clock)
    (events : list futex_event)
  : option RealtimeStatus * LockableBinaryFutex * list futex_call :=
  let '(st, f, calls) := WaitUntil StrError (futex_ m) Time_max clock events in
  (st, mkLockableBinaryFutex f, calls).

(** [LockableBinaryFutex::IsHeld()] *)
Definition IsHeld (m : LockableBinaryFutex) : bool := bool_decide (Value_ (futex_ m) = 0).

(** [LockableBinaryFutex::Unlock()] *)
Definition Unlock (m : LockableBinaryFutex)
  : RealtimeStatus * LockableBinaryFutex * list futex_call :=
  if negb (IsHeld m) then
    (FormatRealtimeStatus kFailedPrecondition "Futex is not locked", m, [])
  else
    let '(st, f, calls) := Post (futex_ m) in (st, mkLockableBinaryFutex f, calls).

(** [LockableBinaryFutex::TryLock()] *)
Definition TryLock (m : LockableBinaryFutex) : bool * LockableBinaryFutex :=
  let '(r, f) := TryWait (futex_ m) in (default false r, mkLockableBinaryFutex f).

(** [LockableBinaryFutex::AssertHeld()] *)
Definition AssertHeld (m : LockableBinaryFutex) : checked unit :=
  check (IsHeld m) "LockableBinaryFutex is not held when it should be".

(** [BinaryFutexLock::BinaryFutexLock(mutex)]; [None] while blocked. *)
Definition new_BinaryFutexLock (StrError : Z -> string) (mutex : LockableBinaryFutex)
    (clock : wait_clock) (events : list futex_event)
  : option (checked LockableBinaryFutex) :=
  let '(st, m', _) := Lock StrError mutex clock events in
  match st with
  | None => None
  | Some st =>
      Some (let! _ := check (rt_ok st) "LockableBinaryFutexLock failed to lock futex" in
            Returns m')
  end.

(** [BinaryFutexLock::~BinaryFutexLock()] *)
Definition destroy_BinaryFutexLock (mutex : LockableBinaryFutex)
  : checked LockableBinaryFutex :=
  let '(st, m', _) := Unlock mutex in
  let! _ := check (rt_ok st) "LockableBinaryFutexLock failed to unlock futex" in
  Returns m'.

(** ** Scoped use *)

(** a scoped lock restores the mutex: on a free mutex the constructor of
    [BinaryFutexLock] returns without a system call, inside the scope the mutex is
    held (so [TryLock] fails, [AssertHeld] returns and the destructor of the mutex
    would abort), and the destructor of the lock makes the mutex free again. *)
Theorem scoped_lock (StrError : Z -> string) (private_futex : bool) (clock : wait_clock) :
  let m := new_LockableBinaryFutex private_futex in
  exists m', new_BinaryFutexLock StrError m clock [] = Some (Returns m')
    /\ IsHeld m' = true /\ AssertHeld m' = Returns tt /\ TryLock m' = (false, m')
    /\ destroy_LockableBinaryFutex m' = Aborts "Futex was not unlocked before destruction"
    /\ destroy_BinaryFutexLock m' = Returns m
    /\ has_returned (destroy_LockableBinaryFutex m) = true.
Proof. eexists. repeat split. Qed.

(** ** Mutual exclusion *)

(** Where a thread is with respect to one mutex. *)
Inductive lock_pc :=
| Outside     (** does not hold the mutex *)
| Acquiring   (** in [Lock], before the next [TryWait(val)] *)
| Critical    (** holds the mutex *)
| Releasing   (** in [Unlock], after the check [IsHeld()] *)
| Failed.     (** [Unlock] returned an error *)

Record lock_config := mkLockConfig {
  l_mutex : LockableBinaryFutex;
  l_pcs : list lock_pc }.

Definition lock_set (c : lock_config) (m : LockableBinaryFutex) (i : nat) (p : lock_pc) :=
  mkLockConfig m (<[i:=p]> (l_pcs c)).

(** The steps of a thread: [TryLock], one turn of the loop of [Lock], and the two
    halves of [Unlock]. *)
Definition try_lock_step (c : lock_config) (i : nat) : lock_config :=
  let '(r, m) := TryLock (l_mutex c) in
  lock_set c m i (if r : bool then Critical else Outside).

Definition lock_wait_step (c : lock_config) (i : nat) : lock_config :=
  let f := futex_ (l_mutex c) in
  let '(value, v) := TryWait_val (val_ f) in
  lock_set c (mkLockableBinaryFutex (mkBinaryFutex v (private_futex_ f))) i
    (if decide (value = kPosted) then Critical
     else if decide (value = kReady) then Acquiring else Outside).

Definition unlock_check_step (c : lock_config) (i : nat) : lock_config :=
  lock_set c (l_mutex c) i (if IsHeld (l_mutex c) then Releasing else Failed).

Definition unlock_post_step (c : lock_config) (i : nat) : lock_config :=
  let '(st, f, _) := Post (futex_ (l_mutex c)) in
  lock_set c (mkLockableBinaryFutex f) i (if rt_ok st then Outside else Failed).

(** A thread unlocks only what it locked (the class does not check this). *)
Inductive lock_step : lock_config -> lock_config -> Prop :=
| lock_call c i : l_pcs c !! i = Some Outside ->
    lock_step c (lock_set c (l_mutex c) i Acquiring)
| lock_try c i : l_pcs c !! i = Some Outside -> lock_step c (try_lock_step c i)
| lock_wait c i : l_pcs c !! i = Some Acquiring -> lock_step c (lock_wait_step c i)
| unlock_check c i : l_pcs c !! i = Some Critical -> lock_step c (unlock_check_step c i)
| unlock_post c i : l_pcs c !! i = Some Releasing -> lock_step c (unlock_post_step c i).

Definition lock_initial (private_futex : bool) (n : nat) : lock_config :=
  mkLockConfig (new_LockableBinaryFutex private_futex) (replicate n Outside).

(** Threads that hold the mutex. *)
Definition holds (p : lock_pc) : nat :=
  match p with Critical | Releasing => 1 | _ => 0 end.

Definition failed (p : lock_pc) : nat := match p with Failed => 1 | _ => 0 end.

(** The token that the next thread to lock takes. *)
Definition free (m : LockableBinaryFutex) : nat :=
  if decide (val_ (futex_ m) = kPosted) then 1 else 0.

Record lock_inv (c : lock_config) : Prop := mkLockInv {
  li_val : val_ (futex_ (l_mutex c)) = kReady \/ val_ (futex_ (l_mutex c)) = kPosted;
  li_one : (weight holds (l_pcs c) + free (l_mutex c) = 1)%nat;
  li_ok : weight failed (l_pcs c) = 0%nat }.

Lemma lock_set_inv c m i p q :
  l_pcs c !! i = Some p -> lock_inv c ->
  val_ (futex_ m) = kReady \/ val_ (futex_ m) = kPosted ->
  failed q = 0%nat ->
  (holds q + free m = holds p + free (l_mutex c))%nat ->
  lock_inv (lock_set c m i q).
Proof.
  intros Hi [Hv Hone Hf] Hm Hq Heq.
  pose proof (weight_insert holds _ _ _ q Hi).
  pose proof (weight_insert failed _ _ _ q Hi).
  split; simpl; [done|lia|lia].
Qed.

Lemma holder_locked c i p :
  lock_inv c -> l_pcs c !! i = Some p -> holds p = 1%nat -> val_ (futex_ (l_mutex c)) = kReady.
Proof.
  intros [[Hv|Hv] Hone _] Hi Hp; [done|]. exfalso.
  pose proof (weight_lookup_le holds _ _ _ Hi). unfold free in Hone.
  rewrite decide_True in Hone by done. lia.
Qed.

Lemma lock_step_inv c c' : lock_inv c -> lock_step c c' -> lock_inv c'.
Proof.
  intros Hinv Hs. pose proof Hinv as [Hv Hone Hf].
  destruct Hs as [c i Hi|c i Hi|c i Hi|c i Hi|c i Hi].
  - eapply lock_set_inv; eauto.
  - unfold try_lock_step, TryLock, TryWait. destruct c as [[[v priv]] pcs]; simpl in *.
    destruct Hv as [-> | ->]; simpl; eapply lock_set_inv; eauto.
  - unfold lock_wait_step. destruct c as [[[v priv]] pcs]; simpl in *.
    destruct Hv as [-> | ->]; simpl; eapply lock_set_inv; eauto.
  - pose proof (holder_locked _ _ _ Hinv Hi eq_refl) as Hr.
    unfold unlock_check_step, IsHeld, Value_. rewrite Hr. eapply lock_set_inv; eauto.
  - pose proof (holder_locked _ _ _ Hinv Hi eq_refl) as Hr.
    unfold unlock_post_step. destruct c as [[[v priv]] pcs]; simpl in *. subst v.
    simpl. eapply lock_set_inv; eauto.
Qed.

(** C39: mutual exclusion.  Whatever the interleaving of [Lock], [TryLock] and
    [Unlock] by threads that unlock only what they locked, at most one thread
    holds the mutex, a mutex that a thread holds is reported as held, and no
    [Unlock] fails. *)
Theorem mutual_exclusion (private_futex : bool) (n : nat) (c : lock_config) :
  rtc lock_step (lock_initial private_futex n) c ->
  (forall i j p q, l_pcs c !! i = Some p -> l_pcs c !! j = Some q ->
     holds p = 1%nat -> holds q = 1%nat -> i = j)
  /\ (forall i p, l_pcs c !! i = Some p -> holds p = 1%nat -> IsHeld (l_mutex c) = true)
  /\ (forall i, l_pcs c !! i <> Some Failed).
Proof.
  intros Hr.
  assert (lock_inv c) as Hinv.
  { eapply rtc_invariant; [apply lock_step_inv| |exact Hr].
    split; simpl; [by right| |]; by rewrite weight_replicate, Nat.mul_0_r. }
  pose proof Hinv as [_ Hone Hf]. split; [|split].
  - intros i j p q Hi Hj Hp Hq. destruct (decide (i = j)) as [|Hij]; [done|].
    pose proof (weight_two_le holds _ _ _ _ _ Hij Hi Hj). lia.
  - intros i p Hi Hp. unfold IsHeld, Value_. by rewrite (holder_locked _ _ _ Hinv Hi Hp).
  - intros i Hi. pose proof (weight_lookup_le failed _ _ _ Hi). simpl in *. lia.
Qed.

Lemma mutual_exclusion_witness :
  IsHeld (l_mutex (lock_wait_step (lock_set (lock_initial true 2)
                     (l_mutex (lock_initial true 2)) 0 Acquiring) 0)) = true.
Proof.
  eapply (mutual_exclusion true 2) with (i := 0%nat) (p := Critical); [|done|done].
  eapply rtc_l; [by apply (lock_call _ 0)|].
  eapply rtc_l; [by apply (lock_wait _ 0)|]. apply rtc_refl.
Defined.
