(* ===== verification/Signal.v ===== *)
(** * What the lockstep needs of a futex

    [Lockstep] uses its two futexes only through [Post] and [WaitUntil].  [Signal]
    states what these promise; [BinaryFutex] discharges it. *)
From S2P Require Import Prelude Status Time BinaryFutex.

Class Signal (F : Type) := {
  sig_new : bool -> F;
  sig_up : F -> bool;                              (** a token is deposited *)
  sig_open : F -> Prop;                            (** not closed *)
  sig_post : F -> RealtimeStatus * F;
  sig_take : F -> option RealtimeStatus * F;       (** one attempt to take the token *)
  sig_new_open b : sig_open (sig_new b);
  sig_new_up b : sig_up (sig_new b) = b;
  sig_post_open f : sig_open f ->
    (sig_post f).1 = RtOkStatus /\ sig_open (sig_post f).2 /\ sig_up (sig_post f).2 = true;
  sig_take_up f : sig_open f -> sig_up f = true ->
    (sig_take f).1 = Some RtOkStatus /\ sig_open (sig_take f).2
    /\ sig_up (sig_take f).2 = false;
  sig_take_down f : sig_open f -> sig_up f = false -> sig_take f = (None, f) }.

(** The result of one turn of the loop of [Wait]: [None] when the thread has to
    block. *)
Definition take_once (f : BinaryFutex) : option RealtimeStatus * BinaryFutex :=
  (WaitUntil (fun _ => ""%string) f Time_max (mkWaitClock 0 (inr 0) 0) []).1.

#[export] Program Instance BinaryFutex_Signal : Signal BinaryFutex := {|
  sig_new posted := new_BinaryFutex posted false;
  sig_up f := bool_decide (val_ f = kPosted);
  sig_open f := val_ f = kReady \/ val_ f = kPosted;
  sig_post f := (Post f).1;
  sig_take := take_once |}.
Next Obligation. intros []; simpl; auto. Qed.
Next Obligation. intros []; done. Qed.
Next Obligation. intros [v p] [Hv|Hv]; simpl in Hv; subst v; simpl; auto. Qed.
Next Obligation. intros [v p] [Hv|Hv]; simpl in Hv; subst v; simpl; intros; done || auto. Qed.
Next Obligation. intros [v p] [Hv|Hv]; simpl in Hv; subst v; simpl; intros; done || auto. Qed.
