(* ===== verification/Lockstep.v ===== *)
(** * Lockstep ([util/thread/lockstep.h], [util/thread/lockstep.cc])

    Two operations A and B that alternate.  Every function of the class is a
    sequence of atomic steps (one per access to [state_], one per [Post], one per
    attempt of [WaitUntil] to take the token); [thread_step] is the step of a
    thread at each program counter.  Any number of threads interleave the steps;
    a whole call that runs undisturbed is the iteration of the same steps. *)
From S2P Require Import Prelude Status Time BinaryFutex Signal.

(** [Lockstep::State] *)
Inductive State := kBFinished | kARunning | kAFinished | kBRunning | kCancelled.

#[export] Instance State_eq_dec : EqDecision State.
Proof. solve_decision. Defined.

Record Lockstep (F : Type) := mkLockstep {
  a_finished_ : F;
  b_finished_ : F;
  state_ : State }.
Arguments mkLockstep {F}.
Arguments a_finished_ {F}.
Arguments b_finished_ {F}.
Arguments state_ {F}.

(** Where a thread is inside the functions of the class. *)
Inductive lpc :=
| LIdle                              (** outside of the class *)
| SAWait | SACas | SAPost            (** [StartOperationAWithDeadline] *)
| InA                                (** inside Operation A *)
| EACheck | EAStore | EAPost         (** [EndOperationA] after its first load *)
| SBWait | SBCas | SBPost            (** [StartOperationBWithDeadline] *)
| InB                                (** inside Operation B *)
| EBPost                             (** [EndOperationB] after its exchange *)
| CPostA | CPostB                    (** [Cancel] after its store *)
| RWaitA | RWaitB | RStore | RPost.  (** [Reset] after its check *)

#[export] Instance lpc_eq_dec : EqDecision lpc.
Proof. solve_decision. Defined.

Section Steps.
Context {F : Type} `{Signal F}.

(** [Lockstep::Lockstep()] *)
Definition new_Lockstep : Lockstep F :=
  mkLockstep (sig_new false) (sig_new true) kBFinished.

Definition set_state (l : Lockstep F) (s : State) : Lockstep F :=
  mkLockstep (a_finished_ l) (b_finished_ l) s.
Definition set_a (l : Lockstep F) (f : F) : Lockstep F :=
  mkLockstep f (b_finished_ l) (state_ l).
Definition set_b (l : Lockstep F) (f : F) : Lockstep F :=
  mkLockstep (a_finished_ l) f (state_ l).

(** [Lockstep::Lockstep(Lockstep&& other)]: the new object, and [other], whose
    futexes are replaced by fresh ones. *)
Definition move_Lockstep (other : Lockstep F) : Lockstep F * Lockstep F :=
  (mkLockstep (a_finished_ other) (b_finished_ other) (state_ other),
   mkLockstep (sig_new false) (sig_new true) (state_ other)).

(** [Lockstep::operator=(Lockstep&& other)]; [same] is [this == &other]. *)
Definition assign_Lockstep (same : bool) (this other : Lockstep F)
  : Lockstep F * Lockstep F :=
  if negb same then move_Lockstep other else (this, other).

Definition A_cancelled : RealtimeStatus :=
  FormatRealtimeStatus kAborted "Not starting operation A: lockstep has been cancelled".
Definition A_unexpected : RealtimeStatus :=
  FormatRealtimeStatus kFailedPrecondition
    "Not starting operation A: expected State::kBFinished".
Definition A_not_started : RealtimeStatus :=
  FormatRealtimeStatus kFailedPrecondition
    "Not ending operation A: Did you call StartOperationA...?".
Definition B_cancelled : RealtimeStatus :=
  FormatRealtimeStatus kAborted "Not starting operation B: lockstep has been cancelled".
Definition B_unexpected : RealtimeStatus :=
  FormatRealtimeStatus kFailedPrecondition "Expected State::kAFinished".
Definition B_not_started : RealtimeStatus :=
  FormatRealtimeStatus kFailedPrecondition
    "Mismatched call to EndOperationB. Did you call StartOperationB...?".
Definition not_cancelled : RealtimeStatus :=
  FormatRealtimeStatus kFailedPrecondition "Reset expects a cancelled lockstep.".

(** The outcome of a step: the object, the next program counter, and the status
    when a call returns. *)
Definition outcome : Type := Lockstep F * lpc * option RealtimeStatus.

Definition goto (l : Lockstep F) (p : lpc) : outcome := (l, p, None).
Definition return_ (l : Lockstep F) (p : lpc) (st : RealtimeStatus) : outcome :=
  (l, p, Some st).

(** One attempt of [WaitUntil]: stay at [p] without a token, go on to [q] with
    one, return an error otherwise. *)
Definition wait_step (set : Lockstep F -> F -> Lockstep F) (l : Lockstep F) (f : F)
    (p q : lpc) : outcome :=
  match sig_take f with
  | (None, f') => goto (set l f') p
  | (Some st, f') => if rt_ok st then goto (set l f') q else return_ (set l f') LIdle st
  end.

(** A status other than OK is returned as it is. *)
Definition post_step (set : Lockstep F -> F -> Lockstep F) (l : Lockstep F) (f : F) : outcome :=
  let '(st, f') := sig_post f in return_ (set l f') LIdle st.

(** [StartOperationAWithDeadline] after [WaitUntil]: the exchange of [state_]. *)
Definition start_a_cas (l : Lockstep F) : outcome :=
  let '(ok, s, expected) := compare_exchange_strong (state_ l) kBFinished kARunning in
  let l' := set_state l s in
  if negb ok then
    if decide (expected = kCancelled) then goto l' SAPost
    else return_ l' LIdle A_unexpected
  else return_ l' InA RtOkStatus.

(** [StartOperationBWithDeadline] after [WaitUntil]. *)
Definition start_b_cas (l : Lockstep F) : outcome :=
  let '(ok, s, expected) := compare_exchange_strong (state_ l) kAFinished kBRunning in
  let l' := set_state l s in
  if negb ok then
    if decide (expected = kCancelled) then goto l' SBPost
    else return_ l' LIdle B_unexpected
  else return_ l' InB RtOkStatus.

(** [EndOperationB]: the exchange of [state_]. *)
Definition end_b_cas (l : Lockstep F) : outcome :=
  let '(ok, s, expected) := compare_exchange_strong (state_ l) kBRunning kBFinished in
  let l' := set_state l s in
  if negb ok then
    if decide (expected = kCancelled) then return_ l' LIdle RtOkStatus
    else return_ l' LIdle B_not_started
  else goto l' EBPost.

(** The step of a thread at a program counter inside of the class.  A thread in
    [InA] ([InB]) calls [EndOperationA] ([EndOperationB]). *)
Definition thread_step (l : Lockstep F) (p : lpc) : outcome :=
  match p with
  | LIdle => goto l LIdle
  | SAWait => wait_step set_b l (b_finished_ l) SAWait SACas
  | SACas => start_a_cas l
  | SAPost => return_ (set_b l (sig_post (b_finished_ l)).2) LIdle A_cancelled
  | InA => if decide (state_ l = kCancelled) then return_ l LIdle RtOkStatus
           else goto l EACheck
  | EACheck => if decide (state_ l <> kARunning) then return_ l LIdle A_not_started
               else goto l EAStore
  | EAStore => goto (set_state l kAFinished) EAPost
  | EAPost => post_step set_a l (a_finished_ l)
  | SBWait => wait_step set_a l (a_finished_ l) SBWait SBCas
  | SBCas => start_b_cas l
  | SBPost => return_ (set_a l (sig_post (a_finished_ l)).2) LIdle B_cancelled
  | InB => end_b_cas l
  | EBPost => post_step set_b l (b_finished_ l)
  | CPostA => goto (set_a l (sig_post (a_finished_ l)).2) CPostB
  | CPostB => goto (set_b l (sig_post (b_finished_ l)).2) LIdle
  | RWaitA => wait_step set_a l (a_finished_ l) RWaitA RWaitB
  | RWaitB => wait_step set_b l (b_finished_ l) RWaitB RStore
  | RStore => goto (set_state l kBFinished) RPost
  | RPost => post_step set_b l (b_finished_ l)
  end.

(** [Cancel]: the store to [state_]. *)
Definition cancel_store (l : Lockstep F) : outcome := goto (set_state l kCancelled) CPostA.

(** [Reset]: the check of [state_]. *)
Definition reset_check (l : Lockstep F) : outcome :=
  if decide (state_ l <> kCancelled) then return_ l LIdle not_cancelled
  else goto l RWaitA.

(** ** Whole calls, undisturbed *)

(** Run a thread until its call returns; [None] when it has to block.  A call
    takes at most [fuel] steps. *)
Fixpoint run (fuel : nat) (o : outcome) : option (RealtimeStatus * Lockstep F) :=
  let '(l, p, r) := o in
  match r, p with
  | Some st, _ => Some (st, l)
  | None, LIdle => Some (RtOkStatus, l)
  | None, _ =>
      match fuel with
      | O => None
      | S fuel => run fuel (thread_step l p)
      end
  end.

(** The longest call ([Reset]) takes four steps after its check. *)
Definition call_fuel : nat := 4.

Definition StartOperationA (l : Lockstep F) := run call_fuel (goto l SAWait).
Definition EndOperationA (l : Lockstep F) := run call_fuel (thread_step l InA).
Definition StartOperationB (l : Lockstep F) := run call_fuel (goto l SBWait).
Definition EndOperationB (l : Lockstep F) := run call_fuel (thread_step l InB).
Definition Cancel (l : Lockstep F) := run call_fuel (cancel_store l).
Definition Reset (l : Lockstep F) := run call_fuel (reset_check l).

(** The same calls up to their deadline: a call that still waits then returns what its
    [WaitUntil] returns, [timeout], and leaves the object as it is. *)
Fixpoint run_until (timeout : RealtimeStatus) (fuel : nat) (o : outcome)
  : RealtimeStatus * Lockstep F :=
  let '(l, p, r) := o in
  match r, p with
  | Some st, _ => (st, l)
  | None, LIdle => (RtOkStatus, l)
  | None, _ =>
      match fuel with
      | O => (timeout, l)
      | S fuel => run_until timeout fuel (thread_step l p)
      end
  end.

Definition StartOperationAWithDeadline (timeout : RealtimeStatus) (l : Lockstep F) :=
  run_until timeout call_fuel (goto l SAWait).
Definition StartOperationBWithDeadline (timeout : RealtimeStatus) (l : Lockstep F) :=
  run_until timeout call_fuel (goto l SBWait).
Definition ResetWithTimeout (timeout : RealtimeStatus) (l : Lockstep F) :=
  run_until timeout call_fuel (reset_check l).

(** A call that does not have to wait returns before its deadline. *)
Lemma run_until_run timeout fuel o r : run fuel o = Some r -> run_until timeout fuel o = r.
Proof.
  revert o. induction fuel as [|fuel IH]; intros [[l p] [st|]] Hr.
  all: destruct p; simpl in *; try (by simplify_eq); by apply IH.
Qed.

(** ** Interleavings *)

Inductive call := CStartA | CEndA | CStartB | CEndB | CReset.

(** The function to which a program counter belongs. *)
Definition call_of (p : lpc) : call :=
  match p with
  | SAWait | SACas | SAPost => CStartA
  | InA | EACheck | EAStore | EAPost => CEndA
  | SBWait | SBCas | SBPost => CStartB
  | InB | EBPost => CEndB
  | _ => CReset
  end.

(** The object, the threads, and the history of the calls that returned. *)
Record lconfig := mkLConfig {
  lc_obj : Lockstep F;
  lc_pcs : list lpc;
  lc_log : list (call * RealtimeStatus) }.

Definition apply_outcome (c : lconfig) (i : nat) (k : call) (o : outcome) : lconfig :=
  let '(l, p, r) := o in
  mkLConfig l (<[i:=p]> (lc_pcs c))
    (lc_log c ++ match r with Some st => [(k, st)] | None => [] end).

Definition is_wait (p : lpc) : Prop := p = SAWait \/ p = SBWait \/ p = RWaitA \/ p = RWaitB.

(** Inside an operation, up to the store of [state_] in its [End...]. *)
Definition in_a (p : lpc) : nat := match p with InA | EACheck | EAStore => 1 | _ => 0 end.
Definition in_b (p : lpc) : nat := match p with InB => 1 | _ => 0 end.
Definition in_op (p : lpc) : nat := in_a p + in_b p.
(** [Reset] between its check and its store. *)
Definition in_reset (p : lpc) : nat :=
  match p with RWaitA | RWaitB | RStore => 1 | _ => 0 end.

(** One step.  [cancels]: whether [Cancel] is ever called.  The rules for the clients:
    a thread ends only an operation that it started and, on a cancelled lockstep,
    [Reset] is called neither inside an operation of any thread (lockstep.h, the
    comment of [Reset]) nor while another [Reset] is under way.  The second half is
    not in the comment; [LockstepRuns] shows what happens without either half. *)
Inductive lstep (cancels : bool) : lconfig -> lconfig -> Prop :=
| ls_start_a c i : lc_pcs c !! i = Some LIdle ->
    lstep cancels c (apply_outcome c i CStartA (goto (lc_obj c) SAWait))
| ls_start_b c i : lc_pcs c !! i = Some LIdle ->
    lstep cancels c (apply_outcome c i CStartB (goto (lc_obj c) SBWait))
| ls_step c i p : lc_pcs c !! i = Some p -> p <> LIdle ->
    lstep cancels c (apply_outcome c i (call_of p) (thread_step (lc_obj c) p))
| ls_timeout c i p st : lc_pcs c !! i = Some p -> is_wait p ->
    rt_code st = kDeadlineExceeded ->
    lstep cancels c (apply_outcome c i (call_of p) (return_ (lc_obj c) LIdle st))
| ls_cancel c i : cancels = true -> lc_pcs c !! i = Some LIdle ->
    lstep cancels c (apply_outcome c i CReset (cancel_store (lc_obj c)))
| ls_reset c i : lc_pcs c !! i = Some LIdle ->
    (state_ (lc_obj c) = kCancelled ->
       weight in_op (lc_pcs c) = 0%nat /\ weight in_reset (lc_pcs c) = 0%nat) ->
    lstep cancels c (apply_outcome c i CReset (reset_check (lc_obj c))).

Definition linitial (n : nat) : lconfig := mkLConfig new_Lockstep (replicate n LIdle) [].

End Steps.
