(* ===== verification/LockstepProofs.v ===== *)
(** * Correctness of the lockstep

    Invariants of the interleavings of [Lockstep.v]: without [Cancel], a single
    token circulates through the futexes and the threads; with [Cancel] and
    [Reset], mutual exclusion, and what cancellation guarantees. *)
From S2P Require Import Prelude Status Time BinaryFutex Signal Lockstep.

(** ** Without [Cancel]: one token *)

(** The state in which a thread at this program counter holds the token. *)
Definition home (p : lpc) : option State :=
  match p with
  | LIdle | SAWait | SBWait => None
  | SACas | EBPost => Some kBFinished
  | InA | EACheck | EAStore => Some kARunning
  | EAPost | SBCas => Some kAFinished
  | InB => Some kBRunning
  | _ => Some kCancelled
  end.

Definition pos (s : State) (p : lpc) : nat := if decide (home p = Some s) then 1 else 0.

Definition here (s t : State) : nat := if decide (s = t) then 1 else 0.

(** The operations that were started, in order. *)
Definition started (log : list (call * RealtimeStatus)) : list call :=
  omap (fun e => match e.1 with
                 | CStartA | CStartB => if rt_ok e.2 then Some e.1 else None
                 | _ => None
                 end) log.

(** A, B, A, B, ... *)
Definition alternates (ops : list call) : Prop :=
  forall i k, ops !! i = Some k -> k = if Nat.even i then CStartA else CStartB.

(** Whether the next operation is A. *)
Definition a_is_next (s : State) : bool :=
  match s with kBFinished | kBRunning => true | _ => false end.

(** What a call may return on a lockstep that is never cancelled: a [Start...]
    returns OK or DeadlineExceeded, an [End...] of an operation that was started
    returns OK, and [Reset] is refused. *)
Definition expected_result (e : call * RealtimeStatus) : Prop :=
  match e.1 with
  | CStartA | CStartB => rt_ok e.2 = true \/ rt_code e.2 = kDeadlineExceeded
  | CEndA | CEndB => rt_ok e.2 = true
  | CReset => e.2 = not_cancelled
  end.

Lemma alternates_app ops k :
  alternates ops -> k = (if Nat.even (length ops) then CStartA else CStartB) ->
  alternates (ops ++ [k]).
Proof.
  intros Ha Hk i x Hx. apply lookup_app_Some in Hx as [Hx|[Hlen Hx]]; [by apply Ha|].
  apply list_lookup_singleton_Some in Hx as [Hi ->].
  by replace i with (length ops) by lia.
Qed.

Lemma weight_in_op pcs : (weight in_op pcs = weight in_a pcs + weight in_b pcs)%nat.
Proof. induction pcs; simpl; unfold in_op in *; lia. Qed.

Section Proofs.
Context {F : Type} `{Signal F}.
Implicit Types (l : Lockstep F) (c : lconfig (F := F)).

(** The token when it lies in a futex. *)
Definition deposited l (s : State) : nat :=
  match s with
  | kBFinished => Nat.b2n (sig_up (b_finished_ l))
  | kAFinished => Nat.b2n (sig_up (a_finished_ l))
  | _ => 0
  end.

Definition opened l : Prop := sig_open (a_finished_ l) /\ sig_open (b_finished_ l).

Record ring c : Prop := mkRing {
  r_open : opened (lc_obj c);
  r_live : state_ (lc_obj c) <> kCancelled;
  r_token s : (weight (pos s) (lc_pcs c) + deposited (lc_obj c) s
                 = here s (state_ (lc_obj c)))%nat;
  r_alternates : alternates (started (lc_log c));
  r_next : Nat.even (length (started (lc_log c))) = a_is_next (state_ (lc_obj c));
  r_results : Forall expected_result (lc_log c) }.

Lemma ring_holder c i p s :
  ring c -> lc_pcs c !! i = Some p -> home p = Some s ->
  state_ (lc_obj c) = s /\ deposited (lc_obj c) s = 0%nat.
Proof.
  intros Hr Hi Hp. pose proof (r_token c Hr s) as Ht.
  pose proof (weight_lookup_le (pos s) _ _ _ Hi) as Hle. unfold pos at 1 in Hle.
  rewrite decide_True in Hle by done. unfold here in Ht.
  case_decide; [|lia]. split; [done|lia].
Qed.

Lemma ring_deposited c s :
  ring c -> deposited (lc_obj c) s = 1%nat -> state_ (lc_obj c) = s.
Proof.
  intros Hr Hs. pose proof (r_token c Hr s) as Ht. unfold here in Ht.
  case_decide; [done|lia].
Qed.

(** A step of thread [i] from [p] to [q] that keeps the number of operations. *)
Lemma ring_move c i p k l q r :
  ring c -> lc_pcs c !! i = Some p ->
  opened l -> state_ l <> kCancelled ->
  (forall s, pos s q + deposited l s + here s (state_ (lc_obj c))
             = pos s p + deposited (lc_obj c) s + here s (state_ l))%nat ->
  (forall st, r = Some st -> expected_result (k, st)) ->
  (let new := started (match r with Some st => [(k, st)] | None => [] end) in
   new = [] /\ a_is_next (state_ l) = a_is_next (state_ (lc_obj c))
   \/ new = [if a_is_next (state_ (lc_obj c)) then CStartA else CStartB]
      /\ a_is_next (state_ l) = negb (a_is_next (state_ (lc_obj c)))) ->
  ring (apply_outcome c i k (l, q, r)).
Proof.
  intros [Ho Hl Ht Ha Hn Hres] Hi Hopen Hlive Htok Hexp Hnew. split; simpl; try done.
  - intros s. pose proof (weight_insert (pos s) _ _ _ q Hi).
    specialize (Ht s). specialize (Htok s). lia.
  - unfold started in *. rewrite omap_app. destruct Hnew as [[-> _]|[-> _]].
    + by rewrite app_nil_r.
    + apply alternates_app; [done|]. by rewrite Hn.
  - unfold started in *. rewrite omap_app, length_app.
    destruct Hnew as [[-> ->]|[-> ->]]; simpl; rewrite ?Nat.add_0_r; [done|].
    by rewrite Nat.add_1_r, Nat.even_succ, <-Nat.negb_even, Hn.
  - apply Forall_app. split; [done|]. destruct r; constructor; auto.
Qed.

#[local] Arguments apply_outcome : simpl never.

(** Waiting and posting on an open futex. *)
Lemma wait_step_up set l f p q :
  sig_open f -> sig_up f = true ->
  exists f', wait_step set l f p q = goto (set l f') q /\ sig_open f' /\ sig_up f' = false.
Proof.
  intros Ho Hu. destruct (sig_take_up f Ho Hu) as (Ht & ? & ?). unfold wait_step.
  destruct (sig_take f) as [st f'] eqn:E. simpl in *. subst st. simpl. eauto.
Qed.

Lemma wait_step_down set l f p q :
  sig_open f -> sig_up f = false -> wait_step set l f p q = goto (set l f) p.
Proof. intros Ho Hu. unfold wait_step. by rewrite sig_take_down. Qed.

Lemma post_step_open set l f :
  sig_open f ->
  exists f', post_step set l f = return_ (set l f') LIdle RtOkStatus
    /\ sig_open f' /\ sig_up f' = true.
Proof.
  intros Ho. destruct (sig_post_open f Ho) as (Hst & ? & ?). unfold post_step.
  destruct (sig_post f) as [st f']. simpl in *. subst st. eauto.
Qed.

Ltac ring_step :=
  eapply ring_move;
  [ eassumption | eassumption
  | split; simpl; auto
  | simpl; congruence
  | intros []; unfold here; cbn; repeat match goal with
      | H : sig_up _ = _ |- _ => rewrite H
      | H : state_ _ = _ |- _ => rewrite H
      end; unfold pos; repeat case_decide; simplify_eq/=; lia
  | intros ? [= <-]; first [reflexivity|left; reflexivity]
  | cbn; repeat match goal with H : state_ _ = _ |- _ => rewrite H end; cbn; auto ].

Lemma ring_thread_step c i p :
  ring c -> lc_pcs c !! i = Some p -> p <> LIdle ->
  ring (apply_outcome c i (call_of p) (thread_step (lc_obj c) p)).
Proof.
  intros Hr Hi Hp. pose proof (r_open c Hr) as [Hoa Hob]. pose proof (r_live c Hr) as Hlive.
  destruct (home p) as [s|] eqn:Hh.
  - destruct (ring_holder c i p s Hr Hi Hh) as [Hs Hd].
    destruct p; try discriminate Hh; injection Hh as <-; simpl in *; try congruence;
      unfold start_a_cas, start_b_cas, end_b_cas, compare_exchange_strong;
      rewrite ?Hs; simpl; try (by ring_step).
    + destruct (post_step_open set_a (lc_obj c) _ Hoa) as (f & -> & ? & ?).
      destruct (sig_up (a_finished_ (lc_obj c))) eqn:?; [done|]. by ring_step.
    + destruct (post_step_open set_b (lc_obj c) _ Hob) as (f & -> & ? & ?).
      destruct (sig_up (b_finished_ (lc_obj c))) eqn:?; [done|]. by ring_step.
  - destruct p; simplify_eq/=.
    + destruct (sig_up (b_finished_ (lc_obj c))) eqn:Hu.
      * destruct (wait_step_up set_b (lc_obj c) _ SAWait SACas Hob Hu) as (f & -> & ? & ?).
        assert (state_ (lc_obj c) = kBFinished) by (apply ring_deposited; simpl; by rewrite ?Hu).
        by ring_step.
      * rewrite wait_step_down by done. by ring_step.
    + destruct (sig_up (a_finished_ (lc_obj c))) eqn:Hu.
      * destruct (wait_step_up set_a (lc_obj c) _ SBWait SBCas Hoa Hu) as (f & -> & ? & ?).
        assert (state_ (lc_obj c) = kAFinished) by (apply ring_deposited; simpl; by rewrite ?Hu).
        by ring_step.
      * rewrite wait_step_down by done. by ring_step.
Qed.

Lemma ring_lstep c c' : ring c -> lstep false c c' -> ring c'.
Proof.
  intros Hr Hs. pose proof (r_open c Hr) as [Hoa Hob]. pose proof (r_live c Hr) as Hlive.
  destruct Hs as [c i Hi|c i Hi|c i p Hi Hp|c i p st Hi Hw Hst|c i Hc Hi|c i Hi Hd];
    [by ring_step|by ring_step|by apply ring_thread_step| |done|].
  - destruct Hw as [->|[->|[->| ->]]];
      try (destruct (ring_holder c i _ _ Hr Hi eq_refl); congruence);
      eapply ring_move; eauto; try done;
      try (intros ? [= <-]; by right);
      left; simpl; unfold rt_ok; by rewrite Hst.
  - unfold reset_check. rewrite decide_True by done.
    eapply ring_move; eauto; try (intros ? [= <-]); try done; by left.
Qed.

Lemma ring_initial n : ring (linitial n).
Proof.
  split; simpl; try done.
  - split; apply sig_new_open.
  - intros s. rewrite weight_replicate, Nat.mul_comm. unfold deposited, here. simpl.
    rewrite !sig_new_up. by destruct s.
Qed.

Lemma reachable_ring n c : rtc (lstep false) (linitial n) c -> ring c.
Proof. intros Hr. eapply rtc_invariant; [apply ring_lstep|apply ring_initial|done]. Qed.

(** C1: without [Cancel] the operations are performed in the order A, B, A, B, ...
    whatever the number of threads and the interleaving.  In every such run each
    [StartOperationA] and [StartOperationB] that returns has returned OK or
    DeadlineExceeded, each [EndOperationA] and [EndOperationB] (called, as
    documented, for an operation that the thread has started) OK, and each [Reset]
    the FailedPrecondition of a lockstep that is not cancelled. *)
Theorem lockstep_alternates (n : nat) c :
  rtc (lstep false) (linitial n) c ->
  alternates (started (lc_log c)) /\ Forall expected_result (lc_log c).
Proof. intros Hr. by destruct (reachable_ring n c Hr). Qed.

(** the lockstep never gets stuck.  Without [Cancel], at every moment exactly
    one token exists: it lies in the futex on which the next operation waits, or a
    thread that is not waiting holds it and owns the current state. *)
Theorem lockstep_one_token (n : nat) c :
  rtc (lstep false) (linitial n) c ->
  let s := state_ (lc_obj c) in
  (weight (pos s) (lc_pcs c) + deposited (lc_obj c) s = 1)%nat
  /\ (deposited (lc_obj c) s = 0%nat ->
        exists i p, lc_pcs c !! i = Some p /\ home p = Some s)
  /\ (forall i p t, lc_pcs c !! i = Some p -> home p = Some t -> t = s).
Proof.
  intros Hr s. pose proof (reachable_ring n c Hr) as Hring.
  pose proof (r_token c Hring s) as Ht. unfold here in Ht. rewrite decide_True in Ht by done.
  split; [done|]. split.
  - intros Hd. destruct (weight_pos_lookup (pos s) (lc_pcs c)) as (i & p & Hi & Hp); [lia|].
    exists i, p. split; [done|]. unfold pos in Hp. case_decide; [done|lia].
  - intros i p t Hi Ht'. symmetry. by eapply ring_holder.
Qed.

(** ** With [Cancel] and [Reset]: mutual exclusion *)

(** Threads inside A, inside B and inside [Reset] that a state allows. *)
Definition allowed (s : State) (a b r : nat) : Prop :=
  match s with
  | kARunning => a = 1 /\ b = 0 /\ r = 0
  | kBRunning => a = 0 /\ b = 1 /\ r = 0
  | kAFinished | kBFinished => a = 0 /\ b = 0 /\ r = 0
  | kCancelled => a + b <= 1 /\ r <= 1 /\ (r = 1 -> a + b = 0)
  end%nat.

Record safe c : Prop := mkSafe {
  s_open : opened (lc_obj c);
  s_allowed : allowed (state_ (lc_obj c)) (weight in_a (lc_pcs c))
    (weight in_b (lc_pcs c)) (weight in_reset (lc_pcs c)) }.

Lemma safe_move c i p k l q r :
  safe c -> lc_pcs c !! i = Some p -> opened l ->
  (forall A B R, A + in_a p = weight in_a (lc_pcs c) ->
     B + in_b p = weight in_b (lc_pcs c) -> R + in_reset p = weight in_reset (lc_pcs c) ->
     allowed (state_ (lc_obj c)) (A + in_a p) (B + in_b p) (R + in_reset p) ->
     allowed (state_ l) (A + in_a q) (B + in_b q) (R + in_reset q))%nat ->
  safe (apply_outcome c i k (l, q, r)).
Proof.
  intros [Ho Ha] Hi Hl Hstep. split; [done|]. cbn [apply_outcome lc_obj lc_pcs].
  rewrite !(weight_insert_eq _ _ _ _ q Hi).
  pose proof (weight_lookup_le in_a _ _ _ Hi).
  pose proof (weight_lookup_le in_b _ _ _ Hi).
  pose proof (weight_lookup_le in_reset _ _ _ Hi).
  apply Hstep; try lia. by rewrite !Nat.sub_add.
Qed.

(** Split on the state and decide the counts. *)
Ltac safe_step :=
  eapply safe_move; [eassumption|eassumption|split; simpl; auto|];
  simpl; intros ? ? ? _ _ _; try (destruct (state_ _)); simpl; try done; lia.

Lemma opened_post_a l : opened l -> opened (set_a l (sig_post (a_finished_ l)).2).
Proof. intros [Ha Hb]. split; simpl; [by apply sig_post_open|done]. Qed.
Lemma opened_post_b l : opened l -> opened (set_b l (sig_post (b_finished_ l)).2).
Proof. intros [Ha Hb]. split; simpl; [done|by apply sig_post_open]. Qed.

(** The outcomes of [thread_step] on open futexes, one goal per branch. *)
Ltac step_cases c p :=
  match goal with Ha : sig_open (a_finished_ (lc_obj c)), Hb : sig_open (b_finished_ (lc_obj c))
    |- _ =>
  destruct p; try done; simpl;
  try (destruct (post_step_open set_a (lc_obj c) _ Ha) as (? & -> & ? & ?));
  try (destruct (post_step_open set_b (lc_obj c) _ Hb) as (? & -> & ? & ?));
  try (destruct (sig_up (b_finished_ (lc_obj c))) eqn:?;
    [edestruct (wait_step_up set_b (lc_obj c)) as (? & -> & ? & ?); [done|done|]
    |rewrite (wait_step_down set_b) by done]);
  try (destruct (sig_up (a_finished_ (lc_obj c))) eqn:?;
    [edestruct (wait_step_up set_a (lc_obj c)) as (? & -> & ? & ?); [done|done|]
    |rewrite (wait_step_down set_a) by done])
  end;
  unfold start_a_cas, start_b_cas, end_b_cas, compare_exchange_strong;
  repeat case_decide; simpl; repeat case_decide; try done.

Lemma safe_thread_step c i p :
  safe c -> lc_pcs c !! i = Some p -> p <> LIdle ->
  safe (apply_outcome c i (call_of p) (thread_step (lc_obj c) p)).
Proof.
  intros Hs Hi Hp. pose proof (s_open c Hs) as Ho. pose proof Ho as [Hoa Hob].
  pose proof (opened_post_a _ Ho) as [? ?]. pose proof (opened_post_b _ Ho) as [? ?].
  step_cases c p; safe_step.
Qed.

Lemma safe_lstep b c c' : safe c -> lstep b c c' -> safe c'.
Proof.
  intros Hs Hst. pose proof (s_open c Hs) as [Hoa Hob].
  destruct Hst as [c i Hi|c i Hi|c i p Hi Hp|c i p st Hi Hw Hst|c i Hc Hi|c i Hi Hd].
  - safe_step.
  - safe_step.
  - by apply safe_thread_step.
  - destruct Hw as [->|[->|[->| ->]]]; safe_step.
  - safe_step.
  - unfold reset_check. case_decide as Hcan; [safe_step|].
    destruct (decide (state_ (lc_obj c) = kCancelled)) as [Hk|]; [|done].
    destruct (Hd Hk) as [Hop Hre].
    rewrite weight_in_op in Hop.
    eapply safe_move; [eassumption|eassumption|by split|].
    simpl. intros A B R. rewrite Hk. simpl. lia.
Qed.

Lemma reachable_safe b n c : rtc (lstep b) (linitial n) c -> safe c.
Proof.
  intros Hr. eapply rtc_invariant; [apply safe_lstep| |exact Hr].
  split; [split; apply sig_new_open|]. simpl. by rewrite !weight_replicate, !Nat.mul_0_r.
Qed.

(** C2: mutual exclusion, for clients that follow the rules of [lstep].  [Cancel] is
    called at any time by any thread; a [Reset] of a cancelled lockstep is called only
    while no thread is inside an operation (documented) and no other [Reset] is under
    way (not documented, but needed).  Then no two threads are inside the operations
    A and B at the same time, and while [Reset] runs no thread is inside one.  That
    both rules are needed is shown by [concurrent_resets_overlap] and
    [reset_inside_operation_overlaps]. *)
Theorem lockstep_mutual_exclusion (n : nat) c (i j : nat) (p q : lpc) :
  rtc (lstep true) (linitial n) c ->
  lc_pcs c !! i = Some p -> lc_pcs c !! j = Some q -> in_op p = 1%nat ->
  (in_op q = 1%nat -> i = j) /\ in_reset q = 0%nat.
Proof.
  intros Hr Hi Hj Hp. destruct (reachable_safe _ _ _ Hr) as [_ Ha].
  pose proof (weight_in_op (lc_pcs c)) as Hsum.
  pose proof (weight_lookup_le in_op _ _ _ Hi) as Hle.
  pose proof (weight_lookup_le in_reset _ _ _ Hj) as Hler.
  split.
  - intros Hq. destruct (decide (i = j)) as [|Hij]; [done|].
    pose proof (weight_two_le in_op _ _ _ _ _ Hij Hi Hj).
    destruct (state_ _); simpl in Ha; lia.
  - destruct (state_ _); simpl in Ha; lia.
Qed.

(** ** Cancellation *)

(** A thread in [EndOperationA] that has passed its checks. *)
Definition stale_store (p : lpc) : nat := match p with EAStore => 1 | _ => 0 end.

(** [Reset] about to store. *)
Definition reset_store (p : lpc) : nat := match p with RStore => 1 | _ => 0 end.

Lemma wait_step_state (set : Lockstep F -> F -> Lockstep F) l f p q :
  (forall f, state_ (set l f) = state_ l) ->
  state_ (wait_step set l f p q).1.1 = state_ l
  /\ ((wait_step set l f p q).1.2 = p \/ (wait_step set l f p q).1.2 = q
      \/ (wait_step set l f p q).1.2 = LIdle).
Proof. intros Hset. unfold wait_step. repeat case_match; simpl; rewrite Hset; auto. Qed.

Lemma thread_step_cancelled l p :
  state_ l = kCancelled -> stale_store p = 0%nat -> reset_store p = 0%nat ->
  state_ (thread_step l p).1.1 = kCancelled /\ stale_store (thread_step l p).1.2 = 0%nat.
Proof.
  intros Hs Hp Hr. destruct p; try done; simpl;
    unfold start_a_cas, start_b_cas, end_b_cas, compare_exchange_strong, post_step;
    rewrite ?Hs; try done; try (by destruct (sig_post _)).
  all: match goal with |- context [wait_step ?set _ ?f ?p ?q] =>
    destruct (wait_step_state set l f p q ltac:(done)) as [-> Hn] end;
    split; [done|]; by destruct Hn as [->|[->| ->]].
Qed.

Lemma start_a_cas_cancelled l : state_ l = kCancelled -> start_a_cas l = goto l SAPost.
Proof. destruct l as [a b s]. simpl. by intros ->. Qed.

Lemma start_b_cas_cancelled l : state_ l = kCancelled -> start_b_cas l = goto l SBPost.
Proof. destruct l as [a b s]. simpl. by intros ->. Qed.

(** a cancelled lockstep stays cancelled.  As long as no thread is between the
    checks and the store of [EndOperationA] and no [Reset] reaches its store, every
    step of every thread leaves the state [kCancelled], and no such
    [EndOperationA] can appear; in that state the exchange of [StartOperationA]
    and [StartOperationB] leads to the result Aborted. *)
Theorem cancelled_is_sticky c c' :
  state_ (lc_obj c) = kCancelled ->
  weight stale_store (lc_pcs c) = 0%nat -> weight reset_store (lc_pcs c) = 0%nat ->
  lstep true c c' ->
  state_ (lc_obj c') = kCancelled /\ weight stale_store (lc_pcs c') = 0%nat
  /\ start_a_cas (lc_obj c') = goto (lc_obj c') SAPost
  /\ start_b_cas (lc_obj c') = goto (lc_obj c') SBPost.
Proof.
  intros Hs Hw Hr Hst.
  enough (state_ (lc_obj c') = kCancelled /\ weight stale_store (lc_pcs c') = 0%nat)
    as [Hs' Hw'].
  { auto using start_a_cas_cancelled, start_b_cas_cancelled. }
  destruct Hst as [c i Hi|c i Hi|c i p Hi Hp|c i p st Hi Hp Hst|c i Hc Hi|c i Hi Hd];
    simpl; pose proof (weight_lookup_le stale_store _ _ _ Hi) as Hle.
  - split; [done|]. erewrite weight_insert_eq by done. simpl. lia.
  - split; [done|]. erewrite weight_insert_eq by done. simpl. lia.
  - pose proof (weight_lookup_le reset_store _ _ _ Hi).
    destruct (thread_step_cancelled (lc_obj c) p) as [? Hn]; [done|lia|lia|].
    unfold apply_outcome. destruct (thread_step (lc_obj c) p) as [[l q] r]. simpl in *.
    split; [done|]. erewrite weight_insert_eq by done. lia.
  - split; [done|]. erewrite weight_insert_eq by done. simpl. lia.
  - split; [done|]. erewrite weight_insert_eq by done. simpl. lia.
  - unfold reset_check. rewrite decide_False by tauto. simpl.
    split; [done|]. erewrite weight_insert_eq by done. simpl. lia.
Qed.

(** A thread that will post [b_finished_], or has taken it on behalf of [Reset]. *)
Definition covers_b (p : lpc) : nat :=
  match p with SACas | SAPost | CPostA | CPostB | RStore => 1 | _ => 0 end.

Definition cover c : nat :=
  (weight covers_b (lc_pcs c) + Nat.b2n (sig_up (b_finished_ (lc_obj c))))%nat.

Definition covered c : Prop := (state_ (lc_obj c) = kCancelled -> 1 <= cover c)%nat.

Lemma cover_move c i p k l q r :
  lc_pcs c !! i = Some p ->
  (state_ l = kCancelled ->
     (state_ (lc_obj c) = kCancelled /\
      covers_b p + Nat.b2n (sig_up (b_finished_ (lc_obj c)))
        <= covers_b q + Nat.b2n (sig_up (b_finished_ l)))
     \/ 1 <= covers_b q + Nat.b2n (sig_up (b_finished_ l)))%nat ->
  covered c -> covered (apply_outcome c i k (l, q, r)).
Proof.
  intros Hi Hstep Hc Hs. unfold covered, cover, apply_outcome in *. cbn [lc_obj lc_pcs] in *.
  rewrite (weight_insert_eq _ _ _ _ q Hi).
  pose proof (weight_lookup_le covers_b _ _ _ Hi).
  destruct (Hstep Hs) as [[Hk ?]|?]; [specialize (Hc Hk)|]. all: lia.
Qed.

Ltac cover_step :=
  eapply cover_move; [eassumption| |assumption];
  simpl; intros; try congruence; repeat match goal with H : sig_up _ = _ |- _ => rewrite H end;
  simpl; first [right; lia | left; split; [congruence|lia]].

Lemma cover_thread_step c i p :
  opened (lc_obj c) -> lc_pcs c !! i = Some p -> p <> LIdle ->
  covered c -> covered (apply_outcome c i (call_of p) (thread_step (lc_obj c) p)).
Proof.
  intros Ho Hi Hp Hc. pose proof Ho as [Hoa Hob].
  destruct (sig_post_open _ Hob) as (_ & _ & Hpost).
  step_cases c p; cover_step.
Qed.

Lemma reachable_covered b n c : rtc (lstep b) (linitial n) c -> covered c.
Proof.
  intros Hr. enough (safe c /\ covered c) as [_ ?] by done.
  eapply (rtc_invariant (lstep b) (fun c => safe c /\ covered c)); [| |exact Hr].
  - clear c Hr. intros c c' [Hs Hc] Hst. split; [by eapply safe_lstep|].
    destruct Hst as [c i Hi|c i Hi|c i p Hi Hp|c i p st Hi Hw Hst|c i Hb Hi|c i Hi Hd].
    + cover_step.
    + cover_step.
    + apply cover_thread_step; auto. apply Hs.
    + destruct Hw as [->|[->|[->| ->]]]; cover_step.
    + cover_step.
    + unfold reset_check. case_decide; cover_step.
  - split; [by apply (reachable_safe b n), rtc_refl|done].
Qed.

(** C3: [Cancel] reaches every waiter of Operation A.  In a cancelled lockstep,
    while a thread waits in [StartOperationA], the futex is posted (so that the
    next attempt of the thread takes it and goes on to return Aborted), or some
    thread is at a step after which it will post it or end the cancellation. *)
Theorem cancel_reaches_A (n : nat) c (i : nat) :
  rtc (lstep true) (linitial n) c ->
  state_ (lc_obj c) = kCancelled -> lc_pcs c !! i = Some SAWait ->
  (exists l, thread_step (lc_obj c) SAWait = goto l SACas
     /\ start_a_cas l = goto l SAPost
     /\ (thread_step l SAPost).2 = Some A_cancelled)
  \/ (exists j p, lc_pcs c !! j = Some p /\ covers_b p = 1%nat).
Proof.
  intros Hr Hs Hi. pose proof (reachable_covered _ _ _ Hr Hs) as Hc.
  destruct (reachable_safe _ _ _ Hr) as [[_ Hob] _].
  unfold cover in Hc. destruct (sig_up (b_finished_ (lc_obj c))) eqn:Hu.
  - left. destruct (wait_step_up set_b (lc_obj c) _ SAWait SACas Hob Hu) as (f & Hw & _ & _).
    exists (set_b (lc_obj c) f). split; [done|].
    unfold start_a_cas, compare_exchange_strong. simpl. rewrite Hs. simpl.
    split; [|done]. by rewrite <-Hs.
  - right. destruct (weight_pos_lookup covers_b (lc_pcs c)) as (j & p & Hj & Hp);
      [simpl in Hc; lia|]. exists j, p. split; [done|].
    destruct p; simpl in *; lia.
Qed.

End Proofs.
