(* ===== verification/LockstepRuns.v ===== *)
(** * Runs of the lockstep

    An executable scheduler for the interleavings of [Lockstep.v], concrete runs
    that show the races around [Cancel] and [Reset], and whole calls. *)
From S2P Require Import Prelude Status Time BinaryFutex Signal Lockstep LockstepProofs.

(** ** A scheduler *)

(** What a thread does next. *)
Inductive cmd := DoStartA | DoStartB | DoStep | DoTimeout | DoCancel | DoReset.

#[export] Instance is_wait_dec p : Decision (is_wait p).
Proof. unfold is_wait. apply _. Defined.

Definition timed_out : RealtimeStatus := FormatRealtimeStatus kDeadlineExceeded "Timeout".

Section Scheduler.
Context {F : Type} `{Signal F}.
Implicit Types (l : Lockstep F) (c : lconfig (F := F)).

Definition exec c (i : nat) (k : cmd) : option lconfig :=
  match lc_pcs c !! i with
  | None => None
  | Some p =>
      match k with
      | DoStartA =>
          if decide (p = LIdle)
          then Some (apply_outcome c i CStartA (goto (lc_obj c) SAWait)) else None
      | DoStartB =>
          if decide (p = LIdle)
          then Some (apply_outcome c i CStartB (goto (lc_obj c) SBWait)) else None
      | DoStep =>
          if decide (p <> LIdle)
          then Some (apply_outcome c i (call_of p) (thread_step (lc_obj c) p)) else None
      | DoTimeout =>
          if decide (is_wait p)
          then Some (apply_outcome c i (call_of p) (return_ (lc_obj c) LIdle timed_out))
          else None
      | DoCancel =>
          if decide (p = LIdle)
          then Some (apply_outcome c i CReset (cancel_store (lc_obj c))) else None
      | DoReset =>
          if decide (p = LIdle /\ (state_ (lc_obj c) <> kCancelled
                \/ weight in_op (lc_pcs c) = 0%nat /\ weight in_reset (lc_pcs c) = 0%nat))
          then Some (apply_outcome c i CReset (reset_check (lc_obj c))) else None
      end
  end.

Fixpoint exec_all c (ks : list (nat * cmd)) : option lconfig :=
  match ks with
  | [] => Some c
  | (i, k) :: ks => match exec c i k with Some c' => exec_all c' ks | None => None end
  end.

Lemma exec_lstep c i k c' : exec c i k = Some c' -> lstep true c c'.
Proof.
  unfold exec. destruct (lc_pcs c !! i) as [p|] eqn:Hi; [|done].
  destruct k; case_decide as Hd; intros [= <-]; subst; try by econstructor.
  destruct Hd as [-> Hd]. apply ls_reset; [done|]. intros Hs. by destruct Hd.
Qed.

Lemma exec_all_rtc c ks c' : exec_all c ks = Some c' -> rtc (lstep true) c c'.
Proof.
  revert c. induction ks as [|[i k] ks IH]; simpl; intros c Hc; simplify_eq; [done|].
  destruct (exec c i k) as [d|] eqn:E; [|done].
  eapply rtc_l; [by eapply exec_lstep|auto].
Qed.

Lemma exec_all_rtc_false c ks c' :
  Forall (fun e => e.2 <> DoCancel) ks -> exec_all c ks = Some c' -> rtc (lstep false) c c'.
Proof.
  intros Hks. revert c. induction Hks as [|[i k] ks Hk _ IH]; simpl; intros c Hc;
    simplify_eq/=; [done|].
  destruct (exec c i k) as [d|] eqn:E; [|done].
  eapply rtc_l; [|by apply IH]. unfold exec in E.
  destruct (lc_pcs c !! i) as [p|] eqn:Hi; [|done].
  destruct k; case_decide as Hd; simplify_eq/=; try (by econstructor).
  destruct Hd as [-> Hd]. apply ls_reset; [done|]. intros Hs. by destruct Hd.
Qed.

End Scheduler.

(** ** Three threads on binary futexes *)

Definition start3 : lconfig (F := BinaryFutex) := linitial 3.

Definition steps (i n : nat) : list (nat * cmd) := replicate n (i, DoStep).

(** Thread 0 starts A and reaches the store of [EndOperationA]; thread 1 runs
    [Cancel] to its end. *)
Definition race : list (nat * cmd) :=
  (0%nat, DoStartA) :: steps 0 4 ++ (1%nat, DoCancel) :: steps 1 2.

(** [Cancel] between the two reads of [EndOperationA] by thread 0. *)
Definition early_race : list (nat * cmd) :=
  (0%nat, DoStartA) :: steps 0 3 ++ (1%nat, DoCancel) :: steps 1 2 ++ steps 0 1.

(** [Reset] by thread 1 while thread 2 is inside [StartOperationA]. *)
Definition failed_reset : list (nat * cmd) :=
  (1%nat, DoCancel) :: steps 1 2 ++ (2%nat, DoStartA) :: steps 2 1
    ++ (1%nat, DoReset) :: steps 1 2 ++ (1%nat, DoTimeout) :: steps 2 2.

(** a [Cancel] can be lost.  [EndOperationA] checks the state and then stores
    to it without an exchange: when [Cancel] runs in between, its state is
    overwritten and, although [Cancel] has returned and nobody called [Reset],
    [StartOperationB] succeeds. *)
Theorem cancel_can_be_lost :
  exists c c',
    exec_all start3 race = Some c
    /\ state_ (lc_obj c) = kCancelled /\ lc_pcs c = [EAStore; LIdle; LIdle]
    /\ exec_all c (steps 0 2 ++ (2%nat, DoStartB) :: steps 2 2) = Some c'
    /\ lc_log c' = lc_log c ++ [(CEndA, RtOkStatus); (CStartB, RtOkStatus)]
    /\ rtc (lstep true) start3 c'.
Proof.
  eexists _, _. split; [reflexivity|]. split; [reflexivity|]. split; [reflexivity|].
  split; [reflexivity|]. split; [reflexivity|].
  apply (exec_all_rtc _ (race ++ steps 0 2 ++ (2%nat, DoStartB) :: steps 2 2)). reflexivity.
Qed.

(** [EndOperationA] can fail although its operation was started: when [Cancel]
    runs between its two reads of the state, it returns FailedPrecondition. *)
Theorem end_a_can_fail_after_cancel :
  exists c, exec_all start3 early_race = Some c
    /\ lc_log c = [(CStartA, RtOkStatus); (CEndA, A_not_started)]
    /\ rtc (lstep true) start3 c.
Proof.
  eexists. split; [reflexivity|]. split; [reflexivity|].
  by apply (exec_all_rtc _ early_race).
Qed.

(** a [Reset] that times out on its second futex loses the token of the first:
    while thread 2 holds the token of [b_finished_] inside [StartOperationA],
    [Reset] takes [a_finished_] and gives up.  The lockstep stays cancelled, every
    thread has returned, and a later [StartOperationB] or [Reset] blocks instead of
    returning. *)
Theorem failed_reset_loses_token :
  exists c, exec_all start3 failed_reset = Some c
    /\ state_ (lc_obj c) = kCancelled /\ lc_pcs c = [LIdle; LIdle; LIdle]
    /\ StartOperationB (lc_obj c) = None /\ Reset (lc_obj c) = None
    /\ rtc (lstep true) start3 c.
Proof.
  eexists. split; [reflexivity|]. repeat (split; [reflexivity|]).
  by apply (exec_all_rtc _ failed_reset).
Qed.

(** ** Without the rules for [Reset] *)

(** The steps of clients that also call [Reset] inside an operation or while another
    [Reset] is under way. *)
Definition free_step (c c' : lconfig (F := BinaryFutex)) : Prop :=
  lstep true c c'
  \/ exists i, lc_pcs c !! i = Some LIdle
       /\ c' = apply_outcome c i CReset (reset_check (lc_obj c)).

Definition exec_free (c : lconfig (F := BinaryFutex)) (i : nat) (k : cmd) : option lconfig :=
  match k, lc_pcs c !! i with
  | DoReset, Some LIdle => Some (apply_outcome c i CReset (reset_check (lc_obj c)))
  | _, _ => exec c i k
  end.

Fixpoint exec_free_all c (ks : list (nat * cmd)) : option lconfig :=
  match ks with
  | [] => Some c
  | (i, k) :: ks => match exec_free c i k with Some c' => exec_free_all c' ks | None => None end
  end.

Lemma exec_free_step c i k c' : exec_free c i k = Some c' -> free_step c c'.
Proof.
  unfold exec_free. intros He.
  destruct k; try (left; by eapply exec_lstep).
  destruct (lc_pcs c !! i) as [[]|] eqn:Hi; try (left; by eapply exec_lstep).
  right. exists i. split; [done|]. by simplify_eq.
Qed.

Lemma exec_free_rtc c ks c' : exec_free_all c ks = Some c' -> rtc free_step c c'.
Proof.
  revert c. induction ks as [|[i k] ks IH]; simpl; intros c Hc; simplify_eq; [done|].
  destruct (exec_free c i k) as [d|] eqn:E; [|done].
  eapply rtc_l; [by eapply exec_free_step|auto].
Qed.

(** Thread 1 is inside B; thread 0 calls [Cancel], [Reset] and [StartOperationA], as
    [RealtimeClock::Reset] does. *)
Definition reset_in_b : list (nat * cmd) :=
  (0%nat, DoStartA) :: steps 0 6 ++ (1%nat, DoStartB) :: steps 1 2
    ++ (0%nat, DoCancel) :: steps 0 2 ++ (0%nat, DoReset) :: steps 0 4
    ++ (0%nat, DoStartA) :: steps 0 2.

(** [Reset] by the threads 1 and 2, a [Cancel] in between. *)
Definition two_resets : list (nat * cmd) :=
  (0%nat, DoCancel) :: steps 0 2 ++ (1%nat, DoReset) :: steps 1 2
    ++ (2%nat, DoReset) :: (0%nat, DoCancel) :: steps 0 2 ++ steps 2 2 ++ steps 1 2
    ++ (0%nat, DoStartA) :: steps 0 6 ++ (0%nat, DoStartB) :: steps 0 2
    ++ steps 2 2 ++ (1%nat, DoStartA) :: steps 1 2.

(** a [Reset] while another thread is inside B lets A start before B has ended. *)
Lemma reset_inside_operation_overlaps :
  exists c, rtc free_step start3 c
    /\ lc_pcs c !! 0%nat = Some InA /\ lc_pcs c !! 1%nat = Some InB
    /\ lc_log c = [(CStartA, RtOkStatus); (CEndA, RtOkStatus); (CStartB, RtOkStatus);
                   (CReset, RtOkStatus); (CStartA, RtOkStatus)].
Proof.
  exists (default start3 (exec_free_all start3 reset_in_b)).
  split; [apply (exec_free_rtc _ reset_in_b); by vm_compute|]. by vm_compute.
Qed.

(** two concurrent calls of [Reset] and a [Cancel], none of them inside an
    operation, also lead to an overlap of A and B: both calls take both tokens, and the
    second one stores its state while B runs. *)
Lemma concurrent_resets_overlap :
  exists c, rtc free_step start3 c
    /\ lc_pcs c !! 1%nat = Some InA /\ lc_pcs c !! 0%nat = Some InB
    /\ lc_log c = [(CReset, RtOkStatus); (CStartA, RtOkStatus); (CEndA, RtOkStatus);
                   (CStartB, RtOkStatus); (CReset, RtOkStatus); (CStartA, RtOkStatus)].
Proof.
  exists (default start3 (exec_free_all start3 two_resets)).
  split; [apply (exec_free_rtc _ two_resets); by vm_compute|]. by vm_compute.
Qed.

(** ** Runs that satisfy the hypotheses of the invariants *)

Lemma lockstep_alternates_witness :
  exists c, exec_all start3 ((0%nat, DoStartA) :: steps 0 6 ++ (1%nat, DoStartB) :: steps 1 2)
              = Some c
    /\ started (lc_log c) = [CStartA; CStartB] /\ alternates (started (lc_log c))
    /\ Forall expected_result (lc_log c).
Proof.
  eexists. split; [reflexivity|]. split; [reflexivity|].
  eapply (lockstep_alternates 3), (exec_all_rtc_false start3
    ((0%nat, DoStartA) :: steps 0 6 ++ (1%nat, DoStartB) :: steps 1 2)); [|reflexivity].
  by repeat constructor.
Defined.

Lemma lockstep_one_token_witness :
  exists c, exec_all start3 ((0%nat, DoStartA) :: steps 0 2) = Some c
    /\ state_ (lc_obj c) = kARunning
    /\ (weight (pos (state_ (lc_obj c))) (lc_pcs c)
          + deposited (lc_obj c) (state_ (lc_obj c)) = 1)%nat.
Proof.
  eexists. split; [reflexivity|]. split; [reflexivity|].
  eapply (lockstep_one_token 3), (exec_all_rtc_false start3
    ((0%nat, DoStartA) :: steps 0 2)); [|reflexivity].
  by repeat constructor.
Defined.

Lemma lockstep_mutual_exclusion_witness :
  exists c, exec_all start3 race = Some c
    /\ lc_pcs c !! 0%nat = Some EAStore /\ in_reset LIdle = 0%nat.
Proof.
  eexists. split; [reflexivity|]. split; [reflexivity|].
  eapply (lockstep_mutual_exclusion 3 _ 0 1 EAStore LIdle);
    [by eapply (exec_all_rtc start3 race)|reflexivity|reflexivity|reflexivity].
Defined.

Lemma cancelled_is_sticky_witness :
  exists c c', exec_all start3 ((1%nat, DoCancel) :: steps 1 2) = Some c
    /\ exec c 0 DoStartA = Some c' /\ state_ (lc_obj c') = kCancelled.
Proof.
  eexists _, _. split; [reflexivity|]. split; [reflexivity|].
  eapply (cancelled_is_sticky (default start3 (exec_all start3 ((1%nat, DoCancel) :: steps 1 2))));
    [reflexivity|reflexivity|reflexivity|by eapply (exec_lstep _ 0 DoStartA)].
Defined.

Lemma cancel_reaches_A_witness :
  exists c, exec_all start3 ((0%nat, DoStartA) :: (1%nat, DoCancel) :: steps 1 1) = Some c
    /\ ((exists l, thread_step (lc_obj c) SAWait = goto l SACas
          /\ start_a_cas l = goto l SAPost /\ (thread_step l SAPost).2 = Some A_cancelled)
        \/ exists j p, lc_pcs c !! j = Some p /\ covers_b p = 1%nat).
Proof.
  eexists. split; [reflexivity|].
  eapply (cancel_reaches_A 3 _ 0); [|reflexivity|reflexivity].
  by eapply (exec_all_rtc start3 ((0%nat, DoStartA) :: (1%nat, DoCancel) :: steps 1 1)).
Defined.

(** ** Whole calls *)

(** undisturbed calls follow the documented state machine.  On open futexes:
    from the initial state the sequence A, B returns to the initial state;
    [StartOperationB] blocks until A has ended and [StartOperationA] until B has;
    an [End...] without its [Start...] is refused and changes nothing. *)
Theorem whole_calls :
  let l0 := new_Lockstep (F := BinaryFutex) in
  exists l1 l2 l3,
    StartOperationA l0 = Some (RtOkStatus, l1)
    /\ EndOperationA l1 = Some (RtOkStatus, l2)
    /\ StartOperationB l2 = Some (RtOkStatus, l3)
    /\ EndOperationB l3 = Some (RtOkStatus, l0)
    /\ StartOperationB l0 = None /\ StartOperationA l1 = None
    /\ StartOperationB l1 = None /\ StartOperationA l2 = None
    /\ StartOperationA l3 = None /\ StartOperationB l3 = None
    /\ EndOperationA l0 = Some (A_not_started, l0)
    /\ EndOperationB l0 = Some (B_not_started, l0)
    /\ Reset l0 = Some (not_cancelled, l0).
Proof. eexists _, _, _. repeat (split; [reflexivity|]). reflexivity. Qed.

Section WholeCalls.
Context {F : Type} `{Signal F}.
Implicit Types (l : Lockstep F).

Lemma run_goto n l p : p <> LIdle -> run (S n) (goto l p) = run n (thread_step l p).
Proof. by destruct p. Qed.

Lemma run_return n l p st : run n (return_ l p st) = Some (st, l).
Proof. by destruct n. Qed.

Lemma run_idle n l : run n (goto l LIdle) = Some (RtOkStatus, l).
Proof. by destruct n. Qed.

Lemma step_SAWait l :
  opened l -> sig_up (b_finished_ l) = true ->
  exists f, thread_step l SAWait = goto (set_b l f) SACas /\ sig_open f.
Proof.
  intros [_ Hb] Hu.
  destruct (wait_step_up set_b l _ SAWait SACas Hb Hu) as (f & ? & ? & ?). eauto.
Qed.

Lemma step_SBWait l :
  opened l -> sig_up (a_finished_ l) = true ->
  exists f, thread_step l SBWait = goto (set_a l f) SBCas /\ sig_open f.
Proof.
  intros [Ha _] Hu.
  destruct (wait_step_up set_a l _ SBWait SBCas Ha Hu) as (f & ? & ? & ?). eauto.
Qed.

Lemma StartOperationA_cancelled l :
  opened l -> sig_up (b_finished_ l) = true -> state_ l = kCancelled ->
  exists l', StartOperationA l = Some (A_cancelled, l') /\ state_ l' = kCancelled
    /\ sig_up (b_finished_ l') = true.
Proof.
  intros Ho Hu Hs. destruct (step_SAWait l Ho Hu) as (f & Hw & Hf).
  destruct (sig_post_open f Hf) as (_ & _ & Hup).
  unfold StartOperationA, call_fuel. rewrite run_goto, Hw, run_goto by done.
  simpl thread_step. rewrite start_a_cas_cancelled, run_goto by done. simpl thread_step. rewrite run_return. eauto.
Qed.

Lemma StartOperationB_cancelled l :
  opened l -> sig_up (a_finished_ l) = true -> state_ l = kCancelled ->
  exists l', StartOperationB l = Some (B_cancelled, l') /\ state_ l' = kCancelled
    /\ sig_up (a_finished_ l') = true.
Proof.
  intros Ho Hu Hs. destruct (step_SBWait l Ho Hu) as (f & Hw & Hf).
  destruct (sig_post_open f Hf) as (_ & _ & Hup).
  unfold StartOperationB, call_fuel. rewrite run_goto, Hw, run_goto by done.
  simpl thread_step. rewrite start_b_cas_cancelled, run_goto by done. simpl thread_step. rewrite run_return. eauto.
Qed.

Lemma Reset_cancelled l :
  opened l -> sig_up (a_finished_ l) = true -> sig_up (b_finished_ l) = true ->
  state_ l = kCancelled ->
  exists l', Reset l = Some (RtOkStatus, l') /\ state_ l' = kBFinished
    /\ sig_up (a_finished_ l') = false /\ sig_up (b_finished_ l') = true /\ opened l'.
Proof.
  intros [Ha Hb] Ua Ub Hs.
  destruct (wait_step_up set_a l _ RWaitA RWaitB Ha Ua) as (fa & Hwa & Hoa & Hfa).
  destruct (wait_step_up set_b (set_a l fa) _ RWaitB RStore Hb Ub) as (fb & Hwb & Hob & _).
  destruct (post_step_open set_b (mkLockstep fa fb kBFinished) fb Hob) as (fp & Hp & Hpo & Hup).
  unfold Reset, reset_check, call_fuel. rewrite decide_False by tauto.
  rewrite run_goto by done. simpl thread_step. rewrite Hwa, run_goto by done.
  simpl thread_step. rewrite Hwb, run_goto by done.
  simpl thread_step. rewrite run_goto by done. simpl thread_step.
  unfold set_state, set_b, set_a in *. cbn [a_finished_ b_finished_ state_] in *.
  rewrite Hp, run_return.
  eexists. split; [reflexivity|]. by repeat split.
Qed.

(** an undisturbed [Cancel], from any state with open futexes, makes both
    starts return Aborted (each re-posts its futex, so the next one does too) and
    both ends return OK without an effect; [Reset] then succeeds and leaves the
    lockstep in a state from which A is next. *)
Theorem cancel_then_reset l :
  opened l ->
  exists lc lr, Cancel l = Some (RtOkStatus, lc)
    /\ state_ lc = kCancelled
    /\ (exists l', StartOperationA lc = Some (A_cancelled, l') /\ state_ l' = kCancelled
          /\ sig_up (b_finished_ l') = true)
    /\ (exists l', StartOperationB lc = Some (B_cancelled, l') /\ state_ l' = kCancelled
          /\ sig_up (a_finished_ l') = true)
    /\ EndOperationA lc = Some (RtOkStatus, lc) /\ EndOperationB lc = Some (RtOkStatus, lc)
    /\ Reset lc = Some (RtOkStatus, lr)
    /\ state_ lr = kBFinished /\ sig_up (a_finished_ lr) = false
    /\ sig_up (b_finished_ lr) = true /\ opened lr.
Proof.
  intros [Ha Hb]. destruct (sig_post_open _ Ha) as (_ & Ha' & Ua).
  destruct (sig_post_open _ Hb) as (_ & Hb' & Ub).
  set (lc := mkLockstep (sig_post (a_finished_ l)).2 (sig_post (b_finished_ l)).2 kCancelled).
  assert (opened lc) as Ho by done.
  destruct (Reset_cancelled lc Ho Ua Ub eq_refl) as (lr & Hr & ? & ? & ? & ?).
  exists lc, lr. split; [done|]. split; [done|].
  split; [by apply StartOperationA_cancelled|]. split; [by apply StartOperationB_cancelled|].
  split; [done|]. split; [done|]. auto.
Qed.

(** The fuel of a whole call is enough: a [Start...] fails to return only when its
    futex holds no token. *)
Lemma StartOperationA_blocks_iff l :
  opened l -> (StartOperationA l = None <-> sig_up (b_finished_ l) = false).
Proof.
  intros Ho. unfold StartOperationA, call_fuel.
  destruct (sig_up (b_finished_ l)) eqn:Hu; split; try done.
  - destruct (step_SAWait l Ho Hu) as (f & Hw & _). rewrite run_goto, Hw, run_goto by done.
    simpl thread_step. unfold start_a_cas, compare_exchange_strong.
    repeat case_decide; simpl negb; cbv iota; repeat case_decide;
      rewrite ?run_return, ?run_goto by done; simpl thread_step; by rewrite ?run_return.
  - intros _. destruct Ho as [_ Hb].
    assert (thread_step l SAWait = goto l SAWait) as Hw.
    { simpl. rewrite wait_step_down by done. by destruct l. }
    do 4 (rewrite run_goto, Hw by done). reflexivity.
Qed.

End WholeCalls.

Lemma cancel_then_reset_witness :
  exists lc, Cancel (new_Lockstep (F := BinaryFutex)) = Some (RtOkStatus, lc)
    /\ state_ lc = kCancelled.
Proof.
  destruct (cancel_then_reset (new_Lockstep (F := BinaryFutex))) as (lc & lr & H1 & H2 & _).
  - split; simpl; auto.
  - exists lc. exact (conj H1 H2).
Defined.
