(* ===== verification/RtQueue.v ===== *)
(** * Realtime queue ([platform/common/buffers/rt_queue_buffer.h], [rt_queue.h],
    [rt_queue_multi_writer.h])

    [RtQueueBuffer] is a ring buffer for one producer and one consumer.  Pointers
    into the buffer are indices.  Counters are unsigned 64-bit integers with their
    wrap-around.  [FinishInsert] and [DropFront] are compositions of the two
    memory updates that the other thread may see separately; the interleavings of
    a producer and a consumer are in the second part. *)
From S2P Require Import Prelude Status.

Section Buffer.
Context {T : Type}.

(** [internal::RtQueueBuffer<T>] *)
Record RtQueueBuffer := mkRtQueueBuffer {
  insert_in_progress_ : bool;
  head_ : Z;
  front_accessed_ : bool;
  tail_ : Z;
  size_ : Z;
  capacity_ : Z;
  buffer_ : list T }.

Implicit Type q : RtQueueBuffer.

Definition set_writer q (ins : bool) (h : Z) : RtQueueBuffer :=
  mkRtQueueBuffer ins h (front_accessed_ q) (tail_ q) (size_ q) (capacity_ q) (buffer_ q).
Definition set_reader q (acc : bool) (t : Z) : RtQueueBuffer :=
  mkRtQueueBuffer (insert_in_progress_ q) (head_ q) acc t (size_ q) (capacity_ q) (buffer_ q).
Definition set_size q (s : Z) : RtQueueBuffer :=
  mkRtQueueBuffer (insert_in_progress_ q) (head_ q) (front_accessed_ q) (tail_ q) s
    (capacity_ q) (buffer_ q).
Definition set_buffer q (b : list T) : RtQueueBuffer :=
  mkRtQueueBuffer (insert_in_progress_ q) (head_ q) (front_accessed_ q) (tail_ q) (size_ q)
    (capacity_ q) b.

(** The object behind a pointer into the buffer, and an assignment to it. *)
Definition deref q (p : Z) : option T := buffer_ q !! Z.to_nat p.
Definition store q (p : Z) (v : T) : RtQueueBuffer :=
  set_buffer q (<[Z.to_nat p := v]> (buffer_ q)).

(** [RtQueueBuffer(size_t capacity)]; [value_init] is the value of [T()]. *)
Definition new_RtQueueBuffer (value_init : T) (capacity : Z) : RtQueueBuffer :=
  mkRtQueueBuffer false 0 false 0 0 capacity (replicate (Z.to_nat capacity) value_init).

(** [InitElements(init_function)]; [None] is an empty [std::function]. *)
Definition InitElements (init_function : option (T -> T)) q : checked RtQueueBuffer :=
  let! _ := check (bool_decide (is_Some init_function))
    "Trying to initialize RtQueueBuffer elements with an empty `init_function`!" in
  Returns (match init_function with
           | Some f => set_buffer q (f <$> buffer_ q)
           | None => q
           end).

(** [RtQueueBuffer(size_t capacity, init_function)] *)
Definition new_RtQueueBuffer_init (value_init : T) (capacity : Z)
    (init_function : option (T -> T)) : checked RtQueueBuffer :=
  InitElements init_function (new_RtQueueBuffer value_init capacity).

Definition Size q : Z := size_ q.
Definition Empty q : bool := bool_decide (size_ q = 0).
Definition Full q : bool := bool_decide (size_ q = capacity_ q).
Definition Capacity q : Z := capacity_ q.

Definition IncreaseSize q : RtQueueBuffer := set_size q (wrap_u 64 (size_ q + 1)).
Definition DecreaseSize q : RtQueueBuffer := set_size q (wrap_u 64 (size_ q - 1)).

(** [Front()] *)
Definition Front q : checked (option Z * RtQueueBuffer) :=
  let! _ := check (negb (front_accessed_ q))
    "KeepFront or DropFront must be called before another call to Front is allowed." in
  Returns (if Empty q then (None, q) else (Some (tail_ q), set_reader q true (tail_ q))).

(** [KeepFront()] *)
Definition KeepFront q : checked RtQueueBuffer :=
  let! _ := check (front_accessed_ q) "Front must be called before KeepFront." in
  Returns (set_reader q false (tail_ q)).

(** [DropFront()]: the part up to [DecreaseSize()], then the update of [tail_]. *)
Definition drop_size q : checked RtQueueBuffer :=
  let! _ := check (front_accessed_ q) "Front must be called before DropFront." in
  Returns (DecreaseSize (set_reader q false (tail_ q))).
Definition drop_tail q : RtQueueBuffer :=
  set_reader q (front_accessed_ q) (wrap_u 64 (tail_ q + 1) mod Capacity q).
Definition DropFront q : checked RtQueueBuffer :=
  let! q1 := drop_size q in Returns (drop_tail q1).

(** [PrepareInsert()] *)
Definition PrepareInsert q : checked (option Z * RtQueueBuffer) :=
  let! _ := check (negb (insert_in_progress_ q))
    "FinishInsert must be called before another call to PrepareInsert is allowed." in
  Returns (if Full q then (None, q) else (Some (head_ q), set_writer q true (head_ q))).

(** [FinishInsert()]: the part up to the update of [head_], then [IncreaseSize()]. *)
Definition finish_head q : checked RtQueueBuffer :=
  let! _ := check (insert_in_progress_ q)
    "PrepareInsert must be called before FinishInsert." in
  Returns (set_writer q false (wrap_u 64 (head_ q + 1) mod Capacity q)).
Definition FinishInsert q : checked RtQueueBuffer :=
  let! q1 := finish_head q in Returns (IncreaseSize q1).

(** ** [RealtimeQueue<T>] *)

Record RealtimeQueue := mkRealtimeQueue {
  rq_buffer : RtQueueBuffer;
  reset_function_ : option (T -> T) }.

Definition kDefaultBufferCapacity : Z := 100.

(** [RealtimeQueue(std::optional<size_t> capacity, init_function)] *)
Definition new_RealtimeQueue (value_init : T) (capacity : option Z)
    (init_function : option (T -> T)) : checked RealtimeQueue :=
  let b := new_RtQueueBuffer value_init (default kDefaultBufferCapacity capacity) in
  let! b' := (match init_function with
              | Some f => InitElements (Some f) b
              | None => Returns b
              end) in
  Returns (mkRealtimeQueue b' None).

(** [InitElements(init_function)], [Empty()], [Full()], [Size()] and [Capacity()] *)
Definition queue_InitElements (init_function : option (T -> T)) (r : RealtimeQueue) : checked RealtimeQueue :=
  let! b := InitElements init_function (rq_buffer r) in Returns (mkRealtimeQueue b (reset_function_ r)).
Definition queue_Empty (r : RealtimeQueue) : bool := Empty (rq_buffer r).
Definition queue_Full (r : RealtimeQueue) : bool := Full (rq_buffer r).
Definition queue_Size (r : RealtimeQueue) : Z := Size (rq_buffer r).
Definition queue_Capacity (r : RealtimeQueue) : Z := Capacity (rq_buffer r).

(** [Reader::Front()], [Reader::KeepFront()], [Reader::DropFront()] and
    [Writer::FinishInsert()] *)
Definition reader_Front (r : RealtimeQueue) : checked (option Z * RealtimeQueue) :=
  let! (p, b) := Front (rq_buffer r) in Returns (p, mkRealtimeQueue b (reset_function_ r)).
Definition reader_KeepFront (r : RealtimeQueue) : checked RealtimeQueue :=
  let! b := KeepFront (rq_buffer r) in Returns (mkRealtimeQueue b (reset_function_ r)).
Definition reader_DropFront (r : RealtimeQueue) : checked RealtimeQueue :=
  let! b := DropFront (rq_buffer r) in Returns (mkRealtimeQueue b (reset_function_ r)).
Definition writer_FinishInsert (r : RealtimeQueue) : checked RealtimeQueue :=
  let! b := FinishInsert (rq_buffer r) in Returns (mkRealtimeQueue b (reset_function_ r)).

(** [Writer::SetElementResetFunction] *)
Definition SetElementResetFunction (r : RealtimeQueue) (f : option (T -> T))
  : RealtimeQueue := mkRealtimeQueue (rq_buffer r) f.

(** [Reader::MoveFront()]; [moved] is what is left of the element that is moved
    from. *)
Definition MoveFront (moved : T -> T) q : checked (option T * RtQueueBuffer) :=
  if Empty q then Returns (None, q)
  else
    let! (p, q1) := Front q in
    Returns (match p with
             | Some p => (deref q1 p,
                          match deref q1 p with Some v => store q1 p (moved v) | None => q1 end)
             | None => (None, q1)
             end).

(** [Reader::Pop()] *)
Definition Pop q : checked (option T * RtQueueBuffer) :=
  let! (front_ptr, q1) := Front q in
  match front_ptr with
  | Some p => let! q2 := DropFront q1 in Returns (deref q1 p, q2)
  | None => Returns (None, q1)
  end.

(** [Writer::PrepareInsert()] *)
Definition writer_PrepareInsert (r : RealtimeQueue) : checked (option Z * RealtimeQueue) :=
  let! (element, q1) := PrepareInsert (rq_buffer r) in
  Returns (match element with
           | None => (None, mkRealtimeQueue q1 (reset_function_ r))
           | Some p =>
               (Some p,
                mkRealtimeQueue
                  (match reset_function_ r, deref q1 p with
                   | Some f, Some v => store q1 p (f v)
                   | _, _ => q1
                   end) (reset_function_ r))
           end).

(** [Writer::Insert(const T& item)] *)
Definition Insert (r : RealtimeQueue) (item : T) : checked (bool * RealtimeQueue) :=
  let! (item_ptr, r1) := writer_PrepareInsert r in
  match item_ptr with
  | Some p =>
      let! q2 := FinishInsert (store (rq_buffer r1) p item) in
      Returns (true, mkRealtimeQueue q2 (reset_function_ r1))
  | None => Returns (false, r1)
  end.

(** [RealtimeQueueMultiWriter<T>::Insert(T&& value)], under its mutex. *)
Definition multi_writer_Insert (r : RealtimeQueue) (value : T)
  : checked (Status * RealtimeQueue) :=
  let! (queue_item, r1) := writer_PrepareInsert r in
  match queue_item with
  | None => Returns (FormatStatus kResourceExhausted "RealtimeQueue capacity exhausted", r1)
  | Some p =>
      let! q2 := FinishInsert (store (rq_buffer r1) p value) in
      Returns (OkStatus, mkRealtimeQueue q2 (reset_function_ r1))
  end.

End Buffer.
Arguments RtQueueBuffer : clear implicits.
Arguments RealtimeQueue : clear implicits.
