(* ===== verification/RtQueueProofs.v ===== *)
(** * Correctness of the realtime queue

    The ring buffer refines a FIFO list, for every interleaving of one producer and
    one consumer; sequential use of [Insert] and [Pop] follows. *)
From S2P Require Import Prelude Status RtQueue.

(** ** Modular arithmetic of the ring *)

Lemma ring_inj (n a i j : Z) :
  0 <= i < n -> 0 <= j < n -> (a + i) mod n = (a + j) mod n -> i = j.
Proof.
  intros Hi Hj Heq.
  pose proof (Z.div_mod (a + i) n ltac:(lia)). pose proof (Z.div_mod (a + j) n ltac:(lia)).
  assert (n * ((a + i) / n - (a + j) / n) = i - j) by lia.
  assert (-1 < (a + i) / n - (a + j) / n < 1) by nia. nia.
Qed.

Lemma ring_succ (n a : Z) : 0 < n -> ((a mod n) + 1) mod n = (a + 1) mod n.
Proof. intros. by rewrite Zplus_mod_idemp_l. Qed.

(** ** Producer and consumer *)

Section Interleaving.
Context {T : Type}.

(** Where the producer is: between [PrepareInsert] and [FinishInsert], or inside
    [FinishInsert] (with the value it publishes). *)
Inductive wphase := WIdle | WPrepared | WHead (v : T).

(** Where the consumer is: between [Front] and [KeepFront] or [DropFront], or
    inside [DropFront]. *)
Inductive rphase := RIdle | RFront | RDropped.

(** The queue, the two threads, and the values inserted and dropped so far. *)
Record qconfig := mkQConfig {
  q_buf : RtQueueBuffer T;
  q_w : wphase;
  q_r : rphase;
  q_in : list T;
  q_out : list T }.

Inductive qstep : qconfig -> qconfig -> Prop :=
| w_prepare q w' q' r i o : PrepareInsert q = Returns (w', q') ->
    qstep (mkQConfig q WIdle r i o)
      (mkQConfig q' (match w' with Some _ => WPrepared | None => WIdle end) r i o)
| w_write q r i o v :
    qstep (mkQConfig q WPrepared r i o) (mkQConfig (store q (head_ q) v) WPrepared r i o)
| w_head q q' r i o v : deref q (head_ q) = Some v -> finish_head q = Returns q' ->
    qstep (mkQConfig q WPrepared r i o) (mkQConfig q' (WHead v) r i o)
| w_size q r i o v :
    qstep (mkQConfig q (WHead v) r i o) (mkQConfig (IncreaseSize q) WIdle r (i ++ [v]) o)
| r_front q p q' w i o : Front q = Returns (p, q') ->
    qstep (mkQConfig q w RIdle i o)
      (mkQConfig q' w (match p with Some _ => RFront | None => RIdle end) i o)
| r_keep q q' w i o : KeepFront q = Returns q' ->
    qstep (mkQConfig q w RFront i o) (mkQConfig q' w RIdle i o)
| r_drop q q' w i o v : deref q (tail_ q) = Some v -> drop_size q = Returns q' ->
    qstep (mkQConfig q w RFront i o) (mkQConfig q' w RDropped i (o ++ [v]))
| r_tail q w i o :
    qstep (mkQConfig q w RDropped i o) (mkQConfig (drop_tail q) w RIdle i o).

(** ** The abstract queue *)

Definition r_off (r : rphase) : Z := match r with RDropped => 1 | _ => 0 end.
Definition w_off (w : wphase) : Z := match w with WHead _ => 1 | _ => 0 end.

(** The slot of the [k]-th element. *)
Definition slot (q : RtQueueBuffer T) (r : rphase) (k : Z) : Z :=
  (tail_ q + r_off r + k) mod capacity_ q.

(** The elements, oldest first. *)
Definition contents (q : RtQueueBuffer T) (r : rphase) : list T :=
  omap (fun k => deref q (slot q r (Z.of_nat k))) (seq 0 (Z.to_nat (size_ q))).

Record qinv (q : RtQueueBuffer T) (w : wphase) (r : rphase) : Prop := mkQInv {
  qi_cap : 0 <= capacity_ q < 2 ^ 64;
  qi_buf : Z.of_nat (length (buffer_ q)) = capacity_ q;
  qi_size : 0 <= size_ q <= capacity_ q;
  qi_room : w <> WIdle -> size_ q < capacity_ q;
  qi_some : r = RFront -> 0 < size_ q;
  qi_drop : r = RDropped -> 0 < capacity_ q;
  qi_tail : 0 < capacity_ q -> 0 <= tail_ q < capacity_ q;
  qi_head : 0 < capacity_ q -> head_ q = slot q r (size_ q + w_off w);
  qi_ins : insert_in_progress_ q = match w with WPrepared => true | _ => false end;
  qi_acc : front_accessed_ q = match r with RFront => true | _ => false end;
  qi_pending v : w = WHead v -> deref q (slot q r (size_ q)) = Some v }.

Implicit Types (q : RtQueueBuffer T) (w : wphase) (r : rphase) (v : T).

Lemma slot_range q r k : 0 < capacity_ q -> 0 <= slot q r k < capacity_ q.
Proof. intros. by apply Z.mod_pos_bound. Qed.

Lemma deref_in q p :
  Z.of_nat (length (buffer_ q)) = capacity_ q -> 0 <= p < capacity_ q ->
  is_Some (deref q p).
Proof. intros. apply lookup_lt_is_Some. lia. Qed.

Lemma deref_store_ne q p p' v :
  0 <= p -> 0 <= p' -> p <> p' -> deref (store q p v) p' = deref q p'.
Proof. intros. unfold deref, store. simpl. apply list_lookup_insert_ne. lia. Qed.

Lemma deref_store_eq q p v :
  Z.of_nat (length (buffer_ q)) = capacity_ q -> 0 <= p < capacity_ q ->
  deref (store q p v) p = Some v.
Proof. intros. unfold deref, store. simpl. apply list_lookup_insert_eq. lia. Qed.

Lemma omap_seq_ext (f g : nat -> option T) (s s' n : nat) :
  (forall k, (k < n)%nat -> f (s + k)%nat = g (s' + k)%nat) ->
  omap f (seq s n) = omap g (seq s' n).
Proof.
  revert s s'. induction n as [|n IH]; intros s s' Hk; [done|]. csimpl.
  pose proof (Hk 0%nat ltac:(lia)) as H0. rewrite !Nat.add_0_r in H0. rewrite H0.
  rewrite (IH (S s) (S s')); [done|]. intros k ?.
  rewrite !Nat.add_succ_comm. apply Hk. lia.
Qed.

(** Two queues whose first [size_] slots hold the same values have the same
    contents. *)
Lemma contents_ext q r q' r' :
  size_ q' = size_ q ->
  (forall k, 0 <= k < size_ q -> deref q' (slot q' r' k) = deref q (slot q r k)) ->
  contents q' r' = contents q r.
Proof.
  intros Hs Hk. unfold contents. rewrite Hs. apply omap_seq_ext.
  intros k ?. apply Hk. lia.
Qed.

Lemma contents_length q w r : qinv q w r -> Z.of_nat (length (contents q r)) = size_ q.
Proof.
  intros [Hc Hb Hs _ _ _ _ _ _ _ _]. unfold contents.
  enough (forall n, (n <= Z.to_nat (size_ q))%nat -> forall s,
    length (omap (fun k => deref q (slot q r (Z.of_nat k))) (seq s n)) = n) as H
    by (rewrite H; lia).
  induction n as [|n IH]; intros Hn s; [done|]. csimpl.
  destruct (deref_in q (slot q r (Z.of_nat s))) as [v ->]; [done|apply slot_range; lia|].
  csimpl. rewrite IH; lia.
Qed.

(** Publishing the slot after the last element appends its value. *)
Lemma contents_snoc q q' r v :
  0 <= size_ q -> size_ q' = size_ q + 1 ->
  (forall k, deref q' (slot q' r k) = deref q (slot q r k)) ->
  deref q (slot q r (size_ q)) = Some v ->
  contents q' r = contents q r ++ [v].
Proof.
  intros Hs Hs' Hd Hv. unfold contents. rewrite Hs', Z2Nat.inj_add, Nat.add_1_r by lia.
  rewrite seq_S, omap_app. f_equal.
  - apply omap_seq_ext. auto.
  - simpl. rewrite Z2Nat.id by lia. by rewrite Hd, Hv.
Qed.

(** Moving past the first element removes it. *)
Lemma contents_cons q r q' r' v :
  0 <= size_ q' -> size_ q = size_ q' + 1 ->
  (forall k, deref q' (slot q' r' k) = deref q (slot q r (k + 1))) ->
  deref q (slot q r 0) = Some v ->
  contents q r = v :: contents q' r'.
Proof.
  intros Hs Hs' Hd Hv. unfold contents. rewrite Hs', Z2Nat.inj_add, Nat.add_1_r by lia.
  csimpl. change (Z.of_nat 0) with 0. rewrite Hv. f_equal. apply omap_seq_ext. intros k _. rewrite Hd.
  do 2 f_equal. lia.
Qed.

(** ** The invariant is preserved *)

Lemma prepare_inv q r p q' :
  qinv q WIdle r -> PrepareInsert q = Returns (p, q') ->
  qinv q' (match p with Some _ => WPrepared | None => WIdle end) r
  /\ contents q' r = contents q r
  /\ (p = None <-> Z.of_nat (length (contents q r)) = capacity_ q)
  /\ (forall x, p = Some x -> x = head_ q).
Proof.
  intros Hi Hp. rewrite (contents_length _ _ _ Hi). unfold PrepareInsert in Hp.
  rewrite (qi_ins _ _ _ Hi) in Hp. simpl in Hp. injection Hp as Hp.
  unfold Full in Hp. case_bool_decide as Hf; simplify_eq.
  - split; [done|]. naive_solver.
  - destruct Hi as [Hc Hb Hs Hroom Hsome Hdrop Ht Hh Hins Hacc Hpend].
    split; [|naive_solver]. split; simpl; auto; intros; (done || lia).
Qed.

Lemma write_inv q r v :
  qinv q WPrepared r -> qinv (store q (head_ q) v) WPrepared r
  /\ contents (store q (head_ q) v) r = contents q r
  /\ deref (store q (head_ q) v) (head_ q) = Some v.
Proof.
  intros [Hc Hb Hs Hroom Hsome Hdrop Ht Hh Hins Hacc Hpend].
  specialize (Hroom ltac:(done)). specialize (Hh ltac:(lia)). specialize (Ht ltac:(lia)).
  simpl in Hh. rewrite Z.add_0_r in Hh.
  pose proof (slot_range q r (size_ q) ltac:(lia)).
  split; [|split].
  - split; simpl; auto; try done.
    + by rewrite length_insert.
    + intros _. by rewrite Z.add_0_r.
  - apply contents_ext; [done|]. intros k Hk.
    change (slot (store q (head_ q) v) r k) with (slot q r k).
    apply deref_store_ne; [lia|apply slot_range; lia|].
    rewrite Hh. intros Heq. apply ring_inj in Heq; lia.
  - apply deref_store_eq; [done|lia].
Qed.

Lemma finish_head_inv q r v q' :
  qinv q WPrepared r -> deref q (head_ q) = Some v -> finish_head q = Returns q' ->
  qinv q' (WHead v) r /\ contents q' r = contents q r.
Proof.
  intros [Hc Hb Hs Hroom Hsome Hdrop Ht Hh Hins Hacc Hpend] Hv Hf.
  specialize (Hroom ltac:(done)). specialize (Hh ltac:(lia)). simpl in Hh.
  rewrite Z.add_0_r in Hh. pose proof (slot_range q r (size_ q) ltac:(lia)).
  unfold finish_head in Hf. rewrite Hins in Hf. simpl in Hf. injection Hf as <-.
  split; [|done]. split; simpl; auto.
  - intros _. rewrite wrap_u_id by (unfold in_u; lia). rewrite Hh.
    unfold slot, Capacity. simpl. rewrite ring_succ by lia. f_equal. lia.
  - intros v' [= <-]. rewrite Hh in Hv. exact Hv.
Qed.

Lemma increase_inv q r v :
  qinv q (WHead v) r ->
  qinv (IncreaseSize q) WIdle r /\ contents (IncreaseSize q) r = contents q r ++ [v].
Proof.
  intros [Hc Hb Hs Hroom Hsome Hdrop Ht Hh Hins Hacc Hpend].
  specialize (Hroom ltac:(done)).
  assert (size_ (IncreaseSize q) = size_ q + 1) as Hsz
    by (simpl; apply wrap_u_id; unfold in_u; lia).
  split.
  - split; rewrite ?Hsz; simpl; auto; try lia; try done.
    intros Hcap. rewrite Hh by lia. simpl. by rewrite Z.add_0_r.
  - apply contents_snoc; auto. lia.
Qed.

Lemma front_inv q w p q' :
  qinv q w RIdle -> Front q = Returns (p, q') ->
  qinv q' w (match p with Some _ => RFront | None => RIdle end)
  /\ contents q' RFront = contents q RIdle /\ contents q' RIdle = contents q RIdle
  /\ (p = None <-> contents q RIdle = [])
  /\ (forall x, p = Some x -> x = tail_ q).
Proof.
  intros Hi Hp. pose proof (contents_length _ _ _ Hi) as Hlen. unfold Front in Hp.
  rewrite (qi_acc _ _ _ Hi) in Hp. simpl in Hp. injection Hp as Hp.
  unfold Empty in Hp. case_bool_decide as Hf; simplify_eq.
  - assert (contents q' RIdle = []) by (apply nil_length_inv; lia). naive_solver.
  - assert (contents q RIdle <> []) by (intros E; rewrite E in Hlen; simpl in Hlen; lia).
    destruct Hi as [Hc Hb Hs Hroom Hsome Hdrop Ht Hh Hins Hacc Hpend].
    split; [|naive_solver]. split; simpl; auto; intros; (done || lia).
Qed.

Lemma keep_inv q w q' :
  qinv q w RFront -> KeepFront q = Returns q' ->
  qinv q' w RIdle /\ contents q' RIdle = contents q RFront.
Proof.
  intros [Hc Hb Hs Hroom Hsome Hdrop Ht Hh Hins Hacc Hpend] Hk.
  unfold KeepFront in Hk. rewrite Hacc in Hk. simpl in Hk. injection Hk as <-.
  split; [|done]. split; simpl; auto; done.
Qed.

Lemma drop_size_inv q w v q' :
  qinv q w RFront -> deref q (tail_ q) = Some v -> drop_size q = Returns q' ->
  qinv q' w RDropped /\ contents q RFront = v :: contents q' RDropped.
Proof.
  intros [Hc Hb Hs Hroom Hsome Hdrop Ht Hh Hins Hacc Hpend] Hv Hd.
  specialize (Hsome eq_refl). specialize (Ht ltac:(lia)).
  unfold drop_size in Hd. rewrite Hacc in Hd. simpl in Hd. injection Hd as <-.
  assert (wrap_u 64 (size_ q - 1) = size_ q - 1) as Hsz by (apply wrap_u_id; unfold in_u; lia).
  assert (forall k, slot (DecreaseSize (set_reader q false (tail_ q))) RDropped k
                    = slot q RFront (k + 1)) as Hslot.
  { intros k. unfold slot. simpl. f_equal. lia. }
  split.
  - split; rewrite ?Hslot; simpl; rewrite ?Hsz; auto; try lia; try done.
    + intros. rewrite Hh by lia. f_equal. lia.
    + intros v' Hw. rewrite Z.sub_add. auto.
  - apply contents_cons; simpl; rewrite ?Hsz; try lia.
    + intros k. by rewrite Hslot.
    + rewrite <-Hv. f_equal. unfold slot. simpl. rewrite !Z.add_0_r. by apply Z.mod_small.
Qed.

Lemma drop_tail_inv q w :
  qinv q w RDropped -> qinv (drop_tail q) w RIdle
  /\ contents (drop_tail q) RIdle = contents q RDropped.
Proof.
  intros [Hc Hb Hs Hroom Hsome Hdrop Ht Hh Hins Hacc Hpend].
  specialize (Hdrop eq_refl). specialize (Ht Hdrop).
  assert (forall k, slot (drop_tail q) RIdle k = slot q RDropped k) as Hslot.
  { intros k. unfold slot, drop_tail, Capacity. simpl.
    rewrite wrap_u_id by (unfold in_u; lia).
    rewrite Z.add_0_r, Zplus_mod_idemp_l. done. }
  split; [|by apply contents_ext; intros; rewrite ?Hslot].
  split; rewrite ?Hslot; simpl; auto; try done. intros _. by apply Z.mod_pos_bound.
Qed.

(** ** Reachable configurations *)

Definition qinitial (value_init : T) (capacity : Z) : qconfig :=
  mkQConfig (new_RtQueueBuffer value_init capacity) WIdle RIdle [] [].

Lemma new_inv (value_init : T) (capacity : Z) :
  in_u 64 capacity -> qinv (new_RtQueueBuffer value_init capacity) WIdle RIdle.
Proof.
  intros [Hl Hu]. split; simpl; try done; try lia.
  - rewrite length_replicate. lia.
Qed.

Record fifo (c : qconfig) : Prop := mkFifo {
  f_inv : qinv (q_buf c) (q_w c) (q_r c);
  f_list : q_in c = q_out c ++ contents (q_buf c) (q_r c) }.

Lemma fifo_step c c' : fifo c -> qstep c c' -> fifo c'.
Proof.
  intros [Hi Hl] Hs. destruct Hs; simpl in *.
  - destruct (prepare_inv _ _ _ _ Hi H) as (? & Hc & _). split; simpl; [done|]. by rewrite Hc.
  - destruct (write_inv _ _ v Hi) as (? & Hc & _). split; simpl; [done|]. by rewrite Hc.
  - destruct (finish_head_inv _ _ _ _ Hi H H0) as [? Hc]. split; simpl; [done|]. by rewrite Hc.
  - destruct (increase_inv _ _ _ Hi) as [? Hc]. split; simpl; [done|].
    by rewrite Hc, app_assoc, Hl.
  - destruct (front_inv _ _ _ _ Hi H) as (? & Hf & Hc & _).
    split; simpl; [done|]. destruct p; by rewrite ?Hf, ?Hc.
  - destruct (keep_inv _ _ _ Hi H) as [? Hc]. split; simpl; [done|]. by rewrite Hc.
  - destruct (drop_size_inv _ _ _ _ Hi H H0) as [? Hc]. split; simpl; [done|].
    by rewrite Hl, Hc, <-app_assoc.
  - destruct (drop_tail_inv _ _ Hi) as [? Hc]. split; simpl; [done|]. by rewrite Hc.
Qed.

Lemma reachable_fifo value_init capacity c :
  in_u 64 capacity -> rtc qstep (qinitial value_init capacity) c -> fifo c.
Proof.
  intros Hcap Hr. eapply rtc_invariant; [apply fifo_step| |exact Hr].
  split; [by apply new_inv|done].
Qed.

(** C4: the queue is a bounded FIFO.  In every interleaving of the memory updates
    of one producer and one consumer, the values inserted so far are the values
    dropped so far followed by the contents of the ring buffer: nothing is lost,
    duplicated, reordered or corrupted; [size_] is the length of the contents and
    never exceeds the capacity. *)
Theorem queue_is_fifo (value_init : T) (capacity : Z) (c : qconfig) :
  in_u 64 capacity -> rtc qstep (qinitial value_init capacity) c ->
  q_in c = q_out c ++ contents (q_buf c) (q_r c)
  /\ Z.of_nat (length (contents (q_buf c) (q_r c))) = Size (q_buf c)
  /\ Size (q_buf c) <= Capacity (q_buf c).
Proof.
  intros Hcap Hr. destruct (reachable_fifo _ _ _ Hcap Hr) as [Hi Hl].
  split; [done|]. split; [by eapply contents_length|]. apply Hi.
Qed.

(** C5: no data race on an element.  While the producer holds the pointer that
    [PrepareInsert] returned and the consumer the one that [Front] returned, the
    two point to different elements of the buffer, and the consumer's element is
    the oldest value of the queue. *)
Theorem pointers_disjoint (value_init : T) (capacity : Z) (c : qconfig) :
  in_u 64 capacity -> rtc qstep (qinitial value_init capacity) c ->
  q_w c = WPrepared -> q_r c = RFront ->
  head_ (q_buf c) <> tail_ (q_buf c)
  /\ is_Some (deref (q_buf c) (head_ (q_buf c)))
  /\ deref (q_buf c) (tail_ (q_buf c)) = head (contents (q_buf c) RFront).
Proof.
  intros Hcap Hr Hw Hrd. destruct (reachable_fifo _ _ _ Hcap Hr) as [Hi _].
  rewrite Hw, Hrd in Hi. pose proof Hi as [Hc Hb Hs Hroom Hsome Hdrop Ht Hh Hins Hacc Hpend].
  specialize (Hroom ltac:(done)). specialize (Hsome eq_refl).
  specialize (Ht ltac:(lia)). specialize (Hh ltac:(lia)).
  assert (tail_ (q_buf c) = slot (q_buf c) RFront 0) as Ht0.
  { unfold slot. simpl. rewrite !Z.add_0_r. symmetry. by apply Z.mod_small. }
  split; [|split].
  - rewrite Hh, Ht0. simpl. intros Heq. apply ring_inj in Heq; lia.
  - rewrite Hh. apply deref_in; [done|]. apply slot_range. lia.
  - rewrite Ht0. unfold contents.
    destruct (Z.to_nat (size_ (q_buf c))) eqn:E; [lia|]. csimpl.
    change (Z.of_nat 0) with 0.
    destruct (deref_in (q_buf c) (slot (q_buf c) RFront 0)) as [v ->]; [done| |done].
    apply slot_range. lia.
Qed.

(** paired calls never abort.  Whatever the other thread does, a producer that
    pairs [PrepareInsert] with [FinishInsert] and a consumer that pairs [Front]
    with [KeepFront] or [DropFront] pass all checks of the class;
    [PrepareInsert] fails exactly when the queue is full and [Front] exactly when
    it is empty. *)
Theorem paired_calls_return (value_init : T) (capacity : Z) (c : qconfig) :
  in_u 64 capacity -> rtc qstep (qinitial value_init capacity) c ->
  let q := q_buf c in
  (q_w c = WIdle -> exists p q', PrepareInsert q = Returns (p, q')
     /\ (p = None <-> Z.of_nat (length (contents q (q_r c))) = capacity_ q))
  /\ (q_w c = WPrepared -> has_returned (FinishInsert q) = true)
  /\ (q_r c = RIdle -> exists p q', Front q = Returns (p, q')
     /\ (p = None <-> contents q RIdle = []))
  /\ (q_r c = RFront ->
       has_returned (KeepFront q) = true /\ has_returned (DropFront q) = true).
Proof.
  intros Hcap Hr q. destruct (reachable_fifo _ _ _ Hcap Hr) as [Hi _]. fold q in Hi.
  pose proof (qi_ins _ _ _ Hi) as Hins. pose proof (qi_acc _ _ _ Hi) as Hacc.
  split; [|split; [|split]]; intros Hp; rewrite Hp in *.
  - destruct (PrepareInsert q) as [[p q']|] eqn:E;
      [|unfold PrepareInsert in E; by rewrite Hins in E].
    exists p, q'. split; [done|]. by apply (prepare_inv _ _ _ _ Hi E).
  - unfold FinishInsert, finish_head. by rewrite Hins.
  - destruct (Front q) as [[p q']|] eqn:E; [|unfold Front in E; by rewrite Hacc in E].
    exists p, q'. split; [done|]. by apply (front_inv _ _ _ _ Hi E).
  - unfold KeepFront, DropFront, drop_size. by rewrite Hacc.
Qed.

End Interleaving.

(** ** Sequential use *)

Section Sequential.
Context {T : Type}.
Implicit Types (q : RtQueueBuffer T) (rq : RealtimeQueue T).

(** A queue between calls. *)
Definition idle q : Prop := qinv q WIdle RIdle.

(** [PrepareInsert], assignment, [FinishInsert] on a queue with room. *)
Lemma insert_steps q p q1 v :
  idle q -> PrepareInsert q = Returns (Some p, q1) ->
  exists q2, FinishInsert (store q1 p v) = Returns q2
    /\ idle q2 /\ contents q2 RIdle = contents q RIdle ++ [v]
    /\ capacity_ q2 = capacity_ q.
Proof.
  intros Hi Hp. destruct (prepare_inv _ _ _ _ Hi Hp) as (Hi1 & Hc1 & _ & Hx).
  assert (head_ q1 = p /\ capacity_ q1 = capacity_ q) as [<- Hcap].
  { rewrite (Hx p eq_refl). unfold PrepareInsert in Hp. rewrite (qi_ins _ _ _ Hi) in Hp.
    simpl in Hp. destruct (Full q); by simplify_eq. }
  destruct (write_inv _ _ v Hi1) as (Hi2 & Hc2 & Hv).
  destruct (finish_head (store q1 (head_ q1) v)) as [q3|] eqn:Hf;
    [|unfold finish_head in Hf; by rewrite (qi_ins _ _ _ Hi2) in Hf].
  destruct (finish_head_inv _ _ v _ Hi2 Hv Hf) as [Hi3 Hc3].
  destruct (increase_inv _ _ _ Hi3) as [Hi4 Hc4].
  exists (IncreaseSize q3). unfold FinishInsert. rewrite Hf.
  split; [done|]. split; [done|]. split.
  - by rewrite Hc4, Hc3, Hc2, Hc1.
  - unfold finish_head in Hf. rewrite (qi_ins _ _ _ Hi2) in Hf. by simplify_eq/=.
Qed.

(** Running the reset function on the prepared element does not matter to what is
    inserted. *)
Lemma prepare_cases rq :
  idle (rq_buffer rq) ->
  (Z.of_nat (length (contents (rq_buffer rq) RIdle)) = capacity_ (rq_buffer rq)
   /\ writer_PrepareInsert rq = Returns (None, rq))
  \/ (Z.of_nat (length (contents (rq_buffer rq) RIdle)) < capacity_ (rq_buffer rq)
      /\ exists p rq1, writer_PrepareInsert rq = Returns (Some p, rq1)
         /\ reset_function_ rq1 = reset_function_ rq
         /\ exists q1, PrepareInsert (rq_buffer rq) = Returns (Some p, q1)
         /\ forall v, store (rq_buffer rq1) p v = store q1 p v).
Proof.
  intros Hi. pose proof (contents_length _ _ _ Hi) as Hlen.
  pose proof (qi_size _ _ _ Hi) as Hs.
  unfold writer_PrepareInsert. destruct (PrepareInsert (rq_buffer rq)) as [[p q1]|] eqn:Hp;
    [|unfold PrepareInsert in Hp; by rewrite (qi_ins _ _ _ Hi) in Hp].
  destruct (prepare_inv _ _ _ _ Hi Hp) as (_ & _ & Hnone & _). destruct p as [p|]; simpl.
  - right. split; [destruct (decide (size_ (rq_buffer rq) = capacity_ (rq_buffer rq)));
      [exfalso; naive_solver lia|lia]|].
    eexists p, _. split; [done|]. split; [done|]. exists q1. split; [done|]. intros v.
    simpl. repeat case_match; try done. unfold store, set_buffer. simpl.
    by rewrite list_insert_insert_eq.
  - left. split; [naive_solver|]. unfold PrepareInsert in Hp.
    rewrite (qi_ins _ _ _ Hi) in Hp. simpl in Hp. destruct (Full _); simplify_eq.
    by destruct rq.
Qed.

(** [Insert] and the multi-writer [Insert] append to a queue that is not full
    and refuse, without any change, on a full one, whatever the reset function. *)
Theorem Insert_spec rq (item : T) :
  idle (rq_buffer rq) ->
  let full := Z.of_nat (length (contents (rq_buffer rq) RIdle)) = capacity_ (rq_buffer rq) in
  (full -> Insert rq item = Returns (false, rq)
     /\ multi_writer_Insert rq item
        = Returns (FormatStatus kResourceExhausted "RealtimeQueue capacity exhausted", rq))
  /\ (~ full -> exists rq', Insert rq item = Returns (true, rq')
     /\ multi_writer_Insert rq item = Returns (OkStatus, rq')
     /\ idle (rq_buffer rq')
     /\ contents (rq_buffer rq') RIdle = contents (rq_buffer rq) RIdle ++ [item]
     /\ capacity_ (rq_buffer rq') = capacity_ (rq_buffer rq)).
Proof.
  intros Hi full. unfold Insert, multi_writer_Insert.
  destruct (prepare_cases rq Hi) as [[Hf ->]|(Hlt & p & rq1 & -> & Hres & q1 & Hp & Hst)].
  - split; [done|]. intros []. done.
  - split; [intros ?; subst full; lia|]. intros _. simpl. rewrite Hst.
    destruct (insert_steps _ _ _ item Hi Hp) as (q2 & -> & ? & ? & ?). simpl. eauto 7.
Qed.

(** [Front] on a queue that is not empty. *)
Lemma front_some q v rest :
  idle q -> contents q RIdle = v :: rest ->
  exists q1, Front q = Returns (Some (tail_ q), q1) /\ qinv q1 WIdle RFront
    /\ contents q1 RFront = v :: rest /\ tail_ q1 = tail_ q /\ capacity_ q1 = capacity_ q.
Proof.
  intros Hi Hc. destruct (Front q) as [[p q1]|] eqn:Hf;
    [|unfold Front in Hf; by rewrite (qi_acc _ _ _ Hi) in Hf].
  destruct (front_inv _ _ _ _ Hi Hf) as (Hi1 & Hc1 & _ & Hnone & Hx).
  destruct p as [p|]; [|by destruct Hnone as [Hn _]; rewrite Hn in Hc].
  rewrite (Hx p eq_refl) in *. exists q1. rewrite Hc in Hc1.
  unfold Front in Hf. rewrite (qi_acc _ _ _ Hi) in Hf. simpl in Hf.
  destruct (Empty q); by simplify_eq.
Qed.

Lemma front_deref q v rest :
  qinv q WIdle RFront -> contents q RFront = v :: rest -> deref q (tail_ q) = Some v.
Proof.
  intros Hi Hc. pose proof (qi_some _ _ _ Hi eq_refl). pose proof (qi_size _ _ _ Hi).
  pose proof (qi_tail _ _ _ Hi ltac:(lia)).
  destruct (deref_in q (tail_ q)) as [x Hx]; [apply Hi|done|].
  destruct (drop_size q) as [q2|] eqn:Hd; [|unfold drop_size in Hd; by rewrite (qi_acc _ _ _ Hi) in Hd].
  destruct (drop_size_inv _ _ _ _ Hi Hx Hd) as [_ Hc2]. rewrite Hx. congruence.
Qed.

(** [DropFront] after [Front]. *)
Lemma drop_front q v rest :
  qinv q WIdle RFront -> contents q RFront = v :: rest ->
  exists q', DropFront q = Returns q' /\ idle q' /\ contents q' RIdle = rest
    /\ capacity_ q' = capacity_ q.
Proof.
  intros Hi Hc. pose proof (front_deref _ _ _ Hi Hc) as Hx. unfold DropFront.
  destruct (drop_size q) as [q2|] eqn:Hd; [|unfold drop_size in Hd; by rewrite (qi_acc _ _ _ Hi) in Hd].
  destruct (drop_size_inv _ _ _ _ Hi Hx Hd) as [Hi2 Hc2].
  destruct (drop_tail_inv _ _ Hi2) as [Hi3 Hc3].
  exists (drop_tail q2). split; [done|]. split; [done|]. split; [congruence|].
  unfold drop_size in Hd. rewrite (qi_acc _ _ _ Hi) in Hd. by simplify_eq/=.
Qed.

(** Assigning through the pointer of [Front] changes the first element only. *)
Lemma store_front q v rest x :
  qinv q WIdle RFront -> contents q RFront = v :: rest ->
  qinv (store q (tail_ q) x) WIdle RFront
  /\ contents (store q (tail_ q) x) RFront = x :: rest.
Proof.
  intros Hi Hc. pose proof (front_deref _ _ _ Hi Hc) as Hx.
  pose proof Hi as [Hcap Hb Hs Hroom Hsome Hdrop Ht Hh Hins Hacc Hpend].
  specialize (Hsome eq_refl). specialize (Ht ltac:(lia)).
  set (q' := store q (tail_ q) x).
  assert (slot q RFront 0 = tail_ q) as Hs0.
  { unfold slot. simpl. rewrite !Z.add_0_r. by apply Z.mod_small. }
  assert (forall y : RtQueueBuffer T, capacity_ y = capacity_ q -> tail_ y = tail_ q ->
    forall k, slot (set_size y (size_ q - 1)) RDropped k = slot q RFront (k + 1)) as Hsl.
  { intros y Hy1 Hy2 k. unfold slot. simpl. rewrite Hy1, Hy2. f_equal. lia. }
  split; [split; simpl; auto; try done; by rewrite length_insert|].
  rewrite (contents_cons q' RFront (set_size q' (size_ q - 1)) RDropped x).
  - f_equal. rewrite (contents_cons q RFront (set_size q (size_ q - 1)) RDropped v) in Hc;
      simpl; try lia.
    + injection Hc as <-. apply contents_ext; [done|]. simpl. intros k Hk.
      rewrite !Hsl by done. change (deref q' (slot q RFront (k + 1)) = deref q (slot q RFront (k + 1))).
      apply deref_store_ne; [lia|apply slot_range; lia|].
      rewrite <-Hs0. intros Heq. apply ring_inj in Heq; lia.
    + intros k. by rewrite Hsl.
    + by rewrite Hs0.
  - simpl. lia.
  - simpl. lia.
  - intros k. by rewrite Hsl.
  - change (slot q' RFront 0) with (slot q RFront 0). rewrite Hs0. by apply deref_store_eq.
Qed.

(** [Pop] returns the oldest element and removes it, and [nullopt] exactly on an
    empty queue. *)
Theorem Pop_spec q :
  idle q ->
  match contents q RIdle with
  | [] => Pop q = Returns (None, q)
  | v :: rest => exists q', Pop q = Returns (Some v, q') /\ idle q' /\ contents q' RIdle = rest
  end.
Proof.
  intros Hi. unfold Pop. destruct (contents q RIdle) as [|v rest] eqn:Hc.
  - pose proof (contents_length _ _ _ Hi) as Hl. rewrite Hc in Hl. simpl in Hl.
    unfold Front, Empty. rewrite (qi_acc _ _ _ Hi). simpl.
    by rewrite bool_decide_true by lia.
  - destruct (front_some _ _ _ Hi Hc) as (q1 & -> & Hi1 & Hc1 & Ht & _). simpl.
    rewrite <-Ht, (front_deref _ _ _ Hi1 Hc1).
    destruct (drop_front _ _ _ Hi1 Hc1) as (q' & -> & ? & ? & _). simpl. eauto.
Qed.

(** on an empty queue [DropFront] is not the documented no-op: it aborts. *)
Theorem DropFront_empty_aborts q :
  idle q -> contents q RIdle = [] ->
  DropFront q = Aborts "Front must be called before DropFront.".
Proof.
  intros Hi _. unfold DropFront, drop_size. by rewrite (qi_acc _ _ _ Hi).
Qed.

End Sequential.

(** ** A queue of two elements *)

Definition q0 : RtQueueBuffer Z := new_RtQueueBuffer 0 2.

Lemma q0_idle : idle q0.
Proof. apply new_inv. evaluate. Qed.

(** The producer has inserted 7 and holds the next element; the consumer looks at
    the front. *)
Definition busy : qconfig (T := Z) :=
  mkQConfig (mkRtQueueBuffer true 1 true 0 1 2 [7; 0]) WPrepared RFront [7] [].

Lemma busy_reachable : rtc qstep (qinitial 0 2) busy.
Proof.
  eapply rtc_l; [by apply w_prepare|]. simpl.
  eapply rtc_l; [by apply (w_write _ _ _ _ 7)|].
  eapply rtc_l; [by eapply w_head|].
  eapply rtc_l; [by apply w_size|].
  eapply rtc_l; [by apply r_front|]. simpl.
  eapply rtc_l; [by apply w_prepare|]. apply rtc_refl.
Qed.

Lemma queue_is_fifo_witness : [7] = [] ++ contents (q_buf busy) RFront.
Proof. apply (queue_is_fifo 0 2 busy); [evaluate|apply busy_reachable]. Defined.

Lemma pointers_disjoint_witness : head_ (q_buf busy) <> tail_ (q_buf busy).
Proof.
  apply (pointers_disjoint 0 2 busy);
    [evaluate|apply busy_reachable|reflexivity|reflexivity].
Defined.

Lemma paired_calls_return_witness : has_returned (FinishInsert (q_buf busy)) = true.
Proof. apply (paired_calls_return 0 2 busy); [evaluate|apply busy_reachable|reflexivity]. Defined.

Lemma Insert_spec_witness :
  exists rq', Insert (mkRealtimeQueue q0 (Some (fun _ => 0))) 7 = Returns (true, rq')
    /\ contents (rq_buffer rq') RIdle = [7].
Proof.
  destruct (Insert_spec (mkRealtimeQueue q0 (Some (fun _ => 0))) 7 q0_idle) as [_ H].
  destruct H as (rq' & H1 & _ & _ & H2 & _); [discriminate|]. exists rq'.
  exact (conj H1 H2).
Defined.

Lemma Pop_spec_witness : Pop q0 = Returns (None, q0).
Proof. exact (Pop_spec q0 q0_idle). Defined.

Lemma DropFront_empty_aborts_witness :
  DropFront q0 = Aborts "Front must be called before DropFront.".
Proof. apply (DropFront_empty_aborts q0 q0_idle). reflexivity. Defined.
