(* ===== verification/MultiWriter.v ===== *)
(** * Several producers on a realtime queue
    ([platform/common/buffers/rt_queue_multi_writer.h])

    [RealtimeQueueMultiWriter] lets any number of threads insert into a queue whose writer
    is made for one thread: [Insert] holds [mutex_] from [PrepareInsert] to [FinishInsert].
    Each call is split at its accesses to the mutex and to the buffer, and interleaves
    with the other producers and with the consumer, which takes no lock.  The proofs map
    such a run to a run of one producer and one consumer of [RtQueueProofs]. *)
From S2P Require Import Prelude Status RtQueue RtQueueProofs.

Section MultiWriter.
Context {T : Type}.
Implicit Types (q : RtQueueBuffer T) (v : T).

(** ** Producers *)

(** Where a thread is in [Insert(value)]; [MUnlock] holds the result, and [MAborted] is a
    failed check of the queue. *)
Inductive mpc :=
| MIdle
| MLock (v : T)
| MPrepare (v : T)
| MReset (v : T) (queue_item : Z)
| MStore (v : T) (queue_item : Z)
| MHead (v : T)
| MSize (v : T)
| MUnlock (v : T) (st : Status)
| MAborted.

(** The queue and its mutex; the consumer; the values inserted, with their producers, and
    dropped so far; the calls of [Insert] that have returned. *)
Record mconfig := mkMConfig {
  m_queue : RealtimeQueue T;
  m_mutex : option nat;
  m_pcs : list mpc;
  m_r : rphase;
  m_in : list (nat * T);
  m_out : list T;
  m_returned : list (nat * T * Status) }.

Definition capacity_exhausted : Status :=
  FormatStatus kResourceExhausted "RealtimeQueue capacity exhausted".

Definition m_buf (c : mconfig) : RtQueueBuffer T := rq_buffer (m_queue c).

(** A change of the buffer and of the place of thread [i]. *)
Definition m_set (c : mconfig) (q : RtQueueBuffer T) (i : nat) (p : mpc) : mconfig :=
  mkMConfig (mkRealtimeQueue q (reset_function_ (m_queue c))) (m_mutex c) (<[i := p]> (m_pcs c))
    (m_r c) (m_in c) (m_out c) (m_returned c).

(** [reset_function_(element)] of the writer *)
Definition reset_element (r : RealtimeQueue T) (element : Z) : RtQueueBuffer T :=
  match reset_function_ r, deref (rq_buffer r) element with
  | Some f, Some v => store (rq_buffer r) element (f v)
  | _, _ => rq_buffer r
  end.

(** The next step of [Insert] by thread [i]; [None] while it waits for the mutex. *)
Definition insert_step (c : mconfig) (i : nat) : option mconfig :=
  match m_pcs c !! i with
  | Some (MLock v) =>
      match m_mutex c with
      | Some _ => None
      | None => Some (mkMConfig (m_queue c) (Some i) (<[i := MPrepare v]> (m_pcs c)) (m_r c)
                        (m_in c) (m_out c) (m_returned c))
      end
  | Some (MPrepare v) =>
      Some (match PrepareInsert (m_buf c) with
            | Returns (None, q) => m_set c q i (MUnlock v capacity_exhausted)
            | Returns (Some queue_item, q) => m_set c q i (MReset v queue_item)
            | Aborts _ => m_set c (m_buf c) i MAborted
            end)
  | Some (MReset v queue_item) => Some (m_set c (reset_element (m_queue c) queue_item) i (MStore v queue_item))
  | Some (MStore v queue_item) => Some (m_set c (store (m_buf c) queue_item v) i (MHead v))
  | Some (MHead v) =>
      Some (match finish_head (m_buf c) with
            | Returns q => m_set c q i (MSize v)
            | Aborts _ => m_set c (m_buf c) i MAborted
            end)
  | Some (MSize v) =>
      let c' := m_set c (IncreaseSize (m_buf c)) i (MUnlock v OkStatus) in
      Some (mkMConfig (m_queue c') (m_mutex c') (m_pcs c') (m_r c') (m_in c ++ [(i, v)]) (m_out c')
              (m_returned c'))
  | Some (MUnlock v st) =>
      Some (mkMConfig (m_queue c) None (<[i := MIdle]> (m_pcs c)) (m_r c) (m_in c) (m_out c)
              (m_returned c ++ [(i, v, st)]))
  | _ => None
  end.

Definition insert_begin (c : mconfig) (i : nat) (v : T) : mconfig := m_set c (m_buf c) i (MLock v).

(** ** The consumer *)

Inductive raction := AFront | AKeep | ADrop | ATail.

Definition read_step (c : mconfig) (a : raction) : option mconfig :=
  let next q r out :=
    mkMConfig (mkRealtimeQueue q (reset_function_ (m_queue c))) (m_mutex c) (m_pcs c) r (m_in c) out
      (m_returned c) in
  match a, m_r c with
  | AFront, RIdle =>
      match Front (m_buf c) with
      | Returns (p, q) => Some (next q (match p with Some _ => RFront | None => RIdle end) (m_out c))
      | Aborts _ => None
      end
  | AKeep, RFront =>
      match KeepFront (m_buf c) with Returns q => Some (next q RIdle (m_out c)) | Aborts _ => None end
  | ADrop, RFront =>
      match drop_size (m_buf c), deref (m_buf c) (tail_ (m_buf c)) with
      | Returns q, Some v => Some (next q RDropped (m_out c ++ [v]))
      | _, _ => None
      end
  | ATail, RDropped => Some (next (drop_tail (m_buf c)) RIdle (m_out c))
  | _, _ => None
  end.

Inductive mstep : mconfig -> mconfig -> Prop :=
| mstep_begin c i v : m_pcs c !! i = Some MIdle -> mstep c (insert_begin c i v)
| mstep_insert c i c' : insert_step c i = Some c' -> mstep c c'
| mstep_read c a c' : read_step c a = Some c' -> mstep c c'.

Definition m_initial (value_init : T) (capacity : Z) (reset : option (T -> T)) (n : nat) : mconfig :=
  mkMConfig (mkRealtimeQueue (new_RtQueueBuffer value_init capacity) reset) None (replicate n MIdle)
    RIdle [] [] [].

(** ** The invariant *)

(** The threads that hold the mutex, and the phase of the one producer they stand for. *)
Definition holds (p : mpc) : bool :=
  match p with MIdle | MLock _ => false | _ => true end.
Definition phase_of (p : mpc) : wphase (T := T) :=
  match p with
  | MReset _ _ | MStore _ _ | MHead _ => WPrepared
  | MSize v => WHead v
  | _ => WIdle
  end.
Definition holder (c : mconfig) : mpc :=
  match m_mutex c with Some i => default MIdle (m_pcs c !! i) | None => MIdle end.

(** The run of one producer that the configuration stands for. *)
Definition project (c : mconfig) : qconfig :=
  mkQConfig (m_buf c) (phase_of (holder c)) (m_r c) (m_in c).*2 (m_out c).

(** The values of producer [i]: inserted, accepted by a call that has returned, accepted
    by the call in progress. *)
Definition inserted_by (i : nat) (l : list (nat * T)) : list T :=
  omap (fun '(j, v) => if decide (j = i) then Some v else None) l.
Definition accepted_for (i : nat) (l : list (nat * T * Status)) : list T :=
  omap (fun '(j, v, st) => if decide (j = i /\ status_ok st = true) then Some v else None) l.
Definition pending (p : mpc) : list T :=
  match p with MUnlock v st => if status_ok st then [v] else [] | _ => [] end.

(** What the holder knows about the element it fills. *)
Definition item_ok q (p : mpc) : Prop :=
  match p with
  | MReset _ x | MStore _ x => x = head_ q
  | MHead v => deref q (head_ q) = Some v
  | MAborted => False
  | _ => True
  end.

Record minv (c : mconfig) : Prop := mkMInv {
  mi_lock i p : m_pcs c !! i = Some p -> (holds p = true <-> m_mutex c = Some i);
  mi_fifo : fifo (project c);
  mi_item i p : m_pcs c !! i = Some p -> item_ok (m_buf c) p;
  mi_done i p : m_pcs c !! i = Some p ->
    inserted_by i (m_in c) = accepted_for i (m_returned c) ++ pending p }.

Lemma holder_is c i p : m_mutex c = Some i -> m_pcs c !! i = Some p -> holder c = p.
Proof. intros Hm Hi. unfold holder. by rewrite Hm, Hi. Qed.

(** The producer that the holder stands for. *)
Lemma project_holder c i p :
  minv c -> m_pcs c !! i = Some p -> holds p = true ->
  m_mutex c = Some i /\ fifo (mkQConfig (m_buf c) (phase_of p) (m_r c) (m_in c).*2 (m_out c)).
Proof.
  intros Hinv Hi Hp. pose proof Hinv as [Hl Hf _ _]. assert (m_mutex c = Some i) as Hm by (by apply (Hl i p)).
  split; [done|]. unfold project in Hf. by rewrite (holder_is c i p Hm Hi) in Hf.
Qed.

Lemma outside_item q p : holds p = false -> item_ok q p.
Proof. by destruct p. Qed.

Lemma other_outside c i j p p' :
  minv c -> m_pcs c !! i = Some p -> holds p = true -> m_pcs c !! j = Some p' -> j <> i -> holds p' = false.
Proof.
  intros [Hl _ _ _] Hi Hp Hj Hne. destruct (holds p') eqn:E; [|done]. exfalso.
  apply (Hl _ _ Hi) in Hp. apply (Hl _ _ Hj) in E. congruence.
Qed.

(** A step of the holder that keeps the mutex. *)
Lemma holder_moves c q i p p' inn :
  minv c -> m_pcs c !! i = Some p -> holds p = true -> holds p' = true ->
  fifo (mkQConfig q (phase_of p') (m_r c) inn.*2 (m_out c)) -> item_ok q p' ->
  (forall j, inserted_by j inn = inserted_by j (m_in c) ++ (if decide (j = i) then pending p' else [])) ->
  pending p = [] ->
  minv (mkMConfig (mkRealtimeQueue q (reset_function_ (m_queue c))) (m_mutex c) (<[i := p']> (m_pcs c))
          (m_r c) inn (m_out c) (m_returned c)).
Proof.
  intros Hinv Hi Hp Hp' Hf Hok Hin Hpe. pose proof Hinv as [Hl _ Hit Hd].
  destruct (project_holder c i p Hinv Hi Hp) as [Hm _].
  assert (i < length (m_pcs c))%nat as Hlt by (by eapply lookup_lt_Some).
  split; cbn [m_pcs m_mutex m_in m_returned].
  - intros j x Hj. apply list_lookup_insert_Some in Hj as [(<- & <- & _)|[_ Hj]]; [by rewrite Hp', Hm|by apply Hl].
  - unfold project. erewrite holder_is; [exact Hf|exact Hm|]. by apply list_lookup_insert_eq.
  - intros j x Hj. apply list_lookup_insert_Some in Hj as [(<- & <- & _)|[Hne Hj]]; [done|].
    by eapply outside_item, (other_outside c i j).
  - intros j x Hj. rewrite Hin. apply list_lookup_insert_Some in Hj as [(<- & <- & _)|[Hne Hj]].
    + rewrite decide_True by done. by rewrite (Hd _ _ Hi), Hpe, app_nil_r.
    + rewrite decide_False, app_nil_r by done. by apply Hd.
Qed.

Lemma holder_moves_silent c q i p p' :
  minv c -> m_pcs c !! i = Some p -> holds p = true -> holds p' = true ->
  fifo (mkQConfig q (phase_of p') (m_r c) (m_in c).*2 (m_out c)) -> item_ok q p' ->
  pending p' = [] -> pending p = [] -> minv (m_set c q i p').
Proof.
  intros Hinv Hi Hp Hp' Hf Hok E' E. apply (holder_moves c q i p); try done.
  intros j. case_decide; by rewrite ?E', app_nil_r.
Qed.

(** A step outside of the critical section. *)
Lemma outside_moves c i p p' :
  minv c -> m_pcs c !! i = Some p -> holds p = false -> holds p' = false ->
  minv (m_set c (m_buf c) i p').
Proof.
  intros [Hl Hf Hit Hd] Hi Hp Hp'. assert (m_mutex c <> Some i) as Hm by (intros E; apply (Hl _ _ Hi) in E; congruence).
  split; cbn [m_set m_pcs m_mutex m_in m_returned].
  - intros j x Hj. apply list_lookup_insert_Some in Hj as [(<- & <- & _)|[_ Hj]]; [|by apply Hl].
    rewrite Hp'. split; [done|by intros E].
  - unfold project in *. replace (holder (m_set c (m_buf c) i p')) with (holder c); [exact Hf|].
    unfold holder. cbn [m_set m_mutex m_pcs]. destruct (m_mutex c) as [k|]; [|done].
    rewrite list_lookup_insert_ne; [done|congruence].
  - intros j x Hj. apply list_lookup_insert_Some in Hj as [(<- & <- & _)|[_ Hj]];
      [by apply outside_item|by eapply Hit].
  - intros j x Hj. apply list_lookup_insert_Some in Hj as [(<- & <- & _)|[_ Hj]]; [|by apply Hd].
    rewrite (Hd _ _ Hi). by destruct p, p'.
Qed.

(** Waiting for the mutex, and releasing it. *)
Lemma lock_inv c i v :
  minv c -> m_pcs c !! i = Some (MLock v) -> m_mutex c = None ->
  minv (mkMConfig (m_queue c) (Some i) (<[i := MPrepare v]> (m_pcs c)) (m_r c) (m_in c) (m_out c) (m_returned c)).
Proof.
  intros [Hl Hf Hit Hd] Hi Hm. assert (i < length (m_pcs c))%nat as Hlt by (by eapply lookup_lt_Some).
  split; cbn [m_pcs m_mutex m_in m_returned].
  - intros j x Hj. apply list_lookup_insert_Some in Hj as [(<- & <- & _)|[Hne Hj]]; [done|].
    rewrite (Hl _ _ Hj), Hm. split; intros E; congruence.
  - unfold project in *. erewrite holder_is; [|done|by apply list_lookup_insert_eq].
    unfold holder in Hf. by rewrite Hm in Hf.
  - intros j x Hj. apply list_lookup_insert_Some in Hj as [(<- & <- & _)|[_ Hj]]; [done|by eapply Hit].
  - intros j x Hj. apply list_lookup_insert_Some in Hj as [(<- & <- & _)|[_ Hj]]; [|by apply Hd].
    by rewrite (Hd _ _ Hi).
Qed.

Lemma unlock_inv c i v st :
  minv c -> m_pcs c !! i = Some (MUnlock v st) ->
  minv (mkMConfig (m_queue c) None (<[i := MIdle]> (m_pcs c)) (m_r c) (m_in c) (m_out c)
          (m_returned c ++ [(i, v, st)])).
Proof.
  intros Hinv Hi. destruct (project_holder c i _ Hinv Hi eq_refl) as [Hm Hf]. pose proof Hinv as [Hl _ Hit Hd].
  split; cbn [m_pcs m_mutex m_in m_returned].
  - intros j x Hj. apply list_lookup_insert_Some in Hj as [(<- & <- & _)|[Hne Hj]]; [done|].
    rewrite (Hl _ _ Hj), Hm. split; intros E; congruence.
  - done.
  - intros j x Hj. apply list_lookup_insert_Some in Hj as [(<- & <- & _)|[_ Hj]]; [done|by eapply Hit].
  - intros j x Hj. unfold accepted_for. rewrite omap_app.
    apply list_lookup_insert_Some in Hj as [(<- & <- & _)|[Hne Hj]].
    + rewrite (Hd _ _ Hi), app_nil_r. f_equal. simpl. destruct (status_ok st) eqn:E.
      * rewrite decide_True; done.
      * rewrite decide_False; [done|]. by intros [_ ?].
    + rewrite (Hd _ _ Hj). simpl. rewrite decide_False by (intros [? _]; congruence). by rewrite app_nil_r.
Qed.

(** [reset_function_] writes to the prepared element or does nothing. *)
Lemma reset_fifo (r : RealtimeQueue T) rd inn out :
  fifo (mkQConfig (rq_buffer r) WPrepared rd inn out) ->
  fifo (mkQConfig (reset_element r (head_ (rq_buffer r))) WPrepared rd inn out)
  /\ head_ (reset_element r (head_ (rq_buffer r))) = head_ (rq_buffer r).
Proof.
  intros Hf. unfold reset_element. destruct (reset_function_ r) as [f|]; [|done].
  destruct (deref (rq_buffer r) _) as [v|]; [|done]. split; [|done]. eapply fifo_step; [exact Hf|]. constructor.
Qed.

Lemma inserted_by_app j l1 l2 : inserted_by j (l1 ++ l2) = inserted_by j l1 ++ inserted_by j l2.
Proof. apply omap_app. Qed.

Lemma insert_step_inv c i c' : minv c -> insert_step c i = Some c' -> minv c'.
Proof.
  intros Hinv Hs. unfold insert_step in Hs. destruct (m_pcs c !! i) as [p|] eqn:Hi; [|done].
  destruct p as [|v|v|v x|v x|v|v|v st|]; try done.
  1: { destruct (m_mutex c) eqn:Hm; [done|]. injection Hs as <-. by apply lock_inv. }
  6: { injection Hs as <-. by apply unlock_inv. }
  all: destruct (project_holder c i _ Hinv Hi eq_refl) as [Hm Hf]; pose proof (mi_item c Hinv _ _ Hi) as Hit;
    pose proof (qi_ins _ _ _ (f_inv _ Hf)) as Hins; cbn in Hf, Hit, Hins; injection Hs as <-.
  - destruct (PrepareInsert (m_buf c)) as [[[x|] q]|] eqn:Hp.
    + pose proof Hp as Hx. apply (prepare_inv _ _ _ _ (f_inv _ Hf)) in Hx as (_ & _ & _ & Hx).
      eapply holder_moves_silent; try done; [by eapply (fifo_step _ _ Hf), (w_prepare _ (Some x))|].
      cbn. rewrite (Hx x eq_refl). unfold PrepareInsert in Hp. rewrite Hins in Hp. simpl in Hp.
      destruct (Full _); by simplify_eq.
    + eapply holder_moves_silent; try done. by eapply (fifo_step _ _ Hf), (w_prepare _ None).
    + unfold PrepareInsert in Hp. by rewrite Hins in Hp.
  - subst x. destruct (reset_fifo _ _ _ _ Hf) as [Hf' Hh]. by eapply holder_moves_silent.
  - subst x. destruct (write_inv _ _ v (f_inv _ Hf)) as (_ & _ & Hv).
    eapply holder_moves_silent; try done. eapply (fifo_step _ _ Hf). constructor.
  - destruct (finish_head (m_buf c)) as [q|] eqn:Hp; [|unfold finish_head in Hp; by rewrite Hins in Hp].
    eapply holder_moves_silent; try done. eapply (fifo_step _ _ Hf). by constructor.
  - eapply holder_moves; try done.
    + rewrite fmap_app. eapply (fifo_step _ _ Hf). constructor.
    + intros j. rewrite inserted_by_app. f_equal. cbn. destruct (decide (i = j)), (decide (j = i)); (done || congruence).
Qed.

(** The consumer does not touch what the producers know. *)
Lemma read_keeps c c' q r out :
  minv c -> fifo (mkQConfig q (phase_of (holder c)) r (m_in c).*2 out) ->
  head_ q = head_ (m_buf c) -> buffer_ q = buffer_ (m_buf c) ->
  c' = mkMConfig (mkRealtimeQueue q (reset_function_ (m_queue c))) (m_mutex c) (m_pcs c) r (m_in c) out
         (m_returned c) -> minv c'.
Proof.
  intros [Hl Hf Hit Hd] Hf' Hh Hb ->. split; [done|exact Hf'| |done].
  intros i p Hi. specialize (Hit i p Hi). destruct p; try done; cbn in *; unfold deref in *; by rewrite ?Hh, ?Hb.
Qed.

Lemma read_step_inv c a c' : minv c -> read_step c a = Some c' -> minv c'.
Proof.
  intros Hinv Hs. pose proof (mi_fifo c Hinv) as Hf. unfold project in Hf.
  unfold read_step in Hs. destruct a, (m_r c) eqn:Hr; try done.
  - destruct (Front (m_buf c)) as [[p q]|] eqn:E; [|done]. injection Hs as <-.
    refine (read_keeps c _ q _ _ Hinv (fifo_step _ _ Hf (r_front _ _ _ _ _ _ E)) _ _ eq_refl);
      unfold Front in E; destruct (front_accessed_ _), (Empty _); by simplify_eq/=.
  - destruct (KeepFront (m_buf c)) as [q|] eqn:E; [|done]. injection Hs as <-.
    refine (read_keeps c _ q _ _ Hinv (fifo_step _ _ Hf (r_keep _ _ _ _ _ E)) _ _ eq_refl);
      unfold KeepFront in E; destruct (front_accessed_ _); by simplify_eq/=.
  - destruct (drop_size (m_buf c)) as [q|] eqn:E; [|done].
    destruct (deref _ _) as [v|] eqn:Hv; [|done]. injection Hs as <-.
    refine (read_keeps c _ q _ _ Hinv (fifo_step _ _ Hf (r_drop _ _ _ _ _ _ Hv E)) _ _ eq_refl);
      unfold drop_size in E; destruct (front_accessed_ _); by simplify_eq/=.
  - injection Hs as <-. by refine (read_keeps c _ _ _ _ Hinv (fifo_step _ _ Hf (r_tail _ _ _ _)) _ _ eq_refl).
Qed.

Lemma m_reachable value_init capacity reset n c :
  in_u 64 capacity -> rtc mstep (m_initial value_init capacity reset n) c -> minv c.
Proof.
  intros Hcap Hr. eapply rtc_invariant; [|clear Hr|exact Hr].
  - intros a b Ha Hs. destruct Hs as [a i v Hi|a i b Hb|a x b Hb];
      [by eapply outside_moves|by eapply insert_step_inv|by eapply read_step_inv].
  - split; cbn; [|split; [by apply new_inv|done]|..]; intros i p [-> _]%lookup_replicate; done.
Qed.

(** C6: Several producers make one FIFO queue.  In every interleaving of any number of
    threads that call [Insert] with one consumer, access by access: (1) the values
    inserted by all producers, in the order of their insertion, are the values dropped so
    far followed by the contents of the queue, which never exceed the capacity; (2) for
    every producer the values it inserted are, in order, those for which [Insert] has
    returned OK, and possibly the one of a call that is about to return OK; (3) two
    producers never hold the mutex at the same time; (4) [Insert] is refused exactly if
    the queue is full at that moment; (5) no check of the queue fails in a producer. *)
Theorem multi_writer_fifo (value_init : T) (capacity : Z) (reset : option (T -> T)) (n : nat) (c : mconfig) :
  in_u 64 capacity -> rtc mstep (m_initial value_init capacity reset n) c ->
  ((m_in c).*2 = m_out c ++ contents (m_buf c) (m_r c) /\ Size (m_buf c) <= Capacity (m_buf c))
  /\ (forall i p, m_pcs c !! i = Some p ->
       inserted_by i (m_in c) = accepted_for i (m_returned c) ++ pending p)
  /\ (forall i j p p', m_pcs c !! i = Some p -> m_pcs c !! j = Some p' ->
       holds p = true -> holds p' = true -> i = j)
  /\ (forall i v, m_pcs c !! i = Some (MPrepare v) ->
       exists c' p, insert_step c i = Some c' /\ m_pcs c' !! i = Some p
         /\ (p = MUnlock v capacity_exhausted <->
             Z.of_nat (length (contents (m_buf c) (m_r c))) = capacity_ (m_buf c)))
  /\ (forall i, m_pcs c !! i <> Some MAborted).
Proof.
  intros Hcap Hr. pose proof (m_reachable _ _ _ _ _ Hcap Hr) as Hinv. pose proof Hinv as [Hl Hf Hit Hd].
  split; [destruct Hf as [Hi Hq]; split; [exact Hq|apply Hi]|]. split; [done|]. split.
  { intros i j p p' Hi Hj Hp Hp'. destruct (decide (i = j)) as [|Hne]; [done|].
    by rewrite (other_outside c i j p p') in Hp'. }
  split; [|intros i Hi; by apply Hit in Hi].
  intros i v Hi. assert (i < length (m_pcs c))%nat as Hlt by (by eapply lookup_lt_Some).
  destruct (project_holder c i _ Hinv Hi eq_refl) as [_ [Hq _]]. cbn in Hq.
  pose proof (qi_ins _ _ _ Hq) as Hins. unfold insert_step. rewrite Hi.
  destruct (PrepareInsert (m_buf c)) as [[x q]|] eqn:Hp; [|unfold PrepareInsert in Hp; by rewrite Hins in Hp].
  apply (prepare_inv _ _ _ _ Hq) in Hp as (_ & _ & Hfull & _).
  destruct x as [x|]; (eexists _, _; split; [done|]; split; [by apply list_lookup_insert_eq|]); naive_solver.
Qed.

(** ** One call without interruption *)

Fixpoint solo (n : nat) (c : mconfig) (i : nat) : option mconfig :=
  match n with O => Some c | S n => c' ← insert_step c i; solo n c' i end.

Lemma solo_S n c c1 c' i : insert_step c i = Some c1 -> solo n c1 i = Some c' -> solo (S n) c i = Some c'.
Proof. intros H1 H2. cbn. by rewrite H1. Qed.

(** One step of thread [i], whose place is known. *)
Ltac solo_step Hlt :=
  eapply solo_S; [unfold insert_step, m_set, m_buf; cbn [m_pcs m_queue rq_buffer];
                  rewrite list_lookup_insert_eq by (rewrite ?length_insert; exact Hlt); reflexivity|].

(** The steps of a call that holds the mutex make up [multi_writer_Insert]. *)
Lemma solo_is_Insert c i v st r :
  m_pcs c !! i = Some (MPrepare v) -> multi_writer_Insert (m_queue c) v = Returns (st, r) ->
  exists n c', solo n c i = Some c' /\ m_queue c' = r /\ m_pcs c' !! i = Some (MUnlock v st).
Proof.
  intros Hi Hins. assert (i < length (m_pcs c))%nat as Hlt by (by eapply lookup_lt_Some).
  unfold multi_writer_Insert, writer_PrepareInsert in Hins.
  destruct (PrepareInsert (rq_buffer (m_queue c))) as [[[x|] q]|] eqn:Hp; [| |done]; cbn in Hins.
  - unfold FinishInsert in Hins. destruct (finish_head _) as [q2|] eqn:Hf; [|done]. cbn in Hins. injection Hins as <- <-.
    exists 5%nat. eexists. split.
    + eapply solo_S; [unfold insert_step, m_buf; rewrite Hi, Hp; reflexivity|].
      solo_step Hlt. solo_step Hlt.
      eapply solo_S; [unfold insert_step, m_set, m_buf; cbn [m_pcs m_queue rq_buffer];
        rewrite list_lookup_insert_eq by (rewrite ?length_insert; exact Hlt);
        unfold reset_element; cbn [reset_function_ rq_buffer]; rewrite Hf; reflexivity|].
      solo_step Hlt. reflexivity.
    + split; [done|]. by apply list_lookup_insert_eq; rewrite !length_insert.
  - injection Hins as <- <-. exists 1%nat. eexists. split.
    + eapply solo_S; [unfold insert_step, m_buf; rewrite Hi, Hp; reflexivity|reflexivity].
    + split; [done|]. by apply list_lookup_insert_eq.
Qed.
End MultiWriter.
Arguments mconfig : clear implicits.
Arguments mpc : clear implicits.

(** ** A run *)

(** Who does something: a call begins, or the thread or the consumer goes on. *)
Inductive mturn := MBegin (i v : nat) | MRun (i : nat) | MRead (a : raction).
Definition m_turn (c : mconfig nat) (t : mturn) : option (mconfig nat) :=
  match t with
  | MBegin i v => match m_pcs c !! i with Some MIdle => Some (insert_begin c i v) | _ => None end
  | MRun i => insert_step c i
  | MRead a => read_step c a
  end.
Fixpoint m_schedule (c : mconfig nat) (l : list mturn) : option (mconfig nat) :=
  match l with [] => Some c | t :: l => c ← m_turn c t; m_schedule c l end.

Lemma m_schedule_reachable c l c' : m_schedule c l = Some c' -> rtc mstep c c'.
Proof.
  revert c. induction l as [|t l IH]; intros c Hs; [by simplify_eq/=; apply rtc_refl|]. cbn in Hs.
  destruct (m_turn c t) as [c1|] eqn:Ht; [|done]. eapply rtc_l; [|by apply IH].
  destruct t as [i v|i|a]; cbn in Ht; [|by eapply mstep_insert|by eapply mstep_read].
  destruct (m_pcs c !! i) as [[]|] eqn:Hi; simplify_eq/=. by constructor.
Qed.

(** Two producers on a queue of one element; the second one has to wait for the mutex,
    and then finds the queue full. *)
Definition ex_multi_turns : list mturn :=
  [MBegin 0 7%nat; MBegin 1 8%nat] ++ [MRun 0; MRun 0; MRun 0; MRun 0; MRun 0; MRun 0; MRead AFront; MRun 0]
  ++ [MRun 1; MRun 1; MRead ADrop; MRun 1; MRead ATail].
Definition ex_multi : mconfig nat :=
  default (m_initial 0%nat 1 None 2) (m_schedule (m_initial 0%nat 1 None 2) ex_multi_turns).

Lemma ex_multi_reachable : rtc mstep (m_initial 0%nat 1 None 2) ex_multi.
Proof. apply (m_schedule_reachable _ ex_multi_turns). vm_compute. reflexivity. Qed.

Lemma multi_writer_fifo_witness :
  (m_in ex_multi).*2 = m_out ex_multi ++ contents (m_buf ex_multi) (m_r ex_multi)
  /\ m_out ex_multi = [7%nat]
  /\ m_returned ex_multi = [(0%nat, 7%nat, OkStatus); (1%nat, 8%nat, capacity_exhausted)].
Proof.
  split; [|split; vm_compute; reflexivity].
  apply (multi_writer_fifo 0%nat 1 None 2 ex_multi); [unfold in_u; lia|exact ex_multi_reachable].
Defined.
