(* ===== verification/AsyncBuffer.v ===== *)
(** * Triple buffer ([icon/utils/async_buffer.h])

    A lock-free single-producer single-consumer buffer.  [state_] is updated by
    compare-and-swap loops: a whole call takes the list of what its loop saw (the
    value it loaded and the value at the exchange); in the second part the loads
    and exchanges of a producer and a consumer interleave freely. *)
From S2P Require Import Prelude.

(** [AsyncBuffer<T>::State] *)
Record BState := mkBState {
  active_index : nat;
  mailbox_index : nat;
  free_index : nat;
  mailbox_full : bool }.

#[export] Instance BState_eq_dec : EqDecision BState.
Proof. solve_decision. Defined.

Definition initial_state : BState := mkBState 0 1 2 false.

(** [State::IsConsistent()] *)
Definition IsConsistent (s : BState) : bool :=
  bool_decide (active_index s < 3)%nat && bool_decide (mailbox_index s < 3)%nat
  && bool_decide (free_index s < 3)%nat
  && bool_decide (active_index s <> mailbox_index s)
  && bool_decide (mailbox_index s <> free_index s)
  && bool_decide (free_index s <> active_index s).

(** The bodies of the two loops: [next] computed from [current]. *)
Definition next_active (current : BState) : BState :=
  if mailbox_full current
  then mkBState (mailbox_index current) (active_index current) (free_index current) false
  else current.

Definition next_commit (current : BState) : BState :=
  mkBState (active_index current) (free_index current) (mailbox_index current) true.

(** [do { current = state_.load(); next = ...; }
     while (!state_.compare_exchange_strong(current, next))]: [current] and [next] of
    the last turn; [None] when the attempts run out. *)
Fixpoint cas_loop (next : BState -> BState) (attempts : list (BState * BState))
  : option (BState * BState) :=
  match attempts with
  | [] => None
  | (loaded, actual) :: attempts' =>
      let '(ok, _, _) := compare_exchange_strong actual loaded (next loaded) in
      if negb ok then cas_loop next attempts' else Some (loaded, next loaded)
  end.

Section Buffer.
Context {T : Type}.

(** [AsyncBuffer<T>] *)
Record AsyncBuffer := mkAsyncBuffer {
  state_ : BState;
  free_buffer_checked_out_ : bool;
  buffers_ : list T }.

(** [AsyncBuffer(args...)] *)
Definition new_AsyncBuffer (init : T) : AsyncBuffer :=
  mkAsyncBuffer initial_state false (replicate 3 init).

(** [GetFreeBuffer()]: the index of the buffer it points to. *)
Definition GetFreeBuffer (a : AsyncBuffer) : nat * AsyncBuffer :=
  (free_index (state_ a), mkAsyncBuffer (state_ a) true (buffers_ a)).

(** [GetActiveBuffer(T** buffer)]; [null] is [buffer == nullptr], [debug] whether
    [NDEBUG] is undefined. *)
Definition GetActiveBuffer (debug null : bool) (a : AsyncBuffer)
    (attempts : list (BState * BState))
  : option (checked (bool * option nat * AsyncBuffer)) :=
  match cas_loop next_active attempts with
  | None => None
  | Some (current, next) =>
      let a' := mkAsyncBuffer next (free_buffer_checked_out_ a) (buffers_ a) in
      Some (
        let! _ := check (negb debug || bool_decide (free_index current = free_index next))
          "free_index of new state is wrong" in
        let! _ := check (negb debug || negb (mailbox_full next))
          "mailbox is full when it should be empty" in
        let! _ := check (negb debug || IsConsistent next) "next state is not consistent" in
        Returns (if null then (false, None, a')
                 else (mailbox_full current, Some (active_index next), a')))
  end.

(** [CommitFreeBuffer()] *)
Definition CommitFreeBuffer (debug : bool) (a : AsyncBuffer)
    (attempts : list (BState * BState)) : option (checked (bool * AsyncBuffer)) :=
  if negb (free_buffer_checked_out_ a) then Some (Returns (false, a))
  else
    match cas_loop next_commit attempts with
    | None => None
    | Some (current, next) =>
        Some (
          let! _ := check (negb debug || bool_decide (active_index current = active_index next))
            "active_index of new state is wrong" in
          let! _ := check (negb debug || mailbox_full next)
            "mailbox is empty when it should be full" in
          let! _ := check (negb debug || IsConsistent next) "next state is not consistent" in
          Returns (true, mkAsyncBuffer next false (buffers_ a)))
    end.

(** ** Producer and consumer *)

(** The producer: idle, holding the free buffer, or in the loop of
    [CommitFreeBuffer] after a load. *)
Inductive producer := PIdle | PHolds (p : nat) | PCas (p : nat) (current : BState).

(** The consumer: before its first call, holding the active buffer, or in the loop
    of [GetActiveBuffer] after a load. *)
Inductive consumer := CIdle | CHolds (p : nat) (fresh : bool) | CCas (current : BState).

(** The object, the two threads, the values committed so far (oldest first), and
    how many of them the consumer had seen when it last returned. *)
Record bconfig := mkBConfig {
  b_obj : AsyncBuffer;
  b_p : producer;
  b_c : consumer;
  b_commits : list T;
  b_seen : nat }.

Implicit Types (a : AsyncBuffer).

Definition with_state a (s : BState) : AsyncBuffer :=
  mkAsyncBuffer s (free_buffer_checked_out_ a) (buffers_ a).

Inductive bstep : bconfig -> bconfig -> Prop :=
| p_get a c l n :
    bstep (mkBConfig a PIdle c l n)
      (mkBConfig (GetFreeBuffer a).2 (PHolds (GetFreeBuffer a).1) c l n)
| p_write a c l n p v :
    bstep (mkBConfig a (PHolds p) c l n)
      (mkBConfig (mkAsyncBuffer (state_ a) (free_buffer_checked_out_ a)
                    (<[p := v]> (buffers_ a))) (PHolds p) c l n)
| p_load a c l n p :
    bstep (mkBConfig a (PHolds p) c l n) (mkBConfig a (PCas p (state_ a)) c l n)
| p_cas a c l n p current v :
    buffers_ a !! p = Some v ->
    bstep (mkBConfig a (PCas p current) c l n)
      (let '(ok, s, _) := compare_exchange_strong (state_ a) current (next_commit current) in
       if negb ok then mkBConfig a (PCas p (state_ a)) c l n
       else mkBConfig (mkAsyncBuffer s false (buffers_ a)) PIdle c (l ++ [v]) n)
| c_load a p c l n :
    (forall s, c <> CCas s) ->
    bstep (mkBConfig a p c l n) (mkBConfig a p (CCas (state_ a)) l n)
| c_cas a p current l n :
    bstep (mkBConfig a p (CCas current) l n)
      (let '(ok, s, _) := compare_exchange_strong (state_ a) current (next_active current) in
       if negb ok then mkBConfig a p (CCas (state_ a)) l n
       else mkBConfig (with_state a s) p
              (CHolds (active_index s) (mailbox_full current)) l (length l)).

Definition binitial (init : T) : bconfig :=
  mkBConfig (new_AsyncBuffer init) PIdle CIdle [] 0.

End Buffer.
Arguments AsyncBuffer : clear implicits.

(** ** The state machine *)

Lemma IsConsistent_spec s :
  IsConsistent s = true <->
  (active_index s < 3 /\ mailbox_index s < 3 /\ free_index s < 3)%nat
  /\ active_index s <> mailbox_index s /\ mailbox_index s <> free_index s
  /\ free_index s <> active_index s.
Proof. unfold IsConsistent. rewrite !andb_true_iff, !bool_decide_eq_true. tauto. Qed.

Lemma next_active_consistent s : IsConsistent s = true -> IsConsistent (next_active s) = true.
Proof. rewrite !IsConsistent_spec. unfold next_active. case_match; simpl; naive_solver. Qed.

Lemma next_commit_consistent s : IsConsistent s = true -> IsConsistent (next_commit s) = true.
Proof. rewrite !IsConsistent_spec. simpl. naive_solver. Qed.

#[export] Hint Resolve next_active_consistent next_commit_consistent : icon.

(** A loop that no other thread disturbs ends in its first turn; and a turn fails
    only when the other thread changed the state between load and exchange. *)
Lemma cas_loop_spec next attempts current next' :
  cas_loop next attempts = Some (current, next') <->
  next' = next current /\ exists pre post, attempts = pre ++ (current, current) :: post
    /\ Forall (fun la => la.1 <> la.2) pre.
Proof.
  induction attempts as [|[x y] rest IH]; simpl.
  - split; [done|]. intros (_ & pre & post & H & _). by destruct pre.
  - unfold compare_exchange_strong. case_decide as Hxy; simpl.
    + subst. split.
      * intros [= -> <-]. split; [done|]. by exists [], rest.
      * intros (-> & pre & post & Heq & Hpre). destruct pre as [|[]]; simplify_eq/=; [done|].
        inversion Hpre; simplify_eq/=.
    + rewrite IH. split.
      * intros (-> & pre & post & -> & Hpre). split; [done|]. exists ((x, y) :: pre), post.
        split; [done|]. constructor; [simpl; congruence|done].
      * intros (-> & pre & post & Heq & Hpre). split; [done|].
        destruct pre as [|[]]; simplify_eq/=. inversion Hpre. eauto.
Qed.

(** the debug checks of the class never fire: from a consistent state, every
    completed [GetActiveBuffer] and [CommitFreeBuffer] passes its assertions,
    keeps the state consistent, and leaves the buffer of the other thread in
    place. *)
Theorem async_checks_pass {T : Type} (a : AsyncBuffer T) (null : bool)
    (attempts : list (BState * BState)) (current : BState) :
  IsConsistent current = true ->
  (cas_loop next_active attempts = Some (current, next_active current) ->
     exists r ptr a', GetActiveBuffer true null a attempts = Some (Returns (r, ptr, a'))
       /\ state_ a' = next_active current /\ IsConsistent (state_ a') = true
       /\ free_index (state_ a') = free_index current
       /\ r = negb null && mailbox_full current)
  /\ (cas_loop next_commit attempts = Some (current, next_commit current) ->
      free_buffer_checked_out_ a = true ->
     exists a', CommitFreeBuffer true a attempts = Some (Returns (true, a'))
       /\ state_ a' = next_commit current /\ IsConsistent (state_ a') = true
       /\ active_index (state_ a') = active_index current
       /\ mailbox_full (state_ a') = true /\ free_buffer_checked_out_ a' = false).
Proof.
  intros Hc. split.
  - intros Hl. unfold GetActiveBuffer. rewrite Hl.
    rewrite (next_active_consistent _ Hc).
    assert (free_index (next_active current) = free_index current) as Hf
      by (unfold next_active; by case_match).
    assert (mailbox_full (next_active current) = false) as Hm
      by (unfold next_active; by case_match).
    rewrite Hf, Hm, bool_decide_true by done. simpl.
    destruct null; eexists _, _, _; (split; [reflexivity|]); cbn [state_];
      auto with icon.
  - intros Hl Hfree. unfold CommitFreeBuffer. rewrite Hfree, Hl.
    rewrite (next_commit_consistent _ Hc). simpl. rewrite bool_decide_true by done.
    eexists. split; [reflexivity|]. cbn [state_]. auto with icon.
Qed.

Lemma async_checks_pass_witness :
  IsConsistent initial_state = true
  /\ exists r ptr a', GetActiveBuffer true false (new_AsyncBuffer 0)
       [(initial_state, next_commit initial_state);
        (next_commit initial_state, next_commit initial_state)]
     = Some (Returns (r, ptr, a')) /\ r = true.
Proof.
  split; [reflexivity|].
  destruct (async_checks_pass (new_AsyncBuffer 0) false
    [(initial_state, next_commit initial_state);
     (next_commit initial_state, next_commit initial_state)] (next_commit initial_state) eq_refl)
    as [(r & ptr & a' & H1 & _ & _ & _ & H2) _]; [reflexivity|].
  exists r, ptr, a'. exact (conj H1 H2).
Defined.

(** ** Interleavings *)

Section Interleavings.
Context {T : Type}.
Implicit Types (c : bconfig (T := T)).

(** The buffer that the producer may write to. *)
Definition producer_buffer (p : producer) : option nat :=
  match p with PIdle => None | PHolds q | PCas q _ => Some q end.

(** The buffer that the consumer may read. *)
Definition consumer_buffer (p : consumer) : option nat :=
  match p with CHolds q _ => Some q | _ => None end.

Record binv c : Prop := mkBInv {
  bi_consistent : IsConsistent (state_ (b_obj c)) = true;
  bi_length : length (buffers_ (b_obj c)) = 3%nat;
  bi_free q : producer_buffer (b_p c) = Some q -> q = free_index (state_ (b_obj c));
  bi_active q : consumer_buffer (b_c c) = Some q -> q = active_index (state_ (b_obj c));
  bi_seen : (b_seen c <= length (b_commits c))%nat;
  bi_full : mailbox_full (state_ (b_obj c)) = true -> (b_seen c < length (b_commits c))%nat
    /\ buffers_ (b_obj c) !! mailbox_index (state_ (b_obj c)) = last (b_commits c);
  bi_empty : mailbox_full (state_ (b_obj c)) = false -> b_seen c = length (b_commits c);
  bi_data : (0 < b_seen c)%nat ->
    buffers_ (b_obj c) !! active_index (state_ (b_obj c)) = b_commits c !! (b_seen c - 1)%nat }.

Lemma last_as_lookup (l : list T) : (0 < length l)%nat -> last l = l !! (length l - 1)%nat.
Proof. intros. rewrite last_lookup. f_equal. lia. Qed.

Lemma commit_inv (a : AsyncBuffer T) k l n p v :
  binv (mkBConfig a (PCas p (state_ a)) k l n) -> buffers_ a !! p = Some v ->
  binv (mkBConfig (mkAsyncBuffer (next_commit (state_ a)) false (buffers_ a)) PIdle k
          (l ++ [v]) n).
Proof.
  intros [Hcons Hlen Hfree Hact Hseen Hfull Hempty Hdata] Hv. simpl in *.
  rewrite (Hfree p eq_refl) in Hv.
  split; cbn [b_obj state_ buffers_ b_p b_c b_commits b_seen]; auto with icon; try done.
  - rewrite length_app. lia.
  - intros _. rewrite length_app, last_snoc. simpl. split; [lia|done].
  - intros Hn. rewrite lookup_app_l by lia. by apply Hdata.
Qed.

Lemma fetch_inv (a : AsyncBuffer T) p l n :
  binv (mkBConfig a p (CCas (state_ a)) l n) ->
  binv (mkBConfig (with_state a (next_active (state_ a))) p
          (CHolds (active_index (next_active (state_ a))) (mailbox_full (state_ a))) l
          (length l)).
Proof.
  intros [Hcons Hlen Hfree Hact Hseen Hfull Hempty Hdata]. simpl in *.
  split; cbn [b_obj with_state state_ buffers_ b_p b_c b_commits b_seen]; auto with icon.
  - intros q Hq. rewrite (Hfree q Hq). unfold next_active. by case_match.
  - by intros q [= ->].
  - unfold next_active. destruct (mailbox_full (state_ a)) eqn:E; simpl; congruence.
  - intros Hn. unfold next_active. destruct (mailbox_full (state_ a)) eqn:E; simpl.
    + destruct (Hfull eq_refl) as [_ ->]. by apply last_as_lookup.
    + rewrite <-(Hempty eq_refl) in *. auto.
Qed.

Lemma bstep_inv c c' : binv c -> bstep c c' -> binv c'.
Proof.
  intros Hi Hs. pose proof Hi as [Hcons Hlen Hfree Hact Hseen Hfull Hempty Hdata].
  apply IsConsistent_spec in Hcons as Hd.
  destruct Hs as [a c l n|a c l n p v|a c l n p|a c l n p cur v Hv|a p c l n Hc|a p cur l n];
    simpl in *.
  - split; simpl; auto. by intros q [= <-].
  - specialize (Hfree p eq_refl). split; simpl; auto.
    + by rewrite length_insert.
    + by intros q [= <-].
    + intros Hm. rewrite list_lookup_insert_ne by naive_solver. auto.
    + intros Hn. rewrite list_lookup_insert_ne by naive_solver. auto.
  - split; simpl; auto.
  - unfold compare_exchange_strong. case_decide as Hcur; simpl.
    + subst cur. by eapply commit_inv.
    + split; simpl; auto.
  - split; simpl; auto. done.
  - unfold compare_exchange_strong. case_decide as Hcur; simpl.
    + subst cur. by eapply fetch_inv.
    + split; simpl; auto.
Qed.

Lemma reachable_binv init c : rtc bstep (binitial init) c -> binv c.
Proof.
  intros Hr. eapply rtc_invariant; [apply bstep_inv| |exact Hr].
  split; simpl; auto; (done || lia).
Qed.

(** C7: the threads never share a buffer.  In every interleaving, the buffer that
    the producer holds is a different one from the buffer that the consumer holds,
    and as long as the consumer holds its buffer it contains the value that was
    the latest one committed when the consumer fetched it. *)
Theorem async_buffers_disjoint (init : T) c (q : nat) :
  rtc bstep (binitial init) c -> consumer_buffer (b_c c) = Some q ->
  producer_buffer (b_p c) <> Some q
  /\ ((0 < b_seen c)%nat -> buffers_ (b_obj c) !! q = b_commits c !! (b_seen c - 1)%nat).
Proof.
  intros Hr Hq. pose proof (reachable_binv _ _ Hr) as Hi.
  pose proof (bi_consistent _ Hi) as Hc. apply IsConsistent_spec in Hc.
  rewrite (bi_active _ Hi q Hq). split; [|apply (bi_data _ Hi)].
  intros Hp. apply (bi_free _ Hi) in Hp. naive_solver.
Qed.

(** C8: [GetActiveBuffer] fetches the latest commit and reports freshness
    correctly: when its exchange succeeds, the consumer has seen all commits, the
    active buffer holds the last committed value, and the result is [true] exactly
    when a commit happened since the previous fetch. *)
Theorem async_fetches_latest (init : T) c c' (current : BState) (q : nat) (fresh : bool) :
  rtc bstep (binitial init) c -> b_c c = CCas current ->
  bstep c c' -> b_c c' = CHolds q fresh ->
  b_commits c' = b_commits c /\ b_seen c' = length (b_commits c')
  /\ (b_commits c' <> [] -> buffers_ (b_obj c') !! q = last (b_commits c'))
  /\ (fresh = true <-> (b_seen c < length (b_commits c))%nat).
Proof.
  intros Hr Hc Hs Hc'. pose proof (reachable_binv _ _ Hr) as Hi.
  pose proof (bstep_inv _ _ Hi Hs) as Hi'.
  destruct Hs as [a k l n|a k l n p v|a k l n p|a k l n p cur v Hv|a p k l n Hk|a p cur l n];
    simpl in *; subst; try done.
  - revert Hc'. unfold compare_exchange_strong. case_decide; done.
  - revert Hc' Hi'. unfold compare_exchange_strong. case_decide; [|done]. subst cur.
    intros [= <- <-] Hi'. simpl. split; [done|]. split; [done|]. split.
    + intros Hne. pose proof (bi_data _ Hi') as Hdata. simpl in Hdata.
      assert (0 < length l)%nat by (destruct l; simpl; [done|lia]).
      rewrite last_as_lookup by done. auto.
    + destruct Hi as [_ _ _ _ _ Hfull Hempty _]. simpl in *.
      destruct (mailbox_full (state_ a)); [naive_solver|].
      specialize (Hempty eq_refl). split; [done|lia].
Qed.

End Interleavings.

(** A run: the producer commits 5 and holds the next buffer, the consumer fetches. *)
Definition s1 : BState := mkBState 0 2 1 true.
Definition before_fetch : bconfig (T := Z) :=
  mkBConfig (mkAsyncBuffer s1 true [0; 0; 5]) (PHolds 1) (CCas s1) [5] 0.
Definition after_fetch : bconfig (T := Z) :=
  mkBConfig (mkAsyncBuffer (mkBState 2 0 1 false) true [0; 0; 5]) (PHolds 1)
    (CHolds 2 true) [5] 1.

Lemma before_fetch_reachable : rtc bstep (binitial 0) before_fetch.
Proof.
  eapply rtc_l; [apply p_get|]. simpl.
  eapply rtc_l; [apply (p_write _ _ _ _ _ 5)|].
  eapply rtc_l; [apply p_load|]. eapply rtc_l; [by apply (p_cas _ _ _ _ _ _ 5)|]. simpl.
  eapply rtc_l; [apply p_get|]. eapply rtc_l; [by apply c_load|]. apply rtc_refl.
Qed.

Lemma fetch_step : bstep before_fetch after_fetch.
Proof. apply (c_cas (mkAsyncBuffer s1 true [0; 0; 5]) (PHolds 1) s1). Qed.

Lemma async_buffers_disjoint_witness :
  consumer_buffer (b_c after_fetch) = Some 2%nat
  /\ producer_buffer (b_p after_fetch) <> Some 2%nat.
Proof.
  split; [reflexivity|]. apply (async_buffers_disjoint 0 after_fetch); [|reflexivity].
  eapply rtc_r; [apply before_fetch_reachable|apply fetch_step].
Defined.

Lemma async_fetches_latest_witness :
  true = true <-> (b_seen before_fetch < length (b_commits before_fetch))%nat.
Proof.
  apply (async_fetches_latest 0 before_fetch after_fetch s1 2 true);
    [apply before_fetch_reachable|reflexivity|apply fetch_step|reflexivity].
Defined.
