(* ===== verification/RtPromise.v ===== *)
(** * Futures and promises ([platform/common/buffers/rt_promise.h])

    [FuturePromiseContext] is the state shared by one [RealtimePromise] and one
    [RealtimeFuture].  The handles point to a context: contexts live in a heap
    ([gmap] from addresses), a handle holds an optional address, and a call through
    a handle whose context was destroyed is undefined behaviour, an outcome of its
    own.  Blocking calls take what the kernel and other threads do during the wait
    as an argument ([wait_env]). *)
From S2P Require Import Prelude Status Time BinaryFutex LockableBinaryFutex RtQueue.

(** ** Outcomes *)

(** A call returns, blocks forever, aborts the process, or follows a pointer to a
    destroyed object. *)
Inductive outcome (A : Type) : Type :=
| Ret (a : A)
| Block
| Crash (msg : string)
| Dangling.
Arguments Ret {A} a.
Arguments Block {A}.
Arguments Crash {A} msg.
Arguments Dangling {A}.

Definition obind {A B} (o : outcome A) (k : A -> outcome B) : outcome B :=
  match o with
  | Ret a => k a
  | Block => Block
  | Crash m => Crash m
  | Dangling => Dangling
  end.

Notation "'do!' x ':=' c 'in' k" := (obind c (fun x => k))
  (at level 10, x pattern, c at level 100, k at level 200) : icon_scope.

Definition of_checked {A} (c : checked A) : outcome A :=
  match c with Returns a => Ret a | Aborts m => Crash m end.

(** A wait that may never end. *)
Definition of_wait {A} (o : option (checked A)) : outcome A :=
  match o with Some c => of_checked c | None => Block end.

(** What one wait meets: the clock, and the returns of the system call. *)
Record wait_env := mkWaitEnv {
  we_now : Z;
  we_clock : wait_clock;
  we_events : list futex_event }.

Section Promise.
Context {T : Type}.
(** The value of [T()], and what a move leaves behind. *)
Context (value_init : T) (moved : T -> T) (StrError : Z -> string).

(** ** [FuturePromiseContext<T>] *)

Record Ctx := mkCtx {
  ctx_buffer_ : RealtimeQueue T;
  promise_attached_ : bool;
  future_attached_ : bool;
  is_cancelled_ : bool;
  read_value_futex_ : LockableBinaryFutex;
  write_value_futex_ : LockableBinaryFutex;
  cancel_futex_ : LockableBinaryFutex;
  get_future_futex_ : LockableBinaryFutex;
  get_promise_futex_ : LockableBinaryFutex;
  has_value_ : BinaryFutex;
  future_detached_ : BinaryFutex;
  promise_detached_ : BinaryFutex;
  detach_timeout_ : Z }.

Definition set_queue (c : Ctx) (x : RealtimeQueue T) : Ctx :=
  mkCtx x (promise_attached_ c) (future_attached_ c) (is_cancelled_ c)
    (read_value_futex_ c) (write_value_futex_ c) (cancel_futex_ c) (get_future_futex_ c)
    (get_promise_futex_ c) (has_value_ c) (future_detached_ c) (promise_detached_ c)
    (detach_timeout_ c).
Definition set_promise_attached (c : Ctx) (x : bool) : Ctx :=
  mkCtx (ctx_buffer_ c) x (future_attached_ c) (is_cancelled_ c) (read_value_futex_ c)
    (write_value_futex_ c) (cancel_futex_ c) (get_future_futex_ c) (get_promise_futex_
    c) (has_value_ c) (future_detached_ c) (promise_detached_ c) (detach_timeout_ c).
Definition set_future_attached (c : Ctx) (x : bool) : Ctx :=
  mkCtx (ctx_buffer_ c) (promise_attached_ c) x (is_cancelled_ c) (read_value_futex_ c)
    (write_value_futex_ c) (cancel_futex_ c) (get_future_futex_ c) (get_promise_futex_
    c) (has_value_ c) (future_detached_ c) (promise_detached_ c) (detach_timeout_ c).
Definition set_cancelled (c : Ctx) (x : bool) : Ctx :=
  mkCtx (ctx_buffer_ c) (promise_attached_ c) (future_attached_ c) x (read_value_futex_
    c) (write_value_futex_ c) (cancel_futex_ c) (get_future_futex_ c)
    (get_promise_futex_ c) (has_value_ c) (future_detached_ c) (promise_detached_ c)
    (detach_timeout_ c).
Definition set_read (c : Ctx) (x : LockableBinaryFutex) : Ctx :=
  mkCtx (ctx_buffer_ c) (promise_attached_ c) (future_attached_ c) (is_cancelled_ c) x
    (write_value_futex_ c) (cancel_futex_ c) (get_future_futex_ c) (get_promise_futex_
    c) (has_value_ c) (future_detached_ c) (promise_detached_ c) (detach_timeout_ c).
Definition set_write (c : Ctx) (x : LockableBinaryFutex) : Ctx :=
  mkCtx (ctx_buffer_ c) (promise_attached_ c) (future_attached_ c) (is_cancelled_ c)
    (read_value_futex_ c) x (cancel_futex_ c) (get_future_futex_ c) (get_promise_futex_
    c) (has_value_ c) (future_detached_ c) (promise_detached_ c) (detach_timeout_ c).
Definition set_cancel (c : Ctx) (x : LockableBinaryFutex) : Ctx :=
  mkCtx (ctx_buffer_ c) (promise_attached_ c) (future_attached_ c) (is_cancelled_ c)
    (read_value_futex_ c) (write_value_futex_ c) x (get_future_futex_ c)
    (get_promise_futex_ c) (has_value_ c) (future_detached_ c) (promise_detached_ c)
    (detach_timeout_ c).
Definition set_get_future (c : Ctx) (x : LockableBinaryFutex) : Ctx :=
  mkCtx (ctx_buffer_ c) (promise_attached_ c) (future_attached_ c) (is_cancelled_ c)
    (read_value_futex_ c) (write_value_futex_ c) (cancel_futex_ c) x (get_promise_futex_
    c) (has_value_ c) (future_detached_ c) (promise_detached_ c) (detach_timeout_ c).
Definition set_get_promise (c : Ctx) (x : LockableBinaryFutex) : Ctx :=
  mkCtx (ctx_buffer_ c) (promise_attached_ c) (future_attached_ c) (is_cancelled_ c)
    (read_value_futex_ c) (write_value_futex_ c) (cancel_futex_ c) (get_future_futex_ c)
    x (has_value_ c) (future_detached_ c) (promise_detached_ c) (detach_timeout_ c).
Definition set_has_value (c : Ctx) (x : BinaryFutex) : Ctx :=
  mkCtx (ctx_buffer_ c) (promise_attached_ c) (future_attached_ c) (is_cancelled_ c)
    (read_value_futex_ c) (write_value_futex_ c) (cancel_futex_ c) (get_future_futex_ c)
    (get_promise_futex_ c) x (future_detached_ c) (promise_detached_ c) (detach_timeout_
    c).
Definition set_future_detached (c : Ctx) (x : BinaryFutex) : Ctx :=
  mkCtx (ctx_buffer_ c) (promise_attached_ c) (future_attached_ c) (is_cancelled_ c)
    (read_value_futex_ c) (write_value_futex_ c) (cancel_futex_ c) (get_future_futex_ c)
    (get_promise_futex_ c) (has_value_ c) x (promise_detached_ c) (detach_timeout_ c).
Definition set_promise_detached (c : Ctx) (x : BinaryFutex) : Ctx :=
  mkCtx (ctx_buffer_ c) (promise_attached_ c) (future_attached_ c) (is_cancelled_ c)
    (read_value_futex_ c) (write_value_futex_ c) (cancel_futex_ c) (get_future_futex_ c)
    (get_promise_futex_ c) (has_value_ c) (future_detached_ c) x (detach_timeout_ c).

(** [FuturePromiseContext(detach_timeout, logger)] *)
Definition new_Ctx (detach_timeout : Z) : checked Ctx :=
  let! q := new_RealtimeQueue value_init (Some 1) None in
  let lock := new_LockableBinaryFutex true in
  let futex := new_BinaryFutex false true in
  Returns (mkCtx q false false false lock lock lock lock lock futex futex futex
             detach_timeout).

(** The default timeout of the constructor, one second. *)
Definition default_detach_timeout : Z := milliseconds 1000.

(** A call on one of the locks or futexes of the context. *)
Definition try_lock (get : Ctx -> LockableBinaryFutex) (set : Ctx -> LockableBinaryFutex -> Ctx)
    (c : Ctx) : bool * Ctx :=
  let '(ok, m) := TryLock (get c) in (ok, set c m).
Definition unlock (get : Ctx -> LockableBinaryFutex) (set : Ctx -> LockableBinaryFutex -> Ctx)
    (c : Ctx) : RealtimeStatus * Ctx :=
  let '(st, m, _) := Unlock (get c) in (st, set c m).
Definition post (get : Ctx -> BinaryFutex) (set : Ctx -> BinaryFutex -> Ctx) (c : Ctx)
  : RealtimeStatus * Ctx :=
  let '(st, f, _) := Post (get c) in (st, set c f).
Definition drain (get : Ctx -> BinaryFutex) (set : Ctx -> BinaryFutex -> Ctx) (c : Ctx) : Ctx :=
  set c (TryWait (get c)).2.
Definition scoped_lock (get : Ctx -> LockableBinaryFutex)
    (set : Ctx -> LockableBinaryFutex -> Ctx) (c : Ctx) : outcome Ctx :=
  do! m := of_wait (new_BinaryFutexLock StrError (get c) (mkWaitClock 0 (inr 0) 0) []) in
  Ret (set c m).
Definition scoped_unlock (get : Ctx -> LockableBinaryFutex)
    (set : Ctx -> LockableBinaryFutex -> Ctx) (c : Ctx) : outcome Ctx :=
  do! m := of_checked (destroy_BinaryFutexLock (get c)) in Ret (set c m).
Definition wait_for (get : Ctx -> BinaryFutex) (set : Ctx -> BinaryFutex -> Ctx)
    (timeout : Z) (e : wait_env) (c : Ctx) : outcome (RealtimeStatus * Ctx) :=
  let '(st, f, _) := BinaryFutex.WaitFor StrError (get c) timeout (we_now e) (we_clock e)
                       (we_events e) in
  match st with Some st => Ret (st, set c f) | None => Block end.
Definition wait_until (get : Ctx -> BinaryFutex) (set : Ctx -> BinaryFutex -> Ctx)
    (deadline : Z) (e : wait_env) (c : Ctx) : outcome (RealtimeStatus * Ctx) :=
  let '(st, f, _) := BinaryFutex.WaitUntil StrError (get c) deadline (we_clock e)
                       (we_events e) in
  match st with Some st => Ret (st, set c f) | None => Block end.

Definition ReadTryLock := try_lock read_value_futex_ set_read.
Definition ReadUnlock := unlock read_value_futex_ set_read.
Definition WriteTryLock := try_lock write_value_futex_ set_write.
Definition WriteUnlock := unlock write_value_futex_ set_write.

(** The destructors of the locks among the members, last one first. *)
Definition destroy_locks (c : Ctx) : outcome unit :=
  do! _ := of_checked (destroy_LockableBinaryFutex (get_promise_futex_ c)) in
  do! _ := of_checked (destroy_LockableBinaryFutex (get_future_futex_ c)) in
  do! _ := of_checked (destroy_LockableBinaryFutex (cancel_futex_ c)) in
  do! _ := of_checked (destroy_LockableBinaryFutex (write_value_futex_ c)) in
  do! _ := of_checked (destroy_LockableBinaryFutex (read_value_futex_ c)) in
  Ret tt.

(** [~FuturePromiseContext()]: the two waits, then the end of the object. *)
Definition destroy_Ctx (e_future e_promise : wait_env) (c : Ctx) : outcome unit :=
  let c1 := set_cancelled c true in
  let '(_, c2) := post has_value_ set_has_value c1 in
  do! c3 := (if future_attached_ c2 then
               do! (st, c') := wait_for future_detached_ set_future_detached
                                 (detach_timeout_ c2) e_future c2 in
               if negb (rt_ok st) then
                 Crash ("Future was not destroyed: " ++ StatusCodeName (rt_code st) ++ " "
                        ++ GetMessage st)
               else Ret c'
             else Ret c2) in
  if promise_attached_ c3 then
    do! (st, c') := wait_for promise_detached_ set_promise_detached
                      (detach_timeout_ c3) e_promise c3 in
    if negb (rt_ok st) then
      Crash ("Promise was not destroyed: " ++ StatusCodeName (rt_code st) ++ " "
             ++ GetMessage st)
    else destroy_locks c'
  else destroy_locks c3.

(** ** Handles *)

(** [RealtimePromise<T>] and [RealtimeFuture<T>] have the same members. *)
Record handle := mkHandle {
  context_ : option nat;
  internal_context_ : option nat;
  is_reusable_ : bool }.

(** [GetPromise(is_reusable)]; [this] is the address of the context. *)
Definition GetPromise (this : nat) (c : Ctx) (is_reusable : bool)
  : expected handle RealtimeStatus * Ctx :=
  let '(ok, c1) := try_lock get_promise_futex_ set_get_promise c in
  if negb ok then
    (Unexpected (FormatRealtimeStatus kUnavailable
                   "Cannot create promise while reset is in progress."), c1)
  else
    let '(ok, att, _) := compare_exchange_strong (promise_attached_ c1) false true in
    let c2 := set_promise_attached c1 att in
    let '(st, c3) := unlock get_promise_futex_ set_get_promise c2 in
    if negb ok then
      (Unexpected (FormatRealtimeStatus kAlreadyExists "Promise is already attached."), c3)
    else if negb (rt_ok st) then (Unexpected st, c3)
    else (Value (mkHandle (Some this) None is_reusable), c3).

Definition IsPromiseAttached (c : Ctx) : bool := promise_attached_ c.

(** [GetFuture(is_reusable)] *)
Definition GetFuture (this : nat) (c : Ctx) (is_reusable : bool)
  : expected handle RealtimeStatus * Ctx :=
  let '(ok, c1) := try_lock get_future_futex_ set_get_future c in
  if negb ok then
    (Unexpected (FormatRealtimeStatus kUnavailable
                   "Cannot create future while reset is in progress."), c1)
  else
    let '(ok, att, _) := compare_exchange_strong (future_attached_ c1) false true in
    let c2 := set_future_attached c1 att in
    let '(st, c3) := unlock get_future_futex_ set_get_future c2 in
    if negb ok then
      (Unexpected (FormatRealtimeStatus kAlreadyExists "Future is already attached."), c3)
    else if negb (rt_ok st) then (Unexpected st, c3)
    else (Value (mkHandle (Some this) None is_reusable), c3).

Definition IsFutureAttached (c : Ctx) : bool := future_attached_ c.

(** The loop of [Reset] that empties the buffer; one turn per element. *)
Fixpoint clear_buffer (fuel : nat) (q : RtQueueBuffer T) : outcome (RtQueueBuffer T) :=
  if Empty q then Ret q
  else
    match fuel with
    | O => Block
    | S fuel =>
        do! (element, q1) := of_checked (MoveFront moved q) in
        match element with
        | Some _ => do! q2 := of_checked (DropFront q1) in clear_buffer fuel q2
        | None => clear_buffer fuel q1
        end
    end.

(** The part of [Reset] that runs under all its locks. *)
Definition reset_body (c : Ctx) : outcome Ctx :=
  let q := ctx_buffer_ c in
  do! b := clear_buffer (Z.to_nat (Size (rq_buffer q))) (rq_buffer q) in
  let c1 := set_queue c (mkRealtimeQueue b (reset_function_ q)) in
  let c2 := drain has_value_ set_has_value c1 in
  let c3 := drain future_detached_ set_future_detached c2 in
  let c4 := drain promise_detached_ set_promise_detached c3 in
  Ret (set_cancelled c4 false).

(** The waits of [Reset] for the handles: [Some status] when one fails. *)
Definition reset_wait (timeout : Z) (e_future e_promise : wait_env) (c : Ctx)
  : outcome (option Status * Ctx) :=
  do! (r, c1) :=
    (if future_attached_ c then
       do! (st, c') := wait_for future_detached_ set_future_detached timeout e_future c in
       Ret (if negb (rt_ok st)
            then Some (FormatStatus (rt_code st)
                         (GetMessage st ++ ": Future was not detached within timeout"))
            else None, c')
     else Ret (None, c)) in
  match r with
  | Some st => Ret (Some st, c1)
  | None =>
      if promise_attached_ c1 then
        do! (st, c') := wait_for promise_detached_ set_promise_detached timeout e_promise c1 in
        Ret (if negb (rt_ok st)
             then Some (FormatStatus (rt_code st)
                          (GetMessage st ++ ": Promise was not detached within timeout."))
             else None, c')
      else Ret (None, c1)
  end.

(** [Reset(timeout)] *)
Definition Reset (timeout : Z) (e_future e_promise : wait_env) (c : Ctx)
  : outcome (Status * Ctx) :=
  do! c1 := scoped_lock get_future_futex_ set_get_future c in
  do! c2 := scoped_lock get_promise_futex_ set_get_promise c1 in
  do! c3 := scoped_lock cancel_futex_ set_cancel c2 in
  do! (failed, c4) := reset_wait timeout e_future e_promise c3 in
  do! (st, c5) :=
    (match failed with
     | Some st => Ret (st, c4)
     | None =>
         do! d1 := scoped_lock read_value_futex_ set_read c4 in
         do! d2 := scoped_lock write_value_futex_ set_write d1 in
         do! d3 := reset_body d2 in
         do! d4 := scoped_unlock write_value_futex_ set_write d3 in
         do! d5 := scoped_unlock read_value_futex_ set_read d4 in
         Ret (OkStatus, d5)
     end) in
  do! c6 := scoped_unlock cancel_futex_ set_cancel c5 in
  do! c7 := scoped_unlock get_promise_futex_ set_get_promise c6 in
  do! c8 := scoped_unlock get_future_futex_ set_get_future c7 in
  Ret (st, c8).

Definition IsCancelled (c : Ctx) : bool := is_cancelled_ c.

(** [Cancel()] *)
Definition Cancel (c : Ctx) : RealtimeStatus * Ctx :=
  let '(ok, c1) := try_lock cancel_futex_ set_cancel c in
  if negb ok then
    (FormatRealtimeStatus kResourceExhausted "Cannot cancel while reset is in progress.", c1)
  else
    let c2 := set_cancelled c1 true in
    let '(st, c3) := unlock cancel_futex_ set_cancel c2 in
    if negb (rt_ok st) then (st, c3) else post has_value_ set_has_value c3.

(** [HasValue()] *)
Definition HasValue (c : Ctx) : expected bool RealtimeStatus :=
  if IsCancelled c then Unexpected (FormatRealtimeStatus kCancelled "Context was cancelled.")
  else Value (negb (Empty (rq_buffer (ctx_buffer_ c)))).

(** [DetachPromise()] *)
Definition DetachPromise (c : Ctx) : RealtimeStatus * Ctx :=
  let previously_attached := promise_attached_ c in
  let c1 := set_promise_attached c false in
  if previously_attached then
    let '(st, c2) := post promise_detached_ set_promise_detached c1 in
    if negb (rt_ok st) then (st, c2) else (RtOkStatus, c2)
  else (FormatRealtimeStatus kInternal "Promise was not attached.", c1).

(** [DetachFuture()] *)
Definition DetachFuture (c : Ctx) : RealtimeStatus * Ctx :=
  let previously_attached := future_attached_ c in
  let c1 := set_future_attached c false in
  if previously_attached then
    let '(st, c2) := post future_detached_ set_future_detached c1 in
    if negb (rt_ok st) then (st, c2) else (RtOkStatus, c2)
  else (FormatRealtimeStatus kInternal "Future was not attached.", c1).

(** ** Setting and getting, on the context

    [Set] is the publication of the value followed by its announcement: another
    thread may run between the two. *)

(** [RealtimePromise::Set] up to [FinishInsert()]; [Some] status when it returns
    before that. *)
Definition set_publish (c : Ctx) (value : T) : checked (option RealtimeStatus * Ctx) :=
  let early (st : RealtimeStatus) (c : Ctx) : checked (option RealtimeStatus * Ctx) :=
    let '(u, c') := WriteUnlock c in Returns (Some (if negb (rt_ok u) then u else st), c') in
  let '(ok, c1) := WriteTryLock c in
  if negb ok then
    Returns (Some (FormatRealtimeStatus kCancelled "The promise is being cancelled."), c1)
  else if IsCancelled c1 then
    early (FormatRealtimeStatus kCancelled "Promise was cancelled.") c1
  else
    let! (element, q1) := writer_PrepareInsert (ctx_buffer_ c1) in
    match element with
    | None =>
        early (FormatRealtimeStatus kResourceExhausted "Value has already been set.")
          (set_queue c1 q1)
    | Some p =>
        let! b := FinishInsert (store (rq_buffer q1) p value) in
        Returns (None, set_queue c1 (mkRealtimeQueue b (reset_function_ q1)))
    end.

(** [RealtimePromise::Set] from [has_value_.Post()] to [WriteUnlock()]; the boolean
    tells whether the function goes on to [Detach()]. *)
Definition set_announce (c : Ctx) : RealtimeStatus * bool * Ctx :=
  let '(status, c1) := post has_value_ set_has_value c in
  let '(u, c2) := WriteUnlock c1 in
  if negb (rt_ok u) then (u, false, c2) else (status, true, c2).

(** [RealtimeFuture::Get] up to [ReadUnlock()]. *)
Definition get_value (c : Ctx) : checked (expected T RealtimeStatus * Ctx) :=
  let finish (r : expected T RealtimeStatus) (c : Ctx) :=
    let '(u, c') := ReadUnlock c in
    (if negb (rt_ok u) then Unexpected u else r, c') in
  let '(ok, c1) := ReadTryLock c in
  if negb ok then
    Returns (Unexpected (FormatRealtimeStatus kCancelled "Future is being cancelled."), c1)
  else if IsCancelled c1 then
    Returns (finish (Unexpected (FormatRealtimeStatus kCancelled "Future was cancelled.")) c1)
  else
    let q := ctx_buffer_ c1 in
    let! (element, b1) := MoveFront moved (rq_buffer q) in
    match element with
    | Some v =>
        let! b2 := DropFront b1 in
        let c2 := set_queue c1 (mkRealtimeQueue b2 (reset_function_ q)) in
        let c3 := drain has_value_ set_has_value c2 in
        Returns (finish (Value v) c3)
    | None =>
        Returns (finish (Unexpected (FormatRealtimeStatus kUnavailable
                   "Value is not available yet or has already been retrieved."))
                   (set_queue c1 (mkRealtimeQueue b1 (reset_function_ q))))
    end.

(** [RealtimeFuture::Peek(copy_fn)] with a context. *)
Definition peek_value (copy_fn : T -> T) (c : Ctx)
  : checked (expected T RealtimeStatus * Ctx) :=
  if IsCancelled c then
    Returns (Unexpected (FormatRealtimeStatus kCancelled "Future was cancelled."), c)
  else
    let q := ctx_buffer_ c in
    let! (front, b1) := Front (rq_buffer q) in
    match front with
    | None =>
        Returns (Unexpected (FormatRealtimeStatus kUnavailable "Value is not available yet."),
                 set_queue c (mkRealtimeQueue b1 (reset_function_ q)))
    | Some p =>
        let! b2 := KeepFront b1 in
        let c' := set_queue c (mkRealtimeQueue b2 (reset_function_ q)) in
        Returns (match deref b1 p with
                 | Some v => Value (copy_fn v)
                 | None => Unexpected (FormatRealtimeStatus kInternal "")
                 end, c')
    end.

(** [RealtimeFuture::WaitUntil(deadline)] with a context; [others] is what the other
    threads have done to the context when the wait ends. *)
Definition wait_value (deadline : Z) (e : wait_env) (others : Ctx -> Ctx) (c : Ctx)
  : outcome (Status * Ctx) :=
  match HasValue c with
  | Unexpected st => Ret (ToStatus st, c)
  | Value true => Ret (OkStatus, c)
  | Value false =>
      do! (st, c1) := wait_until has_value_ set_has_value deadline e c in
      let c2 := others c1 in
      if negb (rt_ok st) then
        Ret (FormatStatus (rt_code st) (GetMessage st ++ ": New value is not available yet."), c2)
      else if IsCancelled c2 then Ret (FormatStatus kCancelled "Future was cancelled.", c2)
      else Ret (OkStatus, c2)
  end.

(** ** The handles and the heap *)

(** Contexts by address. *)
Abbreviation heap := (gmap nat Ctx).

(** Access to the context of a handle: [unattached] without one, undefined when the
    context was destroyed. *)
Definition with_ctx {A} (h : handle) (m : heap) (unattached : outcome A)
    (k : nat -> Ctx -> outcome A) : outcome A :=
  match context_ h with
  | None => unattached
  | Some p => match m !! p with None => Dangling | Some c => k p c end
  end.

Definition detached (h : handle) : handle := mkHandle None (internal_context_ h) (is_reusable_ h).

Definition promise_unattached : RealtimeStatus :=
  FormatRealtimeStatus kFailedPrecondition "Promise is not attached.".
Definition future_unattached : RealtimeStatus :=
  FormatRealtimeStatus kFailedPrecondition "Future is not attached.".

(** [RealtimePromise(detach_timeout, logger)]; [p] is the address of the new context. *)
Definition new_promise (detach_timeout : Z) (p : nat) (m : heap) : outcome (handle * heap) :=
  do! c := of_checked (new_Ctx detach_timeout) in
  Ret (mkHandle (Some p) (Some p) true, <[p := set_promise_attached c true]> m).

(** [RealtimeFuture(detach_timeout, logger)] *)
Definition new_future (detach_timeout : Z) (p : nat) (m : heap) : outcome (handle * heap) :=
  do! c := of_checked (new_Ctx detach_timeout) in
  Ret (mkHandle (Some p) (Some p) true, <[p := set_future_attached c true]> m).

(** [GetDetachedPromise()], [GetDetachedFuture()] *)
Definition detached_handle : handle := mkHandle None None false.

(** [RealtimePromise::Detach()] *)
Definition promise_Detach (h : handle) (m : heap) : outcome (RealtimeStatus * handle * heap) :=
  with_ctx h m (Ret (promise_unattached, h, m)) (fun p c =>
    let '(st, c') := DetachPromise c in Ret (st, detached h, <[p := c']> m)).

(** [RealtimeFuture::Detach()] *)
Definition future_Detach (h : handle) (m : heap) : outcome (RealtimeStatus * handle * heap) :=
  with_ctx h m (Ret (future_unattached, h, m)) (fun p c =>
    let '(st, c') := DetachFuture c in Ret (st, detached h, <[p := c']> m)).

(** [internal_context_ = nullptr]: the destructor of the context, then its end. *)
Definition destroy_internal (e_future e_promise : wait_env) (h : handle) (m : heap)
  : outcome heap :=
  match internal_context_ h with
  | None => Ret m
  | Some p =>
      match m !! p with
      | None => Dangling
      | Some c => do! _ := destroy_Ctx e_future e_promise c in Ret (delete p m)
      end
  end.

(** [~RealtimePromise()] *)
Definition destroy_promise (e_future e_promise : wait_env) (h : handle) (m : heap)
  : outcome heap :=
  do! m1 := (match context_ h with
             | Some _ => do! (_, _, m') := promise_Detach h m in Ret m'
             | None => Ret m
             end) in
  destroy_internal e_future e_promise h m1.

(** [~RealtimeFuture()] *)
Definition destroy_future (e_future e_promise : wait_env) (h : handle) (m : heap)
  : outcome heap :=
  do! m1 := (match context_ h with
             | Some _ => do! (_, _, m') := future_Detach h m in Ret m'
             | None => Ret m
             end) in
  destroy_internal e_future e_promise h m1.

(** [RealtimePromise::operator=(RealtimePromise&& other)]: [this] and [other]
    afterwards. *)
Definition promise_assign (same : bool) (this other : handle) (m : heap)
  : outcome (handle * handle * heap) :=
  if same then Ret (this, other, m)
  else
    do! (this1, m1) := (match context_ this with
                        | Some _ => do! (_, h, m') := promise_Detach this m in Ret (h, m')
                        | None => Ret (this, m)
                        end) in
    Ret (other, this1, m1).

(** [RealtimeFuture::operator=(RealtimeFuture&& other)] *)
Definition future_assign (same : bool) (this other : handle) (m : heap)
  : outcome (handle * handle * heap) :=
  if same then Ret (this, other, m)
  else
    do! (this1, m1) := (match context_ this with
                        | Some _ => do! (_, h, m') := future_Detach this m in Ret (h, m')
                        | None => Ret (this, m)
                        end) in
    Ret (other, this1, m1).

(** The move constructors: an empty handle, then the assignment. *)
Definition promise_move (other : handle) (m : heap) : outcome (handle * handle * heap) :=
  promise_assign false detached_handle other m.
Definition future_move (other : handle) (m : heap) : outcome (handle * handle * heap) :=
  future_assign false detached_handle other m.

(** [RealtimePromise::Set(value)] *)
Definition promise_Set (h : handle) (m : heap) (value : T)
  : outcome (RealtimeStatus * handle * heap) :=
  with_ctx h m (Ret (promise_unattached, h, m)) (fun p c =>
    do! (r, c1) := of_checked (set_publish c value) in
    match r with
    | Some st => Ret (st, h, <[p := c1]> m)
    | None =>
        let '(status, go_on, c2) := set_announce c1 in
        let m2 := <[p := c2]> m in
        if negb go_on then Ret (status, h, m2)
        else if negb (is_reusable_ h) then
          do! (d, h', m3) := promise_Detach h m2 in
          Ret (OverwriteIfNotError_rt status d, h', m3)
        else Ret (status, h, m2)
    end).

(** [Cancel()], [IsCancelled()] and [HasValue()] of a handle. *)
Definition handle_Cancel (unattached : RealtimeStatus) (h : handle) (m : heap)
  : outcome (RealtimeStatus * heap) :=
  with_ctx h m (Ret (unattached, m)) (fun p c =>
    let '(st, c') := Cancel c in Ret (st, <[p := c']> m)).
Definition handle_IsCancelled (unattached : RealtimeStatus) (h : handle) (m : heap)
  : outcome (expected bool RealtimeStatus) :=
  with_ctx h m (Ret (Unexpected unattached)) (fun _ c => Ret (Value (IsCancelled c))).
Definition handle_HasValue (unattached : RealtimeStatus) (h : handle) (m : heap)
  : outcome (expected bool RealtimeStatus) :=
  with_ctx h m (Ret (Unexpected unattached)) (fun _ c => Ret (HasValue c)).

(** [RealtimePromise::Cancel()], [IsCancelled()], [HasValue()] *)
Definition promise_Cancel := handle_Cancel promise_unattached.
Definition promise_IsCancelled := handle_IsCancelled promise_unattached.
Definition promise_HasValue := handle_HasValue promise_unattached.

(** [RealtimeFuture::Cancel()], [IsCancelled()], [HasValue()] *)
Definition future_Cancel := handle_Cancel future_unattached.
Definition future_IsCancelled := handle_IsCancelled future_unattached.
Definition future_HasValue := handle_HasValue future_unattached.

(** [RealtimePromise::GetFuture(is_reusable)] *)
Definition promise_GetFuture (h : handle) (m : heap) (is_reusable : bool)
  : outcome (expected handle RealtimeStatus * heap) :=
  with_ctx h m (Ret (Unexpected promise_unattached, m)) (fun p c =>
    let '(r, c') := GetFuture p c is_reusable in Ret (r, <[p := c']> m)).

(** [RealtimeFuture::GetPromise(is_reusable)] *)
Definition future_GetPromise (h : handle) (m : heap) (is_reusable : bool)
  : outcome (expected handle RealtimeStatus * heap) :=
  with_ctx h m (Ret (Unexpected future_unattached, m)) (fun p c =>
    let '(r, c') := GetPromise p c is_reusable in Ret (r, <[p := c']> m)).

(** [RealtimePromise::IsWaitFreeDestructible()] *)
Definition promise_IsWaitFreeDestructible (h : handle) (m : heap) : outcome bool :=
  with_ctx h m (Ret true) (fun _ c =>
    Ret (if decide (internal_context_ h = None) then true else negb (future_attached_ c))).

(** [RealtimeFuture::IsWaitFreeDestructible()] *)
Definition future_IsWaitFreeDestructible (h : handle) (m : heap) : outcome bool :=
  with_ctx h m (Ret true) (fun _ c =>
    Ret (if decide (internal_context_ h = None) then true else negb (promise_attached_ c))).

(** [RealtimeFuture::Get()] *)
Definition future_Get (h : handle) (m : heap)
  : outcome (expected T RealtimeStatus * handle * heap) :=
  with_ctx h m (Ret (Unexpected future_unattached, h, m)) (fun p c =>
    do! (r, c1) := of_checked (get_value c) in
    let m1 := <[p := c1]> m in
    match r with
    | Value v =>
        if negb (is_reusable_ h) then
          do! (d, h', m2) := future_Detach h m1 in
          if negb (rt_ok d) then Ret (Unexpected d, h', m2) else Ret (Value v, h', m2)
        else Ret (Value v, h, m1)
    | Unexpected e => Ret (Unexpected e, h, m1)
    end).

(** [RealtimeFuture::Peek(copy_fn)] *)
Definition future_Peek (copy_fn : T -> T) (h : handle) (m : heap)
  : outcome (expected T RealtimeStatus * heap) :=
  with_ctx h m (Ret (Unexpected future_unattached, m)) (fun p c =>
    do! (r, c1) := of_checked (peek_value copy_fn c) in Ret (r, <[p := c1]> m)).

(** [RealtimeFuture::WaitUntil(deadline)] *)
Definition future_WaitUntil (deadline : Z) (e : wait_env) (others : Ctx -> Ctx)
    (h : handle) (m : heap) : outcome (Status * heap) :=
  with_ctx h m (Ret (FormatStatus kFailedPrecondition "Future is not attached.", m))
    (fun p c => do! (st, c') := wait_value deadline e others c in Ret (st, <[p := c']> m)).

(** [RealtimeFuture::WaitFor(duration)] *)
Definition future_WaitFor (duration : Z) (e : wait_env) (others : Ctx -> Ctx)
    (h : handle) (m : heap) : outcome (Status * heap) :=
  future_WaitUntil (time_add (we_now e) duration) e others h m.

(** [RealtimeFuture::WaitUntilAndGet(deadline)] *)
Definition WaitUntilAndGet (deadline : Z) (e : wait_env) (others : Ctx -> Ctx)
    (h : handle) (m : heap) : outcome (expected T Status * handle * heap) :=
  do! (st, m1) := future_WaitUntil deadline e others h m in
  if negb (status_ok st) then Ret (Unexpected st, h, m1)
  else
    do! (r, h', m2) := future_Get h m1 in
    Ret (match r with Value v => Value v | Unexpected e => Unexpected (ToStatus e) end, h', m2).

(** [RealtimeFuture::WaitUntilAndPeek(deadline, copy_fn)] *)
Definition WaitUntilAndPeek (copy_fn : T -> T) (deadline : Z) (e : wait_env)
    (others : Ctx -> Ctx) (h : handle) (m : heap) : outcome (expected T Status * heap) :=
  do! (st, m1) := future_WaitUntil deadline e others h m in
  if negb (status_ok st) then Ret (Unexpected st, m1)
  else
    do! (r, m2) := future_Peek copy_fn h m1 in
    Ret (match r with Value v => Value v | Unexpected e => Unexpected (ToStatus e) end, m2).

(** [RealtimeFuture::WaitForAndGet(duration)], [WaitForAndPeek(duration, copy_fn)] *)
Definition WaitForAndGet (duration : Z) (e : wait_env) :=
  WaitUntilAndGet (time_add (we_now e) duration) e.
Definition WaitForAndPeek (copy_fn : T -> T) (duration : Z) (e : wait_env) :=
  WaitUntilAndPeek copy_fn (time_add (we_now e) duration) e.

End Promise.
Arguments Ctx : clear implicits.

