(* ===== verification/RtPromiseProofs.v ===== *)
(** * Correctness of futures and promises *)
From S2P Require Import Prelude Status Time BinaryFutex LockableBinaryFutex RtQueue.
From S2P Require Import RtQueueProofs RtPromise.

(** ** Locks *)

Definition is_free (m : LockableBinaryFutex) : Prop := val_ (futex_ m) = kPosted.

Definition locked (m : LockableBinaryFutex) : LockableBinaryFutex :=
  mkLockableBinaryFutex (mkBinaryFutex kReady (private_futex_ (futex_ m))).

Lemma TryLock_free m : is_free m -> TryLock m = (true, locked m).
Proof. destruct m as [[v p]]. unfold is_free. simpl. by intros ->. Qed.

Lemma Unlock_locked m : is_free m -> (Unlock (locked m)).1 = (RtOkStatus, m).
Proof. destruct m as [[v p]]. unfold is_free. simpl. by intros ->. Qed.

(** A futex that nobody closed. *)
Definition signal_ok (f : BinaryFutex) : Prop := val_ f = kReady \/ val_ f = kPosted.

Lemma Post_signal_ok f :
  signal_ok f -> exists f', (Post f).1 = (RtOkStatus, f') /\ val_ f' = kPosted.
Proof. destruct f as [v p]. intros [Hv|Hv]; simpl in Hv; subst v; simpl; eauto. Qed.

Lemma TryWait_signal_ok f : signal_ok f -> val_ (TryWait f).2 = kReady.
Proof. destruct f as [v p]. by intros [Hv|Hv]; simpl in Hv; subst v. Qed.

Section Proofs.
Context {T : Type} (value_init : T) (moved : T -> T) (StrError : Z -> string).
Implicit Types (c : Ctx T) (v : T).

#[local] Arguments try_lock : simpl never.
#[local] Arguments unlock : simpl never.
#[local] Arguments post : simpl never.
#[local] Arguments drain : simpl never.
#[local] Arguments Empty : simpl never.
#[local] Arguments ReadUnlock : simpl never.
#[local] Arguments WriteUnlock : simpl never.

Lemma try_lock_free get set c :
  is_free (get c) -> try_lock get set c = (true, set c (locked (get c))).
Proof. intros Hf. unfold try_lock. by rewrite TryLock_free. Qed.

Lemma unlock_locked get set c m :
  get c = locked m -> is_free m -> unlock get set c = (RtOkStatus, set c m).
Proof.
  intros Hg Hf. unfold unlock. rewrite Hg. pose proof (Unlock_locked m Hf) as Hu.
  destruct (Unlock (locked m)) as [[st m'] calls]. simpl in Hu. by injection Hu as -> ->.
Qed.

Lemma post_ok get set c :
  signal_ok (get c) -> exists f, post get set c = (RtOkStatus, set c f) /\ val_ f = kPosted.
Proof.
  intros Hs. destruct (Post_signal_ok _ Hs) as (f & Hp & Hf). exists f. split; [|done].
  unfold post. destruct (Post (get c)) as [[st f'] calls]. simpl in Hp.
  by injection Hp as -> ->.
Qed.

(** The value that was set and not yet consumed. *)
Definition value_of c : list T := contents (rq_buffer (ctx_buffer_ c)) RIdle.

(** A context between calls.  The last clause is the link between the notification
    and what it announces. *)
Record ctx_wf c : Prop := mkCtxWf {
  cw_idle : idle (rq_buffer (ctx_buffer_ c));
  cw_capacity : capacity_ (rq_buffer (ctx_buffer_ c)) = 1;
  cw_read : is_free (read_value_futex_ c);
  cw_write : is_free (write_value_futex_ c);
  cw_cancel : is_free (cancel_futex_ c);
  cw_get_future : is_free (get_future_futex_ c);
  cw_get_promise : is_free (get_promise_futex_ c);
  cw_has_value : signal_ok (has_value_ c);
  cw_future_detached : signal_ok (future_detached_ c);
  cw_promise_detached : signal_ok (promise_detached_ c);
  cw_announced : val_ (has_value_ c) = kPosted -> value_of c <> [] \/ is_cancelled_ c = true }.

Lemma value_of_cases c : ctx_wf c -> value_of c = [] \/ exists w, value_of c = [w].
Proof.
  intros Hw. pose proof (contents_length _ _ _ (cw_idle c Hw)) as Hl.
  pose proof (qi_size _ _ _ (cw_idle c Hw)) as Hs. rewrite (cw_capacity c Hw) in Hs.
  unfold value_of. destruct (contents _ _) as [|w [|]]; simpl in *; eauto. lia.
Qed.

Lemma value_of_empty c : ctx_wf c -> Empty (rq_buffer (ctx_buffer_ c)) = bool_decide (value_of c = []).
Proof.
  intros Hw. pose proof (contents_length _ _ _ (cw_idle c Hw)) as Hl. unfold Empty.
  apply bool_decide_ext. unfold value_of. destruct (contents _ _); simpl in *; split; intros;
    (done || lia).
Qed.

(** Two contexts are equal when the locks that were taken are free again. *)
Ltac ctx_done c :=
  unfold ReadUnlock, WriteUnlock;
  try (erewrite unlock_locked by done);
  destruct c as [[] ? ? ? [[]] [[]] [[]] [[]] [[]]]; unfold is_free in *; simpl in *; by subst.

(** ** Publishing a value *)

(** The context after a successful [Set]. *)
Definition after_set c (q : RealtimeQueue T) (f : BinaryFutex) : Ctx T :=
  set_has_value (set_queue c q) f.

Lemma set_accepts c v :
  ctx_wf c -> is_cancelled_ c = false -> value_of c = [] ->
  exists c1 q f, set_publish c v = Returns (None, c1)
    /\ set_announce c1 = (RtOkStatus, true, after_set c q f)
    /\ ctx_wf (after_set c q f) /\ value_of (after_set c q f) = [v]
    /\ val_ f = kPosted.
Proof.
  intros Hw Hc Hv. pose proof Hw as [Hi Hcap Hr Hwr Hca Hgf Hgp Hhv Hfd Hpd Han].
  unfold set_publish, WriteTryLock. rewrite try_lock_free by done. simpl.
  unfold IsCancelled. simpl. rewrite Hc.
  destruct (prepare_cases (ctx_buffer_ c) Hi)
    as [[Hf _]|(_ & p & rq1 & Hp & Hres & q1 & Hp1 & Hst)].
  { unfold value_of in Hv. rewrite Hv, Hcap in Hf. done. }
  destruct (insert_steps _ _ _ v Hi Hp1) as (q2 & Hfin & Hi2 & Hc2 & Hcap2).
  rewrite Hp. simpl. rewrite Hst, Hfin. simpl.
  set (c1 := set_queue _ _). destruct (post_ok has_value_ set_has_value c1 Hhv) as (f & Hpost & Hfv).
  exists c1, (mkRealtimeQueue q2 (reset_function_ rq1)), f. split; [reflexivity|].
  assert (value_of (after_set c (mkRealtimeQueue q2 (reset_function_ rq1)) f) = [v]) as Hval.
  { unfold value_of in *. simpl. by rewrite Hc2, Hv. }
  split.
  - unfold set_announce. rewrite Hpost. unfold WriteUnlock.
    rewrite (unlock_locked _ _ _ (write_value_futex_ c)) by done. by destruct c.
  - split; [|done]. split; simpl; auto.
    + by rewrite Hcap2.
    + by right.
    + intros _. left. by rewrite Hval.
Qed.

Lemma set_refuses c v :
  ctx_wf c -> is_cancelled_ c = false -> value_of c <> [] ->
  set_publish c v =
    Returns (Some (FormatRealtimeStatus kResourceExhausted "Value has already been set."), c).
Proof.
  intros Hw Hc Hv. pose proof Hw as [Hi Hcap Hr Hwr Hca Hgf Hgp Hhv Hfd Hpd Han].
  unfold set_publish, WriteTryLock. rewrite try_lock_free by done. simpl.
  unfold IsCancelled. simpl. rewrite Hc.
  destruct (prepare_cases (ctx_buffer_ c) Hi) as [[_ ->]|(Hlt & _)].
  - ctx_done c.
  - exfalso. rewrite Hcap in Hlt. unfold value_of in Hv.
    destruct (contents _ _); simpl in Hlt; [done|lia].
Qed.

Lemma set_cancelled_refuses c v :
  ctx_wf c -> is_cancelled_ c = true ->
  set_publish c v =
    Returns (Some (FormatRealtimeStatus kCancelled "Promise was cancelled."), c).
Proof.
  intros Hw Hc. pose proof Hw as [Hi Hcap Hr Hwr Hca Hgf Hgp Hhv Hfd Hpd Han].
  unfold set_publish, WriteTryLock. rewrite try_lock_free by done. simpl.
  unfold IsCancelled. simpl. rewrite Hc. ctx_done c.
Qed.

(** ** Consuming a value *)

(** [MoveFront] then [DropFront] take the oldest element, like [Pop]. *)
Lemma move_drop (q : RtQueueBuffer T) v rest :
  idle q -> contents q RIdle = v :: rest ->
  exists q1 q2, MoveFront moved q = Returns (Some v, q1) /\ DropFront q1 = Returns q2
    /\ idle q2 /\ contents q2 RIdle = rest /\ capacity_ q2 = capacity_ q.
Proof.
  intros Hi Hc. destruct (front_some _ _ _ Hi Hc) as (q1 & Hf & Hi1 & Hc1 & Ht & Hcap).
  destruct (store_front _ _ _ (moved v) Hi1 Hc1) as [Hi2 Hc2].
  destruct (drop_front _ _ _ Hi2 Hc2) as (q2 & Hd & ? & ? & Hcap2).
  exists (store q1 (tail_ q1) (moved v)), q2. split; [|by rewrite Hcap2].
  unfold MoveFront. pose proof (contents_length _ _ _ Hi) as Hl. rewrite Hc in Hl. simpl in Hl.
  unfold Empty. rewrite bool_decide_false by lia. rewrite Hf. simpl.
  by rewrite <-Ht, (front_deref _ _ _ Hi1 Hc1).
Qed.

Lemma get_takes c v :
  ctx_wf c -> is_cancelled_ c = false -> value_of c = [v] ->
  exists q, let c' := set_has_value (set_queue c q) (TryWait (has_value_ c)).2 in
    get_value moved c = Returns (Value v, c')
    /\ ctx_wf c' /\ value_of c' = [] /\ val_ (has_value_ c') = kReady.
Proof.
  intros Hw Hc Hv. pose proof Hw as [Hi Hcap Hr Hwr Hca Hgf Hgp Hhv Hfd Hpd Han].
  destruct (move_drop _ v [] Hi Hv) as (q1 & q2 & Hm & Hd & Hi2 & Hc2 & Hcap2).
  exists (mkRealtimeQueue q2 (reset_function_ (ctx_buffer_ c))). simpl.
  pose proof (TryWait_signal_ok _ Hhv) as Hready.
  split; [|split; [|split]].
  - unfold get_value, ReadTryLock. rewrite try_lock_free by done. simpl.
    unfold IsCancelled. simpl. rewrite Hc, Hm. simpl. rewrite Hd. simpl. ctx_done c.
  - split; simpl; auto; [by rewrite Hcap2|by left|]. rewrite Hready. done.
  - done.
  - done.
Qed.

Lemma get_unavailable c :
  ctx_wf c -> is_cancelled_ c = false -> value_of c = [] ->
  get_value moved c =
    Returns (Unexpected (FormatRealtimeStatus kUnavailable
      "Value is not available yet or has already been retrieved."), c).
Proof.
  intros Hw Hc Hv. pose proof Hw as [Hi Hcap Hr Hwr Hca Hgf Hgp Hhv Hfd Hpd Han].
  unfold get_value, ReadTryLock. rewrite try_lock_free by done. simpl.
  unfold IsCancelled. simpl. rewrite Hc. unfold MoveFront.
  rewrite value_of_empty, Hv by done. simpl. ctx_done c.
Qed.

Lemma get_cancelled c :
  ctx_wf c -> is_cancelled_ c = true ->
  get_value moved c =
    Returns (Unexpected (FormatRealtimeStatus kCancelled "Future was cancelled."), c).
Proof.
  intros Hw Hc. pose proof Hw as [Hi Hcap Hr Hwr Hca Hgf Hgp Hhv Hfd Hpd Han].
  unfold get_value, ReadTryLock. rewrite try_lock_free by done. simpl.
  unfold IsCancelled. simpl. rewrite Hc. ctx_done c.
Qed.

(** ** Cancelling *)

Lemma cancel_ok c :
  ctx_wf c -> exists f, let c' := set_has_value (set_cancelled c true) f in
    Cancel c = (RtOkStatus, c') /\ ctx_wf c' /\ val_ f = kPosted.
Proof.
  intros Hw. pose proof Hw as [Hi Hcap Hr Hwr Hca Hgf Hgp Hhv Hfd Hpd Han].
  unfold Cancel. rewrite try_lock_free by done. cbn [negb].
  rewrite (unlock_locked _ _ _ (cancel_futex_ c)) by done. cbn [negb rt_ok].
  rewrite rt_ok_RtOkStatus. cbn [negb].
  set (c1 := set_cancel _ _).
  destruct (post_ok has_value_ set_has_value c1 Hhv) as (f & Hp & Hf).
  exists f. rewrite Hp. split; [by destruct c|]. split; [|done].
  split; simpl; auto. by right.
Qed.

(** ** Attaching and detaching *)

Lemma get_promise_spec this c r :
  ctx_wf c ->
  GetPromise this c r =
    (if promise_attached_ c
     then Unexpected (FormatRealtimeStatus kAlreadyExists "Promise is already attached.")
     else Value (mkHandle (Some this) None r), set_promise_attached c true).
Proof.
  intros Hw. pose proof Hw as [Hi Hcap Hr Hwr Hca Hgf Hgp Hhv Hfd Hpd Han].
  unfold GetPromise. rewrite try_lock_free by done. cbn [negb].
  unfold compare_exchange_strong. destruct (promise_attached_ c) eqn:Ha; simpl; rewrite Ha; simpl;
    ctx_done c.
Qed.

Lemma get_future_spec this c r :
  ctx_wf c ->
  GetFuture this c r =
    (if future_attached_ c
     then Unexpected (FormatRealtimeStatus kAlreadyExists "Future is already attached.")
     else Value (mkHandle (Some this) None r), set_future_attached c true).
Proof.
  intros Hw. pose proof Hw as [Hi Hcap Hr Hwr Hca Hgf Hgp Hhv Hfd Hpd Han].
  unfold GetFuture. rewrite try_lock_free by done. cbn [negb].
  unfold compare_exchange_strong. destruct (future_attached_ c) eqn:Ha; simpl; rewrite Ha; simpl;
    ctx_done c.
Qed.

Lemma detach_promise_spec c :
  ctx_wf c -> promise_attached_ c = true ->
  exists f, let c' := set_promise_detached (set_promise_attached c false) f in
    DetachPromise c = (RtOkStatus, c') /\ ctx_wf c' /\ val_ f = kPosted.
Proof.
  intros Hw Ha. pose proof Hw as [Hi Hcap Hr Hwr Hca Hgf Hgp Hhv Hfd Hpd Han].
  unfold DetachPromise. rewrite Ha.
  destruct (post_ok promise_detached_ set_promise_detached (set_promise_attached c false) Hpd)
    as (f & Hp & Hf). exists f. rewrite Hp. split; [done|]. split; [|done].
  split; simpl; auto. by right.
Qed.

Lemma detach_future_spec c :
  ctx_wf c -> future_attached_ c = true ->
  exists f, let c' := set_future_detached (set_future_attached c false) f in
    DetachFuture c = (RtOkStatus, c') /\ ctx_wf c' /\ val_ f = kPosted.
Proof.
  intros Hw Ha. pose proof Hw as [Hi Hcap Hr Hwr Hca Hgf Hgp Hhv Hfd Hpd Han].
  unfold DetachFuture. rewrite Ha.
  destruct (post_ok future_detached_ set_future_detached (set_future_attached c false) Hfd)
    as (f & Hp & Hf). exists f. rewrite Hp. split; [done|]. split; [|done].
  split; simpl; auto. by right.
Qed.

Lemma set_attached_wf c a b :
  ctx_wf c -> ctx_wf (set_promise_attached (set_future_attached c a) b).
Proof. intros []. by split. Qed.

(** ** Handles *)

(** A handle after a call that consumes it unless it is reusable. *)
Definition used (h : handle) : handle := if is_reusable_ h then h else detached h.

(** C37: set, then get.  On a context without a value and not cancelled, with both
    handles attached, [Set] returns OK and a following [Get] returns exactly that
    value; each call detaches its handle unless the handle is reusable; afterwards
    the context is again without a value and ready for the next one. *)
Theorem set_get_roundtrip (m : gmap nat (Ctx T)) (p : nat) (hp hf : handle) c v :
  m !! p = Some c -> context_ hp = Some p -> context_ hf = Some p ->
  ctx_wf c -> is_cancelled_ c = false -> value_of c = [] ->
  promise_attached_ c = true -> future_attached_ c = true ->
  exists m1 m2 c2,
    promise_Set hp m v = Ret (RtOkStatus, used hp, m1)
    /\ future_Get moved hf m1 = Ret (Value v, used hf, m2)
    /\ m2 !! p = Some c2 /\ ctx_wf c2 /\ value_of c2 = [] /\ is_cancelled_ c2 = false
    /\ promise_attached_ c2 = is_reusable_ hp /\ future_attached_ c2 = is_reusable_ hf.
Proof.
  intros Hm Hp Hf Hw Hc Hv Hpa Hfa.
  destruct (set_accepts c v Hw Hc Hv) as (c1 & q & f & Hpub & Hann & Hw1 & Hv1 & _).
  assert (exists c1', promise_Set hp m v = Ret (RtOkStatus, used hp, <[p := c1']> m)
    /\ ctx_wf c1' /\ value_of c1' = [v] /\ is_cancelled_ c1' = false
    /\ promise_attached_ c1' = is_reusable_ hp /\ future_attached_ c1' = true)
    as (c1' & Hset & Hw1' & Hv1' & Hc1' & Hpa1 & Hfa1).
  { unfold promise_Set, with_ctx. rewrite Hp, Hm, Hpub. simpl. rewrite Hann. simpl.
    unfold used. destruct (is_reusable_ hp); simpl; [by eauto 8|].
    destruct (detach_promise_spec _ Hw1 Hpa) as (fd & Hd & Hwd & _).
    unfold promise_Detach, with_ctx. rewrite Hp, lookup_insert_eq, Hd. simpl.
    rewrite insert_insert_eq. eauto 8. }
  destruct (get_takes c1' v Hw1' Hc1' Hv1') as (q2 & Hget & Hw2 & Hv2 & _). simpl in *.
  exists (<[p := c1']> m). unfold future_Get, with_ctx. rewrite Hf, lookup_insert_eq, Hget. simpl.
  unfold used. destruct (is_reusable_ hf); simpl.
  { eexists _, _. split; [done|]. split; [done|]. rewrite insert_insert_eq, lookup_insert_eq.
    eauto 8. }
  destruct (detach_future_spec _ Hw2 Hfa1) as (fd & Hd & Hwd & _).
  unfold future_Detach, with_ctx. rewrite Hf, lookup_insert_eq, Hd. simpl.
  eexists _, _. split; [done|]. split; [done|].
  rewrite !insert_insert_eq, lookup_insert_eq. eauto 8.
Qed.

(** cancellation is final until [Reset].  [Cancel] on a context between calls
    returns OK (also when the context is already cancelled), wakes a waiter, and
    afterwards [Set], [Get], [Peek], [HasValue] and [WaitUntil] all fail with
    Cancelled and change nothing. *)
Theorem cancel_is_final c v (copy_fn : T -> T) (deadline : Z) (e : wait_env) :
  ctx_wf c ->
  exists c', Cancel c = (RtOkStatus, c') /\ ctx_wf c' /\ is_cancelled_ c' = true
    /\ val_ (has_value_ c') = kPosted /\ value_of c' = value_of c
    /\ (Cancel c').1 = RtOkStatus
    /\ set_publish c' v =
         Returns (Some (FormatRealtimeStatus kCancelled "Promise was cancelled."), c')
    /\ get_value moved c' =
         Returns (Unexpected (FormatRealtimeStatus kCancelled "Future was cancelled."), c')
    /\ peek_value copy_fn c' =
         Returns (Unexpected (FormatRealtimeStatus kCancelled "Future was cancelled."), c')
    /\ HasValue c' = Unexpected (FormatRealtimeStatus kCancelled "Context was cancelled.")
    /\ wait_value StrError deadline e id c' =
         Ret (ToStatus (FormatRealtimeStatus kCancelled "Context was cancelled."), c').
Proof.
  intros Hw. destruct (cancel_ok c Hw) as (f & Hc & Hw' & Hf). simpl in *.
  set (c' := set_has_value (set_cancelled c true) f) in *.
  destruct (cancel_ok c' Hw') as (f2 & Hc2 & _).
  exists c'. split; [done|]. split; [done|]. split; [done|]. split; [done|].
  split; [done|]. split; [by rewrite Hc2|].
  split; [by apply set_cancelled_refuses|]. split; [by apply get_cancelled|]. done.
Qed.

(** a context hands out one promise and one future at a time: the first request
    attaches a handle, every further one fails with AlreadyExists until the handle
    detaches, after which a request succeeds again. *)
Theorem one_handle_at_a_time (this : nat) c (r r' : bool) :
  ctx_wf c -> promise_attached_ c = false -> future_attached_ c = false ->
  exists c1 c2 c3 c4,
    GetPromise this c r = (Value (mkHandle (Some this) None r), c1)
    /\ GetPromise this c1 r'
         = (Unexpected (FormatRealtimeStatus kAlreadyExists "Promise is already attached."), c1)
    /\ DetachPromise c1 = (RtOkStatus, c2)
    /\ (GetPromise this c2 r').1 = Value (mkHandle (Some this) None r')
    /\ GetFuture this c r = (Value (mkHandle (Some this) None r), c3)
    /\ GetFuture this c3 r'
         = (Unexpected (FormatRealtimeStatus kAlreadyExists "Future is already attached."), c3)
    /\ DetachFuture c3 = (RtOkStatus, c4)
    /\ (GetFuture this c4 r').1 = Value (mkHandle (Some this) None r').
Proof.
  intros Hw Hp Hf.
  assert (ctx_wf (set_promise_attached c true)) as Hw1 by (by destruct Hw; split).
  assert (ctx_wf (set_future_attached c true)) as Hw3 by (by destruct Hw; split).
  destruct (detach_promise_spec _ Hw1 eq_refl) as (f2 & Hd2 & Hw2 & _).
  destruct (detach_future_spec _ Hw3 eq_refl) as (f4 & Hd4 & Hw4 & _).
  simpl in *. eexists (set_promise_attached c true), _, (set_future_attached c true), _.
  split; [by rewrite get_promise_spec, Hp|]. split; [by rewrite get_promise_spec|].
  split; [exact Hd2|]. split; [by rewrite get_promise_spec|].
  split; [by rewrite get_future_spec, Hf|].
  split; [by rewrite get_future_spec|]. split; [exact Hd4|]. by rewrite get_future_spec.
Qed.

(** ** [Reset] *)

Lemma scoped_lock_free get set c :
  is_free (get c) -> scoped_lock StrError get set c = Ret (set c (locked (get c))).
Proof.
  unfold scoped_lock, new_BinaryFutexLock, Lock. destruct (get c) as [[v p]].
  unfold is_free. simpl. by intros ->.
Qed.

Lemma scoped_unlock_locked get set c m :
  get c = locked m -> is_free m -> scoped_unlock get set c = Ret (set c m).
Proof.
  intros Hg Hf. unfold scoped_unlock, destroy_BinaryFutexLock. rewrite Hg.
  pose proof (Unlock_locked m Hf) as Hu.
  destruct (Unlock (locked m)) as [[st m'] calls]. simpl in Hu. by injection Hu as -> ->.
Qed.

Lemma clear_buffer_empties fuel (q : RtQueueBuffer T) :
  idle q -> (length (contents q RIdle) <= fuel)%nat ->
  exists q', clear_buffer moved fuel q = Ret q' /\ idle q' /\ contents q' RIdle = []
    /\ capacity_ q' = capacity_ q.
Proof.
  revert q. induction fuel as [|fuel IH]; intros q Hi Hlen;
    pose proof (contents_length _ _ _ Hi) as Hl; destruct (contents q RIdle) as [|v rest] eqn:Hc;
    simpl in *; try lia; unfold Empty.
  - rewrite bool_decide_true by lia. eauto.
  - rewrite bool_decide_true by lia. eauto.
  - rewrite bool_decide_false by lia.
    destruct (move_drop q v rest Hi Hc) as (q1 & q2 & -> & Hd & Hi2 & Hc2 & Hcap2). simpl.
    rewrite Hd. simpl. rewrite <-Hcap2. apply IH; [done|]. rewrite Hc2. lia.
Qed.

Lemma reset_clears_wf (timeout : Z) (e1 e2 : wait_env) c :
  ctx_wf c -> promise_attached_ c = false -> future_attached_ c = false ->
  exists c', Reset moved StrError timeout e1 e2 c = Ret (OkStatus, c')
    /\ ctx_wf c' /\ value_of c' = [] /\ is_cancelled_ c' = false
    /\ val_ (has_value_ c') = kReady /\ val_ (future_detached_ c') = kReady
    /\ val_ (promise_detached_ c') = kReady.
Proof.
  intros Hw Hp Hf. pose proof Hw as [Hi Hcap Hr Hwr Hca Hgf Hgp Hhv Hfd Hpd Han].
  pose proof (TryWait_signal_ok _ Hhv) as H1. pose proof (TryWait_signal_ok _ Hfd) as H2.
  pose proof (TryWait_signal_ok _ Hpd) as H3.
  pose proof (contents_length _ _ _ Hi) as Hl.
  destruct (clear_buffer_empties (Z.to_nat (Size (rq_buffer (ctx_buffer_ c)))) _ Hi)
    as (q' & Hq & Hi' & Hc' & Hcap'); [unfold Size; lia|].
  unfold Reset. rewrite !scoped_lock_free by done. cbn [obind].
  rewrite !scoped_lock_free by done. cbn [obind]. rewrite !scoped_lock_free by done.
  cbn [obind]. unfold reset_wait. cbn [future_attached_ promise_attached_ set_cancel
    set_get_promise set_get_future]. rewrite Hf. cbn [obind].
  cbn [future_attached_ promise_attached_ set_cancel set_get_promise set_get_future].
  rewrite Hp. cbn [obind]. rewrite !scoped_lock_free by done. cbn [obind].
  rewrite !scoped_lock_free by done. cbn [obind].
  unfold reset_body. cbn [ctx_buffer_ set_cancel set_get_promise set_get_future set_read set_write].
  rewrite Hq. cbn [obind].
  do 5 (erewrite scoped_unlock_locked by done; cbn [obind]).
  eexists. split; [reflexivity|]. unfold drain. simpl.
  split; [|done]. split; simpl; auto; try (by left); [by rewrite Hcap'|]. by rewrite H1.
Qed.

(** [Reset] without attached handles does not block and restores the initial
    state: no value, not cancelled, no pending notification; all locks are free
    again. *)
Theorem reset_clears (timeout : Z) (e1 e2 : wait_env) c :
  ctx_wf c -> promise_attached_ c = false -> future_attached_ c = false ->
  exists c', Reset moved StrError timeout e1 e2 c = Ret (OkStatus, c')
    /\ ctx_wf c' /\ value_of c' = [] /\ is_cancelled_ c' = false
    /\ val_ (has_value_ c') = kReady /\ val_ (future_detached_ c') = kReady
    /\ val_ (promise_detached_ c') = kReady.
Proof. apply reset_clears_wf. Qed.

(** ** Calls one after the other *)

(** The whole calls of the two handles on a context, none overlapping another. *)
Inductive ctx_call : Ctx T -> Ctx T -> Prop :=
| cc_set_refused c v st c' : set_publish c v = Returns (Some st, c') -> ctx_call c c'
| cc_set c v c1 st b c' : set_publish c v = Returns (None, c1) ->
    set_announce c1 = (st, b, c') -> ctx_call c c'
| cc_get c r c' : get_value moved c = Returns (r, c') -> ctx_call c c'
| cc_peek c f r c' : peek_value f c = Returns (r, c') -> ctx_call c c'
| cc_wait c d e st c' : we_events e = [] -> wait_value StrError d e id c = Ret (st, c') ->
    ctx_call c c'
| cc_cancel c : ctx_call c (Cancel c).2
| cc_promise c p r : ctx_call c (GetPromise p c r).2
| cc_future c p r : ctx_call c (GetFuture p c r).2
| cc_detach_promise c : promise_attached_ c = true -> ctx_call c (DetachPromise c).2
| cc_detach_future c : future_attached_ c = true -> ctx_call c (DetachFuture c).2
| cc_reset c t e1 e2 st c' : promise_attached_ c = false -> future_attached_ c = false ->
    Reset moved StrError t e1 e2 c = Ret (st, c') -> ctx_call c c'.

Lemma peek_keeps c f r c' :
  ctx_wf c -> peek_value f c = Returns (r, c') -> c' = c
  /\ (is_cancelled_ c = false -> forall v, value_of c = [v] -> r = Value (f v)).
Proof.
  intros Hw. pose proof Hw as [Hi Hcap Hr Hwr Hca Hgf Hgp Hhv Hfd Hpd Han].
  unfold peek_value, IsCancelled. destruct (is_cancelled_ c) eqn:Hc; [by intros [= <- <-]|].
  destruct (value_of_cases c Hw) as [Hv|[w Hv]]; unfold value_of in Hv.
  - pose proof (contents_length _ _ _ Hi) as Hl. rewrite Hv in Hl. simpl in Hl.
    unfold Front, Empty. rewrite (qi_acc _ _ _ Hi), bool_decide_true by lia. simpl.
    intros [= <- <-]. split; [by destruct c as [[]]|]. intros _ v. unfold value_of. by rewrite Hv.
  - destruct (front_some _ _ _ Hi Hv) as (q1 & Hf & Hi1 & Hc1 & Ht & Hcap1).
    rewrite Hf. simpl. rewrite <-Ht, (front_deref _ _ _ Hi1 Hc1).
    unfold KeepFront. rewrite (qi_acc _ _ _ Hi1). simpl. intros [= <- <-].
    unfold Front in Hf. rewrite (qi_acc _ _ _ Hi) in Hf. simpl in Hf.
    destruct (Empty _); simplify_eq/=. pose proof (qi_acc _ _ _ Hi) as Hacc.
    split; [destruct c as [[[]]]; simpl in *; by subst|].
    intros _ v Hv'. unfold value_of in Hv'. congruence.
Qed.

Lemma wait_until_ready (d : Z) (e : wait_env) c st c' :
  signal_ok (has_value_ c) -> we_events e = [] ->
  wait_until StrError has_value_ set_has_value d e c = Ret (st, c') ->
  exists f, c' = set_has_value c f /\ signal_ok f
    /\ (val_ f = kPosted -> val_ (has_value_ c) = kPosted)
    /\ (rt_ok st = true -> val_ (has_value_ c) = kPosted).
Proof.
  intros Hs He. unfold wait_until, WaitUntil, Wait_on. rewrite He.
  destruct (has_value_ c) as [v p] eqn:Hf. destruct Hs as [Hv|Hv]; simpl in Hv; subst v; simpl;
    repeat case_decide; repeat case_match; simplify_eq/=; intros [= <- <-];
    eexists; split; try reflexivity; unfold signal_ok; simpl; auto; by split; [left|split].
Qed.

Lemma wait_value_wf (d : Z) (e : wait_env) c st c' :
  ctx_wf c -> we_events e = [] -> wait_value StrError d e id c = Ret (st, c') ->
  ctx_wf c' /\ is_cancelled_ c' = is_cancelled_ c /\ value_of c' = value_of c
  /\ (status_ok st = true -> is_cancelled_ c = false /\ value_of c <> []).
Proof.
  intros Hw He. unfold wait_value, HasValue, IsCancelled.
  rewrite (value_of_empty c Hw). destruct (is_cancelled_ c) eqn:Hc.
  { by intros [= <- <-]. }
  case_bool_decide as Hv; simpl; [|by intros [= <- <-]].
  destruct (wait_until StrError has_value_ set_has_value d e c) as [[s c1]| | |] eqn:Hwu;
    try done. simpl. unfold id.
  destruct (wait_until_ready _ _ _ _ _ (cw_has_value c Hw) He Hwu) as (f & -> & Hf & Hp & Hok).
  intros Hr. assert (c' = set_has_value c f) as -> by (repeat case_match; by simplify_eq).
  destruct Hw as [Hi Hcap Hr' Hwr Hca Hgf Hgp Hhv Hfd Hpd Han].
  split; [split; simpl; auto|]. split; [done|]. split; [done|]. intros Hst.
  destruct (rt_ok s) eqn:Hs; simpl in Hr.
  - destruct (Han (Hok eq_refl)); [done|congruence].
  - injection Hr as <-. unfold status_ok, rt_ok in *. simpl in Hst. congruence.
Qed.

Lemma ctx_call_wf c c' : ctx_wf c -> ctx_call c c' -> ctx_wf c'.
Proof.
  intros Hw Hs. destruct Hs as [c v st c' H|c v c1 st b c' H1 H2|c r c' H|c f r c' H
    |c d e st c' He H|c|c p r|c p r|c Ha|c Ha|c t e1 e2 st c' Hp Hf H].
  - destruct (is_cancelled_ c) eqn:Hc.
    { rewrite set_cancelled_refuses in H by done. by simplify_eq. }
    destruct (value_of_cases c Hw) as [Hv|[w Hv]].
    + destruct (set_accepts c v Hw Hc Hv) as (? & ? & ? & ? & _). congruence.
    + rewrite set_refuses in H by (done || by rewrite Hv). by simplify_eq.
  - destruct (is_cancelled_ c) eqn:Hc.
    { rewrite set_cancelled_refuses in H1 by done. by simplify_eq. }
    destruct (value_of_cases c Hw) as [Hv|[w Hv]].
    + destruct (set_accepts c v Hw Hc Hv) as (? & ? & ? & ? & ? & ? & _). congruence.
    + rewrite set_refuses in H1 by (done || by rewrite Hv). by simplify_eq.
  - destruct (is_cancelled_ c) eqn:Hc.
    { rewrite get_cancelled in H by done. by simplify_eq. }
    destruct (value_of_cases c Hw) as [Hv|[w Hv]].
    + rewrite get_unavailable in H by done. by simplify_eq.
    + destruct (get_takes c w Hw Hc Hv) as (? & ? & ? & _). simpl in *. congruence.
  - by destruct (peek_keeps _ _ _ _ Hw H) as [-> _].
  - by apply (wait_value_wf _ _ _ _ _ Hw He H).
  - destruct (cancel_ok c Hw) as (? & -> & ? & _). done.
  - rewrite get_promise_spec by done. by destruct Hw; split.
  - rewrite get_future_spec by done. by destruct Hw; split.
  - destruct (detach_promise_spec c Hw Ha) as (? & -> & ? & _). done.
  - destruct (detach_future_spec c Hw Ha) as (? & -> & ? & _). done.
  - destruct (reset_clears_wf t e1 e2 c Hw Hp Hf) as (c'' & H' & ? & _). congruence.
Qed.

Lemma new_Ctx_wf (t : Z) : exists c, new_Ctx value_init t = Returns c /\ ctx_wf c.
Proof.
  eexists. split; [reflexivity|]. split; simpl; try done; try (by left).
Qed.

(** waiting is reliable when calls do not overlap.  From construction on,
    through any sequence of whole calls, a pending notification always stands for
    a value or a cancellation; hence after [WaitUntil] returned OK, [Get] returns
    the value at once. *)
Theorem wait_then_get (t : Z) c0 c (d : Z) (e : wait_env) (st : Status) c1 :
  new_Ctx value_init t = Returns c0 -> rtc ctx_call c0 c -> we_events e = [] ->
  wait_value StrError d e id c = Ret (st, c1) -> status_ok st = true ->
  exists v c2, get_value moved c1 = Returns (Value v, c2) /\ value_of c2 = [].
Proof.
  intros Hn Hr He Hwait Hst. destruct (new_Ctx_wf t) as (c0' & Hn' & Hw0).
  assert (c0' = c0) as -> by congruence.
  pose proof (rtc_invariant _ _ _ _ ctx_call_wf Hw0 Hr) as Hw.
  destruct (wait_value_wf _ _ _ _ _ Hw He Hwait) as (Hw1 & Hc1 & Hv1 & Hok).
  destruct (Hok Hst) as [Hc Hv]. rewrite <-Hv1 in Hv.
  destruct (value_of_cases c1 Hw1) as [?|[v Hv']]; [done|].
  destruct (get_takes c1 v Hw1 ltac:(congruence) Hv') as (q & Hg & _ & Hv2 & _).
  eexists v, _. split; [exact Hg|done].
Qed.

End Proofs.

(** ** Concrete runs *)

(** A wait that meets no event: it returns only if a token is there. *)
Definition no_events : wait_env := mkWaitEnv 0 (mkWaitClock 0 (inl (mkTimespec 0 0)) 0) [].

Abbreviation err := (fun _ : Z => "error"%string).
Abbreviation Get7 := (future_Get (T := Z) (fun _ => 0)).

(** a second promise can outlive the context of its future.  The destructor of
    a future waits for an attached promise by taking the token of
    [promise_detached_], but a token that an earlier promise left there is not
    cleared when the next promise attaches.  Run: a future hands out a promise, the
    promise is set (and detaches), the value is read, the future hands out a second
    promise and is destroyed: the destructor does not wait, and the next call on
    the second promise follows a dangling pointer. *)
Theorem stale_detach_token_dangles :
  exists hf m0 hp1 m1 m2 m3 hp2 m4 m5,
    new_future 0 default_detach_timeout 0 ∅ = Ret (hf, m0)
    /\ future_GetPromise hf m0 false = Ret (Value hp1, m1)
    /\ promise_Set hp1 m1 7 = Ret (RtOkStatus, detached hp1, m2)
    /\ Get7 hf m2 = Ret (Value 7, hf, m3)
    /\ future_GetPromise hf m3 false = Ret (Value hp2, m4)
    /\ future_IsWaitFreeDestructible hf m4 = Ret false
    /\ destroy_future err no_events no_events hf m4 = Ret m5
    /\ promise_Set hp2 m5 8 = Dangling
    /\ destroy_promise err no_events no_events hp2 m5 = Dangling.
Proof.
  eexists _, _, _, _, _, _, _, _, _. repeat (split; [vm_compute; reflexivity|]).
  vm_compute. reflexivity.
Qed.

(** for the same reason [Reset] can complete while a promise is attached: it
    empties the buffer under a handle that is in use. *)
Theorem reset_with_attached_promise :
  exists c0 c1 c2 c3 c4 h h',
    new_Ctx 0 default_detach_timeout = Returns c0
    /\ GetPromise 0 c0 true = (Value h, c1)
    /\ DetachPromise c1 = (RtOkStatus, c2)
    /\ GetPromise 0 c2 true = (Value h', c3)
    /\ Reset (fun _ => 0) err (milliseconds 1000) no_events no_events c3 = Ret (OkStatus, c4)
    /\ IsPromiseAttached c4 = true.
Proof.
  eexists _, _, _, _, _, _, _. repeat (split; [vm_compute; reflexivity|]).
  vm_compute. reflexivity.
Qed.

(** [WaitUntil] can return OK without a value.  [Set] publishes the value and
    then posts the notification, under a lock of its own: when [Get] runs in
    between, it consumes the value and finds no notification to drain.  The
    notification that follows makes the next [WaitUntil] return OK at once, and the
    [Get] after it fails with Unavailable. *)
Theorem stale_notification :
  exists c0 c1 c2 c3 c4 c5,
    new_Ctx 0 default_detach_timeout = Returns c0
    /\ set_publish c0 7 = Returns (None, c1)
    /\ get_value (fun _ => 0) c1 = Returns (Value 7, c2)
    /\ set_announce c2 = (RtOkStatus, true, c3)
    /\ wait_value err Time_max no_events id c3 = Ret (OkStatus, c4)
    /\ get_value (fun _ => 0) c4 =
         Returns (Unexpected (FormatRealtimeStatus kUnavailable
           "Value is not available yet or has already been retrieved."), c5).
Proof.
  eexists _, _, _, _, _, _. repeat (split; [vm_compute; reflexivity|]).
  vm_compute. reflexivity.
Qed.

(** A context with both handles attached. *)
Definition ready_ctx : Ctx Z :=
  match new_Ctx 0 default_detach_timeout with
  | Returns c => set_promise_attached (set_future_attached c true) true
  | Aborts _ => mkCtx (mkRealtimeQueue q0 None) false false false
      (new_LockableBinaryFutex true) (new_LockableBinaryFutex true)
      (new_LockableBinaryFutex true) (new_LockableBinaryFutex true)
      (new_LockableBinaryFutex true) (new_BinaryFutex false true)
      (new_BinaryFutex false true) (new_BinaryFutex false true) 0
  end.

Lemma ready_ctx_wf : ctx_wf ready_ctx.
Proof.
  unfold ready_ctx. destruct (new_Ctx_wf 0 default_detach_timeout) as (c & Hc & Hw).
  rewrite Hc. by apply set_attached_wf.
Qed.

Lemma set_get_roundtrip_witness :
  exists m1 m2,
    promise_Set (mkHandle (Some 0%nat) None false) {[0%nat := ready_ctx]} 7
      = Ret (RtOkStatus, mkHandle None None false, m1)
    /\ Get7 (mkHandle (Some 0%nat) None true) m1
      = Ret (Value 7, mkHandle (Some 0%nat) None true, m2).
Proof.
  destruct (set_get_roundtrip (fun _ => 0) {[0%nat := ready_ctx]} 0
    (mkHandle (Some 0%nat) None false) (mkHandle (Some 0%nat) None true) ready_ctx 7)
    as (m1 & m2 & c2 & H1 & H2 & _); try reflexivity.
  - apply ready_ctx_wf.
  - exists m1, m2. exact (conj H1 H2).
Defined.

Lemma cancel_is_final_witness :
  exists c', Cancel ready_ctx = (RtOkStatus, c') /\ is_cancelled_ c' = true.
Proof.
  destruct (cancel_is_final (fun _ => 0) err ready_ctx 7 (fun x => x) 0 no_events ready_ctx_wf)
    as (c' & H1 & _ & H2 & _).
  exists c'. exact (conj H1 H2).
Defined.

Lemma one_handle_at_a_time_witness :
  exists c1, GetPromise 3 (set_promise_attached (set_future_attached ready_ctx false) false) true
    = (Value (mkHandle (Some 3%nat) None true), c1).
Proof.
  destruct (one_handle_at_a_time 3
    (set_promise_attached (set_future_attached ready_ctx false) false) true false)
    as (c1 & _ & _ & _ & H & _); [|reflexivity|reflexivity|].
  - apply set_attached_wf, ready_ctx_wf.
  - exists c1. exact H.
Defined.

Lemma reset_clears_witness :
  exists c', Reset (fun _ => 0) err 5 no_events no_events
      (set_promise_attached (set_future_attached ready_ctx false) false) = Ret (OkStatus, c')
    /\ value_of c' = [].
Proof.
  destruct (reset_clears (fun _ => 0) err 5 no_events no_events
    (set_promise_attached (set_future_attached ready_ctx false) false))
    as (c' & H1 & _ & H2 & _); [|reflexivity|reflexivity|].
  - apply set_attached_wf, ready_ctx_wf.
  - exists c'. exact (conj H1 H2).
Defined.

(** A context on which 7 was set. *)
Definition fresh_ctx : Ctx Z :=
  match new_Ctx 0 5 with Returns c => c | Aborts _ => ready_ctx end.
Definition published_ctx : Ctx Z :=
  match set_publish fresh_ctx 7 with Returns (_, c) => c | Aborts _ => fresh_ctx end.
Definition set_ctx : Ctx Z := (set_announce published_ctx).2.

Lemma wait_then_get_witness :
  exists v c2, get_value (fun _ => 0) set_ctx = Returns (Value v, c2) /\ value_of c2 = [].
Proof.
  apply (wait_then_get 0 (fun _ => 0) err 5 fresh_ctx set_ctx 9 no_events OkStatus set_ctx);
    [vm_compute; reflexivity| |reflexivity|vm_compute; reflexivity|reflexivity].
  apply rtc_once, (cc_set _ _ fresh_ctx 7 published_ctx RtOkStatus true);
    vm_compute; reflexivity.
Defined.
