(* ===== verification/AsyncRequest.v ===== *)
(** * Asynchronous requests ([icon/utils/async_request.h])

    A request carries a value from a non-realtime thread to a realtime thread, and the
    promise on which the answer is awaited; without a promise no answer is needed. *)
From S2P Require Import Prelude Status RtQueue RtPromise RtPromiseProofs.

Section Request.
Context {Req T : Type}.
Notation heap := (gmap nat (Ctx T)).

Record AsyncRequest := mkAsyncRequest {
  request_ : Req;
  promise_ : option handle }.

(** [AsyncRequest(request)] and [AsyncRequest(request, promise)] *)
Definition new_AsyncRequest (request : Req) : AsyncRequest := mkAsyncRequest request None.
Definition new_AsyncRequest_promise (request : Req) (promise : handle) : AsyncRequest :=
  mkAsyncRequest request (Some promise).

(** [GetRequest()]; [GetMovedRequest()] leaves [moved_request] behind. *)
Definition GetRequest (r : AsyncRequest) : Req := request_ r.
Definition GetMovedRequest (moved_request : Req -> Req) (r : AsyncRequest) : Req * AsyncRequest :=
  (request_ r, mkAsyncRequest (moved_request (request_ r)) (promise_ r)).

(** [IsCancelled()] *)
Definition request_IsCancelled (r : AsyncRequest) (m : heap) : outcome bool :=
  match promise_ r with
  | None => Ret false
  | Some h =>
      do! is_cancelled := promise_IsCancelled h m in
      Ret (match is_cancelled with Value b => b | Unexpected _ => false end)
  end.

(** [SetResponse(reply)] *)
Definition SetResponse (r : AsyncRequest) (m : heap) (reply : T)
  : outcome (RealtimeStatus * AsyncRequest * heap) :=
  match promise_ r with
  | None => Ret (RtOkStatus, r, m)
  | Some h =>
      do! (st, h', m') := promise_Set h m reply in
      Ret (st, mkAsyncRequest (request_ r) (Some h'), m')
  end.

(** [Cancel()] *)
Definition request_Cancel (r : AsyncRequest) (m : heap) : outcome (RealtimeStatus * heap) :=
  match promise_ r with
  | None => Ret (RtOkStatus, m)
  | Some h => promise_Cancel h m
  end.

(** After [Cancel] the request is cancelled for both sides: it says so, the future says
    so, and a later answer is refused and does not reach the future. *)
Theorem cancelled_request_refuses (m : heap) p h c (r : AsyncRequest) reply :
  promise_ r = Some h -> context_ h = Some p -> m !! p = Some c -> ctx_wf c ->
  exists m' c', request_Cancel r m = Ret (RtOkStatus, m') /\ m' !! p = Some c'
    /\ request_IsCancelled r m' = Ret true
    /\ (forall hf, context_ hf = Some p -> future_IsCancelled hf m' = Ret (Value true))
    /\ exists st r' m'', SetResponse r m' reply = Ret (st, r', m'')
         /\ rt_code st = kCancelled /\ GetRequest r' = GetRequest r.
Proof.
  intros Hr Hh Hm Hw. destruct (cancel_ok c Hw) as (f & Hc & Hw' & _).
  set (c' := set_has_value (set_cancelled c true) f) in *. exists (<[p := c']> m), c'.
  unfold request_Cancel, request_IsCancelled, SetResponse, promise_Cancel, promise_IsCancelled,
    future_IsCancelled, handle_Cancel, handle_IsCancelled, promise_Set, with_ctx.
  rewrite Hr, Hh, Hm, Hc, lookup_insert_eq. split; [done|]. split; [done|]. split; [done|].
  split; [intros hf ->; by rewrite lookup_insert_eq|].
  rewrite set_cancelled_refuses by done. cbn. by eexists _, _, _.
Qed.

End Request.
