(* ===== verification/SegmentHeader.v ===== *)
(** * Segment headers ([icon/interprocess/shared_memory_manager/segment_header.{h,cc}])

    Every shared memory segment starts with a header: a version, two reference
    counts, the type of the payload and the bookkeeping of updates.  The counts are
    only accessed between [sem_wait] and [sem_post] of the header's semaphore, so
    each of the functions below is one atomic step for the other processes. *)
From S2P Require Import Prelude Status Time.

(** ** [SegmentHeader::TypeInfo] *)

Definition kMaxSize : nat := 100.

Record TypeInfo := mkTypeInfo {
  type_id_size_ : nat;
  type_id_ : list ascii }.

(** [TypeInfo(type_id)] *)
Definition new_TypeInfo (type_id : string) : TypeInfo :=
  let string_size :=
    if (length (chars type_id) <? kMaxSize)%nat then length (chars type_id) else kMaxSize in
  mkTypeInfo string_size
    (take string_size (chars type_id) ++ replicate (kMaxSize - string_size) NUL).

(** [TypeID()] *)
Definition TypeID (t : TypeInfo) : string := str (take (type_id_size_ t) (type_id_ t)).

(** [std::strncmp(a, b, n) == 0]: equal up to [n] characters or the common end. *)
Fixpoint strncmp_eq (n : nat) (a b : list ascii) : bool :=
  match n, a, b with
  | S n', x :: a', y :: b' =>
      if decide (x = y) then (if decide (x = NUL) then true else strncmp_eq n' a' b') else false
  | _, _, _ => true
  end.

(** [operator==] *)
Definition TypeInfo_eq (lhs rhs : TypeInfo) : bool :=
  (type_id_size_ lhs =? type_id_size_ rhs)%nat
  && strncmp_eq (type_id_size_ lhs) (type_id_ lhs) (type_id_ rhs).

(** ** [SegmentHeader] *)

Inductive Flags := kExclusiveOwnership.
Definition flag_bit (f : Flags) : Z := match f with kExclusiveOwnership => 0 end.

(** [ExpectedVersion()] *)
Definition ExpectedVersion : Z := 4.

Record SegmentHeader := mkSegmentHeader {
  kVersion : Z;
  ref_count_reader_ : Z;
  ref_count_writer_ : Z;
  type_info_ : TypeInfo;
  flags_ : Z;
  last_updated_time_ : Z;
  update_counter_ : Z;
  updated_at_cycle_ : Z }.

(** [SegmentHeader(type_id)] *)
Definition new_SegmentHeader (type_id : string) : SegmentHeader :=
  mkSegmentHeader ExpectedVersion 0 0 (new_TypeInfo type_id) 0 0 0 0.

(** [SegmentHeader()] *)
Definition default_SegmentHeader : SegmentHeader := new_SegmentHeader "UNDEFINED".

(** [SegmentHeader(type_id, flags)] *)
Definition new_SegmentHeader_flags (type_id : string) (flags : list Flags) : SegmentHeader :=
  let h := new_SegmentHeader type_id in
  mkSegmentHeader (kVersion h) (ref_count_reader_ h) (ref_count_writer_ h) (type_info_ h)
    (fold_left (fun b f => Z.setbit b (flag_bit f)) flags (flags_ h))
    (last_updated_time_ h) (update_counter_ h) (updated_at_cycle_ h).

(** The warning of [~SegmentHeader()]: the number of remaining users. *)
Definition destroy_SegmentHeader (h : SegmentHeader) : option Z :=
  if negb (ref_count_reader_ h =? 0) || negb (ref_count_writer_ h =? 0)
  then Some (wrap_s 32 (ref_count_reader_ h + ref_count_writer_ h)) else None.

Definition set_readers (h : SegmentHeader) (n : Z) : SegmentHeader :=
  mkSegmentHeader (kVersion h) n (ref_count_writer_ h) (type_info_ h) (flags_ h)
    (last_updated_time_ h) (update_counter_ h) (updated_at_cycle_ h).
Definition set_writers (h : SegmentHeader) (n : Z) : SegmentHeader :=
  mkSegmentHeader (kVersion h) (ref_count_reader_ h) n (type_info_ h) (flags_ h)
    (last_updated_time_ h) (update_counter_ h) (updated_at_cycle_ h).

(** [IncrementRefCount(counter, mutex)] and [DecrementRefCount(counter, mutex)] *)
Definition IncrementRefCount (counter : Z) : Z := wrap_s 32 (counter + 1).
Definition DecrementRefCount (counter : Z) : Z := if 0 <? counter then counter - 1 else counter.

Definition ReaderRefCount (h : SegmentHeader) : Z := ref_count_reader_ h.
Definition IncrementReaderRefCount (h : SegmentHeader) : SegmentHeader :=
  set_readers h (IncrementRefCount (ref_count_reader_ h)).
Definition DecrementReaderRefCount (h : SegmentHeader) : SegmentHeader :=
  set_readers h (DecrementRefCount (ref_count_reader_ h)).
Definition WriterRefCount (h : SegmentHeader) : Z := ref_count_writer_ h.
Definition IncrementWriterRefCount (h : SegmentHeader) : SegmentHeader :=
  set_writers h (IncrementRefCount (ref_count_writer_ h)).
Definition DecrementWriterRefCount (h : SegmentHeader) : SegmentHeader :=
  set_writers h (DecrementRefCount (ref_count_writer_ h)).

Definition Type_ (h : SegmentHeader) : TypeInfo := type_info_ h.
Definition FlagIsSet (h : SegmentHeader) (f : Flags) : bool := Z.testbit (flags_ h) (flag_bit f).
Definition LastUpdatedTime (h : SegmentHeader) : Z := last_updated_time_ h.
Definition NumUpdates (h : SegmentHeader) : Z := update_counter_ h.
Definition LastUpdatedCycle (h : SegmentHeader) : Z := updated_at_cycle_ h.
Definition Version (h : SegmentHeader) : Z := kVersion h.

(** [UpdatedAt(time, current_cycle, logger)]; the boolean is the warning about a time
    that goes backwards. *)
Definition UpdatedAt (h : SegmentHeader) (time current_cycle : Z) : bool * SegmentHeader :=
  (time <? last_updated_time_ h,
   mkSegmentHeader (kVersion h) (ref_count_reader_ h) (ref_count_writer_ h) (type_info_ h)
     (flags_ h) time
     (if update_counter_ h =? s64_max then s64_min else update_counter_ h + 1)
     current_cycle).

(** ** Types *)

Lemma TypeID_new s : TypeID (new_TypeInfo s) = str (take kMaxSize (chars s)).
Proof.
  unfold TypeID, new_TypeInfo, kMaxSize. cbn [type_id_size_ type_id_]. f_equal.
  destruct (Nat.ltb_spec (length (chars s)) 100).
  - rewrite firstn_all, take_app_le, !take_ge by lia. done.
  - rewrite take_app_le by (rewrite length_take; lia). by rewrite take_take, Nat.min_id.
Qed.

Lemma strncmp_eq_spec a b k l :
  length a = length b -> no_nul a ->
  strncmp_eq (length a) (a ++ k) (b ++ l) = bool_decide (a = b).
Proof.
  revert b. induction a as [|x a IH]; intros [|y b] Hl Hn; try done.
  inversion Hn as [|? ? Hx Ha]; subst. cbn [length strncmp_eq app].
  destruct (decide (x = y)) as [->|Hne].
  - rewrite decide_False by done. rewrite IH by (simpl in Hl; auto with lia).
    apply bool_decide_ext. split; [by intros ->|by intros [= ->]].
  - symmetry. apply bool_decide_eq_false. intros [= -> ->]. done.
Qed.

(** Two segments have the same type exactly when the first 100 characters of their
    type names agree: the comparison of the headers is the comparison of the
    names, cut at [kMaxSize]. *)
Theorem TypeInfo_eq_iff (s t : string) :
  no_nul (chars s) ->
  TypeInfo_eq (new_TypeInfo s) (new_TypeInfo t) = true
    <-> take kMaxSize (chars s) = take kMaxSize (chars t).
Proof.
  intros Hn. unfold TypeInfo_eq, new_TypeInfo. cbn [type_id_size_ type_id_].
  set (cut := fun u : string => if (length (chars u) <? kMaxSize)%nat
                                then length (chars u) else kMaxSize).
  assert (forall u, cut u = length (take kMaxSize (chars u))
            /\ take (cut u) (chars u) = take kMaxSize (chars u)) as Hcut.
  { intros u. unfold cut. rewrite length_take. destruct (Nat.ltb_spec (length (chars u)) kMaxSize).
    - rewrite !take_ge by lia. split; [lia|done].
    - split; [lia|done]. }
  fold (cut s) (cut t). destruct (Hcut s) as [Hs ->], (Hcut t) as [Ht ->].
  rewrite andb_true_iff, Nat.eqb_eq. split.
  - intros [Hlen Hc]. rewrite Hs in Hc.
    rewrite strncmp_eq_spec in Hc; [by apply bool_decide_eq_true in Hc|congruence|auto with icon].
  - intros Heq. split; [by rewrite Hs, Ht, Heq|]. rewrite Hs, strncmp_eq_spec;
      [by apply bool_decide_eq_true|by rewrite Heq|auto with icon].
Qed.

Lemma TypeInfo_eq_iff_witness :
  TypeInfo_eq (new_TypeInfo "intrinsic_fbs.JointState") (new_TypeInfo "intrinsic_fbs.JointState")
    = true.
Proof. apply TypeInfo_eq_iff; [repeat constructor; done|reflexivity]. Defined.

(** ** Updates *)

Lemma wrap_s_succ n :
  (if wrap_s 64 n =? s64_max then s64_min else wrap_s 64 n + 1) = wrap_s 64 (n + 1).
Proof.
  pose proof (wrap_s_range 64 n ltac:(lia)) as [H1 H2].
  unfold wrap_s, s64_max, s64_min in *. change (64 - 1) with 63 in *.
  assert (2 ^ 64 = 2 * 2 ^ 63) as E by reflexivity.
  replace (n + 1 + 2 ^ 63) with ((n + 2 ^ 63) + 1) by lia.
  rewrite (Z.add_mod (n + 2 ^ 63) 1 (2 ^ 64)) by lia.
  pose proof (Z.mod_pos_bound (n + 2 ^ 63) (2 ^ 64) ltac:(lia)) as [H3 H4].
  set (r := (n + 2 ^ 63) mod 2 ^ 64) in *. change (1 mod 2 ^ 64) with 1.
  destruct (Z.eqb_spec (r - 2 ^ 63) (2 ^ 63 - 1)).
  - replace (r + 1) with (2 ^ 64) by lia. rewrite Z.mod_same by lia. lia.
  - rewrite Z.mod_small by lia. lia.
Qed.

Definition update_all (h : SegmentHeader) (us : list (Z * Z)) : SegmentHeader :=
  fold_left (fun h u => (UpdatedAt h u.1 u.2).2) us h.

(** The update counter counts modulo 64 bits, without undefined overflow, and the
    header shows the time and the cycle of the last update; readers of the counts
    and of the type are not disturbed. *)
Theorem updates_counted (type_id : string) (us : list (Z * Z)) :
  let h := update_all (new_SegmentHeader type_id) us in
  NumUpdates h = wrap_s 64 (Z.of_nat (length us))
  /\ in_s 64 (NumUpdates h)
  /\ LastUpdatedTime h = default 0 (last us.*1) /\ LastUpdatedCycle h = default 0 (last us.*2)
  /\ Type_ h = new_TypeInfo type_id /\ Version h = ExpectedVersion
  /\ ReaderRefCount h = 0 /\ WriterRefCount h = 0.
Proof.
  induction us as [|u us IH] using rev_ind; [by repeat split|].
  unfold update_all in *. rewrite fold_left_app. cbn [fold_left].
  set (h := fold_left _ us _) in *. destruct IH as (Hn & _ & _ & _ & Ht & Hv & Hr & Hw).
  unfold NumUpdates, UpdatedAt in *. cbn [snd update_counter_]. rewrite Hn.
  rewrite wrap_s_succ, length_app, !fmap_app. cbn [fmap list_fmap].
  rewrite !last_snoc.
  replace (Z.of_nat (length us) + 1) with (Z.of_nat (length us + length [u])) by (simpl; lia).
  repeat (split; [first [done|by apply wrap_s_range]|]). done.
Qed.
