(* ===== verification/RefCountThreads.v ===== *)
(** * The reference counts of a segment under concurrency
    ([icon/interprocess/shared_memory_manager/segment_header.cc])

    The two counters of a [SegmentHeader] lie in shared memory, and any number of
    processes count themselves in and out at the same time.  The counters are plain
    integers, protected by the process-shared semaphore [mutex_] of the header.  The
    other files use [IncrementRefCount], [DecrementRefCount] and the reads as atomic
    functions; here every access to memory and to the semaphore is a step of its own,
    and the theorems show that the atomic functions are what the processes observe. *)
From S2P Require Import Prelude SegmentHeader.

(** ** The three functions, access by access *)

(** Where a process is in one of the functions; [AtWrite] holds the value computed from
    what was read, [AtPost] the result to return. *)
Inductive stage := AtWait | AtCheck | AtRead | AtWrite (v : Z) | AtPost (r : Z).

(** What a step does with the process: it goes on, or the function returns. *)
Inductive move := Goto (s : stage) | Done (r : Z).

(** [sem_wait(mutex)], which blocks at zero, and [sem_post(mutex)] *)
Definition sem_wait (sem : Z) : option Z := if 0 <? sem then Some (sem - 1) else None.
Definition sem_post (sem : Z) : Z := sem + 1.

(** [IncrementRefCount(counter, mutex)] *)
Definition IncrementRefCount_step (s : stage) (sem counter : Z) : option (move * Z * Z) :=
  match s with
  | AtWait => sem ← sem_wait sem; Some (Goto AtRead, sem, counter)
  | AtRead => Some (Goto (AtWrite (wrap_s 32 (counter + 1))), sem, counter)
  | AtWrite v => Some (Goto (AtPost 0), sem, v)
  | AtPost r => Some (Done r, sem_post sem, counter)
  | AtCheck => None
  end.

(** [DecrementRefCount(counter, mutex)]: the comparison and the decrement read the
    counter separately. *)
Definition DecrementRefCount_step (s : stage) (sem counter : Z) : option (move * Z * Z) :=
  match s with
  | AtWait => sem ← sem_wait sem; Some (Goto AtCheck, sem, counter)
  | AtCheck => Some (Goto (if 0 <? counter then AtRead else AtPost 0), sem, counter)
  | AtRead => Some (Goto (AtWrite (counter - 1)), sem, counter)
  | AtWrite v => Some (Goto (AtPost 0), sem, v)
  | AtPost r => Some (Done r, sem_post sem, counter)
  end.

(** [ReadRefCountSynchronized(counter, mutex)] *)
Definition ReadRefCountSynchronized_step (s : stage) (sem counter : Z) : option (move * Z * Z) :=
  match s with
  | AtWait => sem ← sem_wait sem; Some (Goto AtRead, sem, counter)
  | AtRead => Some (Goto (AtPost counter), sem, counter)
  | AtPost r => Some (Done r, sem_post sem, counter)
  | AtCheck | AtWrite _ => None
  end.

(** ** The calls of the header *)

Inductive counter := Readers | Writers.
Inductive call := Increment (k : counter) | Decrement (k : counter) | ReadCount (k : counter).

#[export] Instance counter_eq_dec : EqDecision counter.
Proof. solve_decision. Defined.
#[export] Instance call_eq_dec : EqDecision call.
Proof. solve_decision. Defined.

Definition counter_of (x : call) : counter :=
  match x with Increment k | Decrement k | ReadCount k => k end.
Definition load (h : SegmentHeader) (k : counter) : Z :=
  match k with Readers => ref_count_reader_ h | Writers => ref_count_writer_ h end.
Definition store (h : SegmentHeader) (k : counter) (v : Z) : SegmentHeader :=
  match k with Readers => set_readers h v | Writers => set_writers h v end.

(** [IncrementReaderRefCount], [DecrementWriterRefCount] and so on: which function runs. *)
Definition call_step (x : call) : stage -> Z -> Z -> option (move * Z * Z) :=
  match x with
  | Increment _ => IncrementRefCount_step
  | Decrement _ => DecrementRefCount_step
  | ReadCount _ => ReadRefCountSynchronized_step
  end.

(** The atomic functions that the other components use. *)
Definition atomic (h : SegmentHeader) (x : call) : Z * SegmentHeader :=
  match x with
  | Increment Readers => (0, IncrementReaderRefCount h)
  | Increment Writers => (0, IncrementWriterRefCount h)
  | Decrement Readers => (0, DecrementReaderRefCount h)
  | Decrement Writers => (0, DecrementWriterRefCount h)
  | ReadCount Readers => (ReaderRefCount h, h)
  | ReadCount Writers => (WriterRefCount h, h)
  end.

(** ** Configurations *)

Inductive pc := Idle | In (x : call) (s : stage).

(** The history: a call begins, takes effect, returns.  The second kind is recorded when
    the process is about to release the semaphore. *)
Inductive event :=
| Invoked (i : nat) (x : call)
| Took (i : nat) (x : call) (r : Z)
| Returned (i : nat) (x : call) (r : Z).

Record config := mkConfig {
  rc_header : SegmentHeader;
  rc_mutex : Z;
  rc_pcs : list pc;
  rc_history : list event }.

(** The constructor of the header initialises the semaphore with one. *)
Definition rc_initial (type_id : string) (n : nat) : config :=
  mkConfig (new_SegmentHeader type_id) 1 (replicate n Idle) [].

Definition move_pc (x : call) (m : move) : pc :=
  match m with Goto s => In x s | Done _ => Idle end.
Definition move_events (i : nat) (x : call) (m : move) : list event :=
  match m with
  | Goto (AtPost r) => [Took i x r]
  | Goto _ => []
  | Done r => [Returned i x r]
  end.

(** The next step of the call that process [i] executes. *)
Definition run_step (c : config) (i : nat) : option config :=
  match rc_pcs c !! i with
  | Some (In x s) =>
      '(m, sem, v) ← call_step x s (rc_mutex c) (load (rc_header c) (counter_of x));
      Some (mkConfig (store (rc_header c) (counter_of x) v) sem
              (<[i := move_pc x m]> (rc_pcs c)) (rc_history c ++ move_events i x m))
  | _ => None
  end.

(** A process begins a call. *)
Definition call_begin (c : config) (i : nat) (x : call) : config :=
  mkConfig (rc_header c) (rc_mutex c) (<[i := In x AtWait]> (rc_pcs c))
    (rc_history c ++ [Invoked i x]).

(** A signal handler interrupts [sem_wait], whose result is not looked at. *)
Definition after_wait (x : call) : stage :=
  match x with Decrement _ => AtCheck | _ => AtRead end.
Definition interrupt (c : config) (i : nat) (x : call) : config :=
  mkConfig (rc_header c) (rc_mutex c) (<[i := In x (after_wait x)]> (rc_pcs c)) (rc_history c).

(** One step of any process.  [interrupts]: whether [sem_wait] can be interrupted by a
    signal; the theorems assume that it is not, and
    [interrupted_wait_loses_reference] shows what happens otherwise. *)
Inductive rstep (interrupts : bool) : config -> config -> Prop :=
| rstep_call c i x : rc_pcs c !! i = Some Idle -> rstep interrupts c (call_begin c i x)
| rstep_run c i c' : run_step c i = Some c' -> rstep interrupts c c'
| rstep_interrupt c i x :
    interrupts = true -> rc_pcs c !! i = Some (In x AtWait) -> rstep interrupts c (interrupt c i x).

(** ** The specification *)

(** The effects of a history, one atomic call after the other; [None] if a call returned
    something else than the atomic function. *)
Definition replay_event (h : SegmentHeader) (e : event) : option SegmentHeader :=
  match e with
  | Took _ x r => let '(r', h') := atomic h x in if r =? r' then Some h' else None
  | _ => Some h
  end.
Fixpoint replay (h : SegmentHeader) (l : list event) : option SegmentHeader :=
  match l with
  | [] => Some h
  | e :: l => h ← replay_event h e; replay h l
  end.

(** The part of the history that concerns process [i]: every call begins, takes effect
    once, and returns with the result of that moment, before the next one begins. *)
Inductive phase := Out | Called (x : call) | Took_effect (x : call) (r : Z).
Definition phase_step (i : nat) (p : phase) (e : event) : option phase :=
  match e with
  | Invoked j x =>
      if decide (j = i) then match p with Out => Some (Called x) | _ => None end else Some p
  | Took j x r =>
      if decide (j = i) then
        match p with Called y => if decide (x = y) then Some (Took_effect x r) else None | _ => None end
      else Some p
  | Returned j x r =>
      if decide (j = i) then
        match p with
        | Took_effect y r' => if decide (x = y /\ r = r') then Some Out else None
        | _ => None
        end
      else Some p
  end.
Fixpoint phases (i : nat) (p : phase) (l : list event) : option phase :=
  match l with
  | [] => Some p
  | e :: l => p ← phase_step i p e; phases i p l
  end.
Definition phase_of (p : pc) : phase :=
  match p with
  | Idle => Out
  | In x (AtPost r) => Took_effect x r
  | In x _ => Called x
  end.

(** How often a counter was counted up minus how often it was counted down. *)
Definition balance_event (k : counter) (e : event) : Z :=
  match e with
  | Took _ (Increment k') _ => if decide (k' = k) then 1 else 0
  | Took _ (Decrement k') _ => if decide (k' = k) then -1 else 0
  | _ => 0
  end.
Fixpoint balance (k : counter) (l : list event) : Z :=
  match l with [] => 0 | e :: l => balance_event k e + balance k l end.

(** ** Histories *)

Lemma replay_app h l1 l2 : replay h (l1 ++ l2) = (h' ← replay h l1; replay h' l2).
Proof. revert h. induction l1 as [|e l1 IH]; intros h; [done|]. cbn. destruct (replay_event h e); [apply IH|done]. Qed.

Lemma phases_app i p l1 l2 : phases i p (l1 ++ l2) = (p' ← phases i p l1; phases i p' l2).
Proof. revert p. induction l1 as [|e l1 IH]; intros p; [done|]. cbn. destruct (phase_step i p e); [apply IH|done]. Qed.

Lemma balance_app k l1 l2 : balance k (l1 ++ l2) = balance k l1 + balance k l2.
Proof. induction l1 as [|e l1 IH]; cbn; lia. Qed.

Lemma load_store h k v k' : load (store h k v) k' = if decide (k' = k) then v else load h k'.
Proof. by destruct k, k'. Qed.

Lemma store_load h k : store h k (load h k) = h.
Proof. by destruct h, k. Qed.

(** The atomic functions change one counter. *)
Lemma atomic_spec h x :
  atomic h x = match x with
               | Increment k => (0, store h k (IncrementRefCount (load h k)))
               | Decrement k => (0, store h k (DecrementRefCount (load h k)))
               | ReadCount k => (load h k, h)
               end.
Proof. by destruct x as [[]|[]|[]]. Qed.

(** A counter that never leaves its range shows the balance. *)
Lemma replay_balance k l h h' :
  replay h l = Some h' -> load h k = 0 ->
  (forall j, 0 <= balance k (take j l) < 2 ^ 31) -> load h' k = balance k l.
Proof.
  revert h'. induction l as [|e l IH] using rev_ind; intros h' Hr H0 Hb; [by simplify_eq/=|].
  rewrite replay_app in Hr. destruct (replay h l) as [h1|] eqn:E; [|done]. cbn in Hr.
  assert (load h1 k = balance k l) as H1.
  { apply IH; [done..|]. intros j. destruct (Nat.le_gt_cases j (length l)).
    - specialize (Hb j). by rewrite take_app_le in Hb.
    - specialize (Hb (length l)). rewrite take_app_le, take_ge in Hb by lia. by rewrite take_ge by lia. }
  pose proof (Hb (length (l ++ [e]))) as Hall. rewrite take_ge in Hall by done.
  pose proof (Hb (length l)) as Hlen. rewrite take_app_le, take_ge in Hlen by lia.
  rewrite balance_app in *. cbn [balance] in *. rewrite Z.add_0_r in *.
  destruct e as [i x|i x r|i x r]; cbn [replay_event balance_event] in *; try (simplify_eq/=; lia).
  rewrite atomic_spec in Hr. destruct x as [k'|k'|k'].
  - destruct (r =? 0); [|done]. simplify_eq/=. rewrite load_store.
    destruct (decide (k = k')) as [<-|]; [rewrite decide_True in * by done|rewrite decide_False by congruence; lia].
    unfold IncrementRefCount. rewrite wrap_s_id by (unfold in_s; lia). lia.
  - destruct (r =? 0); [|done]. simplify_eq/=. rewrite load_store.
    destruct (decide (k = k')) as [<-|]; [rewrite decide_True in * by done|rewrite decide_False by congruence; lia].
    unfold DecrementRefCount. rewrite (proj2 (Z.ltb_lt _ _)) by lia. lia.
  - destruct (r =? load h1 k'); [|done]. simplify_eq/=. lia.
Qed.

(** ** The invariant *)

Definition inside (p : pc) : nat :=
  match p with Idle | In _ AtWait => 0 | In _ _ => 1 end%nat.

(** What a process in the critical section knows. *)
Definition stage_ok (h : SegmentHeader) (p : pc) : Prop :=
  match p with
  | In (Increment k) (AtWrite v) => v = IncrementRefCount (load h k)
  | In (Increment _) AtCheck | In (ReadCount _) (AtCheck | AtWrite _) => False
  | In (Decrement k) AtRead => 0 < load h k
  | In (Decrement k) (AtWrite v) => 0 < load h k /\ v = load h k - 1
  | _ => True
  end.

Record rc_inv (h0 : SegmentHeader) (c : config) : Prop := mkRcInv {
  ri_mutex : 0 <= rc_mutex c /\ rc_mutex c + Z.of_nat (weight inside (rc_pcs c)) = 1;
  ri_stage i p : rc_pcs c !! i = Some p -> stage_ok (rc_header c) p;
  ri_replay : replay h0 (rc_history c) = Some (rc_header c);
  ri_phases i p : rc_pcs c !! i = Some p -> phases i Out (rc_history c) = Some (phase_of p) }.

(** Processes outside of the critical section know nothing about the counters. *)
Lemma outside_ok h p : inside p = 0%nat -> stage_ok h p.
Proof. by destruct p as [|[]  []]. Qed.

(** Events of one process do not concern the others. *)
Lemma move_events_other i j x m p : i <> j -> phases j p (move_events i x m) = Some p.
Proof.
  intros Hij. destruct m as [[]|]; try done; cbn; by rewrite decide_False.
Qed.

(** The effect of one step of a call on its own process. *)
Lemma call_step_effect i h x s sem m sem' v :
  stage_ok h (In x s) ->
  call_step x s sem (load h (counter_of x)) = Some (m, sem', v) ->
  0 <= sem ->
  0 <= sem' /\ sem' + Z.of_nat (inside (move_pc x m)) = sem + Z.of_nat (inside (In x s))
  /\ stage_ok (store h (counter_of x) v) (move_pc x m)
  /\ replay h (move_events i x m) = Some (store h (counter_of x) v)
  /\ phases i (phase_of (In x s)) (move_events i x m) = Some (phase_of (move_pc x m))
  /\ (inside (In x s) = 0%nat -> store h (counter_of x) v = h).
Proof.
  intros Hok Hs Hsem. destruct x as [k|k|k], s as [| | |u|u]; cbn in Hs, Hok; try done;
    unfold sem_wait, sem_post in Hs;
    repeat (case_match; cbn in Hs; try done); simplify_eq; cbn -[atomic store];
    rewrite ?store_load, ?atomic_spec, ?load_store, ?decide_True, ?Z.eqb_refl by done;
    (split; [lia|]); (split; [lia|]); try done.
  all: try by repeat split.
  - split; [by apply Z.ltb_lt|done].
  - unfold DecrementRefCount. case_match; [done|]. by rewrite store_load.
  - destruct Hok as [Hpos ->]. unfold DecrementRefCount. rewrite (proj2 (Z.ltb_lt _ _)) by done. done.
Qed.

(** Two processes are never in the critical section at the same time. *)
Lemma one_inside h0 c i j p q :
  rc_inv h0 c -> rc_pcs c !! i = Some p -> rc_pcs c !! j = Some q ->
  inside p = 1%nat -> inside q = 1%nat -> i = j.
Proof.
  intros [[H1 H2] _ _ _] Hi Hj Hp Hq. destruct (decide (i = j)) as [|Hij]; [done|].
  pose proof (weight_two_le inside _ _ _ _ _ Hij Hi Hj). lia.
Qed.

Lemma inside_01 p : inside p = 0%nat \/ inside p = 1%nat.
Proof. destruct p as [|? []]; auto. Qed.

Lemma call_begin_inv h0 c i x : rc_inv h0 c -> rc_pcs c !! i = Some Idle -> rc_inv h0 (call_begin c i x).
Proof.
  intros [[H1 H2] Hst Hr Hph] Hi. split; cbn [call_begin rc_pcs rc_mutex rc_header rc_history].
  - rewrite (weight_insert_eq inside _ _ _ (In x AtWait) Hi). cbn. lia.
  - intros j p Hj. apply list_lookup_insert_Some in Hj as [(<- & <- & _)|[_ Hj]];
      [by apply outside_ok|by eapply Hst].
  - rewrite replay_app, Hr. done.
  - intros j p Hj. rewrite phases_app. apply list_lookup_insert_Some in Hj as [(<- & <- & _)|[Hne Hj]].
    + rewrite (Hph _ _ Hi). cbn. by rewrite decide_True.
    + rewrite (Hph _ _ Hj). cbn. by rewrite decide_False.
Qed.

Lemma run_step_inv h0 c i c' : rc_inv h0 c -> run_step c i = Some c' -> rc_inv h0 c'.
Proof.
  intros Hinv Hs. pose proof Hinv as [[H1 H2] Hst Hr Hph]. unfold run_step in Hs.
  destruct (rc_pcs c !! i) as [[|x s]|] eqn:Hi; [done| |done].
  destruct (call_step x s _ _) as [[[m sem] v]|] eqn:Ex; [|done]. cbn in Hs. injection Hs as <-.
  destruct (call_step_effect i _ _ _ _ _ _ _ (Hst _ _ Hi) Ex H1) as (S1 & S2 & S3 & S4 & S5 & S6).
  split; cbn [rc_pcs rc_mutex rc_header rc_history].
  - split; [done|]. rewrite (weight_insert_eq inside _ _ _ (move_pc x m) Hi).
    pose proof (weight_lookup_le inside _ _ _ Hi). lia.
  - intros j p Hj. apply list_lookup_insert_Some in Hj as [(<- & <- & _)|[Hne Hj]]; [done|].
    destruct (inside_01 (In x s)) as [Hin|Hin]; [rewrite S6 by done; by eapply Hst|].
    apply outside_ok. destruct (inside_01 p) as [|Hp]; [done|].
    by destruct (Hne (one_inside h0 c i j _ _ Hinv Hi Hj Hin Hp)).
  - rewrite replay_app, Hr. exact S4.
  - intros j p Hj. rewrite phases_app. apply list_lookup_insert_Some in Hj as [(<- & <- & _)|[Hne Hj]].
    + rewrite (Hph _ _ Hi). exact S5.
    + rewrite (Hph _ _ Hj). by apply move_events_other.
Qed.

Lemma rc_reachable type_id n c :
  rtc (rstep false) (rc_initial type_id n) c -> rc_inv (new_SegmentHeader type_id) c.
Proof.
  intros Hr. eapply rtc_invariant; [|clear Hr|exact Hr].
  - intros a b Ha Hs. destruct Hs as [a i x Hi|a i b Hb|]; [by apply call_begin_inv|by eapply run_step_inv|done].
  - split; cbn; [rewrite weight_replicate; cbn; lia| |done|];
      intros i p [-> _]%lookup_replicate; done.
Qed.

(** C10: The reference counts are linearizable.  Whatever the interleaving of any number
    of processes that count themselves in and out or read the counts, access by access,
    (1) the header is the result of the atomic functions, applied in the order in which
    the calls took effect, and every read returned what the atomic function returns at
    that point; (2) every call takes effect exactly once between its begin and its end;
    (3) at most one process is between [sem_wait] and [sem_post]; (4) a counter of which
    no more is counted down than up, and whose value fits, shows the difference. *)
Theorem refcounts_linearizable (type_id : string) (n : nat) (c : config) :
  rtc (rstep false) (rc_initial type_id n) c ->
  replay (new_SegmentHeader type_id) (rc_history c) = Some (rc_header c)
  /\ (forall i p, rc_pcs c !! i = Some p -> phases i Out (rc_history c) = Some (phase_of p))
  /\ (forall i j p q, rc_pcs c !! i = Some p -> rc_pcs c !! j = Some q ->
       inside p = 1%nat -> inside q = 1%nat -> i = j)
  /\ (forall k, (forall j, 0 <= balance k (take j (rc_history c)) < 2 ^ 31) ->
       load (rc_header c) k = balance k (rc_history c)).
Proof.
  intros Hr%rc_reachable. pose proof Hr as [_ _ Hre Hph]. split; [done|]. split; [done|].
  split; [intros; by eapply one_inside|]. intros k Hk. eapply replay_balance; [done|by destruct k|done].
Qed.

(** ** Progress *)

(** A step of a call that has begun. *)
Definition runs (c c' : config) : Prop := exists i, run_step c i = Some c'.

Definition rank (s : stage) : nat :=
  match s with AtPost _ => 0 | AtWrite _ => 1 | AtRead => 2 | AtCheck => 3 | AtWait => 4 end%nat.

(** A process in the critical section can always go on, and comes closer to its end. *)
Lemma inside_steps c i x s :
  stage_ok (rc_header c) (In x s) -> rc_pcs c !! i = Some (In x s) -> inside (In x s) = 1%nat ->
  exists c' p, run_step c i = Some c' /\ rc_pcs c' = <[i := p]> (rc_pcs c)
    /\ match p with
       | Idle => rc_mutex c' = rc_mutex c + 1
       | In y s' => y = x /\ (rank s' < rank s)%nat /\ inside p = 1%nat /\ rc_mutex c' = rc_mutex c
       end.
Proof.
  intros Hok Hi Hin. unfold run_step. rewrite Hi.
  destruct x as [k|k|k], s as [| | |v|v]; try done; cbn -[store]; try case_match;
    (eexists _, _; split; [done|]; split; [done|]); cbn; unfold sem_post; auto with lia.
Qed.

Lemma inside_leaves h0 c i x s :
  rc_inv h0 c -> rc_pcs c !! i = Some (In x s) -> inside (In x s) = 1%nat ->
  exists c', rtc runs c c' /\ rc_pcs c' = <[i := Idle]> (rc_pcs c) /\ rc_mutex c' = rc_mutex c + 1.
Proof.
  remember (rank s) as n eqn:Hn. revert c s Hn. induction n as [n IH] using lt_wf_ind.
  intros c s -> Hinv Hi Hin.
  destruct (inside_steps c i x s) as (c1 & p & Hs & Hp & Hc); [by eapply ri_stage|done..|].
  assert (rtc runs c c1) as Hr by (apply rtc_once; by exists i).
  destruct p as [|y s']; [by exists c1|]. destruct Hc as (-> & Hlt & Hin' & Hm).
  destruct (IH _ Hlt c1 s') as (c' & Hr' & Hp' & Hm'); [done|by eapply run_step_inv| |done|].
  { rewrite Hp. apply list_lookup_insert_eq. by eapply lookup_lt_Some. }
  exists c'. split; [by etrans|]. rewrite Hp', Hp, Hm', Hm. by rewrite list_insert_insert_eq.
Qed.

(** The process that waits enters when the semaphore is free. *)
Lemma waiting_enters c i x :
  rc_pcs c !! i = Some (In x AtWait) -> 0 < rc_mutex c ->
  exists c', run_step c i = Some c' /\ rc_pcs c' !! i = Some (In x (after_wait x)).
Proof.
  intros Hi Hm. unfold run_step. rewrite Hi.
  destruct x as [k|k|k]; cbn -[store]; unfold sem_wait; rewrite (proj2 (Z.ltb_lt _ _)) by done; cbn -[store];
    (eexists; split; [done|]); cbn; (apply list_lookup_insert_eq; by eapply lookup_lt_Some).
Qed.

Lemma waiting_can_enter h0 c i x :
  rc_inv h0 c -> rc_pcs c !! i = Some (In x AtWait) ->
  exists c', rtc runs c c' /\ rc_inv h0 c' /\ rc_pcs c' !! i = Some (In x AtWait) /\ 0 < rc_mutex c'.
Proof.
  intros Hinv Hi. pose proof Hinv as [[H1 H2] _ _ _].
  destruct (decide (0 < rc_mutex c)) as [|Hm]; [by exists c|].
  destruct (weight_pos_lookup inside (rc_pcs c)) as (j & p & Hj & Hp); [lia|].
  destruct p as [|y s]; [by cbn in Hp; lia|].
  destruct (inside_01 (In y s)) as [|Hin]; [lia|].
  destruct (inside_leaves h0 c j y s Hinv Hj Hin) as (c' & Hr & Hpc & Hmx).
  exists c'. split; [done|]. split.
  { eapply (rtc_invariant runs (rc_inv h0)); [|exact Hinv|exact Hr]. intros a b Ha [l Hb]. by eapply run_step_inv. }
  split; [|lia]. rewrite Hpc. rewrite list_lookup_insert_ne; [done|]. intros ->.
  rewrite Hi in Hj. by simplify_eq.
Qed.

(** C11: No call of the reference counts blocks for ever.  In every reachable
    configuration a process that is in a call can return from it by steps of calls that
    have begun already: the semaphore is free, or its holder can go on and post it. *)
Theorem refcount_call_returns (type_id : string) (n : nat) (c : config) (i : nat) (x : call) (s : stage) :
  rtc (rstep false) (rc_initial type_id n) c -> rc_pcs c !! i = Some (In x s) ->
  exists c', rtc runs c c' /\ rc_pcs c' !! i = Some Idle.
Proof.
  intros Hr%rc_reachable Hi.
  assert (forall c s, rc_inv (new_SegmentHeader type_id) c -> rc_pcs c !! i = Some (In x s) ->
    inside (In x s) = 1%nat -> exists c', rtc runs c c' /\ rc_pcs c' !! i = Some Idle) as Hleave.
  { intros a t Ha Hia Hin. destruct (inside_leaves _ a i x t Ha Hia Hin) as (c' & ? & Hp & _).
    exists c'. split; [done|]. rewrite Hp. apply list_lookup_insert_eq. by eapply lookup_lt_Some. }
  destruct (inside_01 (In x s)) as [Hout|Hin]; [|by eapply Hleave].
  destruct s; try done.
  destruct (waiting_can_enter _ c i x Hr Hi) as (c1 & Hr1 & Hinv1 & Hi1 & Hm1).
  destruct (waiting_enters c1 i x Hi1 Hm1) as (c2 & Hs2 & Hi2).
  destruct (Hleave c2 (after_wait x)) as (c' & Hr' & Hi'); [by eapply run_step_inv|done|by destruct x|].
  exists c'. split; [|done]. etrans; [exact Hr1|]. eapply rtc_l; [by exists i|done].
Qed.

(** While a process is in the critical section all others wait: one that stops there, for
    instance because it is killed, blocks every later call. *)
Lemma holder_blocks type_id n c i j p x :
  rtc (rstep false) (rc_initial type_id n) c ->
  rc_pcs c !! i = Some p -> inside p = 1%nat -> rc_pcs c !! j = Some (In x AtWait) -> run_step c j = None.
Proof.
  intros [[H1 H2] _ _ _]%rc_reachable Hi Hp Hj.
  pose proof (weight_lookup_le inside _ _ _ Hi). unfold run_step. rewrite Hj.
  assert (rc_mutex c = 0) as -> by lia. by destruct x.
Qed.

(** ** Runs *)

(** A schedule: the calls that begin, and whose turn it is. *)
Inductive turn := Begin (i : nat) (x : call) | Run (i : nat) | Interrupt (i : nat).
Definition do_turn (c : config) (t : turn) : option config :=
  match t with
  | Begin i x => match rc_pcs c !! i with Some Idle => Some (call_begin c i x) | _ => None end
  | Run i => run_step c i
  | Interrupt i => match rc_pcs c !! i with Some (In x AtWait) => Some (interrupt c i x) | _ => None end
  end.
Fixpoint schedule (c : config) (l : list turn) : option config :=
  match l with [] => Some c | t :: l => c ← do_turn c t; schedule c l end.

Definition no_interrupt (t : turn) : bool := match t with Interrupt _ => false | _ => true end.

Lemma schedule_reachable b c l c' :
  b = true \/ forallb no_interrupt l = true -> schedule c l = Some c' -> rtc (rstep b) c c'.
Proof.
  revert c. induction l as [|t l IH]; intros c Hb Hs; [by simplify_eq/=; apply rtc_refl|]. cbn in Hs.
  destruct (do_turn c t) as [c1|] eqn:Ht; [|done]. cbn in Hs.
  assert ((b = true \/ no_interrupt t = true) /\ (b = true \/ forallb no_interrupt l = true)) as [Hb1 Hb2].
  { destruct Hb as [->|[]%andb_true_iff]; auto. }
  eapply rtc_l; [|by apply IH]. clear IH Hb Hs. destruct t as [i x|i|i]; cbn in Ht.
  - destruct (rc_pcs c !! i) as [[|]|] eqn:Hi; simplify_eq/=. by constructor.
  - by eapply rstep_run.
  - destruct (rc_pcs c !! i) as [[|y []]|] eqn:Hi; simplify_eq/=.
    apply rstep_interrupt; [by destruct Hb1|done].
Qed.

(** Two processes open the segment while a third one counts its readers. *)
Definition ex_schedule : list turn :=
  [Begin 0 (Increment Readers); Begin 1 (Increment Readers); Run 0; Begin 2 (ReadCount Readers);
   Run 0; Run 0; Run 0; Run 2; Run 2; Run 2; Run 1; Run 1].
Definition ex_config : config := default (rc_initial "type" 3) (schedule (rc_initial "type" 3) ex_schedule).

Lemma ex_config_reachable : rtc (rstep false) (rc_initial "type" 3) ex_config.
Proof. apply (schedule_reachable false _ ex_schedule); [right; reflexivity|vm_compute; reflexivity]. Qed.

Lemma refcounts_linearizable_witness :
  replay (new_SegmentHeader "type") (rc_history ex_config) = Some (rc_header ex_config)
  /\ rc_history ex_config
     = [Invoked 0 (Increment Readers); Invoked 1 (Increment Readers); Invoked 2 (ReadCount Readers);
        Took 0 (Increment Readers) 0; Returned 0 (Increment Readers) 0;
        Took 2 (ReadCount Readers) 1; Returned 2 (ReadCount Readers) 1].
Proof.
  split; [|vm_compute; reflexivity].
  apply (refcounts_linearizable "type" 3 ex_config). exact ex_config_reachable.
Defined.

(** The second process is about to write its count. *)
Lemma refcount_call_returns_witness :
  exists c', rtc runs ex_config c' /\ rc_pcs c' !! 1%nat = Some Idle.
Proof.
  apply (refcount_call_returns "type" 3 ex_config 1 (Increment Readers) (AtWrite 2)).
  - exact ex_config_reachable.
  - vm_compute. reflexivity.
Defined.

(** When a signal handler interrupts [sem_wait] (and it is not restarted), a count is
    lost: both processes have been counted, but the header shows one reader, and the
    semaphore lets two processes in from then on. *)
Lemma interrupted_wait_loses_reference :
  exists c, rtc (rstep true) (rc_initial "type" 2) c /\ rc_pcs c = [Idle; Idle]
    /\ ReaderRefCount (rc_header c) = 1 /\ balance Readers (rc_history c) = 2 /\ rc_mutex c = 2.
Proof.
  eexists. split.
  - apply (schedule_reachable true _
      [Begin 0 (Increment Readers); Begin 1 (Increment Readers); Run 0; Run 0; Interrupt 1; Run 1;
       Run 0; Run 1; Run 0; Run 1]); [by left|reflexivity].
  - by repeat split.
Qed.
