(* ===== verification/SharedMemory.v ===== *)
(** * Shared memory segments
    ([icon/interprocess/shared_memory_manager/shared_memory_manager.{h,cc}],
     [memory_segment.{h,cc}], [segment_info_utils.cc])

    The manager creates anonymous files, maps them and puts a header in front of the
    payload; memory segments are handles that map the same files again.  Both change
    a [world]: files, file descriptors and mappings.  The system calls are functions
    on the world; whether a call fails, and which number it returns, is an argument.
    The payload of a segment is a value of a type [V]; the size of the header is a
    parameter. *)
From S2P Require Import Prelude Status FixedString SegmentHeader.

(** The order in which [std::unordered_map] enumerates its elements. *)
Class IterOrder := {
  iter : forall {A : Type}, gmap string A -> list (string * A);
  iter_perm : forall {A : Type} (m : gmap string A), iter m ≡ₚ map_to_list m }.

(** ** Files, descriptors and mappings *)

Section World.
Context {V : Type}.

Record file := mkFile {
  f_size : Z;
  f_header : option SegmentHeader;
  f_value : option V }.

Record world := mkWorld {
  w_files : gmap nat file;
  w_fds : gmap Z nat;
  w_maps : gmap Z (nat * Z) }.

(** The file behind an address. *)
Definition mapped (w : world) (addr : Z) : option nat := fst <$> w_maps w !! addr.
Definition file_at (w : world) (addr : Z) : option file := mapped w addr ≫= (w_files w !!.).
Definition update_at (w : world) (addr : Z) (f : file -> file) : world :=
  match mapped w addr with
  | Some i => mkWorld (alter f i (w_files w)) (w_fds w) (w_maps w)
  | None => w
  end.

(** [memfd_create]: an error, or a new descriptor for a new file. *)
Definition memfd_create (r : Z + Z * nat) (w : world) : (Z + Z) * world :=
  match r with
  | inl e => (inl e, w)
  | inr (fd, i) =>
      (inr fd, mkWorld (<[i := mkFile 0 None None]> (w_files w)) (<[fd := i]> (w_fds w)) (w_maps w))
  end.

(** [ftruncate] *)
Definition ftruncate (err : option Z) (fd size : Z) (w : world) : option Z * world :=
  match err with
  | Some e => (Some e, w)
  | None =>
      (None, match w_fds w !! fd with
             | Some i => mkWorld (alter (fun f => mkFile size (f_header f) (f_value f)) i (w_files w))
                           (w_fds w) (w_maps w)
             | None => w
             end)
  end.

(** [fstat]: the size. *)
Definition fstat (err : option Z) (fd : Z) (w : world) : Z + Z :=
  match err with
  | Some e => inl e
  | None => inr (default 0 (f_size <$> (w_fds w !! fd ≫= (w_files w !!.))))
  end.

(** [mmap] of a whole file: an error ([MAP_FAILED] or a null pointer), or an
    address. *)
Definition mmap (r : Z + Z) (fd size : Z) (w : world) : (Z + Z) * world :=
  match r with
  | inl e => (inl e, w)
  | inr a =>
      (inr a, match w_fds w !! fd with
              | Some i => mkWorld (w_files w) (w_fds w) (<[a := (i, size)]> (w_maps w))
              | None => w
              end)
  end.

(** [munmap] and [close]; a failure is only logged by the callers. *)
Definition munmap (addr : Z) (w : world) : world :=
  mkWorld (w_files w) (w_fds w) (delete addr (w_maps w)).
Definition close (fd : Z) (w : world) : world :=
  mkWorld (w_files w) (delete fd (w_fds w)) (w_maps w).

(** ** [SharedMemoryManager] *)

Definition kMaxSegmentStringSize : nat := 255.
Definition kMaxNumberOfSegments : nat := 300.

Record MemorySegmentInfo := mkMemorySegmentInfo {
  msi_data : Z;
  msi_length : Z;
  msi_must_be_used : bool;
  msi_fd : Z }.

Record SharedMemoryManager := mkSharedMemoryManager {
  memory_segments_ : gmap string MemorySegmentInfo;
  segment_name_to_file_descriptor_map_ : gmap string Z;
  module_name_ : string;
  shared_memory_namespace_ : string }.

(** [Create(shared_memory_namespace, module_name, logger)] *)
Definition Create (shared_memory_namespace module_name : string)
  : expected SharedMemoryManager Status :=
  if decide (module_name = "") then
    Unexpected (mkStatus kInvalidArgument "Module name can't be empty.")
  else Value (mkSharedMemoryManager ∅ ∅ module_name shared_memory_namespace).

(** [VerifyName(name)] *)
Definition slash : ascii := Ascii.ascii_of_nat 47.
Definition VerifyName (name : string) : Status :=
  if decide (name = "") then mkStatus kInvalidArgument "Shm segment name cannot be empty."
  else if (kMaxSegmentStringSize <=? length (chars name))%nat then
    FormatStatus kInvalidArgument
      ("Shm segment name '" ++ name ++ "' can't exceed "
         ++ pretty (kMaxSegmentStringSize - 1)%nat ++ " characters.")
  else if decide (slash ∈ chars name) then
    FormatStatus kInvalidArgument
      ("Shm segment name '" ++ name ++ "' can't have forward slashes.")
  else OkStatus.

(** What the system calls of one [InitSegment] return. *)
Record init_env := mkInitEnv {
  ie_memfd : Z + Z * nat;
  ie_ftruncate : option Z;
  ie_fstat : option Z;
  ie_mmap : Z + Z;
  ie_mlock : option Z }.

Context (StrError : Z -> string) (sizeof_header : Z).

(** The part of [InitSegment] after [memfd_create]; the caller closes the
    descriptor when it fails. *)
Definition init_mapping (env : init_env) (name : string) (shm_fd segment_size : Z) (w : world)
  : expected Z Status * world :=
  let '(err, w1) := ftruncate (ie_ftruncate env) shm_fd segment_size w in
  match err with
  | Some e =>
      (Unexpected (FormatStatus kInternal
         ("Unable to resize shared memory segment '" ++ name ++ "' with error: " ++ StrError e)), w1)
  | None =>
      match fstat (ie_fstat env) shm_fd w1 with
      | inl e =>
          (Unexpected (FormatStatus kInternal
             ("Failed to read size of segment '" ++ name ++ "'. fstat() failed with: "
                ++ StrError e)), w1)
      | inr st_size =>
          if negb (st_size =? segment_size) then
            (Unexpected (FormatStatus kInternal
               ("The size of the shared memory segment '" ++ name ++ "' ("
                  ++ pretty st_size ++ " bytes) is not the expected size ("
                  ++ pretty segment_size ++ " bytes)")), w1)
          else
            let '(data, w2) := mmap (ie_mmap env) shm_fd segment_size w1 in
            match data with
            | inl e =>
                (Unexpected (FormatStatus kInternal
                   ("Unable to map shared memory segment '" ++ name ++ "' with error: "
                      ++ StrError e)), w2)
            | inr data =>
                match ie_mlock env with
                | Some _ =>
                    (Unexpected (FormatStatus kInternal
                       ("Unable to mlock shared memory segment '" ++ name ++ "' with error: ")), w2)
                | None => (Value data, w2)
                end
            end
      end
  end.

(** [InitSegment(name, must_be_used, payload_size, type_id)] *)
Definition InitSegment (env : init_env) (name : string) (must_be_used : bool)
    (payload_size : Z) (type_id : string) (w : world) (m : SharedMemoryManager)
  : Status * world * SharedMemoryManager :=
  if (kMaxNumberOfSegments <=? size (memory_segments_ m))%nat then
    (FormatStatus kResourceExhausted
       ("Unable to add '" ++ name ++ "'. Max number of segments ("
          ++ pretty kMaxNumberOfSegments ++ ") exceeded."), w, m)
  else if (kMaxSize <? length (chars type_id))%nat then
    (FormatStatus kInvalidArgument
       ("Type id '" ++ type_id ++ "' for segment " ++ name ++ " exceeds max size of "
          ++ pretty kMaxSize ++ " bytes"), w, m)
  else if decide (is_Some (memory_segments_ m !! name)) then
    (FormatStatus kAlreadyExists
       ("Shared memory segment '" ++ name ++ "' already exists"), w, m)
  else if negb (status_ok (VerifyName name)) then (VerifyName name, w, m)
  else
    match memfd_create (ie_memfd env) w with
    | (inl e, w1) =>
        (FormatStatus kInternal
           ("Failed to create shared memory segment '" ++ name ++ "' with error: "
              ++ StrError e), w1, m)
    | (inr shm_fd, w1) =>
        let segment_size := wrap_u 64 (sizeof_header + payload_size) in
        match init_mapping env name shm_fd segment_size w1 with
        | (Unexpected st, w2) => (st, close shm_fd w2, m)
        | (Value data, w2) =>
            (OkStatus,
             update_at w2 data (fun f => mkFile (f_size f) (Some (new_SegmentHeader type_id))
                                           (f_value f)),
             mkSharedMemoryManager
               (<[name := mkMemorySegmentInfo data segment_size must_be_used shm_fd]>
                  (memory_segments_ m))
               (<[name := shm_fd]> (segment_name_to_file_descriptor_map_ m))
               (module_name_ m) (shared_memory_namespace_ m))
        end
    end.

(** [GetRawSegment(name)] *)
Definition GetRawSegment (m : SharedMemoryManager) (name : string) : option Z :=
  msi_data <$> memory_segments_ m !! name.

(** [GetSegmentHeader(name)] *)
Definition GetSegmentHeader (w : world) (m : SharedMemoryManager) (name : string)
  : option SegmentHeader :=
  (GetRawSegment m name ≫= file_at w) ≫= f_header.

(** [GetSegmentValue(name)] *)
Definition GetSegmentValue (w : world) (m : SharedMemoryManager) (name : string) : option V :=
  (GetRawSegment m name ≫= file_at w) ≫= f_value.

(** [SetSegmentValue(name, new_value)] *)
Definition SetSegmentValue (w : world) (m : SharedMemoryManager) (name : string) (new_value : V)
  : Status * world :=
  match GetRawSegment m name with
  | None => (FormatStatus kNotFound ("memory segment not found: " ++ name), w)
  | Some data =>
      (OkStatus, update_at w data (fun f => mkFile (f_size f) (f_header f) (Some new_value)))
  end.

(** [AddSegment(name, must_be_used, value, type_id)] and, with the value [T()],
    [AddSegmentWithDefaultValue(name, must_be_used, type_id)] *)
Definition AddSegment (env : init_env) (name : string) (must_be_used : bool)
    (sizeof_T : Z) (value : V) (type_id : string) (w : world) (m : SharedMemoryManager)
  : Status * world * SharedMemoryManager :=
  let '(st, w1, m1) := InitSegment env name must_be_used sizeof_T type_id w m in
  if negb (status_ok st) then (st, w1, m1)
  else let '(st2, w2) := SetSegmentValue w1 m1 name value in (st2, w2, m1).

(** [AddSegment(name, must_be_used, payload_size, type_id)] *)
Definition AddRawSegment := InitSegment.

(** [ModuleName()], [SharedMemoryNamespace()] *)
Definition ModuleName (m : SharedMemoryManager) : string := module_name_ m.
Definition SharedMemoryNamespace (m : SharedMemoryManager) : string := shared_memory_namespace_ m.

(** The move constructor and the move assignment: the new state of the target and of
    the source. *)
Definition move_Manager (other : SharedMemoryManager)
  : SharedMemoryManager * SharedMemoryManager :=
  (mkSharedMemoryManager (memory_segments_ other) ∅ "" "",
   mkSharedMemoryManager ∅ (segment_name_to_file_descriptor_map_ other) (module_name_ other)
     (shared_memory_namespace_ other)).
Definition assign_Manager (same : bool) (this other : SharedMemoryManager)
  : SharedMemoryManager * SharedMemoryManager :=
  if same then (this, other)
  else
    (mkSharedMemoryManager (memory_segments_ other) (segment_name_to_file_descriptor_map_ this)
       (module_name_ this) (shared_memory_namespace_ this),
     mkSharedMemoryManager ∅ (segment_name_to_file_descriptor_map_ other) (module_name_ other)
       (shared_memory_namespace_ other)).

(** ** [SegmentInfo] *)

Record SegmentName := mkSegmentName {
  sn_value : list ascii;
  sn_must_be_used : bool }.
Definition default_SegmentName : SegmentName :=
  mkSegmentName (replicate kMaxSegmentStringSize NUL) false.

Record SegmentInfo := mkSegmentInfo {
  si_size : Z;
  si_names : list SegmentName }.

Context `{IterOrder}.

(** [~SharedMemoryManager()]: for every segment the end of its header, [close] and
    [munmap]. *)
Definition destroy_segment (w : world) (info : MemorySegmentInfo) : world :=
  let w1 := update_at w (msi_data info) (fun f => mkFile (f_size f) None (f_value f)) in
  munmap (msi_data info) (close (msi_fd info) w1).
Definition destroy_Manager (w : world) (m : SharedMemoryManager) : world :=
  fold_left (fun w s => destroy_segment w s.2) (iter (memory_segments_ m)) w.

(** The loop of [SegmentInfoFromHashMap]: entry [index] and the following ones. *)
Fixpoint fill_names (segments : list (string * MemorySegmentInfo)) (index : nat)
    (names : list SegmentName) : list SegmentName :=
  match segments with
  | [] => names
  | (memory_name, buf) :: rest =>
      let zeroed := replicate kMaxSegmentStringSize NUL in
      let printed := take (kMaxSegmentStringSize - 1) (until_nul (chars memory_name)) in
      fill_names rest (S index)
        (<[index := mkSegmentName (printed ++ drop (length printed) zeroed)
                      (msi_must_be_used buf)]> names)
  end.

(** [SegmentInfoFromHashMap(segments)] *)
Definition SegmentInfoFromHashMap (segments : gmap string MemorySegmentInfo) : SegmentInfo :=
  mkSegmentInfo (wrap_u 32 (Z.of_nat (size segments)))
    (fill_names (iter segments) 0 (replicate kMaxNumberOfSegments default_SegmentName)).

(** [GetSegmentInfo()], [GetRegisteredMemoryNames()] *)
Definition GetSegmentInfo (m : SharedMemoryManager) : SegmentInfo :=
  SegmentInfoFromHashMap (memory_segments_ m).
Definition GetRegisteredMemoryNames (m : SharedMemoryManager) : list string :=
  (iter (memory_segments_ m)).*1.

(** [InterfaceNameFromSegment(name)] *)
Definition InterfaceNameFromSegment (name : SegmentName) : expected string Status :=
  match StringView (Some (sn_value name)) with
  | Value s => Value s
  | Unexpected e => Unexpected (ToStatus e)
  end.

(** [flatbuffers::Array::Get(i)]: the index is asserted to be in range. *)
Definition array_get {A} (names : list A) (i : nat) : checked A :=
  match names !! i with Some name => Returns name | None => Aborts "i < size()" end.

(** The loop of the three readers: [n] entries from entry [i] on, those with [keep]. *)
Fixpoint names_loop (keep : SegmentName -> bool) (names : list SegmentName) (i n : nat)
    (acc : list string) : checked (expected (list string) Status) :=
  match n with
  | O => Returns (Value acc)
  | S n' =>
      let! name := array_get names i in
      if negb (keep name) then names_loop keep names (S i) n' acc
      else match InterfaceNameFromSegment name with
           | Unexpected e => Returns (Unexpected e)
           | Value s => names_loop keep names (S i) n' (acc ++ [s])
           end
  end.

(** [GetNamesFromSegmentInfo(segment_info)] *)
Definition GetNamesFromSegmentInfo (info : SegmentInfo)
  : checked (expected (list string) Status) :=
  names_loop (fun _ => true) (si_names info) 0 (Z.to_nat (si_size info)) [].

(** [GetRequiredInterfaceNamesFromSegmentInfo(segment_info)] *)
Definition GetRequiredInterfaceNamesFromSegmentInfo (info : SegmentInfo)
  : checked (expected (list string) Status) :=
  names_loop sn_must_be_used (si_names info) 0 (Z.to_nat (si_size info)) [].

Record FileDescriptorNames := mkFileDescriptorNames {
  fdn_size : Z;
  fdn_names : list SegmentName }.

(** [GetNamesFromFileDescriptorNames(file_descriptor_names)] *)
Definition GetNamesFromFileDescriptorNames (names : FileDescriptorNames)
  : checked (expected (list string) Status) :=
  names_loop (fun _ => true) (fdn_names names) 0 (Z.to_nat (fdn_size names)) [].

End World.
Arguments file : clear implicits.
Arguments world : clear implicits.
