(* ===== verification/SharedMemoryProofs.v ===== *)
(** * Correctness of the shared memory manager *)
From S2P Require Import Prelude Status FixedString SegmentHeader SharedMemory.

#[local] Arguments VerifyName : simpl never.
#[local] Arguments FormatStatus : simpl never.

Section Manager.
Context {V : Type}.
Context (StrError : Z -> string) (sizeof_header : Z).
Implicit Types (w : world V) (m : SharedMemoryManager).

(** What the kernel promises: new descriptors, files and addresses are new, and no
    mapping refers to a file that does not exist. *)
Record kernel_ok w (env : init_env) : Prop := mkKernelOk {
  ko_fd fd i : ie_memfd env = inr (fd, i) -> w_fds w !! fd = None /\ w_files w !! i = None;
  ko_map a : ie_mmap env = inr a -> w_maps w !! a = None }.

(** Everything of [w] is still there in [w']. *)
Definition extends w w' : Prop :=
  w_files w ⊆ w_files w' /\ w_fds w ⊆ w_fds w' /\ w_maps w ⊆ w_maps w'.

#[export] Instance extends_preorder : PreOrder extends.
Proof. split; [by repeat split|]. intros w1 w2 w3 (?&?&?) (?&?&?). repeat split; by etrans. Qed.

Lemma extends_file_at w w' a f : extends w w' -> file_at w a = Some f -> file_at w' a = Some f.
Proof.
  intros (Hf & _ & Hm). unfold file_at, mapped.
  destruct (w_maps w !! a) as [[i n]|] eqn:E; simpl; [|done].
  rewrite (lookup_weaken _ _ _ _ E Hm). simpl. intros Hi. by eapply lookup_weaken.
Qed.

(** ** [InitSegment] *)

Lemma status_ok_Format c t : status_ok (FormatStatus c t) = bool_decide (c = kOk).
Proof. reflexivity. Qed.

(** What a call adds: a file without a header or with a new one, and a mapping of an
    existing file. *)
Record grows w w' (type_id : string) : Prop := mkGrows {
  gr_extends : extends w w';
  gr_files i f : w_files w' !! i = Some f ->
    w_files w !! i = Some f
    \/ (w_files w !! i = None
        /\ (f_header f = None \/ f_header f = Some (new_SegmentHeader type_id)));
  gr_maps a x : w_maps w' !! a = Some x ->
    w_maps w !! a = Some x \/ is_Some (w_files w' !! x.1) }.

Lemma grows_refl w type_id : grows w w type_id.
Proof. split; [done|by left..]. Qed.

Lemma grows_new w w' i f type_id :
  w_files w !! i = None -> w_files w' = <[i := f]> (w_files w) ->
  (f_header f = None \/ f_header f = Some (new_SegmentHeader type_id)) ->
  w_fds w ⊆ w_fds w' ->
  (w_maps w' = w_maps w
   \/ exists a n, w_maps w !! a = None /\ w_maps w' = <[a := (i, n)]> (w_maps w)) ->
  grows w w' type_id.
Proof.
  intros Hi Hf Hh Hd Hm. split.
  - split; [rewrite Hf; by apply insert_subseteq|]. split; [done|].
    destruct Hm as [->|(a & n & Ha & ->)]; [done|by apply insert_subseteq].
  - intros j g. rewrite Hf. rewrite lookup_insert_Some. intros [[<- <-]|[_ Hg]]; auto.
  - intros a x. destruct Hm as [->|(a' & n & Ha & ->)]; [by left|].
    rewrite lookup_insert_Some. intros [[<- <-]|[_ Hx]]; [right|by left].
    simpl. by rewrite Hf, lookup_insert_eq.
Qed.

(** The files of a call that succeeded. *)
Record initialised w w' (env : init_env) (fd data : Z) (i : nat) (n : Z) (type_id : string)
  : Prop := mkInitialised {
  in_memfd : ie_memfd env = inr (fd, i);
  in_mmap : ie_mmap env = inr data;
  in_fds : w_fds w' = <[fd := i]> (w_fds w);
  in_maps : w_maps w' = <[data := (i, n)]> (w_maps w);
  in_files : w_files w' = <[i := mkFile n (Some (new_SegmentHeader type_id)) None]> (w_files w) }.

(** Both outcomes of the part after [memfd_create]: a failure leaves the new file without
    a header, and a mapping only if [mlock] failed. *)
Lemma init_mapping_cases env name fd i n w :
  w_fds w !! fd = Some i -> w_files w !! i = Some (mkFile 0 None None) ->
  (forall a, ie_mmap env = inr a -> w_maps w !! a = None) ->
  match init_mapping StrError env name fd n w with
  | (Unexpected st, w') =>
      status_ok st = false /\ w_fds w' = w_fds w
      /\ (exists f, f_header f = None /\ w_files w' = <[i := f]> (w_files w))
      /\ (w_maps w' = w_maps w
          \/ ie_mlock env <> None
             /\ exists a n, w_maps w !! a = None /\ w_maps w' = <[a := (i, n)]> (w_maps w))
  | (Value data, w') =>
      ie_mmap env = inr data
      /\ w' = mkWorld (<[i := mkFile n None None]> (w_files w)) (w_fds w)
                (<[data := (i, n)]> (w_maps w))
  end.
Proof.
  intros Hfd Hi Hmap. unfold init_mapping.
  destruct (ie_ftruncate env) as [e|]; cbn [ftruncate].
  { split; [done|]. split; [done|]. split; [|by left]. exists (mkFile 0 None None).
    by rewrite insert_id. }
  rewrite Hfd. set (w1 := mkWorld _ _ _).
  assert (w1 = mkWorld (<[i := mkFile n None None]> (w_files w)) (w_fds w) (w_maps w)) as ->.
  { subst w1. f_equal. apply map_eq. intros j. destruct (decide (j = i)) as [->|].
    - by rewrite lookup_alter_eq, lookup_insert_eq, Hi.
    - by rewrite lookup_alter_ne, lookup_insert_ne. }
  assert (exists f, f_header f = None /\ <[i := mkFile n None None]> (w_files w) = <[i := f]> (w_files w))
    as Hf by (by exists (mkFile n None None)).
  destruct (ie_fstat env) as [e|]; cbn [fstat w_fds w_files w_maps]; [repeat split; [done|by left]|].
  rewrite Hfd. simpl. rewrite lookup_insert_eq. simpl. rewrite Z.eqb_refl. cbn [negb].
  destruct (ie_mmap env) as [e|a] eqn:Em; cbn [mmap w_fds w_files w_maps]; [repeat split; [done|by left]|].
  rewrite Hfd. destruct (ie_mlock env) as [e|]; [|done]. cbn [w_fds w_files w_maps].
  repeat split; [done|]. right. split; [done|]. exists a, n. by split; [apply Hmap|].
Qed.

(** Both outcomes of [InitSegment]. *)
Lemma InitSegment_cases env name must_be_used payload_size type_id w m :
  kernel_ok w env ->
  let '(st, w', m') :=
    InitSegment StrError sizeof_header env name must_be_used payload_size type_id w m in
  grows w w' type_id /\
  ((status_ok st = false /\ m' = m /\ w_fds w' = w_fds w
    /\ (ie_mlock env = None -> w_maps w' = w_maps w))
   \/ (st = OkStatus /\ status_ok (VerifyName name) = true
       /\ memory_segments_ m !! name = None /\ (size (memory_segments_ m) < kMaxNumberOfSegments)%nat
       /\ (length (chars type_id) <= kMaxSize)%nat
       /\ exists fd data i, let n := wrap_u 64 (sizeof_header + payload_size) in
            initialised w w' env fd data i n type_id
            /\ m' = mkSharedMemoryManager
                      (<[name := mkMemorySegmentInfo data n must_be_used fd]> (memory_segments_ m))
                      (<[name := fd]> (segment_name_to_file_descriptor_map_ m))
                      (module_name_ m) (shared_memory_namespace_ m))).
Proof.
  intros [Hfd Hmap]. unfold InitSegment. pose proof (grows_refl w type_id) as Hrefl.
  destruct (Nat.leb_spec kMaxNumberOfSegments (size (memory_segments_ m))) as [|Hsize];
    [split; [done|by left]|].
  destruct (Nat.ltb_spec kMaxSize (length (chars type_id))); [split; [done|by left]|].
  case_decide as Hname; [split; [done|by left]|].
  destruct (status_ok (VerifyName name)) eqn:Hv; cbn [negb]; [|split; [done|by left]].
  destruct (ie_memfd env) as [e|[fd i]] eqn:Ef; cbn [memfd_create]; [split; [done|by left]|].
  destruct (Hfd fd i eq_refl) as [Hfd1 Hfi]. set (n := wrap_u 64 _). set (w1 := mkWorld _ _ _).
  pose proof (init_mapping_cases env name fd i n w1 (lookup_insert_eq _ _ _) (lookup_insert_eq _ _ _) Hmap)
    as Hcases.
  destruct (init_mapping _ env name fd n w1) as [[data|st] w2].
  - destruct Hcases as [Em ->]. subst w1. unfold update_at, mapped. cbn [w_maps w_files w_fds].
    rewrite lookup_insert_eq. cbn [fmap option_fmap option_map fst].
    rewrite alter_insert_eq, insert_insert_eq. cbn [f_size f_value]. split.
    + eapply (grows_new w _ i); cbn [w_files w_fds w_maps]; eauto 8. by apply insert_subseteq.
    + right. repeat (split; [done|]). split; [by apply eq_None_not_Some|].
      split; [lia|]. split; [lia|]. exists fd, data, i. split; [by split|done].
  - destruct Hcases as (Hst & Hd & (f & Hh & Hf) & Hm). subst w1. cbn [w_fds w_files w_maps] in *.
    rewrite insert_insert_eq in Hf.
    assert (w_fds (close fd w2) = w_fds w) as E by (simpl; by rewrite Hd, delete_insert_id).
    split; [eapply (grows_new w _ i f); [done|done|by left|by rewrite E|naive_solver]|].
    left. split; [done|]. split; [done|]. split; [done|]. simpl. naive_solver.
Qed.

(** ** The invariant of the manager *)

(** A segment of the manager: its descriptor and its mapping denote the same file,
    which has the registered length and a header. *)
Definition live w (info : MemorySegmentInfo) (i : nat) : Prop :=
  w_fds w !! msi_fd info = Some i /\ w_maps w !! msi_data info = Some (i, msi_length info)
  /\ exists f, w_files w !! i = Some f /\ f_size f = msi_length info /\ is_Some (f_header f).

Record manager_wf w m : Prop := mkManagerWf {
  mw_size : (size (memory_segments_ m) <= kMaxNumberOfSegments)%nat;
  mw_names name info : memory_segments_ m !! name = Some info ->
    status_ok (VerifyName name) = true;
  mw_fds : segment_name_to_file_descriptor_map_ m = msi_fd <$> memory_segments_ m;
  mw_live name info : memory_segments_ m !! name = Some info -> exists i, live w info i;
  mw_inj n1 n2 a b i : memory_segments_ m !! n1 = Some a -> memory_segments_ m !! n2 = Some b ->
    live w a i -> live w b i -> n1 = n2 }.

Lemma live_extends w w' info i : extends w w' -> live w info i -> live w' info i.
Proof.
  intros (Hf & Hd & Hm) (H1 & H2 & f & H3 & H4). split; [by eapply lookup_weaken|].
  split; [by eapply lookup_weaken|]. exists f. split; [by eapply lookup_weaken|done].
Qed.

Lemma live_fun w info i j : live w info i -> live w info j -> i = j.
Proof. intros (H1 & _) (H2 & _). congruence. Qed.

Lemma manager_wf_extends w w' m : extends w w' -> manager_wf w m -> manager_wf w' m.
Proof.
  intros He [Hs Hn Hf Hl Hi]. split; try done.
  - intros name info Hx. destruct (Hl _ _ Hx) as [i Hx']. exists i. by eapply live_extends.
  - intros n1 n2 a b i Ha Hb La Lb. destruct (Hl _ _ Ha) as [ia Ha'], (Hl _ _ Hb) as [ib Hb'].
    assert (ia = i) as -> by (eapply live_fun; [by eapply live_extends|done]).
    assert (ib = i) as -> by (eapply live_fun; [by eapply live_extends|done]). by eapply Hi.
Qed.

(** Changes of the content of files keep the manager well-formed. *)
Definition same_shape w w' : Prop :=
  w_fds w' = w_fds w /\ w_maps w' = w_maps w
  /\ forall i f, w_files w !! i = Some f -> exists f', w_files w' !! i = Some f'
       /\ f_size f' = f_size f /\ (is_Some (f_header f) -> is_Some (f_header f')).

Lemma live_same_shape w w' info i : same_shape w w' -> live w info i -> live w' info i.
Proof.
  intros (Hd & Hm & Hf) (H1 & H2 & f & H3 & H4 & H5). split; [by rewrite Hd|].
  split; [by rewrite Hm|]. destruct (Hf _ _ H3) as (f' & ? & ? & ?). exists f'. split; [done|].
  split; [congruence|auto].
Qed.

Lemma manager_wf_same_shape w w' m : same_shape w w' -> manager_wf w m -> manager_wf w' m.
Proof.
  intros He [Hs Hn Hf Hl Hi]. split; try done.
  - intros name info Hx. destruct (Hl _ _ Hx) as [i Hx']. exists i. by eapply live_same_shape.
  - intros n1 n2 a b i Ha Hb La Lb. destruct (Hl _ _ Ha) as [ia Ha'], (Hl _ _ Hb) as [ib Hb'].
    assert (ia = i) as -> by (eapply live_fun; [by eapply live_same_shape|done]).
    assert (ib = i) as -> by (eapply live_fun; [by eapply live_same_shape|done]). by eapply Hi.
Qed.

Lemma update_at_same_shape w addr g :
  (forall f, f_size (g f) = f_size f /\ (is_Some (f_header f) -> is_Some (f_header (g f)))) ->
  same_shape w (update_at w addr g).
Proof.
  intros Hg. unfold update_at. destruct (mapped w addr) as [i|]; [|by split; [|split; eauto]].
  split; [done|]. split; [done|]. intros j f Hj. cbn [w_files].
  destruct (decide (i = j)) as [->|Hne].
  - rewrite lookup_alter_eq, Hj. simpl. exists (g f). split; [done|apply Hg].
  - rewrite lookup_alter_ne by done. eauto.
Qed.

Lemma InitSegment_wf env name must_be_used payload_size type_id w m :
  kernel_ok w env -> manager_wf w m ->
  let '(_, w', m') :=
    InitSegment StrError sizeof_header env name must_be_used payload_size type_id w m in
  manager_wf w' m'.
Proof.
  intros Hk Hwf. pose proof (InitSegment_cases env name must_be_used payload_size type_id w m Hk) as Hc.
  destruct (InitSegment _ _ _ _ _ _ _ _ _) as [[st w'] m'].
  destruct Hc as [[He _ _] [(_ & -> & _)|(-> & Hv & Hno & Hsz & _ & fd & data & i & Hin & ->)]];
    [by eapply manager_wf_extends|].
  destruct Hin as [Ifd Imap Hfds Hmaps Hfiles]. destruct (ko_fd _ _ Hk _ _ Ifd) as [Hfresh Hfi].
  pose proof (manager_wf_extends _ _ _ He Hwf) as [Hs' Hn Hf Hl Hi].
  set (n := wrap_u 64 _) in *. set (info := mkMemorySegmentInfo data n must_be_used fd).
  assert (live w' info i) as Hnew.
  { split; [simpl; rewrite Hfds; apply lookup_insert_eq|]. simpl.
    split; [rewrite Hmaps; apply lookup_insert_eq|]. eexists. rewrite Hfiles.
    split; [apply lookup_insert_eq|]. by split. }
  assert (forall nm x, memory_segments_ m !! nm = Some x -> ~ live w' x i) as Hold.
  { intros nm x Hx Hlx. destruct (mw_live _ _ Hwf _ _ Hx) as [j Hj].
    assert (j = i) as -> by (eapply live_fun; [by eapply live_extends|done]).
    destruct Hj as (_ & _ & f & Hj & _). congruence. }
  split; simpl.
  - rewrite map_size_insert_None by done. lia.
  - intros nm x. rewrite lookup_insert_Some. intros [[<- _]|[_ Hx]]; [done|by eapply Hn].
  - by rewrite fmap_insert, Hf.
  - intros nm x. rewrite lookup_insert_Some. intros [[<- <-]|[_ Hx]]; [by exists i|by eapply Hl].
  - intros n1 n2 a b j. rewrite !lookup_insert_Some.
    intros [[<- <-]|[_ Ha]] [[<- <-]|[_ Hb]] La Lb; try done.
    + rewrite (live_fun _ _ _ _ La Hnew) in Lb. by destruct (Hold n2 b Hb).
    + rewrite (live_fun _ _ _ _ Lb Hnew) in La. by destruct (Hold n1 a Ha).
    + by eapply Hi.
Qed.

Lemma SetSegmentValue_shape w m name v : same_shape w (SetSegmentValue w m name v).2.
Proof.
  unfold SetSegmentValue. destruct (GetRawSegment m name); simpl;
    [apply update_at_same_shape; intros f; by split|].
  split; [done|]. split; [done|]. eauto.
Qed.

Lemma AddSegment_wf env name must_be_used size v type_id w m :
  kernel_ok w env -> manager_wf w m ->
  let '(_, w', m') := AddSegment StrError sizeof_header env name must_be_used size v type_id w m in
  manager_wf w' m'.
Proof.
  intros Hk Hwf. unfold AddSegment.
  pose proof (InitSegment_wf env name must_be_used size type_id w m Hk Hwf) as H1.
  destruct (InitSegment _ _ _ _ _ _ _ _ _) as [[st w1] m1]. destruct (negb (status_ok st)); [done|].
  pose proof (SetSegmentValue_shape w1 m1 name v) as H2.
  destruct (SetSegmentValue w1 m1 name v) as [st2 w2]. by eapply manager_wf_same_shape.
Qed.

(** ** Adding segments *)

Lemma live_file_at w info i : live w info i -> file_at w (msi_data info) = w_files w !! i.
Proof. intros (_ & H2 & _). unfold file_at, mapped. by rewrite H2. Qed.

(** What the manager shows of a segment. *)
Definition view w m (name : string) : option (file V) := GetRawSegment m name ≫= file_at w.

Lemma view_live w m name info i :
  memory_segments_ m !! name = Some info -> live w info i -> view w m name = w_files w !! i.
Proof.
  intros Hx Hl. unfold view, GetRawSegment. rewrite Hx. simpl. by apply live_file_at.
Qed.

Lemma view_extends w w' m name :
  manager_wf w m -> extends w w' -> view w' m name = view w m name.
Proof.
  intros Hwf He. destruct (memory_segments_ m !! name) as [info|] eqn:Hx.
  - destruct (mw_live _ _ Hwf _ _ Hx) as [i Hi].
    rewrite (view_live w m name info i), (view_live w' m name info i); try done;
      [|by eapply live_extends].
    destruct Hi as (_ & _ & f & Hf & _). rewrite Hf. eapply lookup_weaken; [done|apply He].
  - unfold view, GetRawSegment. by rewrite Hx.
Qed.

Lemma view_other w m name v other :
  manager_wf w m -> other <> name ->
  view (SetSegmentValue w m name v).2 m other = view w m other.
Proof.
  intros Hwf Hne. unfold SetSegmentValue, GetRawSegment.
  destruct (memory_segments_ m !! name) as [info|] eqn:Hx; simpl; [|done].
  destruct (mw_live _ _ Hwf _ _ Hx) as [i Hi]. pose proof Hi as (_ & Hm & _).
  unfold update_at, mapped. rewrite Hm. simpl.
  destruct (memory_segments_ m !! other) as [info2|] eqn:Hy;
    [|unfold view, GetRawSegment; by rewrite Hy].
  destruct (mw_live _ _ Hwf _ _ Hy) as [j Hj].
  assert (i <> j) as Hij by (intros ->; by apply Hne, (mw_inj _ _ Hwf other name info2 info j)).
  rewrite (view_live w m other info2 j) by done. unfold view, GetRawSegment. rewrite Hy. simpl.
  unfold file_at, mapped. simpl. destruct Hj as (_ & -> & _). simpl.
  by rewrite lookup_alter_ne.
Qed.

Lemma GetSegmentValue_view w m name : GetSegmentValue w m name = view w m name ≫= f_value.
Proof. reflexivity. Qed.
Lemma GetSegmentHeader_view w m name : GetSegmentHeader w m name = view w m name ≫= f_header.
Proof. reflexivity. Qed.

(** C12: A segment that was added can be read back: its value is the one given, its header
    carries the type and no references; every other segment is untouched, and the
    manager stays well-formed. *)
Theorem add_segment_roundtrip env name must_be_used size v type_id w m w' m' :
  kernel_ok w env -> manager_wf w m ->
  AddSegment StrError sizeof_header env name must_be_used size v type_id w m = (OkStatus, w', m') ->
  manager_wf w' m'
  /\ GetSegmentValue w' m' name = Some v
  /\ (exists h, GetSegmentHeader w' m' name = Some h /\ TypeID (Type_ h) = type_id
        /\ ReaderRefCount h = 0 /\ WriterRefCount h = 0)
  /\ forall other, other <> name ->
       GetSegmentValue w' m' other = GetSegmentValue w m other
       /\ GetSegmentHeader w' m' other = GetSegmentHeader w m other.
Proof.
  intros Hk Hwf Hadd. pose proof (AddSegment_wf env name must_be_used size v type_id w m Hk Hwf) as Hwf'.
  rewrite Hadd in Hwf'. split; [done|]. unfold AddSegment in Hadd.
  pose proof (InitSegment_cases env name must_be_used size type_id w m Hk) as Hc.
  pose proof (InitSegment_wf env name must_be_used size type_id w m Hk Hwf) as Hwf1.
  destruct (InitSegment _ _ _ _ _ _ _ _ _) as [[st w1] m1].
  destruct Hc as [[He _ _] [(Hst & _)|(-> & _ & Hno & _ & Hty & fd & data & i & Hin & Hm1)]].
  { rewrite Hst in Hadd. simpl in Hadd. by simplify_eq. }
  simpl in Hadd. destruct (SetSegmentValue w1 m1 name v) as [st2 w2] eqn:Hset. simplify_eq/=.
  set (m1 := mkSharedMemoryManager _ _ _ _) in *.
  destruct Hin as [Ifd Imap Hfds Hmaps Hfiles].
  assert (GetRawSegment m1 name = Some data) as Hraw.
  { unfold GetRawSegment, m1. simpl. by rewrite lookup_insert_eq. }
  assert (w' = update_at w1 data (fun f => mkFile (f_size f) (f_header f) (Some v))) as Hw'.
  { unfold SetSegmentValue in Hset. rewrite Hraw in Hset. by simplify_eq. }
  assert (view w' m1 name = Some (mkFile (wrap_u 64 (sizeof_header + size))
            (Some (new_SegmentHeader type_id)) (Some v))) as Hv.
  { unfold view. rewrite Hraw. simpl. subst w'. unfold file_at, update_at, mapped.
    rewrite Hmaps, lookup_insert_eq. simpl. rewrite ?Hmaps, ?lookup_insert_eq. simpl.
    by rewrite Hfiles, alter_insert_eq, lookup_insert_eq. }
  rewrite GetSegmentValue_view, GetSegmentHeader_view, Hv. split; [done|]. split.
  { eexists. split; [reflexivity|]. split; [|done]. unfold Type_, new_SegmentHeader.
    cbn [type_info_]. rewrite TypeID_new, take_ge by done. apply str_chars. }
  intros other Hne. rewrite !GetSegmentValue_view, !GetSegmentHeader_view.
  assert (view w' m1 other = view w m other) as ->; [|done].
  assert (w' = (SetSegmentValue w1 m1 name v).2) as -> by (by rewrite Hset).
  rewrite view_other by done. rewrite <-(view_extends w w1 m other Hwf He).
  unfold view, GetRawSegment, m1. simpl. by rewrite lookup_insert_ne.
Qed.

(** C13: A segment that cannot be added leaves no trace: the manager and the descriptors
    are as before, all segments keep their content, and no mapping is left behind
    unless [mlock] was the call that failed. *)
Theorem add_segment_error env name must_be_used size v type_id w m st w' m' :
  kernel_ok w env -> manager_wf w m ->
  AddSegment StrError sizeof_header env name must_be_used size v type_id w m = (st, w', m') ->
  status_ok st = false ->
  m' = m /\ w_fds w' = w_fds w
  /\ (ie_mlock env = None -> w_maps w' = w_maps w)
  /\ (forall other, GetSegmentValue w' m' other = GetSegmentValue w m other
        /\ GetSegmentHeader w' m' other = GetSegmentHeader w m other).
Proof.
  intros Hk Hwf Hadd Hst. unfold AddSegment in Hadd.
  pose proof (InitSegment_cases env name must_be_used size type_id w m Hk) as Hc.
  destruct (InitSegment _ _ _ _ _ _ _ _ _) as [[st1 w1] m1].
  destruct Hc as [[He _ _] [(Hst1 & -> & Hd & Hm)|(-> & _ & _ & _ & _ & fd & data & i & _ & Hm1)]].
  - rewrite Hst1 in Hadd. simpl in Hadd. simplify_eq. repeat (split; [done|]).
    intros other. rewrite !GetSegmentValue_view, !GetSegmentHeader_view.
    by rewrite (view_extends w w' m' other Hwf He).
  - simpl in Hadd. subst m1. unfold SetSegmentValue, GetRawSegment in Hadd.
    simpl in Hadd. rewrite lookup_insert_eq in Hadd. simpl in Hadd. by simplify_eq.
Qed.

End Manager.

(** ** Segment information *)

Section Info.
Context {V : Type} `{IterOrder}.
Implicit Types (w : world V) (m : SharedMemoryManager).

(** The entry that is written for a segment. *)
Definition entry (s : string * MemorySegmentInfo) : SegmentName :=
  let printed := take (kMaxSegmentStringSize - 1) (until_nul (chars s.1)) in
  mkSegmentName (printed ++ drop (length printed) (replicate kMaxSegmentStringSize NUL))
    (msi_must_be_used s.2).

Lemma fill_names_spec l pre post :
  (length l <= length post)%nat ->
  fill_names l (length pre) (pre ++ post) = pre ++ (entry <$> l) ++ drop (length l) post.
Proof.
  revert pre post. induction l as [|[name buf] l IH]; intros pre post Hl; [done|].
  destruct post as [|x post]; simpl in Hl; [lia|]. cbn [fill_names]. fold (entry (name, buf)).
  rewrite insert_app_r_alt, Nat.sub_diag by lia. cbn [insert list_insert].
  change (mkSegmentName _ _) with (entry (name, buf)).
  replace (pre ++ entry (name, buf) :: post) with ((pre ++ [entry (name, buf)]) ++ post)
    by (by rewrite <-app_assoc).
  replace (S (length pre)) with (length (pre ++ [entry (name, buf)]))
    by (rewrite length_app; simpl; lia).
  rewrite IH by lia. by rewrite <-app_assoc.
Qed.

Lemma entry_name s :
  no_nul (chars s.1) -> (length (chars s.1) < kMaxSegmentStringSize)%nat ->
  InterfaceNameFromSegment (entry s) = Value s.1.
Proof.
  intros Hn Hl. unfold InterfaceNameFromSegment, entry. cbn [sn_value].
  rewrite StringView_until, drop_replicate, until_nul_app_zeros.
  rewrite (until_nul_no_nul (chars s.1)), take_ge by (done || lia).
  by rewrite until_nul_no_nul, str_chars.
Qed.

(** What the readers see of the entries [e x] with the names [nm x]. *)
Lemma names_loop_spec {A} (e : A -> SegmentName) (nm : A -> string) keep l pre post acc :
  Forall (fun x => InterfaceNameFromSegment (e x) = Value (nm x)) l ->
  names_loop keep (pre ++ (e <$> l) ++ post) (length pre) (length l) acc =
    Returns (Value (acc ++ (nm <$> filter (fun x => keep (e x) = true) l))).
Proof.
  intros Hl. revert pre acc. induction Hl as [|x l He _ IH]; intros pre acc.
  { simpl. by rewrite app_nil_r. }
  cbn [length names_loop app fmap list_fmap]. unfold array_get.
  rewrite lookup_app_r, Nat.sub_diag by lia. cbn [lookup list_lookup cbind].
  specialize (IH (pre ++ [e x])). rewrite length_app, Nat.add_comm, <-app_assoc in IH.
  cbn [length Nat.add app] in IH. destruct (keep (e x)) eqn:Hk; cbn [negb].
  - rewrite He, IH, filter_cons_True by done. cbn. by rewrite <-app_assoc.
  - by rewrite IH, filter_cons_False by congruence.
Qed.

Lemma filter_all {A} (l : list A) : filter (fun _ => true = true) l = l.
Proof. induction l as [|x l IH]; [done|]. rewrite filter_cons_True by done. by f_equal. Qed.

Lemma VerifyName_length name :
  status_ok (VerifyName name) = true -> (length (chars name) < kMaxSegmentStringSize)%nat.
Proof.
  unfold VerifyName. case_decide; [done|].
  destruct (Nat.leb_spec kMaxSegmentStringSize (length (chars name))); [done|]. lia.
Qed.

Lemma segment_info_names m :
  (size (memory_segments_ m) <= kMaxNumberOfSegments)%nat ->
  exists rest, si_names (GetSegmentInfo m) = (entry <$> iter (memory_segments_ m)) ++ rest
    /\ Z.to_nat (si_size (GetSegmentInfo m)) = length (iter (memory_segments_ m)).
Proof.
  intros Hs. assert (length (iter (memory_segments_ m)) = size (memory_segments_ m)) as Hlen.
  { rewrite iter_perm. apply length_map_to_list. }
  pose proof (fill_names_spec (iter (memory_segments_ m)) []
    (replicate kMaxNumberOfSegments default_SegmentName)) as Hfill.
  eexists. split.
  - unfold GetSegmentInfo, SegmentInfoFromHashMap. cbn [si_names]. apply Hfill.
    rewrite length_replicate. lia.
  - unfold GetSegmentInfo, SegmentInfoFromHashMap, kMaxNumberOfSegments in *. cbn [si_size].
    rewrite wrap_u_id by (split; simpl; lia). lia.
Qed.

(** The list of segments survives its transport in shared memory: what a reader of
    [SegmentInfo] extracts are exactly the registered names, and the names of the
    segments that must be used. *)
Theorem segment_info_roundtrip w m :
  manager_wf w m ->
  (forall name info, memory_segments_ m !! name = Some info -> no_nul (chars name)) ->
  GetNamesFromSegmentInfo (GetSegmentInfo m) = Returns (Value (GetRegisteredMemoryNames m))
  /\ (forall name, name ∈ GetRegisteredMemoryNames m <-> is_Some (memory_segments_ m !! name))
  /\ exists required,
       GetRequiredInterfaceNamesFromSegmentInfo (GetSegmentInfo m) = Returns (Value required)
       /\ forall name, name ∈ required <->
            exists info, memory_segments_ m !! name = Some info /\ msi_must_be_used info = true.
Proof.
  intros Hwf Hnul. destruct (segment_info_names m (mw_size _ _ Hwf)) as (rest & Hnames & Hsize).
  unfold GetNamesFromSegmentInfo, GetRequiredInterfaceNamesFromSegmentInfo.
  rewrite Hnames, Hsize. unfold GetRegisteredMemoryNames. set (l := iter (memory_segments_ m)) in *.
  assert (forall s, s ∈ l <-> memory_segments_ m !! s.1 = Some s.2) as Hl.
  { intros [k x]. unfold l. rewrite iter_perm. apply elem_of_map_to_list. }
  assert (Forall (fun s => InterfaceNameFromSegment (entry s) = Value s.1) l) as Hok.
  { apply Forall_forall. intros s Hs%Hl. apply entry_name; [by eapply Hnul|].
    eapply VerifyName_length, (mw_names _ _ Hwf). done. }
  pose proof (fun keep => names_loop_spec entry fst keep l [] rest [] Hok) as Hloop.
  cbn [app length] in Hloop. rewrite !Hloop, filter_all. split; [done|]. split.
  - intros name. rewrite list_elem_of_fmap. split.
    + intros (s & -> & Hs%Hl). by eexists.
    + intros [x Hx]. exists (name, x). split; [done|]. by apply Hl.
  - eexists. split; [done|]. intros name. rewrite list_elem_of_fmap. split.
    + intros (s & -> & [Hk Hs]%list_elem_of_filter). apply Hl in Hs. by exists s.2.
    + intros (x & Hx & Hu). exists (name, x). split; [done|]. apply list_elem_of_filter.
      split; [done|]. by apply Hl.
Qed.

End Info.
