(* ===== verification/MemorySegment.v ===== *)
(** * Handles on shared memory segments
    ([icon/interprocess/shared_memory_manager/memory_segment.{h,cc}],
     [icon/utils/format.h])

    A [MemorySegment] maps the file behind a descriptor, counts itself as a reader or
    a writer in the header, and undoes both when it goes out of scope.  Handles are
    move-only: a moved-from handle is empty. *)
From S2P Require Import Prelude Status SegmentHeader SharedMemory.

(** [FormatMap(map, element_separator, pair_separator)], with its defaults. *)
Fixpoint format_pairs (first : bool) (l : list (string * Z)) : string :=
  match l with
  | [] => ""
  | (k, v) :: rest =>
      (if first then "" else ", ") ++ k ++ "=" ++ pretty v ++ format_pairs false rest
  end.
Definition FormatMap `{IterOrder} (m : gmap string Z) : string := format_pairs true (iter m).

Inductive ReadWriteKind := kUnknown | kReadOnly | kReadWrite.

#[export] Instance ReadWriteKind_eq_dec : EqDecision ReadWriteKind.
Proof. solve_decision. Defined.

(** [SegmentDescriptor] *)
Record SegmentDescriptor := mkSegmentDescriptor {
  segment_start : Z;
  sd_size : Z }.

Record MemorySegment := mkMemorySegment {
  name_ : string;
  header_ : option Z;
  value_ : option Z;
  size_ : Z;
  read_write_kind_ : ReadWriteKind }.

(** What the system calls of one [Get] return. *)
Record get_env := mkGetEnv {
  ge_fstat : option Z;
  ge_mmap : Z + Z;
  ge_mlock : option Z }.

Section Segments.
Context {V : Type} `{IterOrder}.
Context (StrError : Z -> string) (sizeof_header : Z).
Implicit Types w : world V.

(** [MemorySegment::Get(segment_name_to_file_descriptor_map, name)] *)
Definition Get (env : get_env) (fds : gmap string Z) (name : string) w
  : expected SegmentDescriptor Status * world V :=
  match fds !! name with
  | None =>
      (Unexpected (FormatStatus kNotFound
         ("No file descriptor found for segment '" ++ name ++ "'. Available segments: "
            ++ FormatMap fds)), w)
  | Some shm_fd =>
      if shm_fd =? -1 then
        (Unexpected (FormatStatus kInternal
           ("Invalid file descriptor for shared memory segment '" ++ name ++ "'.")), w)
      else
        match fstat (ge_fstat env) shm_fd w with
        | inl e =>
            (Unexpected (FormatStatus kInternal
               ("Failed to read size of segment '" ++ name ++ "'. 'fstat' failed with: "
                  ++ StrError e)), w)
        | inr st_size =>
            if st_size <=? sizeof_header then
              (Unexpected (FormatStatus kInternal
                 ("Shared memory segment '" ++ name
                    ++ "' must be bigger than the SegmentHeader.")), w)
            else
              let '(start, w1) := mmap (ge_mmap env) shm_fd st_size w in
              match start with
              | inl e =>
                  (Unexpected (FormatStatus kInternal
                     ("Unable to map shared memory segment '" ++ name ++ "' with error: "
                        ++ StrError e)), w1)
              | inr start =>
                  match ge_mlock env with
                  | Some e =>
                      (Unexpected (FormatStatus kInternal
                         ("Unable to mlock shared memory segment '" ++ name
                            ++ "' with error: " ++ StrError e)), w1)
                  | None => (Value (mkSegmentDescriptor start st_size), w1)
                  end
              end
        end
  end.

(** [SharedMemorySegmentFitsLowerSizeBound<T>(segment_name, segment_size)] *)
Definition SharedMemorySegmentFitsLowerSizeBound (sizeof_T : Z) (segment_name : string)
    (segment_size : Z) : Status :=
  let minimal_size := sizeof_T + sizeof_header in
  if segment_size <? minimal_size then
    FormatStatus kInternal
      ("Shared memory segment '" ++ segment_name ++ "' of size " ++ pretty segment_size
         ++ " bytes must be >= " ++ pretty minimal_size
         ++ " bytes. This can be due to a version mismatch of your resources.")
  else OkStatus.

(** A change of the header at an address. *)
Definition on_header w (addr : Z) (f : SegmentHeader -> SegmentHeader) : world V :=
  update_at w addr (fun x => mkFile (f_size x) (f <$> f_header x) (f_value x)).

(** [MemorySegment(name, segment, kind, logger)] *)
Definition new_MemorySegment w (name : string) (segment : SegmentDescriptor)
    (kind : ReadWriteKind) : MemorySegment * world V :=
  (mkMemorySegment name (Some (segment_start segment))
     (Some (segment_start segment + sizeof_header)) (sd_size segment) kind,
   match kind with
   | kReadOnly => on_header w (segment_start segment) IncrementReaderRefCount
   | kReadWrite => on_header w (segment_start segment) IncrementWriterRefCount
   | kUnknown => w
   end).

(** [MemorySegment()] *)
Definition default_MemorySegment : MemorySegment := mkMemorySegment "" None None 0 kUnknown.

(** [ReadOnlyMemorySegment<T>::Get] and [ReadWriteMemorySegment<T>::Get] *)
Definition GetSegment (kind : ReadWriteKind) (sizeof_T : Z) (env : get_env)
    (fds : gmap string Z) (segment_name : string) w
  : expected MemorySegment Status * world V :=
  match Get env fds segment_name w with
  | (Unexpected e, w1) => (Unexpected e, w1)
  | (Value segment_info, w1) =>
      let status :=
        SharedMemorySegmentFitsLowerSizeBound sizeof_T segment_name (sd_size segment_info) in
      if negb (status_ok status) then (Unexpected status, w1)
      else
        let '(s, w2) := new_MemorySegment w1 segment_name segment_info kind in (Value s, w2)
  end.

(** [SharedMemoryManager::Get<MemorySegmentT>(segment_name, logger)] *)
Definition manager_Get (kind : ReadWriteKind) (sizeof_T : Z) (env : get_env)
    (m : SharedMemoryManager) (segment_name : string) w :=
  GetSegment kind sizeof_T env (segment_name_to_file_descriptor_map_ m) segment_name w.

(** [CleanUpSharedMemory()], also the destructor. *)
Definition CleanUpSharedMemory w (s : MemorySegment) : world V :=
  match header_ s with
  | None => w
  | Some addr =>
      let w1 :=
        match read_write_kind_ s with
        | kReadWrite => on_header w addr DecrementWriterRefCount
        | kReadOnly => on_header w addr DecrementReaderRefCount
        | kUnknown => w
        end in
      munmap addr w1
  end.

(** The move constructor: the new handle and what is left of [other]. *)
Definition move_MemorySegment (other : MemorySegment) : MemorySegment * MemorySegment :=
  (other, default_MemorySegment).

(** The move assignment. *)
Definition assign_MemorySegment w (same : bool) (this other : MemorySegment)
  : MemorySegment * MemorySegment * world V :=
  if same then (this, other, w)
  else (other, default_MemorySegment, CleanUpSharedMemory w this).

(** [IsValid()], [Name()], [ValueSize()] *)
Definition IsValid (s : MemorySegment) : bool := bool_decide (is_Some (value_ s)).
Definition Name (s : MemorySegment) : string := name_ s.
Definition ValueSize (s : MemorySegment) : Z :=
  if negb (IsValid s) || (size_ s <? sizeof_header) then 0 else size_ s - sizeof_header.

(** [Header()]; undefined ([None]) on an empty handle. *)
Definition Header w (s : MemorySegment) : option SegmentHeader :=
  header_ s ≫= (fun a => file_at w a ≫= f_header).

(** [GetValue()] and [SetValue(value)] of the typed handles. *)
Definition GetValue w (s : MemorySegment) : option V :=
  header_ s ≫= (fun a => file_at w a ≫= f_value).
Definition SetValue w (s : MemorySegment) (value : V) : world V :=
  match header_ s with
  | Some a => update_at w a (fun f => mkFile (f_size f) (f_header f) (Some value))
  | None => w
  end.

(** [UpdatedAt(time, current_cycle, logger)] *)
Definition segment_UpdatedAt w (s : MemorySegment) (time current_cycle : Z) : world V :=
  match header_ s with
  | Some a => on_header w a (fun h => (UpdatedAt h time current_cycle).2)
  | None => w
  end.

End Segments.
