(* ===== verification/MemorySegmentProofs.v ===== *)
(** * Reference counts of shared memory segments

    A manager, the world and any number of handles: segments are added, opened,
    moved, assigned and closed in any order.  The counts in the headers are exactly
    the numbers of handles. *)
From S2P Require Import Prelude Status SegmentHeader SharedMemory SharedMemoryProofs MemorySegment.

Section Handles.
Context {V : Type} `{IterOrder}.
Context (StrError : Z -> string) (sizeof_header : Z).
Implicit Types (w : world V) (m : SharedMemoryManager) (hs : list MemorySegment).

(** ** The system *)

Record sconfig := mkSConfig {
  sc_w : world V;
  sc_m : SharedMemoryManager;
  sc_hs : list MemorySegment }.

(** A new mapping gets an address of its own. *)
Definition mmap_ok w (env : get_env) : Prop :=
  forall a, ge_mmap env = inr a -> w_maps w !! a = None.

Inductive sstep : sconfig -> sconfig -> Prop :=
| ss_add w m hs env name mbu size v ty st w' m' : kernel_ok w env ->
    AddSegment StrError sizeof_header env name mbu size v ty w m = (st, w', m') ->
    sstep (mkSConfig w m hs) (mkSConfig w' m' hs)
| ss_set w m hs name v :
    sstep (mkSConfig w m hs) (mkSConfig (SetSegmentValue w m name v).2 m hs)
| ss_get w m hs kind size env name s w' : kind <> kUnknown -> mmap_ok w env ->
    Z.of_nat (length hs) < int_max ->
    manager_Get StrError sizeof_header kind size env m name w = (Value s, w') ->
    sstep (mkSConfig w m hs) (mkSConfig w' m (hs ++ [s]))
| ss_get_error w m hs kind size env name st w' : mmap_ok w env ->
    manager_Get StrError sizeof_header kind size env m name w = (Unexpected st, w') ->
    sstep (mkSConfig w m hs) (mkSConfig w' m hs)
| ss_drop w m hs i s : hs !! i = Some s ->
    sstep (mkSConfig w m hs) (mkSConfig (CleanUpSharedMemory w s) m (<[i := default_MemorySegment]> hs))
| ss_move w m hs i s : hs !! i = Some s ->
    sstep (mkSConfig w m hs)
      (mkSConfig w m (<[i := (move_MemorySegment s).2]> hs ++ [(move_MemorySegment s).1]))
| ss_assign w m hs i j s t s' t' w' : i <> j -> hs !! i = Some s -> hs !! j = Some t ->
    assign_MemorySegment w false s t = (s', t', w') ->
    sstep (mkSConfig w m hs) (mkSConfig w' m (<[i := s']> (<[j := t']> hs)))
| ss_write w m hs i s v : hs !! i = Some s -> read_write_kind_ s = kReadWrite ->
    sstep (mkSConfig w m hs) (mkSConfig (SetValue w s v) m hs)
| ss_update w m hs i s time cycle : hs !! i = Some s ->
    sstep (mkSConfig w m hs) (mkSConfig (segment_UpdatedAt w s time cycle) m hs).

Definition sinitial (ns name : string) : sconfig :=
  mkSConfig (mkWorld ∅ ∅ ∅) (mkSharedMemoryManager ∅ ∅ name ns) [].

(** ** Counting handles *)

Definition on_file w (k : ReadWriteKind) (i : nat) (s : MemorySegment) : nat :=
  if decide (read_write_kind_ s = k /\ header_ s ≫= mapped w = Some i) then 1 else 0.
Definition count w hs (k : ReadWriteKind) (i : nat) : nat := weight (on_file w k i) hs.
#[local] Arguments count : simpl never.

(** The counts of a header. *)
Definition counts (f : file V) : option (Z * Z) :=
  (fun h => (ref_count_reader_ h, ref_count_writer_ h)) <$> f_header f.

Record sinv (c : sconfig) : Prop := mkSInv {
  si_wf : manager_wf (sc_w c) (sc_m c);
  si_live s a : s ∈ sc_hs c -> header_ s = Some a -> is_Some (w_maps (sc_w c) !! a);
  si_sep : NoDup (omap header_ (sc_hs c));
  si_mgr s a name info : s ∈ sc_hs c -> header_ s = Some a ->
    memory_segments_ (sc_m c) !! name = Some info -> msi_data info <> a;
  si_closed a i n : w_maps (sc_w c) !! a = Some (i, n) -> is_Some (w_files (sc_w c) !! i);
  si_count i f p : w_files (sc_w c) !! i = Some f -> counts f = Some p ->
    p = (Z.of_nat (count (sc_w c) (sc_hs c) kReadOnly i),
         Z.of_nat (count (sc_w c) (sc_hs c) kReadWrite i)) }.

(** ** Lists of handles *)

Lemma count_cons w s hs k i : count w (s :: hs) k i = (on_file w k i s + count w hs k i)%nat.
Proof. done. Qed.

Lemma on_file_empty w k i s : header_ s = None -> on_file w k i s = 0%nat.
Proof. intros Hs. unfold on_file. by rewrite Hs, decide_False by (intros [_ [=]]). Qed.

Lemma sinv_perm w m hs hs' :
  hs ≡ₚ hs' -> sinv (mkSConfig w m hs) -> sinv (mkSConfig w m hs').
Proof.
  intros Hp [Hwf Hlive Hsep Hmgr Hcl Hcnt]. simpl in *. split; simpl; try done.
  - intros s a. rewrite <-Hp. apply Hlive.
  - by rewrite <-Hp.
  - intros s a name info. rewrite <-Hp. apply Hmgr.
  - intros i f p Hf Hc. unfold count. rewrite <-Hp. by eapply Hcnt.
Qed.

(** Empty handles do not matter. *)
Lemma sinv_empty w m hs s : header_ s = None ->
  sinv (mkSConfig w m (s :: hs)) <-> sinv (mkSConfig w m hs).
Proof.
  intros Hs. split; intros [Hwf Hlive Hsep Hmgr Hcl Hcnt]; simpl in *; rewrite ?Hs in *;
    split; simpl; rewrite ?Hs; try done.
  - intros t a Ht. apply Hlive. by apply list_elem_of_further.
  - intros t a name info Ht. apply Hmgr. by apply list_elem_of_further.
  - intros i f p Hf Hc. specialize (Hcnt _ _ _ Hf Hc). by rewrite !count_cons, !on_file_empty in Hcnt.
  - intros t a [->|Ht]%elem_of_cons Ha; [congruence|by eapply Hlive].
  - intros t a name info [->|Ht]%elem_of_cons Ha; [congruence|by eapply Hmgr].
  - intros i f p Hf Hc. rewrite !count_cons, !on_file_empty by done. by eapply Hcnt.
Qed.

(** ** Changes that do not concern the handles *)

Record frame w w' : Prop := mkFrame {
  fr_maps : w_maps w ⊆ w_maps w';
  fr_closed a i n : w_maps w' !! a = Some (i, n) -> is_Some (w_files w' !! i);
  fr_files i f' : w_files w' !! i = Some f' ->
    (exists f, w_files w !! i = Some f /\ counts f' = counts f)
    \/ (w_files w !! i = None /\ (counts f' = None \/ counts f' = Some (0, 0))) }.

Lemma weight_ext {A} (f g : A -> nat) l :
  (forall x, x ∈ l -> f x = g x) -> weight f l = weight g l.
Proof.
  induction l as [|x l IH]; intros Hfg; simpl; [done|].
  rewrite (Hfg x), IH; [done| |by left]. intros y Hy. apply Hfg. by right.
Qed.

Lemma weight_zero {A} (f : A -> nat) l : (forall x, x ∈ l -> f x = 0%nat) -> weight f l = 0%nat.
Proof. intros Hf. rewrite (weight_ext _ (fun _ => 0%nat)) by done. clear. by induction l. Qed.

Lemma count_maps w w' hs k i :
  (forall s a, s ∈ hs -> header_ s = Some a -> mapped w' a = mapped w a) ->
  count w' hs k i = count w hs k i.
Proof.
  intros Hm. apply weight_ext. intros s Hs. unfold on_file.
  destruct (header_ s) as [a|] eqn:Ha; simpl; [|done]. by rewrite (Hm s a).
Qed.

Lemma count_zero w hs k i :
  (forall s a, s ∈ hs -> header_ s = Some a -> mapped w a <> Some i) ->
  count w hs k i = 0%nat.
Proof.
  intros Hm. apply weight_zero. intros s Hs. unfold on_file. rewrite decide_False; [done|].
  intros [_ Hh]. destruct (header_ s) as [a|] eqn:Ha; [|done]. by apply (Hm s a).
Qed.

Lemma sinv_frame w w' m m' hs :
  sinv (mkSConfig w m hs) -> frame w w' -> manager_wf w' m' ->
  (forall name info, memory_segments_ m' !! name = Some info ->
     memory_segments_ m !! name = Some info \/ w_maps w !! msi_data info = None) ->
  sinv (mkSConfig w' m' hs).
Proof.
  intros [Hwf Hlive Hsep Hmgr Hcl Hcnt] [Hm Hcl' Hf] Hwf' Hnew. simpl in *.
  assert (forall s a, s ∈ hs -> header_ s = Some a -> mapped w' a = mapped w a) as Hmap.
  { intros s a Hs Ha. unfold mapped. destruct (Hlive _ _ Hs Ha) as [x Hx].
    by rewrite Hx, (lookup_weaken _ _ _ _ Hx Hm). }
  split; simpl; try done.
  - intros s a Hs Ha. destruct (Hlive _ _ Hs Ha) as [x Hx]. exists x. by eapply lookup_weaken.
  - intros s a name info Hs Ha Hi. destruct (Hnew _ _ Hi) as [Hold|Hfresh]; [by eapply Hmgr|].
    intros <-. destruct (Hlive _ _ Hs Ha) as [x Hx]. congruence.
  - intros i f' p Hf' Hp. rewrite !(count_maps w w') by done.
    destruct (Hf _ _ Hf') as [(f & Hfw & Hc)|[Hno Hz]].
    + eapply Hcnt; [exact Hfw|congruence].
    + assert (p = (0, 0)) as -> by (destruct Hz; congruence).
      rewrite !count_zero; [done|..];
        intros s a Hs Ha Hi; unfold mapped in Hi; destruct (Hlive _ _ Hs Ha) as [[i' n] Hx];
        rewrite Hx in Hi; simpl in Hi; injection Hi as ->; apply Hcl in Hx; rewrite Hno in Hx;
        by destruct Hx.
Qed.

(** Writing to a payload or to the bookkeeping of updates. *)
Lemma sinv_update_at w m hs a g :
  (forall f, f_size (g f) = f_size f /\ (is_Some (f_header f) -> is_Some (f_header (g f)))) ->
  (forall f, counts (g f) = counts f) ->
  sinv (mkSConfig w m hs) -> sinv (mkSConfig (update_at w a g) m hs).
Proof.
  intros Hsz Hc Hi. eapply sinv_frame; [done| | |by auto].
  - unfold update_at. destruct (mapped w a) as [i|]; split; simpl; try done.
    + intros b j n Hb. apply lookup_alter_is_Some. by eapply (si_closed _ Hi).
    + intros j f'. rewrite lookup_alter_Some. intros [(-> & f & Hf & ->)|[_ Hf]]; left; eauto.
    + intros b j n Hb. by eapply (si_closed _ Hi).
    + left. eauto.
  - eapply manager_wf_same_shape; [by apply update_at_same_shape|apply Hi].
Qed.

Lemma counts_value (f : file V) v : counts (mkFile (f_size f) (f_header f) (Some v)) = counts f.
Proof. done. Qed.

Lemma sinv_set w m hs name v :
  sinv (mkSConfig w m hs) -> sinv (mkSConfig (SetSegmentValue w m name v).2 m hs).
Proof.
  intros Hi. unfold SetSegmentValue. destruct (GetRawSegment m name); [|done].
  by apply sinv_update_at.
Qed.

Lemma grows_frame w w' ty :
  (forall a i n, w_maps w !! a = Some (i, n) -> is_Some (w_files w !! i)) ->
  grows w w' ty -> frame w w'.
Proof.
  intros Hcl [(Hf & _ & Hm) Hfiles Hmaps]. split; [done|..].
  - intros a i n Ha. destruct (Hmaps _ _ Ha) as [Hold|]; [|done].
    destruct (Hcl _ _ _ Hold) as [f Hi]. exists f. by eapply lookup_weaken.
  - intros i f' Hi. destruct (Hfiles _ _ Hi) as [Hold|[Hno Hh]]; [left; eauto|right].
    split; [done|]. unfold counts. destruct Hh as [-> | ->]; auto.
Qed.

Lemma sinv_add w m hs env name mbu size v ty st w' m' : kernel_ok w env ->
  AddSegment StrError sizeof_header env name mbu size v ty w m = (st, w', m') ->
  sinv (mkSConfig w m hs) -> sinv (mkSConfig w' m' hs).
Proof.
  intros Hk Hadd Hi. unfold AddSegment in Hadd.
  pose proof (InitSegment_cases StrError sizeof_header env name mbu size ty w m Hk) as Hc.
  pose proof (InitSegment_wf StrError sizeof_header env name mbu size ty w m Hk (si_wf _ Hi)) as Hwf.
  destruct (InitSegment _ _ _ _ _ _ _ _ _) as [[st1 w1] m1]. destruct Hc as [Hg Hc].
  assert (sinv (mkSConfig w1 m1 hs)) as H1.
  { eapply sinv_frame; [exact Hi|eapply grows_frame; [apply (si_closed _ Hi)|done]|done|].
    intros nm info. destruct Hc as [(_ & -> & _)|(_ & _ & _ & _ & _ & fd & data & i & Hin & ->)];
      [by left|]. simpl. rewrite lookup_insert_Some. intros [[_ <-]|[_ ?]]; [right|by left].
    simpl. eapply ko_map; [done|apply Hin]. }
  destruct (negb (status_ok st1)); [by simplify_eq|].
  pose proof (sinv_set w1 m1 hs name v H1) as H2.
  destruct (SetSegmentValue w1 m1 name v) as [st2 w2]. by simplify_eq.
Qed.

(** ** Opening a handle *)

(** A mapping is added; nothing else changes. *)
Definition remapped w (a : Z) (i : nat) (n : Z) : world V :=
  mkWorld (w_files w) (w_fds w) (<[a := (i, n)]> (w_maps w)).

Lemma Get_cases env fds name w :
  match Get StrError sizeof_header env fds name w with
  | (Value d, w') => exists a fd, ge_mmap env = inr a /\ fds !! name = Some fd
      /\ segment_start d = a
      /\ w' = match w_fds w !! fd with Some i => remapped w a i (sd_size d) | None => w end
  | (Unexpected _, w') => w' = w \/ exists a fd i n, ge_mmap env = inr a
      /\ fds !! name = Some fd /\ w_fds w !! fd = Some i /\ w' = remapped w a i n
  end.
Proof.
  unfold Get. destruct (fds !! name) as [fd|]; [|by left].
  destruct (fd =? -1); [by left|]. destruct (fstat _ _ _) as [e|sz]; [by left|].
  destruct (sz <=? sizeof_header); [by left|].
  destruct (ge_mmap env) as [e|a] eqn:Em; simpl; [by left|].
  destruct (ge_mlock env).
  - destruct (w_fds w !! fd) as [i|] eqn:Ei; [right|by left]. by exists a, fd, i, sz.
  - exists a, fd. by repeat split.
Qed.

Lemma sinv_remapped w m hs a i n :
  w_maps w !! a = None -> is_Some (w_files w !! i) ->
  sinv (mkSConfig w m hs) -> sinv (mkSConfig (remapped w a i n) m hs).
Proof.
  intros Ha Hf Hi. assert (extends w (remapped w a i n)) as He.
  { split; [done|]. split; [done|]. by apply insert_subseteq. }
  eapply sinv_frame; [done| |eapply manager_wf_extends; [done|apply Hi]|by auto].
  split; simpl; [by apply insert_subseteq| |eauto].
  intros b j k. rewrite lookup_insert_Some. intros [[_ [= <- <-]]|[_ Hb]]; [done|].
  by eapply (si_closed _ Hi).
Qed.

(** The change of the header when a handle of a kind is opened, and when it is closed. *)
Definition opened (k : ReadWriteKind) : SegmentHeader -> SegmentHeader :=
  match k with
  | kReadOnly => IncrementReaderRefCount
  | kReadWrite => IncrementWriterRefCount
  | kUnknown => id
  end.
Definition closed (k : ReadWriteKind) : SegmentHeader -> SegmentHeader :=
  match k with
  | kReadOnly => DecrementReaderRefCount
  | kReadWrite => DecrementWriterRefCount
  | kUnknown => id
  end.

Lemma on_header_id w a : on_header w a id = w.
Proof.
  unfold on_header, update_at. destruct (mapped w a) as [i|]; [|done]. destruct w as [fs ds ms].
  f_equal. cbn. apply map_eq. intros j. destruct (decide (i = j)) as [->|].
  - rewrite lookup_alter_eq. destruct (fs !! j) as [[? [?|] ?]|]; done.
  - by rewrite lookup_alter_ne.
Qed.

Lemma on_file_at w s a i n k j :
  w_maps w !! a = Some (i, n) -> header_ s = Some a ->
  on_file w k j s = if decide (read_write_kind_ s = k /\ i = j) then 1%nat else 0%nat.
Proof.
  intros Ha Hs. unfold on_file. rewrite Hs. simpl. unfold mapped. rewrite Ha. simpl.
  repeat case_decide; naive_solver.
Qed.

Lemma count_le w hs k i : (count w hs k i <= length hs)%nat.
Proof.
  unfold count. induction hs as [|s hs IH]; simpl; [lia|]. unfold on_file at 1. case_decide; lia.
Qed.

(** A change of the header of file [i] that keeps the counts true for the handles [hs']
    keeps the configuration consistent. *)
Lemma counted_alter w m (g : SegmentHeader -> SegmentHeader) i hs hs' :
  let w' := mkWorld (alter (fun x => mkFile (f_size x) (g <$> f_header x) (f_value x)) i (w_files w))
              (w_fds w) (w_maps w) in
  sinv (mkSConfig w m hs) ->
  (forall h, ref_count_reader_ h = Z.of_nat (count w hs kReadOnly i) ->
     ref_count_writer_ h = Z.of_nat (count w hs kReadWrite i) ->
     ref_count_reader_ (g h) = Z.of_nat (count w hs' kReadOnly i)
     /\ ref_count_writer_ (g h) = Z.of_nat (count w hs' kReadWrite i)) ->
  (forall j k, j <> i -> count w hs' k j = count w hs k j) ->
  forall j f p, w_files w' !! j = Some f -> counts f = Some p ->
    p = (Z.of_nat (count w hs' kReadOnly j), Z.of_nat (count w hs' kReadWrite j)).
Proof.
  intros w' Hi Hg Hj j f p Hf Hp. subst w'. cbn [w_files] in Hf.
  apply lookup_alter_Some in Hf.
  destruct Hf as [(-> & f0 & Hf & ->)|[Hne Hf]].
  - unfold counts in Hp. simpl in Hp. destruct (f_header f0) as [h|] eqn:Hh; [|done].
    simpl in Hp. injection Hp as <-.
    assert (counts f0 = Some (ref_count_reader_ h, ref_count_writer_ h)) as Hc
      by (unfold counts; by rewrite Hh).
    pose proof (si_count _ Hi _ _ _ Hf Hc) as [= H1 H2]. destruct (Hg h H1 H2) as [-> ->]. done.
  - rewrite !Hj by done. by eapply (si_count _ Hi).
Qed.

Lemma on_header_wf w m a g : manager_wf w m -> manager_wf (on_header w a g) m.
Proof.
  intros Hwf. eapply manager_wf_same_shape; [|done]. apply update_at_same_shape. intros f.
  split; [done|]. simpl. intros [h ->]. by eexists.
Qed.

Lemma sinv_open w m hs s a i n :
  sinv (mkSConfig w m hs) -> w_maps w !! a = Some (i, n) -> header_ s = Some a ->
  (forall t, t ∈ hs -> header_ t <> Some a) ->
  (forall name info, memory_segments_ m !! name = Some info -> msi_data info <> a) ->
  Z.of_nat (length hs) < int_max ->
  sinv (mkSConfig (on_header w a (opened (read_write_kind_ s))) m (s :: hs)).
Proof.
  intros Hi Ha Hs Hne Hmgr Hlen. pose proof (on_header_wf w m a (opened (read_write_kind_ s)) (si_wf _ Hi)) as Hwf.
  revert Hwf. unfold on_header, update_at, mapped. rewrite Ha. cbn [fmap option_fmap option_map fst].
  intros Hwf. split; simpl; [done|..].
  - intros t b [->|Ht]%elem_of_cons Hb; [|by eapply (si_live _ Hi)].
    rewrite Hs in Hb. injection Hb as <-. by rewrite Ha.
  - rewrite Hs. constructor; [|apply Hi]. rewrite list_elem_of_omap.
    intros (t & Ht & Hta). by destruct (Hne t Ht).
  - intros t b name info [->|Ht]%elem_of_cons Hb; [|by eapply (si_mgr _ Hi)].
    rewrite Hs in Hb. injection Hb as <-. by apply Hmgr.
  - intros b j k Hb. apply lookup_alter_is_Some. by eapply (si_closed _ Hi).
  - intros j f p. apply (counted_alter w m _ i hs (s :: hs) Hi).
    + intros h H1 H2. rewrite !count_cons, !(on_file_at w s a i n) by done.
      pose proof (count_le w hs kReadOnly i). pose proof (count_le w hs kReadWrite i).
      unfold int_max in Hlen.
      destruct (read_write_kind_ s); repeat case_decide; try naive_solver; simpl; rewrite ?H1, ?H2;
        split; try done; unfold IncrementRefCount;
        (rewrite wrap_s_id; [lia|lia|split; simpl; lia]).
    + intros j' k Hj'. rewrite count_cons, (on_file_at w s a i n) by done.
      rewrite decide_False; [done|naive_solver].
Qed.

Lemma manager_fd w m name fd :
  manager_wf w m -> segment_name_to_file_descriptor_map_ m !! name = Some fd ->
  exists i, w_fds w !! fd = Some i /\ is_Some (w_files w !! i).
Proof.
  intros Hwf. rewrite (mw_fds _ _ Hwf), lookup_fmap_Some. intros (info & <- & Hinfo).
  destruct (mw_live _ _ Hwf _ _ Hinfo) as (i & Hli & _ & f & Hf & _). exists i. by split; [|exists f].
Qed.

Lemma sinv_get w m hs kind size env name s w' : mmap_ok w env ->
  Z.of_nat (length hs) < int_max ->
  manager_Get StrError sizeof_header kind size env m name w = (Value s, w') ->
  sinv (mkSConfig w m hs) -> sinv (mkSConfig w' m (s :: hs)).
Proof.
  intros Hok Hlen Hget Hi. unfold manager_Get, GetSegment in Hget.
  pose proof (Get_cases env (segment_name_to_file_descriptor_map_ m) name w) as Hc.
  destruct (Get _ _ _ _ _ _) as [[d|e] w1]; [|by simplify_eq].
  destruct (negb _); [by simplify_eq|].
  destruct Hc as (a & fd & Ha & Hfd & Hd & Hw1). specialize (Hok _ Ha).
  destruct (manager_fd _ _ _ _ (si_wf _ Hi) Hfd) as (i & Hli & Hf). simpl in Hli, Hf.
  rewrite Hli in Hw1. subst w1.
  assert (sinv (mkSConfig (remapped w a i (sd_size d)) m hs)) as H1.
  { by apply sinv_remapped. }
  pose proof (sinv_open _ m hs s a i (sd_size d) H1) as H2. simplify_eq/=.
  destruct kind; simpl in H2; rewrite ?on_header_id in H2; apply H2; simpl;
    try apply lookup_insert_eq; try done.
  all: first [intros t Ht Hta; destruct (si_live _ Hi t _ Ht Hta) as [? Hx]; simpl in Hx; congruence
             |intros nm x Hx Heq; destruct (mw_live _ _ (si_wf _ Hi) _ _ Hx) as (? & _ & Hy & _);
              simpl in *; congruence].
Qed.

Lemma sinv_get_error w m hs kind size env name st w' : mmap_ok w env ->
  manager_Get StrError sizeof_header kind size env m name w = (Unexpected st, w') ->
  sinv (mkSConfig w m hs) -> sinv (mkSConfig w' m hs).
Proof.
  intros Hok Hget Hi. unfold manager_Get, GetSegment in Hget.
  pose proof (Get_cases env (segment_name_to_file_descriptor_map_ m) name w) as Hc.
  assert (forall a fd i n, ge_mmap env = inr a ->
    segment_name_to_file_descriptor_map_ m !! name = Some fd -> w_fds w !! fd = Some i ->
    sinv (mkSConfig (remapped w a i n) m hs)) as Hre.
  { intros a fd i n Ha Hfd Hli. destruct (manager_fd _ _ _ _ (si_wf _ Hi) Hfd) as (j & Hlj & Hf).
    simpl in *. apply sinv_remapped; [by apply Hok|by simplify_eq|done]. }
  destruct (Get _ _ _ _ _ _) as [[d|e] w1].
  - destruct (negb _); [|by simplify_eq]. destruct Hc as (a & fd & Ha & Hfd & _ & Hw1).
    simplify_eq. destruct (w_fds w !! fd) as [i|] eqn:Hli; [by eapply Hre|done].
  - simplify_eq. destruct Hc as [->|(a & fd & i & n & Ha & Hfd & Hli & ->)]; [done|by eapply Hre].
Qed.

(** ** Closing a handle *)

Lemma live_munmap w a info i :
  msi_data info <> a -> live (munmap a w) info i <-> live w info i.
Proof. intros Hne. unfold live. simpl. by rewrite lookup_delete_ne by done. Qed.

Lemma manager_wf_munmap w m a :
  (forall name info, memory_segments_ m !! name = Some info -> msi_data info <> a) ->
  manager_wf w m -> manager_wf (munmap a w) m.
Proof.
  intros Hne [Hs Hn Hf Hl Hi]. split; try done.
  - intros name info Hx. destruct (Hl _ _ Hx) as [i Hx']. exists i. apply live_munmap; eauto.
  - intros n1 n2 x y i Hx Hy. rewrite !live_munmap by eauto. by eapply Hi.
Qed.

Lemma CleanUp_closed w s a : header_ s = Some a ->
  CleanUpSharedMemory w s = munmap a (on_header w a (closed (read_write_kind_ s))).
Proof.
  intros Hs. unfold CleanUpSharedMemory. rewrite Hs.
  by destruct (read_write_kind_ s); simpl; rewrite ?on_header_id.
Qed.

Lemma DecrementRefCount_S n : DecrementRefCount (Z.of_nat (1 + n)) = Z.of_nat n.
Proof. unfold DecrementRefCount. destruct (Z.ltb_spec 0 (Z.of_nat (1 + n))); lia. Qed.

Lemma sinv_drop w m hs s :
  sinv (mkSConfig w m (s :: hs)) -> sinv (mkSConfig (CleanUpSharedMemory w s) m hs).
Proof.
  intros Hi. destruct (header_ s) as [a|] eqn:Hs;
    [|unfold CleanUpSharedMemory; rewrite Hs; by apply sinv_empty in Hi].
  rewrite (CleanUp_closed w s a Hs). set (g := closed _).
  destruct (si_live _ Hi s a) as [[i n] Ha]; [by left|done|]. cbn [sc_w] in Ha.
  assert (manager_wf (munmap a (on_header w a g)) m) as Hwf.
  { apply manager_wf_munmap; [|apply on_header_wf, Hi].
    intros name info Hx. by eapply (si_mgr _ Hi s); [left| |]. }
  assert (forall t, t ∈ hs -> header_ t <> Some a) as Hne.
  { intros t Ht Hta. pose proof (si_sep _ Hi) as Hnd. simpl in Hnd. rewrite Hs in Hnd.
    apply NoDup_cons in Hnd as [Hin _]. apply Hin. rewrite list_elem_of_omap. eauto. }
  revert Hwf. unfold on_header, update_at, mapped. rewrite Ha. cbn [fmap option_fmap option_map fst].
  intros Hwf. split; simpl; [done|..].
  - intros t b Ht Hb. rewrite lookup_delete_ne by (intros ->; by eapply Hne).
    eapply (si_live _ Hi); [by right|done].
  - pose proof (si_sep _ Hi) as Hnd. simpl in Hnd. rewrite Hs in Hnd. by apply NoDup_cons in Hnd as [].
  - intros t b name info Ht. eapply (si_mgr _ Hi). by right.
  - intros b j k. rewrite lookup_delete_Some. intros [_ Hb]. apply lookup_alter_is_Some.
    by eapply (si_closed _ Hi).
  - intros j f p Hf Hp. rewrite !(count_maps w (munmap a _)).
    + revert j f p Hf Hp. apply (counted_alter w m g i (s :: hs) hs Hi).
      * intros h. rewrite !count_cons, !(on_file_at w s a i n) by done. unfold g.
        destruct (read_write_kind_ s); repeat case_decide; try naive_solver; intros Hr Hw; cbn; rewrite ?Hr, ?Hw,
          ?DecrementRefCount_S; done.
      * intros j k Hj. rewrite count_cons, (on_file_at w s a i n) by done.
        rewrite decide_False; [done|naive_solver].
    + intros t b Ht Hb. unfold mapped. simpl. by rewrite lookup_delete_ne by (intros ->; by eapply Hne).
    + intros t b Ht Hb. unfold mapped. simpl. by rewrite lookup_delete_ne by (intros ->; by eapply Hne).
Qed.

(** ** Moving handles *)

Lemma sinv_step c c' : sinv c -> sstep c c' -> sinv c'.
Proof.
  intros Hi Hs. destruct Hs as [w m hs env name mbu size v ty st w' m' Hk Hadd|w m hs name v
    |w m hs kind size env name s w' _ Hok Hlen Hget|w m hs kind size env name st w' Hok Hget
    |w m hs i s Hx|w m hs i s Hx|w m hs i j s t s' t' w' Hij Hx Hy Has|w m hs i s v Hx _
    |w m hs i s time cycle Hx].
  - by eapply sinv_add.
  - by apply sinv_set.
  - eapply (sinv_perm _ _ (s :: hs)); [by rewrite Permutation_app_comm|]. by eapply sinv_get.
  - by eapply sinv_get_error.
  - destruct (insert_perm hs i s default_MemorySegment Hx) as (l & Hl & Hl').
    eapply (sinv_perm _ _ (default_MemorySegment :: l)); [done|].
    apply sinv_empty, sinv_drop; [done|]. by eapply sinv_perm.
  - destruct (insert_perm hs i s default_MemorySegment Hx) as (l & Hl & Hl').
    eapply (sinv_perm _ _ (default_MemorySegment :: hs)); [|by apply sinv_empty].
    simpl. rewrite Hl', Hl. simpl. by rewrite <-Permutation_cons_append, (perm_swap s).
  - unfold assign_MemorySegment in Has. simplify_eq.
    destruct (insert_perm hs j s' default_MemorySegment Hy) as (l & Hl & Hl').
    destruct (insert_perm (<[j := default_MemorySegment]> hs) i s s') as (l2 & Hl2 & Hl2').
    { by rewrite list_lookup_insert_ne. }
    eapply (sinv_perm _ _ (s' :: l2)); [by rewrite Hl2'|]. apply sinv_drop.
    eapply (sinv_perm _ _ (s' :: s :: l2)); [apply perm_swap|].
    eapply (sinv_perm _ _ (default_MemorySegment :: hs)); [|by apply sinv_empty].
    by rewrite <-Hl2, Hl', Hl, perm_swap.
  - unfold SetValue. destruct (header_ s); [|done]. by apply sinv_update_at.
  - unfold segment_UpdatedAt. destruct (header_ s); [|done]. apply sinv_update_at; [|  |done].
    + intros f. split; [done|]. simpl. intros [h ->]. by eexists.
    + intros f. unfold counts. simpl. by destruct (f_header f).
Qed.

Lemma sinv_reachable (ns name : string) w m hs :
  rtc sstep (sinitial ns name) (mkSConfig w m hs) -> sinv (mkSConfig w m hs).
Proof.
  apply (rtc_invariant sstep sinv); [intros; by eapply sinv_step|]. split; simpl; try done.
  - split; simpl; try done. rewrite map_size_empty. unfold kMaxNumberOfSegments. lia.
  - by intros s a ?%not_elem_of_nil.
  - apply NoDup_nil_2.
Qed.

(** C9: Whatever is done with segments and handles - adding, opening, failing to open,
    writing, moving, assigning, closing, in any order - the counts in the header of
    a segment are exactly the numbers of its read-only and of its read-write handles,
    and no handle shares its mapping with another one or with the manager. *)
Theorem refcounts_exact (ns name : string) w m hs :
  rtc sstep (sinitial ns name) (mkSConfig w m hs) ->
  manager_wf w m
  /\ NoDup (omap header_ hs)
  /\ forall segment h, GetSegmentHeader w m segment = Some h ->
       exists i, GetRawSegment m segment ≫= mapped w = Some i
         /\ ReaderRefCount h = Z.of_nat (count w hs kReadOnly i)
         /\ WriterRefCount h = Z.of_nat (count w hs kReadWrite i).
Proof.
  intros Hr%sinv_reachable. rename Hr into Hi.
  split; [apply Hi|]. split; [apply Hi|]. intros segment h.
  unfold GetSegmentHeader, file_at. destruct (GetRawSegment m segment) as [a|]; simpl; [|done].
  destruct (mapped w a) as [i|]; simpl; [|done].
  destruct (w_files w !! i) as [f|] eqn:Hf; simpl; [|done]. intros Hh. exists i. split; [done|].
  pose proof (si_count _ Hi i f (ReaderRefCount h, WriterRefCount h) Hf) as Hc.
  unfold counts in Hc. rewrite Hh in Hc. by injection (Hc eq_refl) as -> ->.
Qed.

End Handles.

(** ** Moving a manager *)

Section Moved.
Context {V : Type} `{IterOrder}.
Context (StrError : Z -> string) (sizeof_header : Z).

(** The move constructor and the move assignment take the segments along, but neither
    the map of descriptors nor the names: a manager made by the move constructor
    still shows every segment, and hands out none of them. *)
Theorem moved_manager_hands_out_nothing (w : world V) m kind size env name :
  let m' := (move_Manager m).1 in
  GetSegmentHeader w m' name = GetSegmentHeader w m name
  /\ GetSegmentValue w m' name = GetSegmentValue w m name
  /\ ModuleName m' = "" /\ SharedMemoryNamespace m' = ""
  /\ manager_Get StrError sizeof_header kind size env m' name w
     = (Unexpected (FormatStatus kNotFound
          ("No file descriptor found for segment '" ++ name ++ "'. Available segments: "
             ++ FormatMap ∅)), w).
Proof.
  repeat (split; [done|]). unfold manager_Get, GetSegment, Get, move_Manager.
  cbn [fst segment_name_to_file_descriptor_map_]. by rewrite lookup_empty.
Qed.

End Moved.

(** ** A concrete run *)

#[local] Instance iter_sorted : IterOrder := {
  iter := fun _ m => map_to_list m; iter_perm := fun _ _ => reflexivity _ }.

Definition ex_init : init_env := mkInitEnv (inr (3, 0%nat)) None None (inr 4096) None.
Definition ex_get : get_env := mkGetEnv None (inr 8192) None.
Definition ex_manager : SharedMemoryManager := mkSharedMemoryManager ∅ ∅ "module" "ns".
Definition ex_world : world Z := mkWorld ∅ ∅ ∅.
Definition ex_added := AddSegment (fun _ => "error") 256 ex_init "state" true 8 7 "int64" ex_world ex_manager.
Definition ex_opened :=
  manager_Get (fun _ => "error") 256 kReadOnly 8 ex_get ex_added.2 "state" ex_added.1.2.

Lemma ex_kernel_ok : kernel_ok ex_world ex_init.
Proof. split; intros; by rewrite ?lookup_empty. Qed.
Lemma ex_manager_wf : manager_wf ex_world ex_manager.
Proof.
  split; try done. simpl. rewrite map_size_empty. unfold kMaxNumberOfSegments. lia.
Qed.

Lemma add_segment_roundtrip_witness :
  GetSegmentValue ex_added.1.2 ex_added.2 "state" = Some 7.
Proof.
  apply (add_segment_roundtrip (fun _ => "error") 256 ex_init "state" true 8 7 "int64"
           ex_world ex_manager); [apply ex_kernel_ok|apply ex_manager_wf|vm_compute; reflexivity].
Defined.

Definition ex_rejected :=
  AddSegment (fun _ => "error") 256 ex_init "a/b" true 8 7 "int64" ex_world ex_manager.

Lemma add_segment_error_witness : ex_rejected.2 = ex_manager /\ w_fds ex_rejected.1.2 = ∅.
Proof.
  destruct (add_segment_error (fun _ => "error") 256 ex_init "a/b" true 8 7 "int64"
    ex_world ex_manager ex_rejected.1.1 ex_rejected.1.2 ex_rejected.2) as (H1 & H2 & _);
    [apply ex_kernel_ok|apply ex_manager_wf|vm_compute; reflexivity|vm_compute; reflexivity|].
  split; [exact H1|exact H2].
Defined.

Lemma ex_added_wf : manager_wf ex_added.1.2 ex_added.2.
Proof.
  pose proof (AddSegment_wf (fun _ => "error") 256 ex_init "state" true 8 7 "int64"
    ex_world ex_manager ex_kernel_ok ex_manager_wf) as Hw.
  unfold ex_added. by destruct (AddSegment _ _ _ _ _ _ _ _ _ _) as [[st w] m].
Qed.

Lemma segment_info_roundtrip_witness :
  GetNamesFromSegmentInfo (GetSegmentInfo ex_added.2)
    = Returns (Value (GetRegisteredMemoryNames ex_added.2)).
Proof.
  apply (segment_info_roundtrip ex_added.1.2 ex_added.2); [apply ex_added_wf|].
  intros name info. change (memory_segments_ ex_added.2) with
    ({[ "state" := mkMemorySegmentInfo 4096 264 true 3 ]} : gmap string MemorySegmentInfo).
  intros [<- _]%lookup_singleton_Some. repeat constructor; done.
Defined.

Definition ex_handle : MemorySegment :=
  mkMemorySegment "state" (Some 8192) (Some 8448) 264 kReadOnly.

Lemma refcounts_exact_witness :
  exists h, GetSegmentHeader ex_opened.2 ex_added.2 "state" = Some h /\ ReaderRefCount h = 1.
Proof.
  destruct (refcounts_exact (V := Z) (fun _ => "error") 256 "ns" "module" ex_opened.2 ex_added.2
              [ex_handle]) as (_ & _ & Hc).
  - eapply rtc_l; [|eapply rtc_l; [|apply rtc_refl]].
    + eapply (ss_add _ _ ex_world ex_manager [] ex_init "state" true 8 7 "int64" ex_added.1.1
        ex_added.1.2 ex_added.2); [apply ex_kernel_ok|vm_compute; reflexivity].
    + eapply (ss_get _ _ ex_added.1.2 ex_added.2 [] kReadOnly 8 ex_get "state" ex_handle);
        [done| |done|vm_compute; reflexivity]. intros a [= <-]. vm_compute. reflexivity.
  - set (h := default default_SegmentHeader (GetSegmentHeader ex_opened.2 ex_added.2 "state")).
    assert (GetSegmentHeader ex_opened.2 ex_added.2 "state" = Some h) as Hh
      by (vm_compute; reflexivity).
    exists h. split; [exact Hh|]. destruct (Hc "state" h Hh) as (i & Hi & Hr & _).
    rewrite Hr. assert (i = 0%nat) as -> by (vm_compute in Hi; by injection Hi).
    vm_compute. reflexivity.
Defined.
