(* ===== verification/SegmentRuns.v ===== *)
(** * Adding and opening segments on a working kernel

    The results of [AddSegment] and [Get] when no system call fails, as equations: the
    components that set up several segments compose them. *)
From S2P Require Import Prelude Status SegmentHeader SharedMemory SharedMemoryProofs MemorySegment MemorySegmentProofs.

Section Runs.
Context {V : Type} `{IterOrder}.
Context (StrError : Z -> string) (sizeof_header : Z).
Implicit Types (w : world V) (m : SharedMemoryManager).

(** What a kernel answers to the calls of one [InitSegment] or one [Get], given the
    current world. *)
Record kernel := mkKernel {
  k_init : world V -> init_env;
  k_get : world V -> get_env }.

(** No call fails, and new objects are new. *)
Record reliable (k : kernel) : Prop := mkReliable {
  re_init w : exists fd i a, k_init k w = mkInitEnv (inr (fd, i)) None None (inr a) None
    /\ 0 <= fd /\ w_fds w !! fd = None /\ w_files w !! i = None /\ w_maps w !! a = None;
  re_get w : exists a, k_get k w = mkGetEnv None (inr a) None /\ w_maps w !! a = None }.

(** ** Adding *)

Definition added w (fd : Z) (i : nat) (a n : Z) (type_id : string) (v : option V) : world V :=
  mkWorld (<[i := mkFile n (Some (new_SegmentHeader type_id)) v]> (w_files w))
    (<[fd := i]> (w_fds w)) (<[a := (i, n)]> (w_maps w)).
Definition registered m (name : string) (a n : Z) (must_be_used : bool) (fd : Z)
  : SharedMemoryManager :=
  mkSharedMemoryManager
    (<[name := mkMemorySegmentInfo a n must_be_used fd]> (memory_segments_ m))
    (<[name := fd]> (segment_name_to_file_descriptor_map_ m))
    (module_name_ m) (shared_memory_namespace_ m).

(** The manager accepts a segment of this name and type. *)
Record accepts m (name type_id : string) : Prop := mkAccepts {
  ac_size : (size (memory_segments_ m) < kMaxNumberOfSegments)%nat;
  ac_type : (length (chars type_id) <= kMaxSize)%nat;
  ac_new : memory_segments_ m !! name = None;
  ac_name : status_ok (VerifyName name) = true }.

Lemma InitSegment_added env fd i a name must_be_used payload_size type_id w m :
  env = mkInitEnv (inr (fd, i)) None None (inr a) None ->
  accepts m name type_id ->
  InitSegment StrError sizeof_header env name must_be_used payload_size type_id w m
  = (OkStatus, added w fd i a (wrap_u 64 (sizeof_header + payload_size)) type_id None,
     registered m name a (wrap_u 64 (sizeof_header + payload_size)) must_be_used fd).
Proof.
  intros -> [Hs Ht Hn Hv]. unfold InitSegment.
  rewrite (proj2 (Nat.leb_gt _ _)) by lia. rewrite (proj2 (Nat.ltb_ge _ _)) by lia.
  rewrite decide_False by (rewrite Hn; by intros []). rewrite Hv. cbn [negb].
  unfold init_mapping. simpl. rewrite lookup_insert_eq, alter_insert_eq. simpl.
  repeat (rewrite lookup_insert_eq; simpl). rewrite Z.eqb_refl. simpl.
  repeat (rewrite lookup_insert_eq; simpl). unfold update_at, mapped. simpl.
  repeat (rewrite lookup_insert_eq; simpl). by rewrite alter_insert_eq.
Qed.

Lemma AddSegment_added env fd i a name must_be_used sizeof_T v type_id w m :
  env = mkInitEnv (inr (fd, i)) None None (inr a) None ->
  accepts m name type_id ->
  AddSegment StrError sizeof_header env name must_be_used sizeof_T v type_id w m
  = (OkStatus, added w fd i a (wrap_u 64 (sizeof_header + sizeof_T)) type_id (Some v),
     registered m name a (wrap_u 64 (sizeof_header + sizeof_T)) must_be_used fd).
Proof.
  intros He Ha. unfold AddSegment. rewrite (InitSegment_added env fd i a) by done.
  cbn [negb status_ok st_code OkStatus]. unfold SetSegmentValue, GetRawSegment, registered.
  cbn [memory_segments_]. rewrite lookup_insert_eq. simpl.
  unfold update_at, mapped, added. simpl. rewrite lookup_insert_eq. simpl.
  by rewrite alter_insert_eq.
Qed.

(** ** Opening *)

Definition opened_world w (kind : ReadWriteKind) (a : Z) (i : nat) (f : file V) : world V :=
  mkWorld (<[i := mkFile (f_size f) (opened kind <$> f_header f) (f_value f)]> (w_files w))
    (w_fds w) (<[a := (i, f_size f)]> (w_maps w)).

Lemma manager_Get_opened env a kind sizeof_T m name fd i f w :
  env = mkGetEnv None (inr a) None ->
  segment_name_to_file_descriptor_map_ m !! name = Some fd -> 0 <= fd ->
  w_fds w !! fd = Some i -> w_files w !! i = Some f ->
  0 < sizeof_T -> sizeof_header + sizeof_T <= f_size f ->
  manager_Get StrError sizeof_header kind sizeof_T env m name w
  = (Value (mkMemorySegment name (Some a) (Some (a + sizeof_header)) (f_size f) kind),
     opened_world w kind a i f).
Proof.
  intros -> Hfd Hpos Hi Hf Ht Hsz. unfold manager_Get, GetSegment, Get. rewrite Hfd.
  rewrite (proj2 (Z.eqb_neq fd (-1))) by lia. simpl. rewrite Hi. simpl. rewrite Hf. simpl.
  rewrite (proj2 (Z.leb_gt _ _)) by lia. simpl. unfold SharedMemorySegmentFitsLowerSizeBound.
  rewrite (proj2 (Z.ltb_ge _ _)) by lia. simpl. f_equal. unfold opened_world.
  assert (forall g, on_header (mkWorld (w_files w) (w_fds w) (<[a := (i, f_size f)]> (w_maps w))) a g
    = mkWorld (<[i := mkFile (f_size f) (g <$> f_header f) (f_value f)]> (w_files w)) (w_fds w)
        (<[a := (i, f_size f)]> (w_maps w))) as Hh.
  { intros g. unfold on_header, update_at, mapped. simpl. rewrite lookup_insert_eq. simpl. f_equal.
    apply map_eq. intros j. destruct (decide (i = j)) as [->|];
      [by rewrite lookup_alter_eq, Hf, lookup_insert_eq|by rewrite lookup_alter_ne, lookup_insert_ne]. }
  destruct kind; simpl; [|by rewrite Hh..]. f_equal. rewrite insert_id; [done|].
  rewrite Hf. by destruct f as [? [?|] ?].
Qed.

(** A new segment is added and opened. *)
Definition attached w (kind : ReadWriteKind) (fd : Z) (i : nat) (a b n : Z) (type_id : string)
    (v : option V) : world V :=
  mkWorld (<[i := mkFile n (Some (opened kind (new_SegmentHeader type_id))) v]> (w_files w))
    (<[fd := i]> (w_fds w)) (<[b := (i, n)]> (<[a := (i, n)]> (w_maps w))).

Lemma opened_added w kind fd i a b n type_id v :
  opened_world (added w fd i a n type_id v) kind b i
    (mkFile n (Some (new_SegmentHeader type_id)) v) = attached w kind fd i a b n type_id v.
Proof. unfold opened_world, added, attached. simpl. by rewrite insert_insert_eq. Qed.

(** The new objects are new. *)
Record unused w (fd : Z) (i : nat) (a b : Z) : Prop := mkUnused {
  un_fd : 0 <= fd /\ w_fds w !! fd = None;
  un_file : w_files w !! i = None;
  un_maps : w_maps w !! a = None /\ w_maps w !! b = None /\ a <> b }.

Lemma add_then_get k kind name must_be_used sizeof_T v type_id w m :
  reliable k -> accepts m name type_id ->
  0 <= sizeof_header -> 0 < sizeof_T -> sizeof_header + sizeof_T < 2 ^ 64 ->
  exists fd i a b, let n := sizeof_header + sizeof_T in unused w fd i a b
    /\ AddSegment StrError sizeof_header (k_init k w) name must_be_used sizeof_T v type_id w m
       = (OkStatus, added w fd i a n type_id (Some v), registered m name a n must_be_used fd)
    /\ manager_Get StrError sizeof_header kind sizeof_T (k_get k (added w fd i a n type_id (Some v)))
         (registered m name a n must_be_used fd) name (added w fd i a n type_id (Some v))
       = (Value (mkMemorySegment name (Some b) (Some (b + sizeof_header)) n kind),
          attached w kind fd i a b n type_id (Some v)).
Proof.
  intros [Hi Hg] Ha S0 S1 S2. destruct (Hi w) as (fd & i & a & Hk & Hfd & Hf & Hfi & Hma).
  set (n := sizeof_header + sizeof_T). set (w1 := added w fd i a n type_id (Some v)).
  destruct (Hg w1) as (b & Hb & Hmb). exists fd, i, a, b. simpl in Hmb.
  apply lookup_insert_None in Hmb as [Hmb Hab].
  split; [by split|]. split.
  - rewrite (AddSegment_added _ fd i a) by done. by rewrite wrap_u_id by (split; lia).
  - rewrite (manager_Get_opened _ b kind sizeof_T _ name fd i
      (mkFile n (Some (new_SegmentHeader type_id)) (Some v)));
      [subst w1; by rewrite opened_added|done|simpl; apply lookup_insert_eq|done
      |simpl; apply lookup_insert_eq|simpl; apply lookup_insert_eq|done|simpl; lia].
Qed.

Lemma registered_accepts m name type_id name' type_id' a n must_be_used fd :
  accepts m name type_id -> accepts m name' type_id' -> name <> name' ->
  (S (size (memory_segments_ m)) < kMaxNumberOfSegments)%nat ->
  accepts (registered m name a n must_be_used fd) name' type_id'.
Proof.
  intros [] [] Hne Hs. split; try done; simpl.
  - by rewrite map_size_insert_None.
  - by rewrite lookup_insert_ne.
Qed.

End Runs.
Arguments kernel V : clear implicits.
Arguments mkKernel {V}.

(** ** A kernel that never runs out of anything *)

Definition next {A} (m : gmap Z A) : Z := 1 + foldr Z.max 0 (map_to_list m).*1.

Lemma foldr_max_ge (l : list Z) x : x ∈ l -> x <= foldr Z.max 0 l.
Proof.
  induction l as [|y l IH]; simpl; [by intros ?%elem_of_nil|].
  intros [->|Hx]%elem_of_cons; [lia|]. specialize (IH Hx). lia.
Qed.

Lemma next_pos {A} (m : gmap Z A) : 0 < next m.
Proof. unfold next. induction (map_to_list m).*1; simpl; lia. Qed.

Lemma next_fresh {A} (m : gmap Z A) : m !! next m = None.
Proof.
  destruct (m !! next m) as [x|] eqn:Hx; [|done]. exfalso.
  apply elem_of_map_to_list in Hx. apply (list_elem_of_fmap_2 fst), foldr_max_ge in Hx.
  simpl in Hx. unfold next in Hx. lia.
Qed.

Definition free_kernel (V : Type) : kernel V := mkKernel
  (fun w => mkInitEnv (inr (next (w_fds w), fresh (dom (w_files w)))) None None
              (inr (next (w_maps w))) None)
  (fun w => mkGetEnv None (inr (next (w_maps w))) None).

Lemma free_kernel_reliable V : reliable (free_kernel V).
Proof.
  split; intros w.
  - eexists _, _, _. split; [reflexivity|]. pose proof (next_pos (w_fds w)).
    repeat split; [lia|apply next_fresh| |apply next_fresh].
    apply not_elem_of_dom. apply is_fresh.
  - eexists. split; [reflexivity|apply next_fresh].
Qed.
