(* ===== verification/RealtimeClock.v ===== *)
(** * The realtime clock
    ([icon/hal/realtime_clock.{h,cc}],
     [icon/interprocess/shared_memory_lockstep/shared_memory_lockstep.{h,cc}],
     [icon/utils/current_cycle.{h,cc}])

    The clock of a hardware module drives the control process through a lockstep in
    shared memory: everything outside of a tick is Operation A, the control update is
    Operation B.  Other processes act before every step of a tick; [icon] is their
    effect on the shared memory. *)
From S2P Require Import Prelude Status Time BinaryFutex Signal Lockstep LockstepProofs LockstepRuns.
From S2P Require Import SegmentHeader SharedMemory SharedMemoryProofs MemorySegment MemorySegmentProofs SegmentRuns.

(** ** [CycleCounter] *)

Definition GetCurrentCycle (current_cycle_ : Z) : Z := current_cycle_.
Definition SetCurrentCycle (cycle : Z) : Z := cycle.
Definition IncrementCurrentCycle (current_cycle_ : Z) : Z := wrap_u 64 (current_cycle_ + 1).

(** The counter counts modulo 64 bits. *)
Lemma cycle_count start n :
  in_u 64 start -> Nat.iter n IncrementCurrentCycle start = wrap_u 64 (start + Z.of_nat n).
Proof.
  intros Hs. induction n as [|n IH]; [rewrite Z.add_0_r; by rewrite wrap_u_id|].
  rewrite Nat.iter_succ, IH. unfold IncrementCurrentCycle, wrap_u.
  rewrite Zplus_mod_idemp_l. f_equal. lia.
Qed.

(** ** [SharedMemoryLockstep] *)

(** The values in the segments of a clock; other segments of the same manager hold
    values of type [O]. *)
Inductive clock_value (F O : Type) :=
| VLockstep (l : Lockstep F)
| VUpdate (cycle_start_nanoseconds : Z)
| VOther (o : O).
Arguments VLockstep {F O}.
Arguments VUpdate {F O}.
Arguments VOther {F O}.

(** [RealtimeClockUpdate()] *)
Definition default_RealtimeClockUpdate {F O} : clock_value F O := VUpdate 0.

Record SharedMemoryLockstep := mkSharedMemoryLockstep {
  memory_segment_ : MemorySegment;
  lockstep_ptr : option Z }.

(** [SharedMemoryLockstep()], [SharedMemoryLockstep(segment, logger)] and
    [GetLockstep()] *)
Definition default_SharedMemoryLockstep : SharedMemoryLockstep :=
  mkSharedMemoryLockstep default_MemorySegment None.
Definition new_SharedMemoryLockstep (segment : MemorySegment) : SharedMemoryLockstep :=
  mkSharedMemoryLockstep segment (value_ segment).
Definition GetLockstep (s : SharedMemoryLockstep) : option Z := lockstep_ptr s.

(** [kRealtimeClock...InterfaceName] *)
Definition kRealtimeClockLockstepInterfaceName : string := "realtime_clock_lockstep".
Definition kRealtimeClockUpdateInterfaceName : string := "realtime_clock_update".

(** [RealtimeClock]: the lockstep and the handle on the update. *)
Record RealtimeClock := mkRealtimeClock {
  lockstep_ : SharedMemoryLockstep;
  update_ : MemorySegment }.

Section Clock.
Context {F O : Type} `{Signal F} `{IterOrder}.
Context (StrError : Z -> string) (sizeof_header sizeof_Lockstep sizeof_update : Z).
Context (lockstep_type update_type : string).
Notation Lockstep := (Lockstep F).
Notation clock_value := (clock_value F O).
Notation world := (world clock_value).
Implicit Types (l : Lockstep) (w : world) (m : SharedMemoryManager).

(** The lockstep behind an address of a value. *)
Definition lockstep_at w (p : Z) : option Lockstep :=
  match file_at w (p - sizeof_header) ≫= f_value with
  | Some (VLockstep l) => Some l
  | _ => None
  end.
Definition store_lockstep w (p : Z) l : world :=
  update_at w (p - sizeof_header) (fun f => mkFile (f_size f) (f_header f) (Some (VLockstep l))).

(** [operator->()] followed by a call [f] on the lockstep.  A null lockstep is fatal;
    so is, as undefined behaviour, a pointer to anything else. *)
Definition arrow {R} w (s : SharedMemoryLockstep) (f : Lockstep -> R * Lockstep)
  : checked (R * world) :=
  match lockstep_ptr s with
  | None => Aborts "null SharedMemoryLockstep dereferenced"
  | Some p =>
      match lockstep_at w p with
      | None => Aborts "undefined behaviour"
      | Some l => let '(r, l') := f l in Returns (r, store_lockstep w p l')
      end
  end.

(** [CreateSharedMemoryLockstep(manager, memory_name, logger)] *)
Definition CreateSharedMemoryLockstep (k : kernel clock_value) (memory_name : string)
    w m : expected SharedMemoryLockstep Status * world * SharedMemoryManager :=
  let '(st, w1, m1) :=
    AddSegment StrError sizeof_header (k_init k w) memory_name false sizeof_Lockstep
      (VLockstep new_Lockstep) lockstep_type w m in
  if negb (status_ok st) then (Unexpected st, w1, m1)
  else
    match manager_Get StrError sizeof_header kReadWrite sizeof_Lockstep (k_get k w1) m1 memory_name w1 with
    | (Unexpected e, w2) => (Unexpected e, w2, m1)
    | (Value segment, w2) => (Value (new_SharedMemoryLockstep segment), w2, m1)
    end.

(** [GetSharedMemoryLockstep(manager, memory_name, logger)] *)
Definition GetSharedMemoryLockstep (k : kernel clock_value) m (memory_name : string) w
  : expected SharedMemoryLockstep Status * world :=
  match manager_Get StrError sizeof_header kReadWrite sizeof_Lockstep (k_get k w) m memory_name w with
  | (Unexpected e, w1) => (Unexpected e, w1)
  | (Value segment, w1) => (Value (new_SharedMemoryLockstep segment), w1)
  end.

(** [Connected()] *)
Definition Connected w (s : SharedMemoryLockstep) : bool :=
  if negb (IsValid (memory_segment_ s)) then false
  else match Header w (memory_segment_ s) with Some h => WriterRefCount h =? 2 | None => false end.

(** ** [RealtimeClock] *)

(** A call that does not wait; [timeout] is never used ([run_until_run]). *)
Definition EndOperationA_now (timeout : RealtimeStatus) l : RealtimeStatus * Lockstep :=
  run_until timeout call_fuel (thread_step l InA).
Definition Cancel_now (timeout : RealtimeStatus) l : RealtimeStatus * Lockstep :=
  run_until timeout call_fuel (cancel_store l).

(** [RealtimeClock(lockstep, realtime_clock_update, logger)]: an error is fatal.
    [timeout] is what a wait returns at its deadline. *)
Definition new_RealtimeClock (timeout : RealtimeStatus) (lockstep : SharedMemoryLockstep)
    (realtime_clock_update : MemorySegment) w : checked (RealtimeClock * world) :=
  cbind (arrow w lockstep (StartOperationAWithDeadline timeout)) (fun '(status, w1) =>
  if negb (rt_ok status) then Aborts ("Error starting RealtimeClock: " ++ GetMessage status)
  else Returns (mkRealtimeClock lockstep realtime_clock_update, w1)).

(** [~RealtimeClock()]; an error is only logged.  The members are destroyed after the
    body. *)
Definition destroy_RealtimeClock (timeout : RealtimeStatus) (c : RealtimeClock) w : checked world :=
  cbind (arrow w (lockstep_ c) (EndOperationA_now timeout)) (fun '(_, w1) =>
  Returns (CleanUpSharedMemory (CleanUpSharedMemory w1 (update_ c)) (memory_segment_ (lockstep_ c)))).

(** [Create(shm_manager, logger)].  Handles that are not handed out are closed. *)
Definition CreateClock (k : kernel clock_value) (timeout : RealtimeStatus) w m
  : checked (expected RealtimeClock Status * world * SharedMemoryManager) :=
  match CreateSharedMemoryLockstep k kRealtimeClockLockstepInterfaceName w m with
  | (Unexpected e, w1, m1) => Returns (Unexpected e, w1, m1)
  | (Value lockstep, w1, m1) =>
      let '(st, w2, m2) :=
        AddSegment StrError sizeof_header (k_init k w1) kRealtimeClockUpdateInterfaceName false
          sizeof_update default_RealtimeClockUpdate update_type w1 m1 in
      if negb (status_ok st) then
        Returns (Unexpected st, CleanUpSharedMemory w2 (memory_segment_ lockstep), m2)
      else
        match manager_Get StrError sizeof_header kReadWrite sizeof_update (k_get k w2) m2
                kRealtimeClockUpdateInterfaceName w2 with
        | (Unexpected e, w3) =>
            Returns (Unexpected e, CleanUpSharedMemory w3 (memory_segment_ lockstep), m2)
        | (Value update, w3) =>
            cbind (new_RealtimeClock timeout lockstep update w3) (fun '(c, w4) =>
            Returns (Value c, w4, m2))
        end
  end.

(** [TickBlockingWithDeadline(current_timestamp, deadline)], split at its accesses to
    shared memory: before the store of the timestamp, at a program counter of
    [EndOperationA] or [StartOperationAWithDeadline], and returned. *)
Inductive tpc := TStore | TLock (p : lpc) | TDone (st : RealtimeStatus).

(** After a step of the lockstep from [p] to [q]; [r] is the status when the call of
    the lockstep returns.  [StartOperationAWithDeadline] follows an [EndOperationA] that
    returned OK. *)
Definition tick_next (p q : lpc) (r : option RealtimeStatus) : tpc :=
  match r with
  | None => TLock q
  | Some status =>
      match call_of p with
      | CEndA => if negb (rt_ok status) then TDone status else TLock SAWait
      | _ => TDone status
      end
  end.

Definition tick_step (c : RealtimeClock) (current_timestamp : Z) w (p : tpc)
  : checked (world * tpc) :=
  match p with
  | TStore => Returns (SetValue w (update_ c) (VUpdate current_timestamp), TLock InA)
  | TLock p =>
      cbind (arrow w (lockstep_ c) (fun l =>
               let '(l', q, r) := thread_step l p in (tick_next p q r, l')))
        (fun '(q, w') => Returns (w', q))
  | TDone st => Returns (w, TDone st)
  end.

(** The steps that are left when the deadline has passed: a call that still waits
    returns [timeout].  A tick takes at most [tick_fuel] steps besides repeated
    attempts of the wait. *)
Definition tick_fuel : nat := 8.
Fixpoint tick_finish (timeout : RealtimeStatus) (c : RealtimeClock) (current_timestamp : Z)
    (fuel : nat) w (p : tpc) : checked (RealtimeStatus * world) :=
  match p, fuel with
  | TDone st, _ => Returns (st, w)
  | _, 0%nat => Returns (timeout, w)
  | _, S fuel =>
      cbind (tick_step c current_timestamp w p) (fun '(w', p') =>
      tick_finish timeout c current_timestamp fuel w' p')
  end.

(** [icon] lists what the other processes do to the shared memory before each step of
    the tick, up to the deadline. *)
Fixpoint tick_run (timeout : RealtimeStatus) (c : RealtimeClock) (current_timestamp : Z)
    (icon : list (world -> world)) w (p : tpc) : checked (RealtimeStatus * world) :=
  match p, icon with
  | TDone st, _ => Returns (st, w)
  | _, [] => tick_finish timeout c current_timestamp tick_fuel w p
  | _, e :: icon' =>
      cbind (tick_step c current_timestamp (e w) p) (fun '(w', p') =>
      tick_run timeout c current_timestamp icon' w' p')
  end.

Definition TickBlockingWithDeadline (timeout : RealtimeStatus) (icon : list (world -> world))
    (c : RealtimeClock) (current_timestamp : Z) w : checked (RealtimeStatus * world) :=
  tick_run timeout c current_timestamp icon w TStore.

(** [Reset(timeout)] *)
Definition ResetClock (timeout : RealtimeStatus) (c : RealtimeClock) w
  : checked (RealtimeStatus * world) :=
  cbind (arrow w (lockstep_ c) (Cancel_now timeout)) (fun '(_, w1) =>
  cbind (arrow w1 (lockstep_ c) (ResetWithTimeout timeout)) (fun '(reset_status, w2) =>
  cbind (arrow w2 (lockstep_ c) (StartOperationAWithDeadline timeout)) (fun '(start_status, w3) =>
  Returns (if negb (rt_ok reset_status) then reset_status else start_status, w3)))).

(** ** Undisturbed calls on the lockstep *)

Lemma start_a_until timeout l r :
  StartOperationA l = Some r -> StartOperationAWithDeadline timeout l = r.
Proof. unfold StartOperationA, StartOperationAWithDeadline. apply run_until_run. Qed.
Lemma end_a_until timeout l r : EndOperationA l = Some r -> EndOperationA_now timeout l = r.
Proof. unfold EndOperationA, EndOperationA_now. apply run_until_run. Qed.
Lemma cancel_until timeout l r : Cancel l = Some r -> Cancel_now timeout l = r.
Proof. unfold Cancel, Cancel_now. apply run_until_run. Qed.
Lemma reset_until timeout l r : Reset l = Some r -> ResetWithTimeout timeout l = r.
Proof. unfold Reset, ResetWithTimeout. apply run_until_run. Qed.

(** Operation A is running. *)
Definition holds_a l : Prop :=
  LockstepProofs.opened l /\ state_ l = kARunning /\ sig_up (a_finished_ l) = false /\ sig_up (b_finished_ l) = false.

Lemma StartOperationA_ready l :
  LockstepProofs.opened l -> state_ l = kBFinished -> sig_up (b_finished_ l) = true ->
  sig_up (a_finished_ l) = false ->
  exists l', StartOperationA l = Some (RtOkStatus, l') /\ holds_a l'.
Proof.
  intros [Ha Hb] Hs Ub Ua. destruct (wait_step_up set_b l _ SAWait SACas Hb Ub) as (f & Hw & Hf & Hu).
  unfold StartOperationA, call_fuel. rewrite run_goto by done. simpl thread_step.
  rewrite Hw, run_goto by done. simpl thread_step. unfold start_a_cas, compare_exchange_strong.
  cbn [state_ set_b]. rewrite Hs, decide_True by done. cbn [negb]. rewrite run_return.
  eexists. split; [done|]. by repeat split.
Qed.

Lemma EndOperationA_running l :
  holds_a l -> exists l', EndOperationA l = Some (RtOkStatus, l') /\ LockstepProofs.opened l'
    /\ state_ l' = kAFinished /\ sig_up (a_finished_ l') = true /\ sig_up (b_finished_ l') = false.
Proof.
  intros ([Ha Hb] & Hs & Ua & Ub). unfold EndOperationA, call_fuel. cbn [thread_step].
  rewrite Hs, decide_False by done. rewrite run_goto by done. cbn [thread_step].
  rewrite Hs, decide_False by (by intros []). rewrite run_goto by done. cbn [thread_step].
  rewrite run_goto by done. cbn [thread_step].
  destruct (post_step_open set_a (set_state l kAFinished) (a_finished_ l) Ha) as (f & Hp & Ho & Hu).
  cbn [a_finished_ set_state]. rewrite Hp, run_return. eexists. split; [done|]. by repeat split.
Qed.

Lemma StartOperationB_ready l :
  LockstepProofs.opened l -> state_ l = kAFinished -> sig_up (a_finished_ l) = true ->
  sig_up (b_finished_ l) = false ->
  exists l', StartOperationB l = Some (RtOkStatus, l') /\ LockstepProofs.opened l' /\ state_ l' = kBRunning
    /\ sig_up (a_finished_ l') = false /\ sig_up (b_finished_ l') = false.
Proof.
  intros [Ha Hb] Hs Ua Ub. destruct (wait_step_up set_a l _ SBWait SBCas Ha Ua) as (f & Hw & Hf & Hu).
  unfold StartOperationB, call_fuel. rewrite run_goto by done. simpl thread_step.
  rewrite Hw, run_goto by done. simpl thread_step. unfold start_b_cas, compare_exchange_strong.
  cbn [state_ set_a]. rewrite Hs, decide_True by done. cbn [negb]. rewrite run_return.
  eexists. split; [done|]. by repeat split.
Qed.

Lemma EndOperationB_running l :
  LockstepProofs.opened l -> state_ l = kBRunning -> sig_up (a_finished_ l) = false ->
  exists l', EndOperationB l = Some (RtOkStatus, l') /\ LockstepProofs.opened l' /\ state_ l' = kBFinished
    /\ sig_up (a_finished_ l') = false /\ sig_up (b_finished_ l') = true.
Proof.
  intros [Ha Hb] Hs Ua. unfold EndOperationB, call_fuel. cbn [thread_step].
  unfold end_b_cas, compare_exchange_strong. rewrite Hs, decide_True by done. cbn [negb].
  rewrite run_goto by done. cbn [thread_step].
  destruct (post_step_open set_b (set_state l kBFinished) (b_finished_ l) Hb) as (f & Hp & Ho & Hu).
  cbn [b_finished_ set_state]. rewrite Hp, run_return. eexists. split; [done|]. by repeat split.
Qed.

(** ** The clock in shared memory *)

(** The handles of the clock [c] are on two segments, with the lockstep [l] and the
    timestamp [u]. *)
Record clock_at w (c : RealtimeClock) l (u : Z) : Prop := mkClockAt {
  ca_lockstep : exists a, lockstep_ptr (lockstep_ c) = Some (a + sizeof_header)
    /\ header_ (memory_segment_ (lockstep_ c)) = Some a;
  ca_update : is_Some (header_ (update_ c));
  ca_value : GetValue w (memory_segment_ (lockstep_ c)) = Some (VLockstep l);
  ca_time : GetValue w (update_ c) = Some (VUpdate u);
  ca_sep : header_ (memory_segment_ (lockstep_ c)) ≫= mapped w <> header_ (update_ c) ≫= mapped w }.

(** What a file holds after a change of its value. *)
Lemma update_value w a i f v :
  mapped w a = Some i -> w_files w !! i = Some f ->
  let w' := update_at w a (fun f => mkFile (f_size f) (f_header f) (Some v)) in
  (forall b, mapped w' b = mapped w b)
  /\ (forall b, file_at w' b ≫= f_value = if decide (mapped w b = Some i) then Some v else file_at w b ≫= f_value).
Proof.
  intros Ha Hf. unfold update_at. rewrite Ha. split; [done|]. intros b. unfold file_at, mapped.
  cbn [w_maps w_files]. destruct (w_maps w !! b) as [[j n]|]; cbn [fmap option_fmap option_map fst]; [|by rewrite decide_False].
  destruct (decide (Some j = Some i)) as [[= ->]|Hne]; cbn.
  - rewrite lookup_alter_eq, Hf. done.
  - rewrite lookup_alter_ne by congruence. done.
Qed.

Lemma mapped_of w (s : MemorySegment) a v :
  header_ s = Some a -> GetValue w s = Some v ->
  exists i f, mapped w a = Some i /\ w_files w !! i = Some f /\ f_value f = Some v.
Proof.
  intros Ha. unfold GetValue, file_at. rewrite Ha. simpl.
  destruct (mapped w a) as [i|]; simpl; [|done]. destruct (w_files w !! i) as [f|] eqn:Hf; simpl; [|done].
  intros Hv. by exists i, f.
Qed.

(** A call through [operator->]. *)
Lemma arrow_at {R} w c l u (f : Lockstep -> R * Lockstep) r l' :
  clock_at w c l u -> f l = (r, l') ->
  exists w', arrow w (lockstep_ c) f = Returns (r, w') /\ clock_at w' c l' u.
Proof.
  intros [(a & Hp & Ha) [b Hb] Hv Ht Hs] Hf.
  destruct (mapped_of _ _ _ _ Ha Hv) as (i & fi & Hi & Hfi & Hvi).
  assert (lockstep_at w (a + sizeof_header) = Some l) as Hl.
  { unfold lockstep_at. rewrite Z.add_simpl_r. unfold file_at. rewrite Hi. simpl. rewrite Hfi. simpl. by rewrite Hvi. }
  unfold arrow. rewrite Hp, Hl, Hf. eexists. split; [done|].
  unfold store_lockstep. rewrite Z.add_simpl_r.
  destruct (update_value w a i fi (VLockstep l') Hi Hfi) as [Hm Hval]. rewrite Ha, Hb in Hs. simpl in Hs.
  split; [by exists a|by exists b|..]; unfold GetValue; rewrite ?Ha, ?Hb; simpl; rewrite ?Hval, ?Hm.
  - by rewrite decide_True.
  - rewrite decide_False by congruence. unfold GetValue in Ht. by rewrite Hb in Ht.
  - done.
Qed.

(** Headers are not touched. *)
Lemma arrow_header {R} w s (f : Lockstep -> R * Lockstep) r w' t :
  arrow w s f = Returns (r, w') -> Header w' t = Header w t.
Proof.
  unfold arrow. destruct (lockstep_ptr s) as [p|]; [|done].
  destruct (lockstep_at w p); [|done]. destruct (f _) as [r' l']. intros [= <- <-].
  unfold Header. destruct (header_ t) as [b|]; [|done]. simpl.
  unfold store_lockstep, update_at, file_at. destruct (mapped w (p - sizeof_header)) as [i|]; [|done].
  change (mapped _ b) with (mapped w b). destruct (mapped w b) as [j|]; [|done]. simpl.
  destruct (decide (i = j)) as [->|]; [|by rewrite lookup_alter_ne].
  rewrite lookup_alter_eq. by destruct (w_files w !! j).
Qed.

(** The store of a timestamp. *)
Lemma set_timestamp w c l u t :
  clock_at w c l u -> clock_at (SetValue w (update_ c) (VUpdate t)) c l t.
Proof.
  intros [(a & Hp & Ha) [b Hb] Hv Ht Hs]. destruct (mapped_of _ _ _ _ Hb Ht) as (i & fi & Hi & Hfi & _).
  unfold SetValue. rewrite Hb. destruct (update_value w b i fi (VUpdate t) Hi Hfi) as [Hm Hval].
  rewrite Ha, Hb in Hs. simpl in Hs.
  split; [by exists a|by exists b|..]; unfold GetValue; rewrite ?Ha, ?Hb; simpl; rewrite ?Hval, ?Hm.
  - rewrite decide_False by congruence. unfold GetValue in Hv. by rewrite Ha in Hv.
  - by rewrite decide_True.
  - done.
Qed.

(** A step of the lockstep inside a tick. *)
Lemma tick_lock_at w c l u ts p l' q r :
  clock_at w c l u -> thread_step l p = (l', q, r) ->
  exists w', tick_step c ts w (TLock p) = Returns (w', tick_next p q r) /\ clock_at w' c l' u.
Proof.
  intros Hc Hs. destruct (arrow_at w c l u (fun l => let '(l', q, r) := thread_step l p in
    (tick_next p q r, l')) (tick_next p q r) l' Hc) as (w' & Hw & Hc'); [by rewrite Hs|].
  exists w'. split; [|done]. cbn [tick_step]. by rewrite Hw.
Qed.

Lemma tick_run_step timeout c ts (e : world -> world) icon w p w' q :
  (forall st, p <> TDone st) -> tick_step c ts (e w) p = Returns (w', q) ->
  tick_run timeout c ts (e :: icon) w p = tick_run timeout c ts icon w' q.
Proof. intros Hp Hs. destruct p; cbn [tick_run]; [by rewrite Hs..|]. by destruct (Hp st). Qed.

Lemma tick_finish_step timeout c ts fuel w p w' q :
  (forall st, p <> TDone st) -> tick_step c ts w p = Returns (w', q) ->
  tick_finish timeout c ts (S fuel) w p = tick_finish timeout c ts fuel w' q.
Proof. intros Hp Hs. destruct p; cbn [tick_finish]; [by rewrite Hs..|]. by destruct (Hp st). Qed.

(** The first five steps of an undisturbed tick store the timestamp and release
    Operation B. *)
Lemma tick_releases timeout w c l u timestamp :
  clock_at w c l u -> holds_a l ->
  exists w1 l1, clock_at w1 c l1 timestamp /\ LockstepProofs.opened l1 /\ state_ l1 = kAFinished
    /\ sig_up (a_finished_ l1) = true /\ sig_up (b_finished_ l1) = false
    /\ forall icon, TickBlockingWithDeadline timeout (replicate 5 (fun w => w) ++ icon) c timestamp w
         = tick_run timeout c timestamp icon w1 (TLock SAWait).
Proof.
  intros Hc ([Ha Hb] & Hs & Ua & Ub). apply (set_timestamp _ _ _ _ timestamp) in Hc.
  assert (thread_step l InA = goto l EACheck) as E1.
  { cbn [thread_step]. by rewrite Hs, decide_False. }
  assert (thread_step l EACheck = goto l EAStore) as E2.
  { cbn [thread_step]. rewrite Hs, decide_False; [done|]. by intros []. }
  destruct (post_step_open set_a (set_state l kAFinished) (a_finished_ l) Ha) as (f & Hp & Ho & Hu).
  destruct (tick_lock_at _ _ _ _ timestamp _ _ _ _ Hc E1) as (w1 & H1 & Hc1).
  destruct (tick_lock_at _ _ _ _ timestamp _ _ _ _ Hc1 E2) as (w2 & H2 & Hc2).
  destruct (tick_lock_at _ _ _ _ timestamp EAStore _ _ _ Hc2 eq_refl) as (w3 & H3 & Hc3).
  destruct (tick_lock_at _ _ _ _ timestamp EAPost _ _ _ Hc3 Hp) as (w4 & H4 & Hc4).
  exists w4. eexists. split; [exact Hc4|]. repeat (split; [done|]).
  intros icon. unfold TickBlockingWithDeadline. cbn [replicate app].
  erewrite tick_run_step by done. erewrite tick_run_step by done. erewrite tick_run_step by done.
  erewrite tick_run_step by done. by erewrite tick_run_step by done.
Qed.

(** When Operation B can start, the new timestamp is in shared memory; and when the
    control process has run Operation B once on the lockstep, without touching the
    timestamp, the tick returns OK and the clock holds Operation A again. *)
Lemma tick_completes timeout w c l (u timestamp : Z) :
  clock_at w c l u -> holds_a l ->
  exists w1 l1 lb le, clock_at w1 c l1 timestamp
    /\ (forall icon, TickBlockingWithDeadline timeout (replicate 5 (fun w => w) ++ icon) c timestamp w
         = tick_run timeout c timestamp icon w1 (TLock SAWait))
    /\ StartOperationB l1 = Some (RtOkStatus, lb) /\ EndOperationB lb = Some (RtOkStatus, le)
    /\ forall icon : world -> world, clock_at (icon w1) c le timestamp ->
       exists w' l',
         TickBlockingWithDeadline timeout (replicate 5 (fun w => w) ++ [icon]) c timestamp w
           = Returns (RtOkStatus, w')
         /\ clock_at w' c l' timestamp /\ holds_a l'.
Proof.
  intros Hc Hh.
  destruct (tick_releases timeout w c l u timestamp Hc Hh) as (w1 & l1 & Hc1 & O1 & S1 & A1 & B1 & E).
  destruct (StartOperationB_ready l1 O1 S1 A1 B1) as (lb & E2 & O2 & S2 & A2 & B2).
  destruct (EndOperationB_running lb O2 S2 A2) as (le & E3 & [Ha Hb] & S3 & A3 & B3).
  exists w1, l1, lb, le. repeat (split; [done|]). intros icon Hi.
  destruct (wait_step_up set_b le _ SAWait SACas Hb B3) as (f & Hw & Hf & Hu).
  assert (thread_step (set_b le f) SACas = return_ (set_state (set_b le f) kARunning) InA RtOkStatus) as Hcas.
  { cbn [thread_step]. unfold start_a_cas, compare_exchange_strong. cbn [state_ set_b].
    by rewrite S3, decide_True. }
  destruct (tick_lock_at _ _ _ _ timestamp SAWait _ _ _ Hi Hw) as (w2 & H2 & Hc2).
  destruct (tick_lock_at _ _ _ _ timestamp SACas _ _ _ Hc2 Hcas) as (w3 & H3 & Hc3).
  exists w3. eexists. split; [|split; [exact Hc3|by repeat split]].
  rewrite E. erewrite tick_run_step by done. cbn [tick_run]. unfold tick_fuel.
  by erewrite tick_finish_step by done.
Qed.

(** A tick during which the control process does not finish returns the timeout, and
    the control process keeps the turn. *)
Lemma tick_times_out timeout w c l u timestamp (icon : world -> world) le :
  clock_at w c l u -> holds_a l -> LockstepProofs.opened le -> sig_up (b_finished_ le) = false ->
  (forall w1 l1, clock_at w1 c l1 timestamp -> clock_at (icon w1) c le timestamp) ->
  exists w', TickBlockingWithDeadline timeout (replicate 5 (fun w => w) ++ [icon]) c timestamp w
      = Returns (timeout, w')
    /\ clock_at w' c le timestamp.
Proof.
  intros Hc Hh [Ha Hb] Hu Hi.
  destruct (tick_releases timeout w c l u timestamp Hc Hh) as (w1 & l1 & Hc1 & _ & _ & _ & _ & E).
  assert (thread_step le SAWait = goto le SAWait) as Hw.
  { simpl. rewrite wait_step_down by done. by destruct le. }
  destruct (tick_lock_at _ _ _ _ timestamp SAWait _ _ _ (Hi _ _ Hc1) Hw) as (w2 & H2 & Hc2).
  rewrite E. erewrite tick_run_step by done. cbn [tick_run tick_next].
  clear -Hw Hc2. generalize tick_fuel. intros fuel. revert w2 Hc2.
  induction fuel as [|fuel IH]; intros w Hc; [by exists w|].
  destruct (tick_lock_at _ _ _ _ timestamp SAWait _ _ _ Hc Hw) as (w' & Hs & Hc').
  rewrite (tick_finish_step timeout c timestamp fuel w (TLock SAWait) w' (TLock SAWait)) by done.
  by apply IH.
Qed.

(** C26: [Reset] recovers the clock: from any state of the lockstep - a tick that timed out,
    a cancelled or an unfinished operation - an undisturbed [Reset] returns OK and
    leaves the clock as after its construction, holding Operation A. *)
Theorem clock_reset_recovers timeout w c l u :
  clock_at w c l u -> LockstepProofs.opened l ->
  exists w' l', ResetClock timeout c w = Returns (RtOkStatus, w')
    /\ clock_at w' c l' u /\ holds_a l'.
Proof.
  intros Hc Ho. destruct (cancel_then_reset l Ho) as (lc & lr & Ec & _ & _ & _ & _ & _ & Er & Sr & Ar & Br & Or).
  destruct (StartOperationA_ready lr Or Sr Br Ar) as (l' & El & Hh).
  destruct (arrow_at _ _ _ _ (Cancel_now timeout) _ _ Hc (cancel_until _ _ _ Ec)) as (w1 & H1 & Hc1).
  destruct (arrow_at _ _ _ _ (ResetWithTimeout timeout) _ _ Hc1 (reset_until _ _ _ Er)) as (w2 & H2 & Hc2).
  destruct (arrow_at _ _ _ _ (StartOperationAWithDeadline timeout) _ _ Hc2 (start_a_until _ _ _ El))
    as (w3 & H3 & Hc3).
  exists w3, l'. split; [|done]. unfold ResetClock. rewrite H1. cbn [cbind]. rewrite H2. cbn [cbind].
  by rewrite H3.
Qed.

(** ** Creation *)

(** The sizes of the types fit. *)
Record sizes_ok : Prop := mkSizesOk {
  so_header : 0 <= sizeof_header;
  so_lockstep : 0 < sizeof_Lockstep /\ sizeof_header + sizeof_Lockstep < 2 ^ 64;
  so_update : 0 < sizeof_update /\ sizeof_header + sizeof_update < 2 ^ 64 }.

Lemma new_Lockstep_ready :
  exists l, StartOperationA new_Lockstep = Some (RtOkStatus, l) /\ holds_a l.
Proof. apply StartOperationA_ready; [split; apply sig_new_open|done|apply sig_new_up..]. Qed.

Lemma CreateSharedMemoryLockstep_ok k name w m :
  reliable k -> sizes_ok -> accepts m name lockstep_type ->
  exists fd i a b, let n := sizeof_header + sizeof_Lockstep in unused w fd i a b
    /\ CreateSharedMemoryLockstep k name w m
       = (Value (new_SharedMemoryLockstep (mkMemorySegment name (Some b) (Some (b + sizeof_header)) n kReadWrite)),
          attached w kReadWrite fd i a b n lockstep_type (Some (VLockstep new_Lockstep)),
          registered m name a n false fd).
Proof.
  intros Hk [S0 [S1 S2] _] Ha.
  destruct (add_then_get StrError sizeof_header k kReadWrite name false sizeof_Lockstep
    (VLockstep new_Lockstep) lockstep_type w m) as (fd & i & a & b & Hu & Hadd & Hget); [done..|].
  exists fd, i, a, b. split; [done|]. unfold CreateSharedMemoryLockstep. rewrite Hadd.
  cbn [negb status_ok st_code OkStatus]. by rewrite Hget.
Qed.

(** A clock can be created on a working kernel when its two names are free: the new
    clock holds Operation A, its timestamp is zero, both segments are registered, and
    the lockstep is not connected yet. *)
Theorem clock_create_ready k timeout w m :
  reliable k -> sizes_ok ->
  accepts m kRealtimeClockLockstepInterfaceName lockstep_type ->
  accepts m kRealtimeClockUpdateInterfaceName update_type ->
  (S (size (memory_segments_ m)) < kMaxNumberOfSegments)%nat ->
  exists c w' m' l, CreateClock k timeout w m = Returns (Value c, w', m')
    /\ clock_at w' c l 0 /\ holds_a l /\ Connected w' (lockstep_ c) = false
    /\ is_Some (memory_segments_ m' !! kRealtimeClockLockstepInterfaceName)
    /\ is_Some (memory_segments_ m' !! kRealtimeClockUpdateInterfaceName).
Proof.
  intros Hk Hs Hl Hu Hsz. pose proof Hs as [S0 _ [S1 S2]].
  destruct (CreateSharedMemoryLockstep_ok k kRealtimeClockLockstepInterfaceName w m Hk Hs Hl)
    as (fd & i & a & b & U1 & Hc). set (n := sizeof_header + sizeof_Lockstep) in *.
  unfold CreateClock. rewrite Hc. set (w1 := attached _ _ _ _ _ _ _ _ _).
  set (m1 := registered _ _ _ _ _ _).
  destruct (add_then_get StrError sizeof_header k kReadWrite kRealtimeClockUpdateInterfaceName false
    sizeof_update default_RealtimeClockUpdate update_type w1 m1) as (fd2 & i2 & a2 & b2 & U2 & Hadd & Hget);
    [done|by eapply registered_accepts|done..|].
  rewrite Hadd. cbn [negb status_ok st_code OkStatus]. rewrite Hget.
  set (w3 := attached _ _ _ _ _ _ _ _ _). set (n2 := sizeof_header + sizeof_update) in *.
  set (c := mkRealtimeClock (new_SharedMemoryLockstep (mkMemorySegment kRealtimeClockLockstepInterfaceName
              (Some b) (Some (b + sizeof_header)) n kReadWrite))
            (mkMemorySegment kRealtimeClockUpdateInterfaceName (Some b2) (Some (b2 + sizeof_header)) n2 kReadWrite)).
  destruct U2 as [_ Hi2 (Ha2 & Hb2 & Hab2)]. simpl in Hi2, Ha2, Hb2.
  apply lookup_insert_None in Hi2 as [_ Hi2]. apply lookup_insert_None in Ha2 as [_ Ha2].
  apply lookup_insert_None in Hb2 as [_ Hb2].
  assert (mapped w3 b = Some i) as Mb.
  { unfold mapped. simpl. by rewrite !lookup_insert_ne, lookup_insert_eq by done. }
  assert (mapped w3 b2 = Some i2) as Mb2 by (unfold mapped; simpl; by rewrite lookup_insert_eq).
  assert (clock_at w3 c new_Lockstep 0) as Hc3.
  { split; [by exists b|by exists b2|..]; unfold GetValue, file_at; simpl; rewrite ?Mb, ?Mb2; simpl.
    - by rewrite lookup_insert_ne, lookup_insert_eq by done.
    - by rewrite lookup_insert_eq.
    - congruence. }
  destruct new_Lockstep_ready as (l & El & Hh).
  destruct (arrow_at _ _ _ _ (StartOperationAWithDeadline timeout) _ _ Hc3 (start_a_until _ _ _ El))
    as (w4 & Hw4 & Hc4).
  exists c, w4. eexists. exists l. unfold new_RealtimeClock. fold c.
  change (new_SharedMemoryLockstep _) with (lockstep_ c). rewrite Hw4. cbn [cbind rt_ok negb].
  split; [done|]. split; [done|]. split; [done|]. split.
  { unfold Connected. rewrite (arrow_header _ _ _ _ _ _ Hw4). unfold Header, file_at. simpl. rewrite Mb. simpl.
    by rewrite lookup_insert_ne, lookup_insert_eq by done. }
  simpl. rewrite lookup_insert_ne, !lookup_insert_eq by done. by split; eexists.
Qed.

End Clock.

(** ** Connections *)

(** A lockstep is connected exactly while two handles are attached to its segment. *)
Theorem connected_iff_two_handles {F O : Type} `{IterOrder} StrError sizeof_header (ns name : string)
    (w : world (clock_value F O)) m (hs : list MemorySegment) s a i :
  rtc (sstep StrError sizeof_header) (sinitial ns name) (mkSConfig w m hs) ->
  memory_segment_ s ∈ hs -> header_ (memory_segment_ s) = Some a ->
  IsValid (memory_segment_ s) = true -> mapped w a = Some i -> is_Some (Header w (memory_segment_ s)) ->
  Connected w s = true <-> count w hs kReadWrite i = 2%nat.
Proof.
  intros Hr Hin Ha Hv Hi [h Hh]. assert (sinv (mkSConfig w m hs)) as Hinv by (by eapply sinv_reachable).
  unfold Connected. rewrite Hv, Hh. cbn [negb]. unfold Header in Hh. rewrite Ha in Hh. cbn in Hh.
  unfold file_at in Hh. rewrite Hi in Hh. cbn in Hh.
  destruct (w_files w !! i) as [f|] eqn:Hf; [|done]. cbn in Hh.
  pose proof (si_count _ Hinv i f (ReaderRefCount h, WriterRefCount h) Hf) as Hc.
  unfold counts in Hc. rewrite Hh in Hc. injection (Hc eq_refl) as _ Hw. cbn in Hw. rewrite Hw.
  rewrite Z.eqb_eq. lia.
Qed.

(** ** Witnesses *)

#[local] Instance iter_sorted : IterOrder := {
  iter := fun _ m => map_to_list m; iter_perm := fun _ _ => reflexivity _ }.

Definition ex_timeout : RealtimeStatus := FormatRealtimeStatus kDeadlineExceeded "timeout".
Definition ex_value : Type := clock_value BinaryFutex unit.
Definition ex_create :=
  CreateClock (fun _ => "error") 256 64 8 "lockstep" "update" (free_kernel ex_value) ex_timeout
    (mkWorld ∅ ∅ ∅) (mkSharedMemoryManager ∅ ∅ "module" "ns").

Lemma ex_sizes : sizes_ok 256 64 8.
Proof. split; lia. Qed.
Lemma ex_accepts name type_id :
  status_ok (VerifyName name) = true -> (length (chars type_id) <= kMaxSize)%nat ->
  accepts (mkSharedMemoryManager ∅ ∅ "module" "ns") name type_id.
Proof. intros Hn Ht. split; try done. cbn. rewrite map_size_empty. unfold kMaxNumberOfSegments. lia. Qed.

Lemma clock_create_ready_witness :
  exists c w' m' l, ex_create = Returns (Value c, w', m') /\ clock_at 256 w' c l 0 /\ holds_a l.
Proof.
  destruct (clock_create_ready (O := unit) (fun _ => "error") 256 64 8 "lockstep" "update"
    (free_kernel ex_value) ex_timeout (mkWorld ∅ ∅ ∅) (mkSharedMemoryManager ∅ ∅ "module" "ns"))
    as (c & w' & m' & l & Hc & Hat & Hh & _).
  - apply free_kernel_reliable.
  - apply ex_sizes.
  - apply ex_accepts; [reflexivity|cbn; unfold kMaxSize; lia].
  - apply ex_accepts; [reflexivity|cbn; unfold kMaxSize; lia].
  - cbn. rewrite map_size_empty. unfold kMaxNumberOfSegments. lia.
  - exists c, w', m', l. exact (conj Hc (conj Hat Hh)).
Defined.

(** The handles and the world after that creation. *)
Definition ex_clock : RealtimeClock :=
  match ex_create with Returns (Value c, _, _) => c | _ =>
    mkRealtimeClock default_SharedMemoryLockstep default_MemorySegment end.
Definition ex_clock_world : world ex_value :=
  match ex_create with Returns (_, w, _) => w | _ => mkWorld ∅ ∅ ∅ end.
Definition ex_lockstep : Lockstep BinaryFutex :=
  default new_Lockstep (snd <$> StartOperationA (new_Lockstep (F := BinaryFutex))).

Lemma ex_clock_at : clock_at 256 ex_clock_world ex_clock ex_lockstep 0.
Proof.
  split; [exists 2; split; vm_compute; reflexivity|eexists; vm_compute; reflexivity
         |vm_compute; reflexivity..|vm_compute; discriminate].
Qed.

Lemma clock_reset_recovers_witness :
  exists w', ResetClock 256 ex_timeout ex_clock ex_clock_world = Returns (RtOkStatus, w').
Proof.
  destruct (clock_reset_recovers 256 ex_timeout ex_clock_world ex_clock ex_lockstep 0) as (w' & l' & Hr & _).
  - apply ex_clock_at.
  - vm_compute. repeat split; auto.
  - exists w'. exact Hr.
Defined.
