(* ===== verification/ClockRuns.v ===== *)
(** * The clock and the control process together

    The clock owner calls [TickBlockingWithDeadline] again and again, until a tick
    fails; the control process performs Operation B again and again and reads the
    timestamp once in each.  Both act on the shared memory at the granularity of the
    single accesses of the lockstep, in any interleaving.  The control process is not
    part of the repository: it is assumed to call [StartOperationB...] and
    [EndOperationB] as lockstep.h documents and not to cancel the lockstep. *)
From S2P Require Import Prelude Status Time BinaryFutex Signal Lockstep LockstepProofs.
From S2P Require Import SharedMemory MemorySegment RealtimeClock.

(** The clock owner: between two ticks, in a tick, after a tick that failed. *)
Inductive kclock := KOut | KTick (timestamp : Z) (p : tpc) | KFailed.

(** The control process: idle, in a call of the lockstep, in Operation B before and
    after it has read the timestamp. *)
Inductive kcontrol := CIdle | CLock (p : lpc) | CUpdate (read : bool).

Section ClockRuns.
Context {F O : Type} `{Signal F} (sizeof_header : Z) (c : RealtimeClock).
Notation Lockstep := (Lockstep F).
Notation world := (world (clock_value F O)).
Notation tick_step := (tick_step (F := F) (O := O) sizeof_header).
Notation clock_at := (clock_at (F := F) (O := O) sizeof_header).
Implicit Types (l : Lockstep) (w : world).

(** The shared memory, the two processes, the timestamps of the ticks and the
    timestamps that were read, oldest first. *)
Record kconfig := mkKConfig {
  k_world : world;
  k_clock : kclock;
  k_control : kcontrol;
  k_ticks : list Z;
  k_reads : list Z }.
Implicit Type k : kconfig.

Definition clock_after (timestamp : Z) (p : tpc) : kclock :=
  match p with
  | TDone st => if rt_ok st then KOut else KFailed
  | _ => KTick timestamp p
  end.

(** The control process after a step of the lockstep to [q]. *)
Definition control_after (q : lpc) (r : option RealtimeStatus) : kcontrol :=
  match q with
  | InB => CUpdate false
  | LIdle => CIdle
  | _ => match r with None => CLock q | Some _ => CIdle end
  end.

(** A call of the control process on the lockstep. *)
Definition control_step w (p : lpc) : checked (kcontrol * world) :=
  arrow sizeof_header w (lockstep_ c) (fun l =>
    let '(l', q, r) := thread_step l p in (control_after q r, l')).

Inductive kstep : kconfig -> kconfig -> Prop :=
| ks_tick w ctl ticks reads ts :
    kstep (mkKConfig w KOut ctl ticks reads)
      (mkKConfig w (KTick ts TStore) ctl (ticks ++ [ts]) reads)
| ks_clock w ts p ctl ticks reads w' q : tick_step c ts w p = Returns (w', q) ->
    kstep (mkKConfig w (KTick ts p) ctl ticks reads)
      (mkKConfig w' (clock_after ts q) ctl ticks reads)
| ks_deadline w ts ctl ticks reads :
    kstep (mkKConfig w (KTick ts (TLock SAWait)) ctl ticks reads)
      (mkKConfig w KFailed ctl ticks reads)
| ks_start w clk ticks reads :
    kstep (mkKConfig w clk CIdle ticks reads) (mkKConfig w clk (CLock SBWait) ticks reads)
| ks_control w clk p ticks reads q w' : control_step w p = Returns (q, w') ->
    kstep (mkKConfig w clk (CLock p) ticks reads) (mkKConfig w' clk q ticks reads)
| ks_control_deadline w clk ticks reads :
    kstep (mkKConfig w clk (CLock SBWait) ticks reads) (mkKConfig w clk CIdle ticks reads)
| ks_read w clk ticks reads u : GetValue w (update_ c) = Some (VUpdate u) ->
    kstep (mkKConfig w clk (CUpdate false) ticks reads)
      (mkKConfig w clk (CUpdate true) ticks (reads ++ [u]))
| ks_end w clk ticks reads q w' : control_step w InB = Returns (q, w') ->
    kstep (mkKConfig w clk (CUpdate true) ticks reads) (mkKConfig w' clk q ticks reads).

(** ** The two processes as threads of the lockstep *)

Definition clock_pc (x : kclock) : lpc :=
  match x with
  | KOut | KTick _ TStore => InA
  | KTick _ (TLock p) => p
  | KTick _ (TDone _) | KFailed => LIdle
  end.

Definition control_pc (x : kcontrol) : lpc :=
  match x with CIdle => LIdle | CLock p => p | CUpdate _ => InB end.

Definition clock_shape (x : kclock) : Prop :=
  match x with
  | KOut | KFailed | KTick _ TStore
  | KTick _ (TLock (InA | EACheck | EAStore | EAPost | SAWait | SACas)) => True
  | _ => False
  end.

Definition control_shape (x : kcontrol) : Prop :=
  match x with
  | CIdle | CUpdate _ | CLock (SBWait | SBCas | EBPost) => True
  | _ => False
  end.

(** Whether the timestamp in shared memory has still to be read. *)
Definition pending (s : State) (x : kcontrol) : bool :=
  match s, x with
  | kBRunning, CUpdate true | kBFinished, _ => false
  | _, _ => true
  end.

(** The timestamps in each phase of the lockstep: [u] is the one in shared memory. *)
Definition stamps (s : State) (u : Z) k : Prop :=
  match s with
  | kARunning =>
      match k_clock k with
      | KOut => k_reads k = k_ticks k
      | KTick ts TStore => k_ticks k = k_reads k ++ [ts]
      | KTick ts (TLock (InA | EACheck | EAStore)) => k_ticks k = k_reads k ++ [ts] /\ u = ts
      | _ => False
      end
  | _ =>
      last (k_ticks k) = Some u
      /\ if pending s (k_control k) then k_ticks k = k_reads k ++ [u] else k_reads k = k_ticks k
  end.

Definition threads k l log : lconfig :=
  mkLConfig l [clock_pc (k_clock k); control_pc (k_control k)] log.

Record kinv k l (u : Z) log : Prop := mkKInv {
  ki_at : clock_at (k_world k) c l u;
  ki_ring : ring (threads k l log);
  ki_clock : clock_shape (k_clock k);
  ki_control : control_shape (k_control k);
  ki_stamps : stamps (state_ l) u k }.

(** What a step of a thread does that follows the protocol. *)
Lemma ring_step_cases lc i p :
  ring lc -> lc_pcs lc !! i = Some p ->
  match p with
  | InA => state_ (lc_obj lc) = kARunning /\ thread_step (lc_obj lc) p = goto (lc_obj lc) EACheck
  | EACheck => state_ (lc_obj lc) = kARunning /\ thread_step (lc_obj lc) p = goto (lc_obj lc) EAStore
  | EAStore => state_ (lc_obj lc) = kARunning
      /\ thread_step (lc_obj lc) p = goto (set_state (lc_obj lc) kAFinished) EAPost
  | EAPost => state_ (lc_obj lc) = kAFinished
      /\ exists f, thread_step (lc_obj lc) p = return_ (set_a (lc_obj lc) f) LIdle RtOkStatus
  | SAWait => exists f q, thread_step (lc_obj lc) p = goto (set_b (lc_obj lc) f) q
      /\ (q = SAWait \/ q = SACas /\ state_ (lc_obj lc) = kBFinished)
  | SACas => state_ (lc_obj lc) = kBFinished
      /\ thread_step (lc_obj lc) p = return_ (set_state (lc_obj lc) kARunning) InA RtOkStatus
  | SBWait => exists f q, thread_step (lc_obj lc) p = goto (set_a (lc_obj lc) f) q
      /\ (q = SBWait \/ q = SBCas /\ state_ (lc_obj lc) = kAFinished)
  | SBCas => state_ (lc_obj lc) = kAFinished
      /\ thread_step (lc_obj lc) p = return_ (set_state (lc_obj lc) kBRunning) InB RtOkStatus
  | InB => state_ (lc_obj lc) = kBRunning
      /\ thread_step (lc_obj lc) p = goto (set_state (lc_obj lc) kBFinished) EBPost
  | EBPost => state_ (lc_obj lc) = kBFinished
      /\ exists f, thread_step (lc_obj lc) p = return_ (set_b (lc_obj lc) f) LIdle RtOkStatus
  | _ => True
  end.
Proof.
  intros Hr Hi. pose proof (r_open lc Hr) as [Ha Hb].
  destruct (home p) as [s|] eqn:Hh.
  - destruct (ring_holder lc i p s Hr Hi Hh) as [Hs _].
    destruct p; try done; injection Hh as <-; (split; [done|]); cbn [thread_step];
      unfold start_a_cas, start_b_cas, end_b_cas, compare_exchange_strong; rewrite ?Hs; simpl; try done.
    + destruct (post_step_open set_a (lc_obj lc) _ Ha) as (f & -> & _). by exists f.
    + destruct (post_step_open set_b (lc_obj lc) _ Hb) as (f & -> & _). by exists f.
  - destruct p; try done; cbn [thread_step].
    + destruct (sig_up (b_finished_ (lc_obj lc))) eqn:Hu.
      * destruct (wait_step_up set_b (lc_obj lc) _ SAWait SACas Hb Hu) as (f & -> & _).
        exists f, SACas. split; [done|]. right. split; [done|].
        apply (ring_deposited lc); [done|]. simpl. by rewrite Hu.
      * rewrite wait_step_down by done. eauto 10.
    + destruct (sig_up (a_finished_ (lc_obj lc))) eqn:Hu.
      * destruct (wait_step_up set_a (lc_obj lc) _ SBWait SBCas Ha Hu) as (f & -> & _).
        exists f, SBCas. split; [done|]. right. split; [done|].
        apply (ring_deposited lc); [done|]. simpl. by rewrite Hu.
      * rewrite wait_step_down by done. eauto 10.
Qed.

(** ** The invariant is kept *)

(** Calls of [StartOperationA] and [StartOperationB] by an idle thread, and waits that
    time out. *)
Lemma ring_start_a (lc : lconfig (F := F)) i :
  ring lc -> lc_pcs lc !! i = Some LIdle ->
  ring (apply_outcome lc i CStartA (goto (lc_obj lc) SAWait)).
Proof. intros Hr Hi. by eapply ring_lstep; [exact Hr|apply ls_start_a]. Qed.

Lemma ring_start_b (lc : lconfig (F := F)) i :
  ring lc -> lc_pcs lc !! i = Some LIdle ->
  ring (apply_outcome lc i CStartB (goto (lc_obj lc) SBWait)).
Proof. intros Hr Hi. by eapply ring_lstep; [exact Hr|apply ls_start_b]. Qed.

Lemma ring_timeout (lc : lconfig (F := F)) i p :
  ring lc -> lc_pcs lc !! i = Some p -> is_wait p ->
  ring (apply_outcome lc i (call_of p)
          (return_ (lc_obj lc) LIdle (FormatRealtimeStatus kDeadlineExceeded "Timeout"))).
Proof. intros Hr Hi Hw. by eapply ring_lstep; [exact Hr|apply ls_timeout]. Qed.

(** A step of the clock inside the lockstep. *)
Lemma lock_step_ring k l log i p l' q r :
  ring (threads k l log) -> lc_pcs (threads k l log) !! i = Some p -> p <> LIdle ->
  thread_step l p = (l', q, r) ->
  ring (apply_outcome (threads k l log) i (call_of p) (l', q, r)).
Proof. intros Hr Hi Hp <-. by apply ring_thread_step. Qed.

Lemma control_step_at w l u p l' q r x w' :
  clock_at w c l u -> thread_step l p = (l', q, r) -> control_step w p = Returns (x, w') ->
  x = control_after q r /\ clock_at w' c l' u.
Proof.
  intros Hc Hs Hx. destruct (arrow_at _ w c l u (fun l => let '(l', q, r) := thread_step l p in
    (control_after q r, l')) (control_after q r) l' Hc) as (w'' & Hw & Hc'); [by rewrite Hs|].
  unfold control_step in Hx. rewrite Hw in Hx. by injection Hx as <- <-.
Qed.

Lemma kinv_clock k l u log ts p w' q :
  kinv k l u log -> k_clock k = KTick ts p -> tick_step c ts (k_world k) p = Returns (w', q) ->
  exists l' u' log',
    kinv (mkKConfig w' (clock_after ts q) (k_control k) (k_ticks k) (k_reads k)) l' u' log'.
Proof.
  intros [Hat Hr Hs Hcs Hst] Hk Ht. destruct k as [w clk ctl ticks reads]. simpl in *. subst clk.
  destruct p as [|p|]; [| |done].
  { injection Ht as <- <-. destruct (ring_step_cases _ 0%nat _ Hr eq_refl) as [Hrun _]. simpl in Hrun.
    exists l, ts, log. split; simpl; try done; [by eapply set_timestamp|].
    rewrite Hrun in *. by split. }
  pose proof (ring_step_cases _ 0%nat _ Hr eq_refl) as Hcase. simpl in Hcase, Hs.
  destruct (thread_step l p) as [[l' q'] r] eqn:E.
  destruct (tick_lock_at _ _ _ _ _ ts _ _ _ _ Hat E) as (w'' & Hw & Hat').
  rewrite Hw in Ht. injection Ht as <- <-.
  assert (p <> LIdle) as Hp by (by destruct p).
  pose proof (lock_step_ring _ _ _ 0%nat _ _ _ _ Hr eq_refl Hp E) as Hr'.
  destruct p; try done; simpl in Hcase.
  - destruct Hcase as (f & q & [= -> -> ->] & Hq).
    exists (set_b l f), u. eexists. split; simpl; [done|exact Hr'| |done|]; destruct Hq as [->|[-> Hq]]; done.
  - destruct Hcase as (Hs1 & [= -> -> ->]).
    exists (set_state l kARunning), u. eexists. split; simpl; [done|exact Hr'|done|done|].
    rewrite Hs1 in Hst. by destruct Hst.
  - destruct Hcase as (Hs1 & [= -> -> ->]).
    exists l, u. eexists. split; simpl; [done|exact Hr'|done|done|]. by rewrite Hs1 in *.
  - destruct Hcase as (Hs1 & [= -> -> ->]).
    exists l, u. eexists. split; simpl; [done|exact Hr'|done|done|]. by rewrite Hs1 in *.
  - destruct Hcase as (Hs1 & [= -> -> ->]).
    exists (set_state l kAFinished), u. eexists. split; simpl; [done|exact Hr'|done|done|].
    rewrite Hs1 in Hst. simpl in Hst. destruct Hst as [-> ->]. by rewrite last_snoc.
  - destruct Hcase as (Hs1 & f & [= -> -> ->]).
    exists (set_a l f), u. eexists. split; simpl; [done| |done|done|by rewrite Hs1 in *].
    exact (ring_start_a _ 0%nat Hr' eq_refl).
Qed.

Lemma kinv_control k l u log p x w' :
  kinv k l u log -> control_pc (k_control k) = p -> p <> LIdle -> k_control k <> CUpdate false ->
  control_step (k_world k) p = Returns (x, w') ->
  exists l' u' log', kinv (mkKConfig w' (k_clock k) x (k_ticks k) (k_reads k)) l' u' log'.
Proof.
  intros [Hat Hr Hs Hcs Hst] Hk Hp Hnr Hx. destruct k as [w clk ctl ticks reads]. simpl in *.
  pose proof (ring_step_cases _ 1%nat _ Hr eq_refl) as Hcase. simpl in Hcase. rewrite Hk in Hcase.
  destruct (thread_step l p) as [[l' q] r] eqn:E.
  destruct (control_step_at _ _ _ _ _ _ _ _ _ Hat E Hx) as [-> Hat'].
  assert (lc_pcs (threads (mkKConfig w clk ctl ticks reads) l log) !! 1%nat = Some p) as Hi
    by (simpl; by rewrite Hk).
  pose proof (lock_step_ring _ _ _ 1%nat _ _ _ _ Hr Hi Hp E) as Hr'.
  destruct ctl as [|p'|[]]; simpl in Hk; subst p; try done.
  - destruct p'; try done; simpl in Hcase.
    + destruct Hcase as (f & q' & [= -> -> ->] & Hq).
      exists (set_a l f), u. eexists. split; simpl;
        [done|destruct Hq as [->|[-> _]]; exact Hr'|done|destruct Hq as [->|[-> _]]; done|].
      destruct Hq as [->|[-> _]]; by destruct (state_ l).
    + destruct Hcase as (Hs1 & [= -> -> ->]).
      exists (set_state l kBRunning), u. eexists. split; simpl; [done|exact Hr'|done|done|].
      by rewrite Hs1 in Hst.
    + destruct Hcase as (Hs1 & f & [= -> -> ->]).
      exists (set_b l f), u. eexists. split; simpl; [done|exact Hr'|done|done|].
      by rewrite Hs1 in *.
  - simpl in Hcase. destruct Hcase as (Hs1 & [= -> -> ->]).
    exists (set_state l kBFinished), u. eexists. split; simpl; [done|exact Hr'|done|done|].
    by rewrite Hs1 in Hst.
Qed.

Lemma kinv_step k k' :
  (exists l u log, kinv k l u log) -> kstep k k' -> exists l u log, kinv k' l u log.
Proof.
  intros (l & u & log & Hi) Hs.
  destruct Hs as [w ctl ticks reads ts|w ts p ctl ticks reads w' q Ht|w ts ctl ticks reads
    |w clk ticks reads|w clk p ticks reads q w' Hc|w clk ticks reads|w clk ticks reads v Hv
    |w clk ticks reads q w' Hc].
  - destruct Hi as [Hat Hr Hsh Hcs Hst]. exists l, u, log. split; simpl in *; try done.
    destruct (ring_step_cases _ 0%nat _ Hr eq_refl) as [Hrun _]. simpl in Hrun.
    rewrite Hrun in *. by rewrite Hst.
  - exact (kinv_clock _ _ _ _ _ _ _ _ Hi eq_refl Ht).
  - destruct Hi as [Hat Hr Hsh Hcs Hst]. exists l, u. eexists. split; simpl in *; try done.
    apply (ring_timeout _ 0%nat SAWait Hr eq_refl). by left.
  - destruct Hi as [Hat Hr Hsh Hcs Hst]. exists l, u. eexists. split; simpl in *; try done.
    exact (ring_start_b _ 1%nat Hr eq_refl).
  - eapply (kinv_control _ _ _ _ p) in Hi; try done. by intros ->; apply ki_control in Hi.
  - destruct Hi as [Hat Hr Hsh Hcs Hst]. exists l, u. eexists. split; simpl in *; try done.
    apply (ring_timeout _ 1%nat SBWait Hr eq_refl). right. by left.
  - destruct Hi as [Hat Hr Hsh Hcs Hst]. exists l, u, log. split; simpl in *; try done.
    destruct (ring_step_cases _ 1%nat _ Hr eq_refl) as [Hrun _]. simpl in Hrun.
    rewrite Hrun in *. rewrite (ca_time _ _ _ _ _ Hat) in Hv. injection Hv as <-. naive_solver.
  - by eapply (kinv_control _ _ _ _ InB) in Hi.
Qed.

(** The clock holds Operation A and the control process is idle. *)
Lemma kinv_initial w l u :
  clock_at w c l u -> holds_a l ->
  exists l u log, kinv (mkKConfig w KOut CIdle [] []) l u log.
Proof.
  intros Hat (Ho & Hs & Ua & Ub). exists l, u, [(CStartA, RtOkStatus)].
  assert (stamps (state_ l) u (mkKConfig w KOut CIdle [] [])) as Hst by (by rewrite Hs).
  split; try done. split; simpl; try done; try (by rewrite Hs).
  - intros s. unfold deposited. rewrite Ua, Ub, Hs. by destruct s.
  - intros [|[|]] x; simpl; [by intros [= <-]|done|done].
  - constructor; [by left|done].
Qed.

(** ** What the invariant says *)

Lemma tick_total w l u ts p : clock_at w c l u -> exists r, tick_step c ts w p = Returns r.
Proof.
  intros Hat. destruct p as [|p|st]; [by eexists| |by eexists].
  destruct (thread_step l p) as [[l' q] r] eqn:E.
  destruct (tick_lock_at _ _ _ _ _ ts _ _ _ _ Hat E) as (w' & Hw & _). by eexists.
Qed.

Lemma kinv_missing k l u log :
  kinv k l u log -> k_reads k = k_ticks k \/ exists t, k_ticks k = k_reads k ++ [t].
Proof.
  intros Hi. pose proof (r_live _ (ki_ring _ _ _ _ Hi)) as Hl. apply ki_stamps in Hi.
  unfold stamps in Hi. simpl in Hl. destruct (state_ l); try done.
  all: try (destruct Hi as [_ Hi]; destruct (pending _ _); [right; by eexists|by left]).
  destruct (k_clock k) as [|ts [|[]|]|]; naive_solver.
Qed.

Lemma kinv_between k l u log :
  kinv k l u log -> k_clock k = KOut -> k_reads k = k_ticks k.
Proof.
  intros [_ Hr _ _ Hst] Hk.
  assert (state_ l = kARunning) as Hs.
  { destruct k as [w clk ctl ticks reads]. simpl in Hk. subst clk.
    by destruct (ring_step_cases _ 0%nat _ Hr eq_refl) as [Hs _]. }
  unfold stamps in Hst. by rewrite Hs, Hk in Hst.
Qed.

Lemma kinv_update k l u log read :
  kinv k l u log -> k_control k = CUpdate read ->
  (k_clock k = KFailed \/ exists ts, k_clock k = KTick ts (TLock SAWait))
  /\ last (k_ticks k) = Some u.
Proof.
  intros [_ Hr Hsh _ Hst] Hk. destruct k as [w clk ctl ticks reads]. simpl in Hk, Hsh. subst ctl.
  destruct (ring_step_cases _ 1%nat _ Hr eq_refl) as [Hs _]. simpl in Hs.
  split; [|rewrite Hs in Hst; apply Hst].
  pose proof (ring_step_cases _ 0%nat _ Hr eq_refl) as H0. simpl in H0.
  destruct clk as [|ts [|p|]|]; simpl in H0; [destruct H0; congruence..| |done|by left].
  destruct p; try done; try (destruct H0; congruence). right. by exists ts.
Qed.

(** C25: one tick is one control update.  For a clock that holds Operation A on its two
    segments:
    - A tick whose control process takes its turn returns OK: after the first five
      steps of the tick Operation B can start, the new timestamp is in shared memory,
      and once Operation B was performed on the lockstep the tick returns OK with the
      clock holding Operation A.
    - In every interleaving of the ticks, up to the first one that fails, with the
      control process, at the granularity of single accesses: no access aborts; the
      timestamps that the updates have read are the timestamps of the ticks, in order,
      each once, with at most the last one still to be read; whenever the clock owner
      is between two ticks none is missing; and while Operation B runs the clock owner
      waits in its tick, or its tick has failed at the deadline, and the shared memory
      holds the timestamp of the latest tick. *)
Theorem tick_runs_one_update timeout w l u :
  clock_at w c l u -> holds_a l ->
  (forall timestamp, exists w1 l1 lb le, clock_at w1 c l1 timestamp
     /\ (forall icon,
          TickBlockingWithDeadline sizeof_header timeout (replicate 5 (fun w => w) ++ icon)
            c timestamp w = tick_run sizeof_header timeout c timestamp icon w1 (TLock SAWait))
     /\ StartOperationB l1 = Some (RtOkStatus, lb) /\ EndOperationB lb = Some (RtOkStatus, le)
     /\ forall icon : world -> world, clock_at (icon w1) c le timestamp ->
        exists w' l',
          TickBlockingWithDeadline sizeof_header timeout (replicate 5 (fun w => w) ++ [icon])
            c timestamp w = Returns (RtOkStatus, w')
          /\ clock_at w' c l' timestamp /\ holds_a l')
  /\ (forall k, rtc kstep (mkKConfig w KOut CIdle [] []) k ->
       exists l' u', clock_at (k_world k) c l' u'
       /\ (forall ts p, k_clock k = KTick ts p ->
             exists r, tick_step c ts (k_world k) p = Returns r)
       /\ (k_reads k = k_ticks k \/ exists t, k_ticks k = k_reads k ++ [t])
       /\ (k_clock k = KOut -> k_reads k = k_ticks k)
       /\ (forall read, k_control k = CUpdate read ->
             (k_clock k = KFailed \/ exists ts, k_clock k = KTick ts (TLock SAWait))
             /\ last (k_ticks k) = Some u')).
Proof.
  intros Hat Hh. split; [intros ts; by eapply tick_completes|].
  intros k Hr. assert (exists l u log, kinv k l u log) as (l' & u' & log & Hi).
  { eapply (rtc_invariant kstep (fun k => exists l u log, kinv k l u log));
      [intros a b; apply kinv_step|by eapply kinv_initial|exact Hr]. }
  exists l', u'. split; [apply Hi|]. split; [|split; [|split]].
  - intros ts p _. by eapply tick_total, Hi.
  - by eapply kinv_missing.
  - by eapply kinv_between.
  - intros read. by eapply kinv_update.
Qed.

(** ** A scheduler *)

Inductive kcmd := DoTick (timestamp : Z) | DoClock | DoControl.

Definition kexec k (d : kcmd) : option kconfig :=
  let '(mkKConfig w clk ctl ticks reads) := k in
  match d with
  | DoTick ts =>
      match clk with
      | KOut => Some (mkKConfig w (KTick ts TStore) ctl (ticks ++ [ts]) reads)
      | _ => None
      end
  | DoClock =>
      match clk with
      | KTick ts p =>
          match tick_step c ts w p with
          | Returns (w', q) => Some (mkKConfig w' (clock_after ts q) ctl ticks reads)
          | _ => None
          end
      | _ => None
      end
  | DoControl =>
      match ctl with
      | CIdle => Some (mkKConfig w clk (CLock SBWait) ticks reads)
      | CLock p =>
          match control_step w p with
          | Returns (q, w') => Some (mkKConfig w' clk q ticks reads)
          | _ => None
          end
      | CUpdate false =>
          match GetValue w (update_ c) with
          | Some (VUpdate u) => Some (mkKConfig w clk (CUpdate true) ticks (reads ++ [u]))
          | _ => None
          end
      | CUpdate true =>
          match control_step w InB with
          | Returns (q, w') => Some (mkKConfig w' clk q ticks reads)
          | _ => None
          end
      end
  end.

Fixpoint kexec_all k (ds : list kcmd) : option kconfig :=
  match ds with
  | [] => Some k
  | d :: ds => match kexec k d with Some k' => kexec_all k' ds | None => None end
  end.

Lemma kexec_kstep k d k' : kexec k d = Some k' -> kstep k k'.
Proof.
  destruct k as [w clk ctl ticks reads]. destruct d; cbn [kexec].
  - destruct clk; intros [= <-]. apply ks_tick.
  - destruct clk as [|ts p|]; try done. destruct (tick_step c ts w p) as [[w' q]|] eqn:E; [|done].
    intros [= <-]. by apply ks_clock.
  - destruct ctl as [|p|[]].
    + intros [= <-]. apply ks_start.
    + destruct (control_step w p) as [[q w']|] eqn:E; [|done]. intros [= <-]. by apply ks_control.
    + destruct (control_step w InB) as [[q w']|] eqn:E; [|done]. intros [= <-]. by apply ks_end.
    + destruct (GetValue w (update_ c)) as [[]|] eqn:E; try done. intros [= <-]. by apply ks_read.
Qed.

Lemma kexec_all_rtc k ds k' : kexec_all k ds = Some k' -> rtc kstep k k'.
Proof.
  revert k. induction ds as [|d ds IH]; simpl; intros k Hk; simplify_eq; [done|].
  destruct (kexec k d) as [k1|] eqn:E; [|done].
  eapply rtc_l; [by eapply kexec_kstep|auto].
Qed.

End ClockRuns.

(** ** A run *)

(** Two ticks on the clock of [RealtimeClock]: the first is completed, in the second
    the control process has not yet started its update. *)
Definition two_ticks : list kcmd :=
  DoTick 1000 :: replicate 6 DoClock ++ replicate 6 DoControl ++ replicate 2 DoClock
    ++ DoTick 2000 :: replicate 5 DoClock.

Definition ex_after : kconfig (F := BinaryFutex) (O := unit) :=
  let k0 := mkKConfig ex_clock_world KOut CIdle [] [] in
  default k0 (kexec_all 256 ex_clock k0 two_ticks).

Lemma ex_holds_a : holds_a ex_lockstep.
Proof. vm_compute. repeat split; auto. Qed.

Lemma tick_runs_one_update_witness :
  k_ticks ex_after = [1000; 2000] /\ k_reads ex_after = [1000]
  /\ (exists t, k_ticks ex_after = k_reads ex_after ++ [t])
  /\ exists (w1 : world ex_value) l1 lb,
       clock_at 256 w1 ex_clock l1 1000 /\ StartOperationB l1 = Some (RtOkStatus, lb).
Proof.
  destruct (tick_runs_one_update 256 ex_clock ex_timeout ex_clock_world ex_lockstep 0
    ex_clock_at ex_holds_a) as [H1 H2].
  split; [vm_compute; reflexivity|]. split; [vm_compute; reflexivity|]. split.
  - destruct (H2 ex_after) as (l' & u' & _ & _ & Hm & _).
    + apply (kexec_all_rtc _ _ _ two_ticks). vm_compute. reflexivity.
    + destruct Hm as [Hm|Hm]; [vm_compute in Hm; discriminate Hm|exact Hm].
  - destruct (H1 1000) as (w1 & l1 & lb & le & Hc & _ & Hb & _). exists w1, l1, lb. exact (conj Hc Hb).
Defined.
