(* ===== verification/Interfaces.v ===== *)
(** * Hardware interfaces
    ([icon/hal/get_hardware_interface.h], [hardware_interface_handle.h],
     [hardware_interface_registry.{h,cc}], [hardware_interface_traits.h],
     [icon_state_register.h], [control_period_register.h],
     [interfaces/icon_state_utils.cc], [interfaces/control_period_utils.cc])

    A module advertises typed interfaces, each in a segment of its own; a handle is
    given out after the type and the version in the header of the segment and, for a
    flatbuffer table, its content have been checked.  A strict handle yields a value
    only if it was written in the control cycle that the segment [icon_state] shows. *)
From S2P Require Import Prelude Status SegmentHeader SharedMemory MemorySegment SegmentRuns RealtimeClock.

(** The values in the segments of a module: two fixed structs, and the payloads of the
    other segments. *)
Inductive payload (P : Type) :=
| IconState (current_cycle : Z)
| ControlPeriod (control_period_ns : Z)
| Payload (p : P).
Arguments IconState {P}.
Arguments ControlPeriod {P}.
Arguments Payload {P}.

(** What is registered for an interface type: its name, and for a flatbuffer table the
    verifier of the flatbuffer library, given the buffer and its size. *)
Record interface_type (P : Type) := mkInterfaceType {
  kTypeString : string;
  sizeof_T : Z;
  verifier : option (payload P -> Z -> bool) }.
Arguments mkInterfaceType {P}.
Arguments kTypeString {P}.
Arguments sizeof_T {P}.
Arguments verifier {P}.

(** [BuildIconState()]: the largest unsigned number in a signed field. *)
Definition BuildIconState {P} : payload P := IconState (wrap_s 64 u64_max).
(** [BuildControlPeriod()] *)
Definition BuildControlPeriod {P} : payload P := ControlPeriod 0.

Definition kIconStateInterfaceName : string := "icon_state".
Definition IconState_type {P} (sizeof_IconState : Z) : interface_type P :=
  mkInterfaceType "intrinsic_fbs.IconState" sizeof_IconState None.
Definition kControlPeriodInterfaceName : string := "control_period".
Definition ControlPeriod_type {P} (sizeof_ControlPeriod : Z) : interface_type P :=
  mkInterfaceType "intrinsic_fbs.ControlPeriod" sizeof_ControlPeriod None.

(** [HardwareInterfaceHandle<T>] and [MutableHardwareInterfaceHandle<T>] *)
Record InterfaceHandle := mkInterfaceHandle {
  segment_ : MemorySegment;
  hardware_interface_ : option Z }.

(** [StrictHardwareInterfaceHandle<T>] and [MutableStrictHardwareInterfaceHandle<T>] *)
Record StrictHandle := mkStrictHandle {
  strict_interface_ : InterfaceHandle;
  icon_state_ : InterfaceHandle }.

Section Interfaces.
Context {P : Type} `{IterOrder}.
Context (StrError : Z -> string) (sizeof_header sizeof_IconState : Z).
Notation V := (payload P).
Implicit Types (w : world V) (m : SharedMemoryManager) (T : interface_type P).

(** ** Opening interfaces *)

(** [SegmentHeaderIsValid<T>(segment_header, interface_name)] *)
Definition SegmentHeaderIsValid T (segment_header : SegmentHeader) (interface_name : string) : Status :=
  if negb (Version segment_header =? ExpectedVersion) then
    FormatStatus kInvalidArgument
      ("Version mismatch: Interface '" ++ interface_name ++ "' has version '"
         ++ pretty (Version segment_header) ++ "' but expected version '"
         ++ pretty ExpectedVersion ++ "'")
  else if decide (TypeID (Type_ segment_header) <> kTypeString T) then
    FormatStatus kInvalidArgument
      ("Type mismatch: Interface '" ++ interface_name ++ "' has type '"
         ++ TypeID (Type_ segment_header) ++ "' but expected type '" ++ kTypeString T ++ "'")
  else OkStatus.

(** [FlatbufferIsValid<T>(buffer, buffer_size, interface_name)] *)
Definition FlatbufferIsValid T (buffer : V) (buffer_size : Z) (interface_name : string) : Status :=
  match verifier T with
  | Some VerifyBuffer =>
      if negb (VerifyBuffer buffer buffer_size) then
        FormatStatus kInvalidArgument
          ("Flatbuffer verification failed for interface '" ++ interface_name
             ++ "'. This can be due to a version mismatch of your resources.")
      else OkStatus
  | None => OkStatus
  end.

(** The constructor of a handle: [GetRoot] of the raw value. *)
Definition new_InterfaceHandle (segment : MemorySegment) : InterfaceHandle :=
  mkInterfaceHandle segment (value_ segment).

(** The checks of an opened segment.  A segment that fails them goes out of scope. *)
Definition check_segment T (interface_name : string) (segment : MemorySegment) w
  : checked (expected InterfaceHandle Status * world V) :=
  match Header w segment, GetValue w segment with
  | Some header, Some value =>
      let st1 := SegmentHeaderIsValid T header interface_name in
      if negb (status_ok st1) then Returns (Unexpected st1, CleanUpSharedMemory w segment)
      else
        let st2 := FlatbufferIsValid T value (ValueSize sizeof_header segment) interface_name in
        if negb (status_ok st2) then Returns (Unexpected st2, CleanUpSharedMemory w segment)
        else Returns (Value (new_InterfaceHandle segment), w)
  | _, _ => Aborts "undefined behaviour"
  end.

(** [GetInterfaceHandle<T>] ([kind] is [kReadOnly]) and [GetMutableInterfaceHandle<T>]
    ([kReadWrite]) on a manager.  (The overloads on a map of descriptors cannot be
    instantiated, since they call [Get] without its logger; they are not modelled.) *)
Definition open_handle (kind : ReadWriteKind) T (k : kernel V) m
    (interface_name : string) w : checked (expected InterfaceHandle Status * world V) :=
  match manager_Get StrError sizeof_header kind (sizeof_T T) (k_get k w) m interface_name w with
  | (Unexpected e, w1) => Returns (Unexpected e, w1)
  | (Value segment, w1) => check_segment T interface_name segment w1
  end.

Definition GetInterfaceHandle T (k : kernel V) m (interface_name : string) w
  : checked (expected InterfaceHandle Status * world V) :=
  open_handle kReadOnly T k m interface_name w.
Definition GetMutableInterfaceHandle T (k : kernel V) m (interface_name : string) w
  : checked (expected InterfaceHandle Status * world V) :=
  open_handle kReadWrite T k m interface_name w.

(** The second half of a strict handle; the first one is closed when it fails. *)
Definition with_icon_state (k : kernel V) m (handle : InterfaceHandle) w
  : checked (expected StrictHandle Status * world V) :=
  cbind (GetInterfaceHandle (IconState_type sizeof_IconState) k m kIconStateInterfaceName w)
    (fun '(r, w1) =>
       match r with
       | Unexpected e => Returns (Unexpected e, CleanUpSharedMemory w1 (segment_ handle))
       | Value icon_state => Returns (Value (mkStrictHandle handle icon_state), w1)
       end).

(** [GetStrictInterfaceHandle<T>] and [GetMutableStrictInterfaceHandle<T>] *)
Definition GetStrictInterfaceHandle T (k : kernel V) m (interface_name : string) w
  : checked (expected StrictHandle Status * world V) :=
  cbind (GetInterfaceHandle T k m interface_name w) (fun '(r, w1) =>
    match r with
    | Unexpected e => Returns (Unexpected e, w1)
    | Value handle => with_icon_state k m handle w1
    end).
Definition GetMutableStrictInterfaceHandle T (k : kernel V) m (interface_name : string) w
  : checked (expected StrictHandle Status * world V) :=
  cbind (GetMutableInterfaceHandle T k m interface_name w) (fun '(r, w1) =>
    match r with
    | Unexpected e => Returns (Unexpected e, w1)
    | Value handle => with_icon_state k m handle w1
    end).

(** [GetHardwareModuleInfo] reads the segment [kModuleInfoName]; the names come from
    [SharedMemory]. *)
Definition GetInterfacesFromModuleInfo := GetNamesFromSegmentInfo.
Definition GetRequiredInterfacesFromModuleInfo := GetRequiredInterfaceNamesFromSegmentInfo.

(** ** Handles *)

(** [operator*] and [operator->]: undefined on a default-constructed handle. *)
Definition deref w (h : InterfaceHandle) : option V :=
  hardware_interface_ h ≫= (fun _ => GetValue w (segment_ h)).
Definition handle_header w (h : InterfaceHandle) : option SegmentHeader := Header w (segment_ h).
Definition handle_NumUpdates w (h : InterfaceHandle) : option Z := NumUpdates <$> handle_header w h.
Definition handle_LastUpdatedTime w (h : InterfaceHandle) : option Z :=
  LastUpdatedTime <$> handle_header w h.
Definition handle_LastUpdatedCycle w (h : InterfaceHandle) : option Z :=
  LastUpdatedCycle <$> handle_header w h.

(** [UpdatedAt(time, logger)], with the cycle counter of the process. *)
Definition handle_UpdatedAt (current_cycle_ : Z) w (h : InterfaceHandle) (time : Z) : world V :=
  segment_UpdatedAt w (segment_ h) time (GetCurrentCycle current_cycle_).

(** A change of the value through the pointer of a mutable handle. *)
Definition mutate w (h : InterfaceHandle) (v : V) : world V :=
  match hardware_interface_ h with Some _ => SetValue w (segment_ h) v | None => w end.

(** [WasUpdatedThisCycle(icon_state, hw_interface)]; [None] if a handle is empty. *)
Definition inconsistent : RealtimeStatus :=
  FormatRealtimeStatus kFailedPrecondition "Cycle count of ICON state is inconsistent.".
Definition not_updated (icon_cycle command_cycle : Z) : RealtimeStatus :=
  FormatRealtimeStatus kFailedPrecondition
    ("Command was not updated this cycle. icon_cycle (" ++ pretty icon_cycle
       ++ ") != command_cycle (" ++ pretty command_cycle ++ ")").
Definition WasUpdatedThisCycle w (icon_state hw_interface : InterfaceHandle)
  : option RealtimeStatus :=
  match handle_LastUpdatedCycle w icon_state, deref w icon_state with
  | Some icon_updated, Some (IconState current_cycle) =>
      if negb (wrap_s 64 icon_updated =? current_cycle) then Some inconsistent
      else
        match handle_LastUpdatedCycle w hw_interface with
        | Some updated =>
            if negb (wrap_s 64 updated =? current_cycle) then Some (not_updated current_cycle updated)
            else Some RtOkStatus
        | None => None
        end
  | _, _ => None
  end.

(** [Value()] of both strict handles, and [MutableValue()] *)
Definition Value_ w (h : StrictHandle) : option (expected V RealtimeStatus) :=
  match WasUpdatedThisCycle w (icon_state_ h) (strict_interface_ h) with
  | Some status =>
      if negb (rt_ok status) then Some (Unexpected status)
      else Value <$> deref w (strict_interface_ h)
  | None => None
  end.
Definition MutableValue w (h : StrictHandle) (v : V) : world V := mutate w (strict_interface_ h) v.

(** The marks of both strict handles, and [UpdatedAt(time, logger)] of the mutable one. *)
Definition strict_NumUpdates w (h : StrictHandle) : option Z := handle_NumUpdates w (strict_interface_ h).
Definition strict_LastUpdatedTime w (h : StrictHandle) : option Z :=
  handle_LastUpdatedTime w (strict_interface_ h).
Definition strict_LastUpdatedCycle w (h : StrictHandle) : option Z :=
  handle_LastUpdatedCycle w (strict_interface_ h).
Definition strict_UpdatedAt (current_cycle_ : Z) w (h : StrictHandle) (time : Z) : world V :=
  handle_UpdatedAt current_cycle_ w (strict_interface_ h) time.

(** [UpdateControlPeriod(handle, duration, logger)]; [now] is [Now()]. *)
Definition UpdateControlPeriod (current_cycle_ now : Z) w (handle : InterfaceHandle) (duration : Z)
  : Status * world V :=
  if duration <=? 0 then
    (FormatStatus kFailedPrecondition
       ("Control period must be > 0, got " ++ pretty duration
          ++ " ns. Check your configuration."), w)
  else (OkStatus, handle_UpdatedAt current_cycle_ (mutate w handle (ControlPeriod duration)) handle now).

(** ** [HardwareInterfaceRegistry] *)

(** [AdvertiseInterfaceT(interface_name, must_be_used, buffer, type_id)] *)
Definition AdvertiseInterfaceT (env : init_env) (interface_name : string) (must_be_used : bool)
    (buffer : V) (buffer_size : Z) (type_id : string) w m : Status * world V * SharedMemoryManager :=
  let '(st, w1, m1) :=
    AddRawSegment StrError sizeof_header env interface_name must_be_used buffer_size type_id w m in
  if negb (status_ok st) then (st, w1, m1)
  else
    (OkStatus,
     match GetRawSegment m1 interface_name with
     | Some shm_data => update_at w1 shm_data (fun f => mkFile (f_size f) (f_header f) (Some buffer))
     | None => w1
     end, m1).

(** The common part of the functions below: advertise the message that was built, then
    open it. *)
Definition advertise {R} (k : kernel V) T (must_be_used : bool)
    (get : SharedMemoryManager -> string -> world V -> checked (expected R Status * world V))
    (interface_name : string) (buffer : V) (buffer_size : Z) w m
  : checked (expected R Status * world V * SharedMemoryManager) :=
  let '(st, w1, m1) :=
    AdvertiseInterfaceT (k_init k w) interface_name must_be_used buffer buffer_size
      (kTypeString T) w m in
  if negb (status_ok st) then Returns (Unexpected st, w1, m1)
  else cbind (get m1 interface_name w1) (fun '(r, w2) => Returns (r, w2, m1)).

Definition AdvertiseInterface (k : kernel V) T := advertise k T false (GetInterfaceHandle T k).
Definition AdvertiseMutableInterface (k : kernel V) T :=
  advertise k T false (GetMutableInterfaceHandle T k).
Definition AdvertiseStrictInterface (k : kernel V) T :=
  advertise k T true (GetStrictInterfaceHandle T k).
Definition AdvertiseMutableStrictInterface (k : kernel V) T :=
  advertise k T true (GetMutableStrictInterfaceHandle T k).

(** [GetInterfaceHandle<T>] and [GetMutableInterfaceHandle<T>] of a registered interface *)
Definition registry_GetInterfaceHandle (k : kernel V) T m := GetInterfaceHandle T k m.
Definition registry_GetMutableInterfaceHandle (k : kernel V) T m := GetMutableInterfaceHandle T k m.

(** [Size()], [ModuleName()], [SharedMemoryNamespace()] *)
Definition registry_Size m : nat := length (GetRegisteredMemoryNames m).
Definition registry_ModuleName m : string := ModuleName m.
Definition registry_SharedMemoryNamespace m : string := SharedMemoryNamespace m.

End Interfaces.
