(* ===== verification/InterfacesProofs.v ===== *)
(** * Correctness of the hardware interfaces *)
From S2P Require Import Prelude Status SegmentHeader SharedMemory SharedMemoryProofs MemorySegment.
From S2P Require Import MemorySegmentProofs SegmentRuns RealtimeClock Interfaces.

Section Typed.
Context {P : Type} `{IterOrder}.
Context (StrError : Z -> string) (sizeof_header : Z).
Notation V := (payload P).
Implicit Types (w : world V) (m : SharedMemoryManager) (T : interface_type P).

Notation open_handle := (open_handle StrError sizeof_header).
Notation GetInterfaceHandle := (GetInterfaceHandle StrError sizeof_header).
Notation AdvertiseMutableInterface := (AdvertiseMutableInterface StrError sizeof_header).

(** The content is acceptable for the type. *)
Definition verified T (v : V) (n : Z) : Prop :=
  match verifier T with Some VerifyBuffer => VerifyBuffer v n = true | None => True end.

Lemma SegmentHeaderIsValid_ok T hd name :
  status_ok (SegmentHeaderIsValid T hd name) = true
  <-> Version hd = ExpectedVersion /\ TypeID (Type_ hd) = kTypeString T.
Proof.
  unfold SegmentHeaderIsValid. destruct (Z.eqb_spec (Version hd) ExpectedVersion) as [->|]; cbn [negb].
  - case_decide as Ht; rewrite ?status_ok_Format.
    + rewrite bool_decide_false by done. split; [done|]. intros [_ E]. by destruct Ht.
    + done.
  - rewrite status_ok_Format, bool_decide_false by done. split; [done|]. by intros [? _].
Qed.

Lemma FlatbufferIsValid_ok T v n name :
  status_ok (FlatbufferIsValid T v n name) = true <-> verified T v n.
Proof. unfold FlatbufferIsValid, verified. destruct (verifier T) as [f|]; [|done]. by destruct (f v n). Qed.

(** The segment passes the checks exactly when version, type and content agree. *)
Lemma check_segment_ok T name s w hd v :
  Header w s = Some hd -> GetValue w s = Some v ->
  Version hd = ExpectedVersion -> TypeID (Type_ hd) = kTypeString T ->
  verified T v (ValueSize sizeof_header s) ->
  check_segment sizeof_header T name s w = Returns (Value (new_InterfaceHandle s), w).
Proof.
  intros Hh Hv H1 H2 H3. unfold check_segment. rewrite Hh, Hv.
  rewrite (proj2 (SegmentHeaderIsValid_ok T hd name)) by done. cbn [negb].
  by rewrite (proj2 (FlatbufferIsValid_ok T v _ name)).
Qed.

Lemma check_segment_typed T name s w h w' :
  check_segment sizeof_header T name s w = Returns (Value h, w') ->
  w' = w /\ h = new_InterfaceHandle s
  /\ exists hd v, Header w s = Some hd /\ GetValue w s = Some v
       /\ Version hd = ExpectedVersion /\ TypeID (Type_ hd) = kTypeString T
       /\ verified T v (ValueSize sizeof_header s).
Proof.
  unfold check_segment. destruct (Header w s) as [hd|]; [|done]. destruct (GetValue w s) as [v|]; [|done].
  destruct (status_ok (SegmentHeaderIsValid T hd name)) eqn:H1; cbn [negb]; [|done].
  destruct (status_ok (FlatbufferIsValid T v _ name)) eqn:H2; cbn [negb]; [|done].
  intros [= <- <-]. repeat (split; [done|]). exists hd, v.
  apply SegmentHeaderIsValid_ok in H1 as [? ?]. apply FlatbufferIsValid_ok in H2. done.
Qed.

(** ** A rejected segment leaves no trace *)

Lemma opened_closed kind (hd : SegmentHeader) :
  0 <= ReaderRefCount hd < int_max -> 0 <= WriterRefCount hd < int_max ->
  closed kind (opened kind hd) = hd.
Proof.
  unfold int_max. intros Hr Hw. destruct hd as [? r wc ? ? ? ? ?]. simpl in *.
  assert (forall n, 0 <= n < 2 ^ 31 - 1 -> DecrementRefCount (IncrementRefCount n) = n) as Hd.
  { intros n Hn. unfold DecrementRefCount, IncrementRefCount. rewrite wrap_s_id by (unfold in_s; lia).
    destruct (Z.ltb_spec 0 (n + 1)); lia. }
  destruct kind; simpl; unfold DecrementReaderRefCount, DecrementWriterRefCount, set_readers, set_writers;
    simpl; rewrite ?Hd by done; done.
Qed.

Lemma close_opened_world kind w a i f hd name k :
  w_maps w !! a = None -> w_files w !! i = Some f -> f_header f = Some hd ->
  0 <= ReaderRefCount hd < int_max -> 0 <= WriterRefCount hd < int_max ->
  CleanUpSharedMemory (opened_world w kind a i f)
    (mkMemorySegment name (Some a) (Some (a + sizeof_header)) k kind) = w.
Proof.
  intros Ha Hf Hh Hr Hw. rewrite (CleanUp_closed _ _ a) by done. cbn [read_write_kind_].
  unfold on_header, update_at, mapped, opened_world, munmap. cbn [w_maps w_files w_fds].
  rewrite lookup_insert_eq. cbn [fmap option_fmap option_map fst w_files w_fds w_maps].
  rewrite delete_insert_id by done. rewrite alter_insert_eq. cbn [f_size f_header f_value].
  rewrite Hh. cbn [fmap option_fmap option_map]. rewrite opened_closed by done. rewrite <-Hh.
  destruct f as [sz fh fv]. cbn [f_size f_header f_value] in *. rewrite insert_id by done. by destruct w.
Qed.

(** Opening a segment from a map of descriptors, on a working kernel: the segment that
    is opened, what it shows, and the checks that a handle makes. *)
Lemma open_segment_cases kind T env name w fds a fd i f hd v :
  env = mkGetEnv None (inr a) None -> fds !! name = Some fd -> 0 <= fd ->
  w_fds w !! fd = Some i -> w_files w !! i = Some f -> f_header f = Some hd -> f_value f = Some v ->
  w_maps w !! a = None -> 0 < sizeof_T T -> sizeof_header + sizeof_T T <= f_size f -> 0 <= sizeof_header ->
  0 <= ReaderRefCount hd < int_max -> 0 <= WriterRefCount hd < int_max -> kind <> kUnknown ->
  let s := mkMemorySegment name (Some a) (Some (a + sizeof_header)) (f_size f) kind in
  let w' := opened_world w kind a i f in
  GetSegment StrError sizeof_header kind (sizeof_T T) env fds name w = (Value s, w')
  /\ (Version hd = ExpectedVersion -> TypeID (Type_ hd) = kTypeString T ->
      verified T v (f_size f - sizeof_header) ->
      check_segment sizeof_header T name s w' = Returns (Value (new_InterfaceHandle s), w'))
  /\ (TypeID (Type_ hd) <> kTypeString T ->
      exists st, check_segment sizeof_header T name s w' = Returns (Unexpected st, w)
        /\ st_code st = kInvalidArgument)
  /\ GetValue w' s = Some v /\ Header w' s = Some (opened kind hd).
Proof.
  intros Ek Hn Hfd Hi Hf Hh Hv Ha Ht Hsz H0 Hr Hw Hk s w'.
  assert (manager_Get StrError sizeof_header kind (sizeof_T T) env
            (mkSharedMemoryManager ∅ fds "" "") name w = (Value s, w'))
    as Hget by (by eapply manager_Get_opened).
  assert (file_at w' a = Some (mkFile (f_size f) (opened kind <$> f_header f) (f_value f))) as Hat.
  { unfold file_at, mapped, w', opened_world. cbn [w_maps w_files]. rewrite lookup_insert_eq. simpl.
    by rewrite lookup_insert_eq. }
  assert (Header w' s = Some (opened kind hd)) as Hhd.
  { unfold Header, s. cbn [header_ mbind option_bind]. rewrite Hat. simpl. by rewrite Hh. }
  assert (GetValue w' s = Some v) as Hval.
  { unfold GetValue, s. cbn [header_ mbind option_bind]. rewrite Hat. simpl. by rewrite Hv. }
  assert (Version (opened kind hd) = Version hd /\ Type_ (opened kind hd) = Type_ hd) as [HV HT]
    by (by destruct kind).
  split; [exact Hget|]. split; [|split; [|done]].
  - intros H1 H2 H3. apply (check_segment_ok T name s w' (opened kind hd) v); [done..|by rewrite HV|by rewrite HT|].
    unfold ValueSize, s, IsValid. cbn [size_ value_]. rewrite bool_decide_true by by eexists. simpl.
    by rewrite (proj2 (Z.ltb_ge _ _)) by lia.
  - intros Hne. unfold check_segment. rewrite Hhd, Hval.
    destruct (status_ok (SegmentHeaderIsValid T (opened kind hd) name)) eqn:E.
    { apply SegmentHeaderIsValid_ok in E as [_ E]. rewrite HT in E. done. }
    cbn [negb]. eexists. split.
    { f_equal. f_equal. apply (close_opened_world kind w a i f hd); done. }
    unfold SegmentHeaderIsValid in *. destruct (negb _); [done|]. by case_decide.
Qed.

(** The same through a manager. *)
Lemma get_handle_cases kind T k name w m a fd i f hd v :
  k_get k w = mkGetEnv None (inr a) None ->
  segment_name_to_file_descriptor_map_ m !! name = Some fd -> 0 <= fd ->
  w_fds w !! fd = Some i -> w_files w !! i = Some f -> f_header f = Some hd -> f_value f = Some v ->
  w_maps w !! a = None -> 0 < sizeof_T T -> sizeof_header + sizeof_T T <= f_size f -> 0 <= sizeof_header ->
  0 <= ReaderRefCount hd < int_max -> 0 <= WriterRefCount hd < int_max -> kind <> kUnknown ->
  let s := mkMemorySegment name (Some a) (Some (a + sizeof_header)) (f_size f) kind in
  let w' := opened_world w kind a i f in
  let r := open_handle kind T k m name w in
  (Version hd = ExpectedVersion -> TypeID (Type_ hd) = kTypeString T ->
   verified T v (f_size f - sizeof_header) -> r = Returns (Value (new_InterfaceHandle s), w'))
  /\ (TypeID (Type_ hd) <> kTypeString T ->
      exists st, r = Returns (Unexpected st, w) /\ st_code st = kInvalidArgument)
  /\ GetValue w' s = Some v /\ Header w' s = Some (opened kind hd).
Proof.
  intros Ek Hn Hfd Hi Hf Hh Hv Ha Ht Hsz H0 Hr Hw Hk s w' r.
  destruct (open_segment_cases kind T (k_get k w) name w (segment_name_to_file_descriptor_map_ m)
    a fd i f hd v) as (Hget & Hcases); [done..|].
  unfold r, Interfaces.open_handle, manager_Get. by rewrite Hget.
Qed.

(** A type that does not fit into the segment: [Get] fails after the mapping was made. *)
Lemma get_handle_too_large kind T k name w m a fd i f :
  k_get k w = mkGetEnv None (inr a) None ->
  segment_name_to_file_descriptor_map_ m !! name = Some fd -> 0 <= fd ->
  w_fds w !! fd = Some i -> w_files w !! i = Some f ->
  sizeof_header < f_size f < sizeof_header + sizeof_T T ->
  exists st, open_handle kind T k m name w
      = Returns (Unexpected st, mkWorld (w_files w) (w_fds w) (<[a := (i, f_size f)]> (w_maps w)))
    /\ st_code st = kInternal.
Proof.
  intros Ek Hn Hfd Hi Hf Hsz. unfold Interfaces.open_handle, manager_Get, GetSegment, Get. rewrite Hn, Ek.
  rewrite (proj2 (Z.eqb_neq fd (-1))) by lia. simpl. rewrite Hi. simpl. rewrite Hf. simpl.
  rewrite (proj2 (Z.leb_gt _ _)) by lia. simpl. unfold SharedMemorySegmentFitsLowerSizeBound.
  rewrite (proj2 (Z.ltb_lt _ _)) by lia. rewrite status_ok_Format, bool_decide_false by done.
  simpl. by eexists.
Qed.

(** ** Advertising *)

Lemma advertise_ok kind k T name must_be_used buffer n w m :
  reliable k -> accepts m name (kTypeString T) -> kind <> kUnknown ->
  0 <= sizeof_header -> 0 < sizeof_T T <= n -> sizeof_header + n < 2 ^ 64 -> verified T buffer n ->
  exists fd i a b, let N := sizeof_header + n in unused w fd i a b
    /\ advertise StrError sizeof_header k T must_be_used
         (open_handle kind T k) name buffer n w m
       = Returns (Value (new_InterfaceHandle
                           (mkMemorySegment name (Some b) (Some (b + sizeof_header)) N kind)),
                  attached w kind fd i a b N (kTypeString T) (Some buffer),
                  registered m name a N must_be_used fd).
Proof.
  intros [Hki Hkg] Hacc Hkind H0 Ht Hn Hver. destruct (Hki w) as (fd & i & a & Ei & Hfd0 & Hfd & Hi & Ha).
  set (N := sizeof_header + n). set (m1 := registered m name a N must_be_used fd).
  set (w1 := added w fd i a N (kTypeString T) (Some buffer)).
  assert (AdvertiseInterfaceT StrError sizeof_header (k_init k w) name must_be_used buffer n (kTypeString T) w m
          = (OkStatus, w1, m1)) as Hadv.
  { unfold AdvertiseInterfaceT, AddRawSegment. rewrite (InitSegment_added _ _ _ fd i a) by done.
    rewrite wrap_u_id by (split; lia). cbn [negb status_ok st_code OkStatus].
    unfold GetRawSegment, registered. cbn [memory_segments_]. rewrite lookup_insert_eq. cbn.
    unfold update_at, mapped, added. cbn [w_maps w_files w_fds]. rewrite lookup_insert_eq. cbn.
    by rewrite alter_insert_eq. }
  destruct (Hkg w1) as (b & Eg & Hb). pose proof Hb as Hb'. simpl in Hb.
  apply lookup_insert_None in Hb as [Hb Hab].
  exists fd, i, a, b. split; [by split|]. set (hd0 := new_SegmentHeader (kTypeString T)).
  destruct (get_handle_cases kind T k name w1 m1 b fd i (mkFile N (Some hd0) (Some buffer)) hd0 buffer)
    as (Hok & _ & _ & _); try done; try (simpl; apply lookup_insert_eq); try (simpl; lia).
  specialize (Hok eq_refl). cbn [f_size] in Hok.
  unfold advertise. rewrite Hadv. cbn [negb status_ok st_code OkStatus]. rewrite Hok.
  - unfold w1. by rewrite opened_added.
  - unfold hd0, Type_, new_SegmentHeader. cbn [type_info_].
    rewrite TypeID_new, take_ge by apply Hacc. apply str_chars.
  - unfold N. by rewrite Z.add_simpl_l.
Qed.

(** C28: An interface that was advertised can be opened by its type, and by no other: the
    advertising module gets a handle on the message it built, as the only writer;
    everyone who opens the interface with the same type reads this message.  Opening
    it with another type is refused: with InvalidArgument and without a trace when the
    type fits into the segment, and with Internal when it is larger, in which case the
    mapping that [Get] has made stays behind and nothing else has changed. *)
Theorem advertised_interface_opens k T name w m buffer n :
  reliable k -> accepts m name (kTypeString T) ->
  0 <= sizeof_header -> 0 < sizeof_T T <= n -> sizeof_header + n < 2 ^ 64 -> verified T buffer n ->
  exists h w' m', AdvertiseMutableInterface k T name buffer n w m = Returns (Value h, w', m')
    /\ deref w' h = Some buffer
    /\ (exists hd, handle_header w' h = Some hd /\ WriterRefCount hd = 1 /\ ReaderRefCount hd = 0
          /\ TypeID (Type_ hd) = kTypeString T)
    /\ (exists h2 w2, GetInterfaceHandle T k m' name w' = Returns (Value h2, w2)
          /\ deref w2 h2 = Some buffer)
    /\ forall T', kTypeString T' <> kTypeString T -> 0 < sizeof_T T' ->
         exists st w3, GetInterfaceHandle T' k m' name w' = Returns (Unexpected st, w3)
           /\ (sizeof_T T' <= n -> st_code st = kInvalidArgument /\ w3 = w')
           /\ (n < sizeof_T T' -> st_code st = kInternal /\
                exists c i, w_maps w' !! c = None
                  /\ w3 = mkWorld (w_files w') (w_fds w')
                            (<[c := (i, sizeof_header + n)]> (w_maps w'))).
Proof.
  intros Hk Hacc H0 Ht Hn Hver.
  destruct (advertise_ok kReadWrite k T name false buffer n w m) as (fd & i & a & b & Hu & Hadv); [done..|].
  set (N := sizeof_header + n) in *. set (w' := attached _ _ _ _ _ _ _ _ _) in *.
  set (m' := registered _ _ _ _ _ _) in *. set (s := mkMemorySegment _ _ _ _ _) in *.
  set (hd := opened kReadWrite (new_SegmentHeader (kTypeString T))).
  assert (w_files w' !! i = Some (mkFile N (Some hd) (Some buffer))) as Hf by (simpl; apply lookup_insert_eq).
  assert (file_at w' b = Some (mkFile N (Some hd) (Some buffer))) as Hat.
  { unfold file_at, mapped. simpl. rewrite lookup_insert_eq. simpl. by rewrite lookup_insert_eq. }
  assert (TypeID (Type_ hd) = kTypeString T) as Hty.
  { change (Type_ hd) with (new_TypeInfo (kTypeString T)).
    rewrite TypeID_new, take_ge by apply Hacc. apply str_chars. }
  exists (new_InterfaceHandle s), w', m'. split; [exact Hadv|].
  split; [unfold deref, GetValue; simpl; by rewrite Hat|].
  split; [exists hd; unfold handle_header, Header; simpl; by rewrite Hat|].
  destruct (re_get k Hk w') as (c & Ec & Hc).
  pose proof (fun T' => get_handle_cases kReadOnly T' k name w' m' c fd i _ hd buffer Ec
    (lookup_insert_eq _ _ _) (proj1 (un_fd _ _ _ _ _ Hu)) (lookup_insert_eq _ _ _) Hf eq_refl eq_refl Hc)
    as Hcases. cbn [f_size] in Hcases.
  split.
  - destruct (Hcases T) as (Hok & _ & Hval & _); [lia..|done|done|done|]. eexists _, _. split.
    + apply Hok; [done..|]. unfold N. by rewrite Z.add_simpl_l.
    + exact Hval.
  - intros T' Hne Ht'. destruct (decide (sizeof_T T' <= n)) as [Hle|Hgt].
    + destruct (Hcases T') as (_ & Hbad & _); [lia..|done|done|done|].
      destruct Hbad as (st & Hst & Hcode); [congruence|].
      exists st, w'. split; [exact Hst|]. split; [done|lia].
    + destruct (get_handle_too_large kReadOnly T' k name w' m' c fd i _ Ec (lookup_insert_eq _ _ _)
        (proj1 (un_fd _ _ _ _ _ Hu)) (lookup_insert_eq _ _ _) Hf) as (st & Hst & Hcode); [simpl; lia|].
      eexists st, _. split; [exact Hst|]. split; [lia|]. intros _. split; [done|]. by exists c, i.
Qed.

End Typed.

(** ** Strict handles *)

Section Strict.
Context {P : Type}.
Notation V := (payload P).
Implicit Types (w : world V) (h q : StrictHandle) (g : InterfaceHandle).

(** What other processes do: the control process writes the current cycle to the
    segment [icon_state] and marks the update, the owner of the interface writes its
    value through a mutable strict handle and marks the update.  The four writes come in any order. *)
Inductive iop :=
| SetCycle (cycle : Z)
| MarkCycle (time cycle : Z)
| SetPayload (v : V)
| MarkPayload (time cycle : Z).

Definition run_iop g q w (op : iop) : world V :=
  match op with
  | SetCycle cycle => mutate w g (IconState (wrap_s 64 cycle))
  | MarkCycle time cycle => handle_UpdatedAt cycle w g time
  | SetPayload v => MutableValue w q v
  | MarkPayload time cycle => strict_UpdatedAt cycle w q time
  end.

(** The specification: the latest of each of the four writes, and how often the interface
    was marked. *)
Record istate := mkIState {
  is_shown : Z;      (** the cycle in [icon_state] *)
  is_ticked : Z;     (** the cycle in which [icon_state] was marked *)
  is_value : V;
  is_marked : Z;     (** the cycle in which the interface was marked *)
  is_time : Z;       (** the time of that mark *)
  is_updates : Z }.  (** the number of marks *)

Definition istep (a : istate) (op : iop) : istate :=
  match op with
  | SetCycle cycle =>
      mkIState (wrap_s 64 cycle) (is_ticked a) (is_value a) (is_marked a) (is_time a) (is_updates a)
  | MarkCycle _ cycle =>
      mkIState (is_shown a) cycle (is_value a) (is_marked a) (is_time a) (is_updates a)
  | SetPayload v => mkIState (is_shown a) (is_ticked a) v (is_marked a) (is_time a) (is_updates a)
  | MarkPayload time cycle =>
      mkIState (is_shown a) (is_ticked a) (is_value a) cycle time (is_updates a + 1)
  end.

(** A reader gets the latest value if both marks are of the cycle shown, an error
    otherwise. *)
Definition strict_read (a : istate) : expected V RealtimeStatus :=
  if wrap_s 64 (is_ticked a) =? is_shown a then
    if wrap_s 64 (is_marked a) =? is_shown a then Value (is_value a)
    else Unexpected (not_updated (is_shown a) (is_marked a))
  else Unexpected inconsistent.

(** The handle of the reader and those of the writers are on the files [i] and [j]. *)
Definition on (w : world V) (x : InterfaceHandle) (i : nat) : Prop :=
  is_Some (hardware_interface_ x) /\ header_ (segment_ x) ≫= mapped w = Some i.
Record shares w h g q (i j : nat) : Prop := mkShares {
  sh_icon : on w (icon_state_ h) i /\ on w g i;
  sh_payload : on w (strict_interface_ h) j /\ on w (strict_interface_ q) j;
  sh_sep : i <> j }.

(** The content of a file. *)
Definition slot w (i : nat) : option (Z * V) :=
  match w_files w !! i with
  | Some (mkFile _ (Some hd) (Some v)) => Some (LastUpdatedCycle hd, v)
  | _ => None
  end.

(** The time of the latest mark of a file and the counter of its marks. *)
Definition stamp w (i : nat) : option (Z * Z) :=
  match w_files w !! i with
  | Some (mkFile _ (Some hd) _) => Some (LastUpdatedTime hd, NumUpdates hd)
  | _ => None
  end.

Record shows w (i j : nat) (a : istate) : Prop := mkShows {
  so_icon : slot w i = Some (is_ticked a, IconState (is_shown a));
  so_payload : slot w j = Some (is_marked a, is_value a);
  so_stamp : stamp w j = Some (is_time a, wrap_s 64 (is_updates a)) }.

Lemma on_reads w x i c v :
  on w x i -> slot w i = Some (c, v) -> handle_LastUpdatedCycle w x = Some c /\ deref w x = Some v.
Proof.
  intros [[p Hp] Hm] Hs. unfold handle_LastUpdatedCycle, handle_header, deref, Header, GetValue.
  rewrite Hp. simpl. destruct (header_ (segment_ x)) as [b|]; [|done]. simpl in *.
  unfold file_at. rewrite Hm. simpl. unfold slot in Hs.
  destruct (w_files w !! i) as [[? [hd|] [v'|]]|]; try done. simpl. by simplify_eq.
Qed.

Lemma on_stamp w x i t n :
  on w x i -> stamp w i = Some (t, n) -> handle_LastUpdatedTime w x = Some t /\ handle_NumUpdates w x = Some n.
Proof.
  intros [_ Hm] Hs. unfold handle_LastUpdatedTime, handle_NumUpdates, handle_header, Header.
  destruct (header_ (segment_ x)) as [b|]; [|done]. simpl in *.
  unfold file_at. rewrite Hm. simpl. unfold stamp in Hs.
  destruct (w_files w !! i) as [[? [hd|] ?]|]; try done. simpl. by simplify_eq.
Qed.

(** A write through a handle changes its own file only. *)
Lemma write_slot w x i (g : file V -> file V) a :
  header_ (segment_ x) = Some a -> mapped w a = Some i ->
  (forall b, mapped (update_at w a g) b = mapped w b)
  /\ (forall j, j <> i -> slot (update_at w a g) j = slot w j)
  /\ w_files (update_at w a g) !! i = g <$> w_files w !! i.
Proof.
  intros Ha Hi. unfold update_at. rewrite Hi. split; [done|]. split.
  - intros j Hj. unfold slot. simpl. by rewrite lookup_alter_ne.
  - simpl. by rewrite lookup_alter_eq.
Qed.

(** A change of a value leaves the marks of all files. *)
Lemma mutate_stamp w x v j : stamp (mutate w x v) j = stamp w j.
Proof.
  unfold mutate, SetValue, update_at. destruct (hardware_interface_ x); [|done].
  destruct (header_ (segment_ x)) as [a|]; [|done]. destruct (mapped w a) as [k|]; [|done].
  unfold stamp. simpl. destruct (decide (j = k)) as [->|]; [|by rewrite lookup_alter_ne].
  rewrite lookup_alter_eq. by destruct (w_files w !! k) as [[? [|] ?]|].
Qed.

(** A mark counts one update of its own file, and leaves the others. *)
Lemma mark_stamp w x i t n time cycle :
  on w x i -> stamp w i = Some (t, wrap_s 64 n) ->
  stamp (handle_UpdatedAt cycle w x time) i = Some (time, wrap_s 64 (n + 1)).
Proof.
  intros [_ Hm] Hs. unfold handle_UpdatedAt, segment_UpdatedAt, on_header, update_at.
  destruct (header_ (segment_ x)) as [a|]; [|done]. simpl in Hm. rewrite Hm. unfold stamp in *. simpl.
  rewrite lookup_alter_eq. destruct (w_files w !! i) as [[? [hd|] ?]|]; try done. simpl in *.
  injection Hs as _ Hn. unfold NumUpdates in *. simpl. by rewrite Hn, wrap_s_succ.
Qed.

Lemma mark_stamp_ne w x i j time cycle :
  on w x i -> j <> i -> stamp (handle_UpdatedAt cycle w x time) j = stamp w j.
Proof.
  intros [_ Hm] Hj. unfold handle_UpdatedAt, segment_UpdatedAt, on_header, update_at.
  destruct (header_ (segment_ x)) as [a|]; [|done]. simpl in Hm. rewrite Hm. unfold stamp. simpl.
  by rewrite lookup_alter_ne.
Qed.

Lemma mutate_slot w x i c v v' :
  on w x i -> slot w i = Some (c, v) ->
  (forall b, mapped (mutate w x v') b = mapped w b)
  /\ (forall j, j <> i -> slot (mutate w x v') j = slot w j)
  /\ slot (mutate w x v') i = Some (c, v').
Proof.
  intros [[p Hp] Hm] Hs. unfold mutate, SetValue. rewrite Hp.
  destruct (header_ (segment_ x)) as [a|] eqn:Ha; [|done]. simpl in Hm.
  destruct (write_slot w x i (fun f => mkFile (f_size f) (f_header f) (Some v')) a Ha Hm) as (H1 & H2 & H3).
  split; [done|]. split; [done|]. unfold slot in *. rewrite H3.
  destruct (w_files w !! i) as [[? [hd|] [?|]]|]; try done. simpl. by simplify_eq.
Qed.

Lemma mark_slot w x i c v time cycle :
  on w x i -> slot w i = Some (c, v) ->
  (forall b, mapped (handle_UpdatedAt cycle w x time) b = mapped w b)
  /\ (forall j, j <> i -> slot (handle_UpdatedAt cycle w x time) j = slot w j)
  /\ slot (handle_UpdatedAt cycle w x time) i = Some (cycle, v).
Proof.
  intros [_ Hm] Hs. unfold handle_UpdatedAt, segment_UpdatedAt.
  destruct (header_ (segment_ x)) as [a|] eqn:Ha; [|done]. simpl in Hm. unfold on_header.
  destruct (write_slot w x i (fun f => mkFile (f_size f)
    ((fun hd => (UpdatedAt hd time (GetCurrentCycle cycle)).2) <$> f_header f) (f_value f)) a Ha Hm)
    as (H1 & H2 & H3).
  split; [done|]. split; [done|]. unfold slot in *. rewrite H3.
  destruct (w_files w !! i) as [[? [hd|] [?|]]|]; try done. simpl. by simplify_eq.
Qed.

Lemma on_mapped w w' x i : (forall b, mapped w' b = mapped w b) -> on w x i -> on w' x i.
Proof.
  intros Hm [Hp Hi]. split; [done|]. destruct (header_ (segment_ x)) as [a|]; [|done]. simpl in *.
  by rewrite Hm.
Qed.

Lemma shares_mapped w w' h g q i j :
  (forall b, mapped w' b = mapped w b) -> shares w h g q i j -> shares w' h g q i j.
Proof. intros Hm [[] [] ?]. split; [split; by eapply on_mapped..|done]. Qed.

Lemma run_iop_shows w h g q i j a op :
  shares w h g q i j -> shows w i j a ->
  shares (run_iop g q w op) h g q i j /\ shows (run_iop g q w op) i j (istep a op).
Proof.
  intros Hsh [Hi Hj Ht]. pose proof Hsh as [[Hg1 Hg2] [Hq1 Hq2] Hne].
  destruct op as [cycle|time cycle|v|time cycle]; cbn [run_iop istep].
  - destruct (mutate_slot w g i _ _ (IconState (wrap_s 64 cycle)) Hg2 Hi) as (H1 & H2 & H3).
    split; [by eapply shares_mapped|]. split; [done|by rewrite H2|by rewrite mutate_stamp].
  - destruct (mark_slot w g i _ _ time cycle Hg2 Hi) as (H1 & H2 & H3).
    split; [by eapply shares_mapped|]. split; [done|by rewrite H2|]. by rewrite (mark_stamp_ne w g i).
  - destruct (mutate_slot w (strict_interface_ q) j _ _ v Hq2 Hj) as (H1 & H2 & H3).
    split; [by eapply shares_mapped|]. split; [by rewrite H2|done|by unfold MutableValue; rewrite mutate_stamp].
  - destruct (mark_slot w (strict_interface_ q) j _ _ time cycle Hq2 Hj) as (H1 & H2 & H3).
    split; [by eapply shares_mapped|]. split; [by rewrite H2|done|]. by eapply mark_stamp.
Qed.

Lemma strict_read_shows w h g q i j a :
  shares w h g q i j -> shows w i j a ->
  Value_ w h = Some (strict_read a)
  /\ strict_LastUpdatedCycle w h = Some (is_marked a)
  /\ strict_LastUpdatedTime w h = Some (is_time a)
  /\ strict_NumUpdates w h = Some (wrap_s 64 (is_updates a)).
Proof.
  intros [[Hg1 _] [Hq1 _] _] [Hi Hj Ht].
  destruct (on_reads w (icon_state_ h) i _ _ Hg1 Hi) as [H1 H2].
  destruct (on_reads w (strict_interface_ h) j _ _ Hq1 Hj) as [H3 H4].
  destruct (on_stamp w (strict_interface_ h) j _ _ Hq1 Ht) as [H5 H6].
  split; [|done]. unfold Value_, WasUpdatedThisCycle, strict_read. rewrite H1, H2, H3, H4.
  destruct (wrap_s 64 (is_ticked a) =? is_shown a); cbn [negb]; [|done].
  by destruct (wrap_s 64 (is_marked a) =? is_shown a).
Qed.

(** C27: Strict handles refine their specification: after any sequence of writes by the
    control process and the owner of the interface, [Value] returns the latest value
    if the latest marks of both segments carry the cycle that [icon_state] shows, and
    an error otherwise; the handle reports the cycle and the time of the latest mark and
    the number of marks, in a signed counter of 64 bits that wraps around. *)
Theorem strict_handle_refines w h g q i j a ops :
  shares w h g q i j -> shows w i j a ->
  let w' := fold_left (run_iop g q) ops w in
  let a' := fold_left istep ops a in
  Value_ w' h = Some (strict_read a')
  /\ strict_LastUpdatedCycle w' h = Some (is_marked a')
  /\ strict_LastUpdatedTime w' h = Some (is_time a')
  /\ strict_NumUpdates w' h = Some (wrap_s 64 (is_updates a')).
Proof.
  revert w a. induction ops as [|op ops IH]; intros w a Hs Ha; cbn [fold_left].
  - by eapply strict_read_shows.
  - destruct (run_iop_shows w h g q i j a op Hs Ha) as [Hs' Ha']. by apply IH.
Qed.

(** The state after both interfaces were advertised. *)
Definition advertised (v : V) : istate := mkIState (wrap_s 64 u64_max) 0 v 0 0 0.

(** Until the control process has written to [icon_state], every read is refused. *)
Lemma strict_before_first_tick v ops :
  (forall op, op ∈ ops -> match op with SetCycle _ | MarkCycle _ _ => False | _ => True end) ->
  strict_read (fold_left istep ops (advertised v)) = Unexpected inconsistent.
Proof.
  intros Hops. assert (forall a, is_shown a = -1 -> is_ticked a = 0 ->
    strict_read (fold_left istep ops a) = Unexpected inconsistent) as Ha; [|by apply Ha].
  induction ops as [|op ops IH]; intros a Hs Ht; cbn [fold_left].
  - unfold strict_read. rewrite Hs, Ht. done.
  - apply IH; [intros; apply Hops; by right|..]; specialize (Hops op (list_elem_of_here _ _)); by destruct op.
Qed.

(** In a cycle in which both sides wrote and marked their segments, in any order with
    earlier writes, the value of this cycle is read. *)
Lemma strict_reads_current a time time' cycle v :
  strict_read (fold_left istep [SetCycle cycle; MarkCycle time cycle; SetPayload v; MarkPayload time' cycle] a)
  = Value v.
Proof. unfold strict_read. cbn. by rewrite Z.eqb_refl. Qed.

End Strict.

(** ** Witnesses *)

#[local] Instance iter_sorted : IterOrder := {
  iter := fun _ m => map_to_list m; iter_perm := fun _ _ => reflexivity _ }.

Definition ex_T : interface_type nat :=
  mkInterfaceType "intrinsic_fbs.JointState" 1 (Some (fun _ n => 4 <=? n)).
Definition ex_empty : world (payload nat) := mkWorld ∅ ∅ ∅.
Definition ex_no_segments : SharedMemoryManager := mkSharedMemoryManager ∅ ∅ "module" "ns".

Lemma advertised_interface_opens_witness :
  exists h w' m',
    AdvertiseMutableInterface (fun _ => "error") 256 (free_kernel _) ex_T "joint_state" (Payload 7%nat) 64
      ex_empty ex_no_segments
    = Returns (Value h, w', m') /\ deref w' h = Some (Payload 7%nat).
Proof.
  destruct (advertised_interface_opens (fun _ => "error") 256 (free_kernel _) ex_T "joint_state" ex_empty
    ex_no_segments (Payload 7%nat) 64) as (h & w' & m' & Ha & Hd & _).
  - apply free_kernel_reliable.
  - split; [cbn; rewrite map_size_empty; unfold kMaxNumberOfSegments; lia|cbn; unfold kMaxSize; lia|reflexivity..].
  - lia.
  - cbn. lia.
  - lia.
  - reflexivity.
  - exists h, w', m'. exact (conj Ha Hd).
Defined.

(** A reader's strict handle and two writers on two files. *)
Definition ex_file (v : payload nat) : file (payload nat) :=
  mkFile 264 (Some (new_SegmentHeader "type")) (Some v).
Definition ex_two : world (payload nat) :=
  mkWorld {[ 0%nat := ex_file BuildIconState; 1%nat := ex_file (Payload 0%nat) ]} ∅
    {[ 100 := (0%nat, 264); 200 := (0%nat, 264); 300 := (1%nat, 264); 400 := (1%nat, 264) ]}.
Definition ex_handle_at (a : Z) (kind : ReadWriteKind) : InterfaceHandle :=
  new_InterfaceHandle (mkMemorySegment "segment" (Some a) (Some (a + 256)) 264 kind).
Definition ex_strict : StrictHandle :=
  mkStrictHandle (ex_handle_at 300 kReadOnly) (ex_handle_at 100 kReadOnly).

Lemma strict_handle_refines_witness :
  let w' := fold_left (run_iop (ex_handle_at 200 kReadWrite)
              (mkStrictHandle (ex_handle_at 400 kReadWrite) (ex_handle_at 100 kReadOnly)))
              [SetCycle 5; MarkCycle 90 5; SetPayload (Payload 8%nat); MarkPayload 100 5] ex_two in
  Value_ w' ex_strict = Some (Value (Payload 8%nat)) /\ strict_NumUpdates w' ex_strict = Some 1.
Proof.
  destruct (strict_handle_refines ex_two ex_strict (ex_handle_at 200 kReadWrite)
    (mkStrictHandle (ex_handle_at 400 kReadWrite) (ex_handle_at 100 kReadOnly)) 0 1
    (advertised (Payload 0%nat)) [SetCycle 5; MarkCycle 90 5; SetPayload (Payload 8%nat); MarkPayload 100 5])
    as (H1 & _ & _ & H2).
  - split; [split; split; [eexists; reflexivity|vm_compute; reflexivity|eexists; reflexivity|vm_compute; reflexivity]..|lia].
  - split; vm_compute; reflexivity.
  - exact (conj H1 H2).
Defined.
