(* ===== verification/RemoteTrigger.v ===== *)
(** * Remote triggers
    ([icon/interprocess/remote_trigger/remote_trigger_server.{h,cc}],
     [remote_trigger_constants.h])

    A client posts a request futex in shared memory; the thread of the server wakes up,
    runs its callback and posts the response futex.  The calls that run the callback
    ([Run], [Query]) are split at their accesses to shared data.  The futexes are used
    through the interface [Signal]. *)
From S2P Require Import Prelude Status Signal SharedMemory MemorySegment SegmentRuns.

Definition kSemRequestSuffix : string := ".req".
Definition kSemResponseSuffix : string := ".res".

(** ** The server object *)

(** [callback_] tells whether the function object is callable, [async_thread_] whether
    the thread is joinable. *)
Record RemoteTriggerServer := mkRemoteTriggerServer {
  server_memory_name_ : string;
  callback_ : bool;
  is_running_ : bool;
  request_futex_ : MemorySegment;
  response_futex_ : MemorySegment;
  async_thread_ : bool }.

Implicit Type s : RemoteTriggerServer.

Definition set_running s (b : bool) : RemoteTriggerServer :=
  mkRemoteTriggerServer (server_memory_name_ s) (callback_ s) b (request_futex_ s)
    (response_futex_ s) (async_thread_ s).
Definition set_thread s (b : bool) : RemoteTriggerServer :=
  mkRemoteTriggerServer (server_memory_name_ s) (callback_ s) (is_running_ s) (request_futex_ s)
    (response_futex_ s) b.

Definition IsStarted s : bool := is_running_ s.
Definition IsReadyToStart s : bool := negb (IsStarted s) && negb (async_thread_ s).
Definition RequestStop s : RemoteTriggerServer := set_running s false.
(** [JoinAsyncThread()], after the thread has returned. *)
Definition JoinAsyncThread s : RemoteTriggerServer :=
  if async_thread_ s then set_thread s false else s.

(** [StartAsync(logger, prelude)]; [created]: the new [std::jthread] is joinable.  The
    boolean tells whether a thread now executes [Run].  (The constructor of
    [std::jthread] reports a failure by an exception, which is not modelled; the branch
    for a thread that is not joinable is modelled as it is written.) *)
Definition StartAsync (created : bool) s : Status * bool * RemoteTriggerServer :=
  if negb (is_running_ s) && async_thread_ s then
    (mkStatus kFailedPrecondition
       "RemoteTriggerServer is not running, but its async thread is active. Did you call `RequestStop()` and *not* call `JoinAsyncThread()` afterwards?",
     false, s)
  else if is_running_ s then (OkStatus, false, s)
  else
    let s1 := set_thread (set_running s true) created in
    if negb created then
      (mkStatus kInternal "RemoteTriggerServer failed to start async thread.", false,
       JoinAsyncThread (RequestStop s1))
    else (OkStatus, true, s1).

(** The move constructor: the new server and what is left of [other]. *)
Definition move_server (other : RemoteTriggerServer) : RemoteTriggerServer * RemoteTriggerServer :=
  let other := JoinAsyncThread (RequestStop other) in
  (mkRemoteTriggerServer (server_memory_name_ other) (callback_ other) false
     (request_futex_ other) (response_futex_ other) false,
   mkRemoteTriggerServer "" false (is_running_ other) default_MemorySegment default_MemorySegment
     (async_thread_ other)).

(** The move assignment; the handles that [this] held are cleaned up by the
    assignments of [request_futex_] and [response_futex_]. *)
Definition assign_server {V} (w : world V) (same : bool) (this other : RemoteTriggerServer)
  : RemoteTriggerServer * RemoteTriggerServer * world V :=
  if same then (this, other, w)
  else
    let other := JoinAsyncThread (RequestStop other) in
    let this := JoinAsyncThread (RequestStop this) in
    let '(req, oreq, w1) := assign_MemorySegment w false (request_futex_ this) (request_futex_ other) in
    let '(res, ores, w2) := assign_MemorySegment w1 false (response_futex_ this) (response_futex_ other) in
    (mkRemoteTriggerServer (server_memory_name_ other) (callback_ other) (is_running_ this) req res
       (async_thread_ this),
     mkRemoteTriggerServer "" false (is_running_ other) oreq ores (async_thread_ other), w2).

(** [Create(shm_manager, server_memory_name, logger, callback)]; [futex] is the value
    of [BinaryFutex()], of size [sizeof_futex]. *)
Section Create.
Context {V : Type} `{IterOrder} (StrError : Z -> string) (sizeof_header sizeof_futex : Z).
Context (futex : V) (type_id : string).

Definition CreateTriggerServer (k : kernel V) (server_memory_name : string) (w : world V) (m : SharedMemoryManager)
  : expected RemoteTriggerServer Status * world V * SharedMemoryManager :=
  let request_name := (server_memory_name ++ kSemRequestSuffix)%string in
  let response_name := (server_memory_name ++ kSemResponseSuffix)%string in
  let '(st1, w1, m1) :=
    AddSegment StrError sizeof_header (k_init k w) request_name false sizeof_futex futex type_id w m in
  if negb (status_ok st1) then (Unexpected st1, w1, m1)
  else
    let '(st2, w2, m2) :=
      AddSegment StrError sizeof_header (k_init k w1) response_name false sizeof_futex futex type_id w1 m1 in
    if negb (status_ok st2) then (Unexpected st2, w2, m2)
    else
      match manager_Get StrError sizeof_header kReadOnly sizeof_futex (k_get k w2) m2 request_name w2 with
      | (Unexpected st, w3) => (Unexpected st, w3, m2)
      | (Value request_futex, w3) =>
          match manager_Get StrError sizeof_header kReadWrite sizeof_futex (k_get k w3) m2 response_name w3 with
          | (Unexpected st, w4) => (Unexpected st, CleanUpSharedMemory w4 request_futex, m2)
          | (Value response_futex, w4) =>
              (Value (mkRemoteTriggerServer server_memory_name true false request_futex
                        response_futex false), w4, m2)
          end
      end.

(** [~RemoteTriggerServer()]: stop and join, close the response futex if the handle is
    valid, and the destruction of the handles. *)
Definition destroy_TriggerServer (close_futex : V -> V) (w : world V) s : world V :=
  let s := JoinAsyncThread (RequestStop s) in
  let w1 :=
    match value_ (response_futex_ s), header_ (response_futex_ s) with
    | Some _, Some a => update_at w a (fun f => mkFile (f_size f) (f_header f) (close_futex <$> f_value f))
    | _, _ => w
    end in
  CleanUpSharedMemory (CleanUpSharedMemory w1 (response_futex_ s)) (request_futex_ s).

End Create.

(** ** Threads *)

Section Threads.
Context {F : Type} `{Signal F}.

(** [Run]: before the prelude, at the head of the loop, in [WaitFor], after the wait,
    in the callback, before [Post], returned. *)
Inductive rpc := RPrelude | RLoop | RWait | RRecheck | RCallback | RPost | RExit.

(** [Query]: at the check, in [WaitFor], in the callback, before [Post]. *)
Inductive qpc := QCheck | QWait | QCallback | QPost.

(** A thread of the user: idle, in [Start], in [Query]. *)
Inductive upc := UIdle | URun (p : rpc) | UQuery (p : qpc).

(** The server, the two futexes and one thread after a step. *)
Definition stepped : Type := RemoteTriggerServer * F * F * rpc.

(** The end of [Run]'s prelude. *)
Definition prelude_step (st : Status) s (req res : F) : stepped :=
  if negb (status_ok st) then (set_running s false, req, res, RExit) else (s, req, res, RLoop).

(** [WaitFor] of [Run] returned [st]. *)
Definition run_woken (st : RealtimeStatus) s (req res : F) : stepped :=
  if decide (rt_code st = kDeadlineExceeded) then (s, req, res, RLoop)
  else if negb (rt_ok st) then (RequestStop s, req, res, RExit)
  else (s, req, res, RRecheck).

Definition run_step s (req res : F) (p : rpc) : stepped :=
  match p with
  | RPrelude => prelude_step OkStatus s req res
  | RLoop => (s, req, res, if is_running_ s then RWait else RExit)
  | RWait =>
      match sig_take req with
      | (None, req') => (s, req', res, RWait)
      | (Some st, req') => run_woken st s req' res
      end
  | RRecheck =>
      if negb (is_running_ s) then (s, req, res, RExit)
      else if negb (callback_ s) then (RequestStop s, req, res, RExit)
      else (s, req, res, RCallback)
  | RCallback => (s, req, res, RPost)
  | RPost =>
      let '(st, res') := sig_post res in
      if negb (rt_ok st) then (RequestStop s, req, res', RExit) else (s, req, res', RLoop)
  | RExit => (s, req, res, RExit)
  end.

(** [Query]: the server, the futexes, and the next point ([inl]) or the result. *)
Definition query_woken (st : RealtimeStatus) s : qpc + bool :=
  if decide (rt_code st = kDeadlineExceeded) then inr false
  else if negb (rt_ok st) then inr false
  else if negb (callback_ s) then inr false
  else inl QCallback.

Definition query_step s (req res : F) (p : qpc) : F * F * (qpc + bool) :=
  match p with
  | QCheck => (req, res, if is_running_ s then inr false else inl QWait)
  | QWait =>
      match sig_take req with
      | (None, req') => (req', res, inl QWait)
      | (Some st, req') => (req', res, query_woken st s)
      end
  | QCallback => (req, res, inl QPost)
  | QPost =>
      let '(st, res') := sig_post res in (req, res', inr (rt_ok st))
  end.

Definition upc_of (r : qpc + bool) : upc :=
  match r with inl p => UQuery p | inr _ => UIdle end.

(** [Start(logger)]: the exchange, then [Run] without a prelude. *)
Definition Start s : RemoteTriggerServer * upc :=
  (set_running s true, if is_running_ s then UIdle else URun RLoop).

(** ** Interleavings *)

(** The server, the futexes, the asynchronous thread (between its creation and the
    join), the threads of the user, and the number of callbacks that were begun and of
    responses that were posted. *)
Record tconfig := mkTConfig {
  tc_srv : RemoteTriggerServer;
  tc_req : F;
  tc_res : F;
  tc_async : option rpc;
  tc_users : list upc;
  tc_begun : nat;
  tc_answered : nat }.

Definition r_callback (p : rpc) : nat := match p with RCallback => 1 | _ => 0 end.
Definition r_post (p : rpc) : nat := match p with RPost => 1 | _ => 0 end.
Definition r_active (p : rpc) : nat := match p with RExit => 0 | _ => 1 end.
Definition u_callback (p : upc) : nat :=
  match p with URun p => r_callback p | UQuery QCallback => 1 | _ => 0 end.
Definition u_post (p : upc) : nat :=
  match p with URun p => r_post p | UQuery QPost => 1 | _ => 0 end.
(** A user thread inside [Run], at the check of [Query], past this check. *)
Definition u_run (p : upc) : nat := match p with URun p => r_active p | _ => 0 end.
Definition u_check (p : upc) : nat := match p with UQuery QCheck => 1 | _ => 0 end.
Definition u_passed (p : upc) : nat :=
  match p with UQuery (QWait | QCallback | QPost) => 1 | _ => 0 end.
Definition sum (f : rpc -> nat) (g : upc -> nat) (c : tconfig) : nat :=
  default 0%nat (f <$> tc_async c) + weight g (tc_users c).

(** A step of a thread in [Run] begins a callback when it enters [RCallback], and
    answers when it leaves [RPost] for the head of the loop. *)
Definition begins (p q : rpc) : nat :=
  match p, q with RRecheck, RCallback => 1 | _, _ => 0 end.
Definition answers (p q : rpc) : nat := match p, q with RPost, RLoop => 1 | _, _ => 0 end.

(** The user thread after its call of [Run] has returned. *)
Definition upc_run (p : rpc) : upc := match p with RExit => UIdle | _ => URun p end.

Definition async_stepped (c : tconfig) (p : rpc) (o : stepped) : tconfig :=
  let '(s, req, res, q) := o in
  mkTConfig s req res (Some q) (tc_users c) (tc_begun c + begins p q) (tc_answered c + answers p q).
Definition user_stepped (c : tconfig) (i : nat) (p : rpc) (o : stepped) : tconfig :=
  let '(s, req, res, q) := o in
  mkTConfig s req res (tc_async c) (<[i := upc_run q]> (tc_users c))
    (tc_begun c + begins p q) (tc_answered c + answers p q).
Definition query_stepped (c : tconfig) (i : nat) (p : qpc) (o : F * F * (qpc + bool)) : tconfig :=
  let '(req, res, r) := o in
  mkTConfig (tc_srv c) req res (tc_async c) (<[i := upc_of r]> (tc_users c))
    (tc_begun c + match r with inl QCallback => 1 | _ => 0 end)
    (tc_answered c + match p, r with QPost, inr true => 1 | _, _ => 0 end).

(** The calls of [Run] and of [Query] that are under way. *)
Definition runs (c : tconfig) : nat := sum r_active u_run c.
Definition queries (c : tconfig) : nat :=
  weight u_check (tc_users c) + weight u_passed (tc_users c).

(** What the users are assumed to do.  A started server may be started and queried
    again at any time: [Start], [StartAsync] and [Query] then return at once.
    - A stopped server is started again only after its loop has returned: a thread of
      [StartAsync] is joined first (the comment of [RequestStop]; [StartAsync] checks
      this itself), and no thread is still in [Start].
    - The same holds for a [Query] of a stopped server.
    - Not documented: [Query] is called by one thread at a time; a server that is not
      started is not started while a [Query] is under way; and [RequestStop] is not
      called between the call of a [Query] and its check. *)
Definition may_start_async (c : tconfig) : Prop :=
  is_running_ (tc_srv c) = false -> weight u_run (tc_users c) = 0%nat /\ queries c = 0%nat.
Definition may_start (c : tconfig) : Prop :=
  is_running_ (tc_srv c) = false ->
  weight u_run (tc_users c) = 0%nat /\ queries c = 0%nat /\ async_thread_ (tc_srv c) = false.
Definition may_query (c : tconfig) : Prop :=
  queries c = 0%nat
  /\ (is_running_ (tc_srv c) = false ->
       weight u_run (tc_users c) = 0%nat /\ async_thread_ (tc_srv c) = false).
Definition may_stop (c : tconfig) : Prop := weight u_check (tc_users c) = 0%nat.

(** One step.  [rules]: whether the users keep to the rules above.  [async_thread_] is
    a plain member: [StartAsync] and [JoinAsyncThread] are single steps. *)
Inductive tstep (rules : bool) : tconfig -> tconfig -> Prop :=
| ts_start_async c created : (rules = true -> may_start_async c) ->
    tstep rules c
      (let '(st, spawned, s) := StartAsync created (tc_srv c) in
       mkTConfig s (tc_req c) (tc_res c) (if spawned : bool then Some RPrelude else tc_async c)
         (tc_users c) (tc_begun c) (tc_answered c))
| ts_start c i : tc_users c !! i = Some UIdle -> (rules = true -> may_start c) ->
    tstep rules c
      (let '(s, u) := Start (tc_srv c) in
       mkTConfig s (tc_req c) (tc_res c) (tc_async c) (<[i := u]> (tc_users c))
         (tc_begun c) (tc_answered c))
| ts_query c i : tc_users c !! i = Some UIdle -> (rules = true -> may_query c) ->
    tstep rules c
      (mkTConfig (tc_srv c) (tc_req c) (tc_res c) (tc_async c) (<[i := UQuery QCheck]> (tc_users c))
         (tc_begun c) (tc_answered c))
| ts_stop c : (rules = true -> may_stop c) ->
    tstep rules c
      (mkTConfig (RequestStop (tc_srv c)) (tc_req c) (tc_res c) (tc_async c) (tc_users c)
         (tc_begun c) (tc_answered c))
| ts_join c : tc_async c = Some RExit ->
    tstep rules c
      (mkTConfig (JoinAsyncThread (tc_srv c)) (tc_req c) (tc_res c) None (tc_users c)
         (tc_begun c) (tc_answered c))
| ts_prelude c st : tc_async c = Some RPrelude ->
    tstep rules c
      (async_stepped c RPrelude (prelude_step st (tc_srv c) (tc_req c) (tc_res c)))
| ts_async c p : tc_async c = Some p -> p <> RPrelude ->
    tstep rules c (async_stepped c p (run_step (tc_srv c) (tc_req c) (tc_res c) p))
| ts_async_timeout c st : tc_async c = Some RWait -> rt_code st = kDeadlineExceeded ->
    tstep rules c (async_stepped c RWait (run_woken st (tc_srv c) (tc_req c) (tc_res c)))
| ts_user c i p : tc_users c !! i = Some (URun p) ->
    tstep rules c (user_stepped c i p (run_step (tc_srv c) (tc_req c) (tc_res c) p))
| ts_user_timeout c i st : tc_users c !! i = Some (URun RWait) ->
    rt_code st = kDeadlineExceeded ->
    tstep rules c (user_stepped c i RWait (run_woken st (tc_srv c) (tc_req c) (tc_res c)))
| ts_query_step c i p : tc_users c !! i = Some (UQuery p) ->
    tstep rules c (query_stepped c i p (query_step (tc_srv c) (tc_req c) (tc_res c) p))
| ts_query_timeout c i st : tc_users c !! i = Some (UQuery QWait) ->
    rt_code st = kDeadlineExceeded ->
    tstep rules c
      (query_stepped c i QWait (tc_req c, tc_res c, query_woken st (tc_srv c)))
| ts_client_post c :
    tstep rules c
      (mkTConfig (tc_srv c) (sig_post (tc_req c)).2 (tc_res c) (tc_async c) (tc_users c)
         (tc_begun c) (tc_answered c))
| ts_client_take c :
    tstep rules c
      (mkTConfig (tc_srv c) (tc_req c) (sig_take (tc_res c)).2 (tc_async c) (tc_users c)
         (tc_begun c) (tc_answered c)).

(** A server as [Create] makes it, with [n] user threads. *)
Definition tinitial (name : string) (req res : MemorySegment) (n : nat) : tconfig :=
  mkTConfig (mkRemoteTriggerServer name true false req res false) (sig_new false) (sig_new false)
    None (replicate n UIdle) 0 0.

End Threads.
