(* ===== verification/RemoteTriggerProofs.v ===== *)
(** * Correctness of remote triggers *)
From S2P Require Import Prelude Status Time BinaryFutex Signal SharedMemory MemorySegment RemoteTrigger.

(** Close [run_ok] goals. *)
Ltac run_ok_done := split; simpl; try done; try (by left); try (by right); lia.

Section Trigger.
Context {F : Type} `{Signal F}.
Notation tconfig := (tconfig (F := F)).
Implicit Types (c : tconfig) (s : RemoteTriggerServer).

(** ** The invariant *)

Record tinv c : Prop := mkTInv {
  ti_open : sig_open (tc_req c) /\ sig_open (tc_res c);
  ti_thread : async_thread_ (tc_srv c) = true <-> is_Some (tc_async c);
  ti_one : (runs c + weight u_passed (tc_users c) <= 1)%nat;
  ti_queries : (queries c <= 1)%nat;
  ti_check : (0 < weight u_check (tc_users c))%nat ->
    is_running_ (tc_srv c) = true \/ runs c = 0%nat;
  ti_count : tc_begun c = (tc_answered c + sum r_callback u_callback c + sum r_post u_post c)%nat }.

(** What a step of [Run] does: the futexes stay open, the thread stays joinable, the
    flag is only changed by a return, and the counts are kept. *)
Record run_ok (p : rpc) s (o : stepped (F := F)) : Prop := mkRunOk {
  ro_open : sig_open o.1.1.2 /\ sig_open o.1.2;
  ro_thread : async_thread_ o.1.1.1 = async_thread_ s;
  ro_active : (r_active o.2 <= r_active p)%nat;
  ro_running : is_running_ o.1.1.1 = is_running_ s \/ r_active o.2 = 0%nat /\ r_active p = 1%nat;
  ro_count : (begins p o.2 + r_callback p + r_post p
              = answers p o.2 + r_callback o.2 + r_post o.2)%nat }.

Lemma take_open f : sig_open f -> sig_open (sig_take f).2.
Proof.
  intros Ho. destruct (sig_up f) eqn:Hu; [by apply sig_take_up|]. by rewrite sig_take_down.
Qed.

Lemma woken_ok s (req res : F) st :
  sig_open req -> sig_open res -> run_ok RWait s (run_woken st s req res).
Proof.
  intros H1 H2. unfold run_woken. case_decide; [run_ok_done|].
  destruct (negb (rt_ok st)); run_ok_done.
Qed.

Lemma prelude_ok s (req res : F) st :
  sig_open req -> sig_open res -> run_ok RPrelude s (prelude_step st s req res).
Proof. intros H1 H2. unfold prelude_step. destruct (negb _); run_ok_done. Qed.

Lemma run_step_ok s (req res : F) p :
  sig_open req -> sig_open res -> run_ok p s (run_step s req res p).
Proof.
  intros H1 H2. destruct p; cbn [run_step]; try run_ok_done.
  - destruct (is_running_ s); run_ok_done.
  - pose proof (take_open req H1) as H3. destruct (sig_take req) as [[st|] req']; [by apply woken_ok|run_ok_done].
  - destruct (is_running_ s); [|run_ok_done]. destruct (callback_ s); run_ok_done.
  - destruct (sig_post_open res H2) as (Hst & Ho & _). destruct (sig_post res) as [st res'].
    simpl in Hst. subst st. run_ok_done.
Qed.

Lemma async_inv c p o :
  tinv c -> tc_async c = Some p -> run_ok p (tc_srv c) o -> tinv (async_stepped c p o).
Proof.
  intros [Ho Ht H1 Hq Hk Hc] Hp [Ro Rt Ra Rr Rc]. destruct o as [[[s req] res] q].
  cbn in Ro, Rt, Ra, Rr, Rc. unfold queries, runs, sum in *. rewrite Hp in *. cbn in *.
  split; cbn; unfold queries, runs, sum; cbn; try done; try lia.
  - rewrite Rt, Ht. split; by eexists.
  - intros Hw. destruct Rr as [->|Rr]; [|right; lia]. destruct (Hk Hw); [by left|right; lia].
Qed.

Lemma upc_run_weight q : u_run (upc_run q) = r_active q /\ u_callback (upc_run q) = r_callback q
  /\ u_post (upc_run q) = r_post q /\ u_check (upc_run q) = 0%nat /\ u_passed (upc_run q) = 0%nat.
Proof. by destruct q. Qed.

(** The effect of a new program counter of a user thread on the counts. *)
Lemma insert_weights (us : list upc) i u v :
  us !! i = Some u ->
  (weight u_run (<[i := v]> us) + u_run u = weight u_run us + u_run v)%nat
  /\ (weight u_check (<[i := v]> us) + u_check u = weight u_check us + u_check v)%nat
  /\ (weight u_passed (<[i := v]> us) + u_passed u = weight u_passed us + u_passed v)%nat
  /\ (weight u_callback (<[i := v]> us) + u_callback u = weight u_callback us + u_callback v)%nat
  /\ (weight u_post (<[i := v]> us) + u_post u = weight u_post us + u_post v)%nat.
Proof. intros Hi. repeat split; pose proof (fun f => weight_insert f _ _ _ v Hi) as Hw; apply Hw. Qed.

Lemma user_inv c i p o :
  tinv c -> tc_users c !! i = Some (URun p) -> run_ok p (tc_srv c) o -> tinv (user_stepped c i p o).
Proof.
  intros [Ho Ht H1 Hq Hk Hc] Hp [Ro Rt Ra Rr Rc]. destruct o as [[[s req] res] q].
  cbn in Ro, Rt, Ra, Rr, Rc. destruct (upc_run_weight q) as (E1 & E2 & E3 & E4 & E5).
  destruct (insert_weights _ _ _ (upc_run q) Hp) as (W1 & W2 & W3 & W4 & W5).
  unfold queries, runs, sum in *.
  split; cbn; unfold queries, runs, sum; cbn in *; try done; try lia; [by rewrite Rt|].
  intros Hw. destruct Rr as [->|Rr]; [|right; lia].
  destruct Hk as [Hk|Hk]; [lia|by left|right; lia].
Qed.

Lemma query_inv c i p req res r :
  tinv c -> tc_users c !! i = Some (UQuery p) -> sig_open req -> sig_open res ->
  (match p, r with
   | QCheck, inl QWait => is_running_ (tc_srv c) = false
   | QCheck, inr false | QWait, inl QWait | QWait, inl QCallback
   | QWait, inr false | QCallback, inl QPost | QPost, inr true => True
   | _, _ => False
   end) ->
  tinv (query_stepped c i p (req, res, r)).
Proof.
  intros [Ho Ht H1 Hq Hk Hc] Hp Hsq Hss Hr.
  destruct (insert_weights _ _ _ (upc_of r) Hp) as (W1 & W2 & W3 & W4 & W5).
  pose proof (weight_lookup_le u_check _ _ _ Hp). pose proof (weight_lookup_le u_passed _ _ _ Hp).
  unfold queries, runs, sum in *.
  split; cbn; unfold queries, runs, sum; cbn; try done;
    destruct p, r as [[]|[]]; try done; cbn in *; try lia;
    destruct Hk as [Hk|Hk]; try lia; congruence.
Qed.

Lemma query_woken_cases st s :
  query_woken st s = inr false \/ query_woken st s = inl QCallback.
Proof. unfold query_woken. case_decide; [auto|]. destruct (negb _); [auto|]. destruct (negb _); auto. Qed.

Lemma query_step_inv c i p :
  tinv c -> tc_users c !! i = Some (UQuery p) ->
  tinv (query_stepped c i p (query_step (tc_srv c) (tc_req c) (tc_res c) p)).
Proof.
  intros Hi Hp. pose proof (ti_open _ Hi) as [H1 H2]. destruct p; cbn [query_step].
  - destruct (is_running_ (tc_srv c)) eqn:?; by apply query_inv.
  - pose proof (take_open _ H1) as H3. destruct (sig_take (tc_req c)) as [[st|] req']; [|by apply query_inv].
    destruct (query_woken_cases st (tc_srv c)) as [-> | ->]; by apply query_inv.
  - by apply query_inv.
  - destruct (sig_post_open _ H2) as (Hst & Ho & _). destruct (sig_post (tc_res c)) as [st res'].
    simpl in Hst. subst st. by apply query_inv.
Qed.

Lemma start_inv c i :
  tinv c -> tc_users c !! i = Some UIdle -> may_start c ->
  tinv (let '(s, u) := Start (tc_srv c) in
        mkTConfig s (tc_req c) (tc_res c) (tc_async c) (<[i := u]> (tc_users c))
          (tc_begun c) (tc_answered c)).
Proof.
  intros [Ho Ht H1 Hq Hk Hc] Hi Hm. unfold Start, may_start in *.
  set (u := if is_running_ (tc_srv c) then UIdle else URun RLoop).
  destruct (insert_weights _ _ _ u Hi) as (W1 & W2 & W3 & W4 & W5).
  assert (is_running_ (tc_srv c) = false -> tc_async c = None) as Hn.
  { intros Hr. apply eq_None_not_Some. rewrite <-Ht. destruct (Hm Hr) as (_ & _ & ->). done. }
  unfold queries, runs, sum in *. subst u.
  destruct (is_running_ (tc_srv c)); [|destruct (Hm eq_refl) as (? & ? & ?); rewrite Hn in * by done];
    split; cbn; unfold queries, runs, sum; cbn in *; rewrite ?Hn by done; cbn; try done; try lia;
    by left.
Qed.

Lemma query_call_inv c i :
  tinv c -> tc_users c !! i = Some UIdle -> may_query c ->
  tinv (mkTConfig (tc_srv c) (tc_req c) (tc_res c) (tc_async c)
          (<[i := UQuery QCheck]> (tc_users c)) (tc_begun c) (tc_answered c)).
Proof.
  intros [Ho Ht H1 Hq Hk Hc] Hi [Hno Hm].
  destruct (insert_weights _ _ _ (UQuery QCheck) Hi) as (W1 & W2 & W3 & W4 & W5).
  unfold queries, runs, sum in *. cbn in *.
  split; cbn; unfold queries, runs, sum; cbn; try done; try lia.
  intros _. destruct (is_running_ (tc_srv c)); [by left|right]. destruct (Hm eq_refl) as [Hw Ha].
  assert (tc_async c = None) as ->; [|cbn; lia].
  apply eq_None_not_Some. rewrite <-Ht. congruence.
Qed.

Lemma start_async_inv c created :
  tinv c -> may_start_async c ->
  tinv (let '(st, spawned, s) := StartAsync created (tc_srv c) in
        mkTConfig s (tc_req c) (tc_res c) (if spawned : bool then Some RPrelude else tc_async c)
          (tc_users c) (tc_begun c) (tc_answered c)).
Proof.
  intros Hi Hm. unfold StartAsync, may_start_async in *. destruct c as [s req res async us b a].
  cbn [tc_srv tc_req tc_res tc_async tc_users tc_begun tc_answered] in *.
  destruct (is_running_ s) eqn:Hr; cbn [negb andb]; [exact Hi|].
  destruct (async_thread_ s) eqn:Hj; cbn [negb andb]; [exact Hi|].
  destruct Hi as [Ho Ht H1 Hq Hk Hc]. destruct (Hm eq_refl) as [Hu Hno]. simpl in *.
  assert (async = None) as ->.
  { apply eq_None_not_Some. rewrite <-Ht. congruence. }
  unfold queries, runs, sum in *. cbn in *.
  destruct created; simpl; split; cbn; unfold queries, runs, sum; cbn; try done; lia.
Qed.

Lemma join_inv c :
  tinv c -> tc_async c = Some RExit ->
  tinv (mkTConfig (JoinAsyncThread (tc_srv c)) (tc_req c) (tc_res c) None (tc_users c)
          (tc_begun c) (tc_answered c)).
Proof.
  intros [Ho Ht H1 Hq Hk Hc] Ha. unfold queries, runs, sum in *. rewrite Ha in *. cbn in *.
  unfold JoinAsyncThread. rewrite (proj2 Ht) by (by eexists).
  split; cbn; unfold queries, runs, sum; cbn; try done.
Qed.

Lemma tinv_step c c' : tinv c -> tstep true c c' -> tinv c'.
Proof.
  intros Hi Hs. pose proof (ti_open _ Hi) as [H1 H2]. destruct Hs.
  - apply start_async_inv; auto.
  - apply start_inv; auto.
  - apply query_call_inv; auto.
  - destruct Hi as [Ho Ht Hone Hq Hk Hc]. split; cbn; try done. unfold may_stop in *. intros Hw.
    rewrite H0 in Hw by done. lia.
  - by apply join_inv.
  - apply async_inv; auto. by apply prelude_ok.
  - apply async_inv; auto. by apply run_step_ok.
  - apply async_inv; auto. by apply woken_ok.
  - apply user_inv; auto. by apply run_step_ok.
  - apply user_inv; auto. by apply woken_ok.
  - by apply query_step_inv.
  - destruct (query_woken_cases st (tc_srv c)) as [-> | ->]; by apply query_inv.
  - destruct Hi. split; cbn; try done. split; [|done]. by apply sig_post_open.
  - destruct Hi. split; cbn; try done. split; [done|]. by apply take_open.
Qed.

(** C23: Callbacks are exclusive and answered one by one.  Whatever the clients post,
    whenever the server is started, queried, stopped, joined and restarted, also while
    it runs, and whatever its prelude returns: at most one callback is under way, and
    every callback that was begun has been answered by one response, except that one.
    Assumed of the users are the rules [may_start_async], [may_start], [may_query] and
    [may_stop]: a stopped server is not started or queried before its loop has
    returned, a server that is not running is not started while a [Query] is under way,
    there is one [Query] at a time, and no stop is requested during the check of a
    [Query].  Without them callbacks overlap ([query_after_stop_overlaps],
    [two_queries_overlap], [start_during_query_overlaps]). *)
Theorem callbacks_exclusive name (req res : MemorySegment) n c :
  rtc (tstep true) (tinitial name req res n) c ->
  (sum r_callback u_callback c + sum r_post u_post c <= 1)%nat
  /\ tc_begun c = (tc_answered c + (sum r_callback u_callback c + sum r_post u_post c))%nat.
Proof.
  intros Hr. assert (tinv c) as [Ho Ht H1 Hq Hk Hc].
  { eapply (rtc_invariant (tstep true)); [intros; by eapply tinv_step| |exact Hr].
    split; cbn; unfold queries, runs, sum; cbn; rewrite ?weight_replicate; cbn; try lia; [|by split].
    split; apply sig_new_open. }
  split; [|lia].
  assert (forall p, r_callback p + r_post p <= r_active p)%nat as Hp by (by intros []; cbn; lia).
  assert (forall p, u_callback p + u_post p <= u_run p + u_passed p)%nat as Hu
    by (by intros [|[]|[]]; cbn; lia).
  assert (weight u_callback (tc_users c) + weight u_post (tc_users c)
          <= weight u_run (tc_users c) + weight u_passed (tc_users c))%nat as Hw.
  { clear -Hu. induction (tc_users c) as [|u us IH]; cbn; [lia|]. specialize (Hu u). lia. }
  unfold runs, sum in *. destruct (tc_async c) as [p|]; cbn in *; [specialize (Hp p)|]; lia.
Qed.

(** ** One request *)

Definition run_once (o : stepped (F := F)) : stepped :=
  let '(s, req, res, p) := o in run_step s req res p.

(** C24: A request to a running server is answered: five steps of the thread take it, run
    the callback, post the response and lead back to the head of the loop. *)
Theorem request_is_answered s (req res : F) :
  sig_open req -> sig_open res -> sig_up req = true ->
  is_running_ s = true -> callback_ s = true ->
  exists req' res', Nat.iter 5 run_once (s, req, res, RLoop) = (s, req', res', RLoop)
    /\ Nat.iter 4 run_once (s, req, res, RLoop) = (s, req', res, RPost)
    /\ sig_up req' = false /\ sig_up res' = true /\ sig_open req' /\ sig_open res'.
Proof.
  intros H1 H2 Hu Hr Hcb. destruct (sig_take_up req H1 Hu) as (Ht & Ho & Hd).
  destruct (sig_post_open res H2) as (Hp & Hpo & Hpu).
  exists (sig_take req).2, (sig_post res).2. cbn [Nat.iter nat_rect run_once run_step].
  rewrite Hr. cbn [run_once run_step]. destruct (sig_take req) as [st req']. cbn in Ht, Ho, Hd.
  subst st. change (run_woken RtOkStatus s req' res) with (s, req', res, RRecheck).
  cbn [run_once run_step snd]. rewrite Hr, Hcb. cbn [negb run_once run_step].
  destruct (sig_post res) as [st res']. cbn in Hp, Hpo, Hpu. subst st. by repeat split.
Qed.

(** A request that arrives together with a stop is taken and not answered. *)
Lemma stopped_request_lost s (req res : F) :
  sig_open req -> sig_up req = true ->
  exists req', run_once (s, req, res, RWait) = (s, req', res, RRecheck)
    /\ sig_up req' = false
    /\ run_once (RequestStop s, req', res, RRecheck) = (RequestStop s, req', res, RExit).
Proof.
  intros H1 Hu. destruct (sig_take_up req H1 Hu) as (Ht & Ho & Hd). exists (sig_take req).2.
  cbn [run_once run_step]. destruct (sig_take req) as [st req']. cbn in *. by subst st.
Qed.

End Trigger.

(** ** Runs *)

Lemma rtc_step_eq {A} (R : relation A) x y y' z : R x y -> y = y' -> rtc R y' z -> rtc R x z.
Proof. intros Hs <-. by apply rtc_l. Qed.

(** Take a step to a given configuration. *)
Tactic Notation "step_to" constr(c) "by" tactic3(t) :=
  eapply (rtc_step_eq _ _ _ c); [t|vm_compute; reflexivity|].

Definition ex_srv (running thread : bool) : RemoteTriggerServer :=
  mkRemoteTriggerServer "read_status" true running default_MemorySegment default_MemorySegment thread.
Definition up : BinaryFutex := new_BinaryFutex true false.
Definition down : BinaryFutex := new_BinaryFutex false false.
Definition ex_start : tconfig := tinitial "read_status" default_MemorySegment default_MemorySegment 1.

(** A started server that has begun a callback. *)
Lemma ex_callback rules :
  rtc (tstep rules) ex_start
    (mkTConfig (ex_srv true true) down down (Some RCallback) [UIdle] 1 0).
Proof.
  step_to (mkTConfig (ex_srv true true) down down (Some RPrelude) [UIdle] 0 0)
    by (apply (ts_start_async _ ex_start true); by intros _).
  step_to (mkTConfig (ex_srv true true) down down (Some RLoop) [UIdle] 0 0)
    by (by apply (ts_prelude _ _ OkStatus)).
  step_to (mkTConfig (ex_srv true true) down down (Some RWait) [UIdle] 0 0)
    by (by apply (ts_async _ _ RLoop)).
  step_to (mkTConfig (ex_srv true true) up down (Some RWait) [UIdle] 0 0)
    by (apply ts_client_post).
  step_to (mkTConfig (ex_srv true true) down down (Some RRecheck) [UIdle] 0 0)
    by (by apply (ts_async _ _ RWait)).
  step_to (mkTConfig (ex_srv true true) down down (Some RCallback) [UIdle] 1 0)
    by (by apply (ts_async _ _ RRecheck)).
  apply rtc_refl.
Qed.

(** A [Query] and a [Start] while the callback is under way return at once. *)
Lemma ex_calls_while_started :
  rtc (tstep true) ex_start
    (mkTConfig (ex_srv true true) down down (Some RCallback) [UIdle] 1 0).
Proof.
  etrans; [apply ex_callback|].
  step_to (mkTConfig (ex_srv true true) down down (Some RCallback) [UQuery QCheck] 1 0)
    by (by apply (ts_query _ _ 0)).
  step_to (mkTConfig (ex_srv true true) down down (Some RCallback) [UIdle] 1 0)
    by (by apply (ts_query_step _ _ 0 QCheck)).
  step_to (mkTConfig (ex_srv true true) down down (Some RCallback) [UIdle] 1 0)
    by (by apply (ts_start _ _ 0)).
  step_to (mkTConfig (ex_srv true true) down down (Some RCallback) [UIdle] 1 0)
    by (by apply (ts_start_async _ _ true)).
  apply rtc_refl.
Qed.

Lemma callbacks_exclusive_witness :
  tc_begun (mkTConfig (ex_srv true true) down down (Some RCallback) [UIdle] 1 0) = 1%nat
  /\ (sum r_callback u_callback
        (mkTConfig (ex_srv true true) down down (Some RCallback) [UIdle] 1 0) <= 1)%nat.
Proof.
  destruct (callbacks_exclusive _ _ _ _ _ ex_calls_while_started) as [H1 H2].
  split; [exact H2|]. cbn in *. lia.
Defined.

Lemma request_is_answered_witness :
  exists req' res', Nat.iter 5 run_once (ex_srv true true, up, down, RLoop)
                    = (ex_srv true true, req', res', RLoop) /\ sig_up res' = true.
Proof.
  destruct (request_is_answered (ex_srv true true) up down) as (req' & res' & E & _ & _ & Hu & _);
    [by right|by left|reflexivity|reflexivity|reflexivity|]. exists req', res'. by split.
Defined.

(** Two callbacks can overlap when [Query] is called after [RequestStop] without a
    join: [Query] only checks that the server is not running, not that its thread has
    returned. *)
Theorem query_after_stop_overlaps :
  exists c : tconfig, rtc (tstep false) ex_start c
    /\ IsStarted (tc_srv c) = false /\ sum r_callback u_callback c = 2%nat.
Proof.
  exists (mkTConfig (ex_srv false true) down down (Some RCallback) [UQuery QCallback] 2 0).
  split; [|done]. etrans; [apply ex_callback|].
  step_to (mkTConfig (ex_srv false true) down down (Some RCallback) [UIdle] 1 0)
    by (by apply ts_stop).
  step_to (mkTConfig (ex_srv false true) down down (Some RCallback) [UQuery QCheck] 1 0)
    by (by apply (ts_query _ _ 0)).
  step_to (mkTConfig (ex_srv false true) down down (Some RCallback) [UQuery QWait] 1 0)
    by (by apply (ts_query_step _ _ 0 QCheck)).
  step_to (mkTConfig (ex_srv false true) up down (Some RCallback) [UQuery QWait] 1 0)
    by (apply ts_client_post).
  step_to (mkTConfig (ex_srv false true) down down (Some RCallback) [UQuery QCallback] 2 0)
    by (by apply (ts_query_step _ _ 0 QWait)).
  apply rtc_refl.
Qed.

Definition ex_pair : tconfig := tinitial "read_status" default_MemorySegment default_MemorySegment 2.

(** A user's [Query] of a server that was not started has begun its callback. *)
Lemma ex_query_callback rules :
  rtc (tstep rules) ex_pair
    (mkTConfig (ex_srv false false) down down None [UQuery QCallback; UIdle] 1 0).
Proof.
  step_to (mkTConfig (ex_srv false false) down down None [UQuery QCheck; UIdle] 0 0)
    by (by apply (ts_query _ ex_pair 0)).
  step_to (mkTConfig (ex_srv false false) down down None [UQuery QWait; UIdle] 0 0)
    by (by apply (ts_query_step _ _ 0 QCheck)).
  step_to (mkTConfig (ex_srv false false) up down None [UQuery QWait; UIdle] 0 0)
    by (apply ts_client_post).
  step_to (mkTConfig (ex_srv false false) down down None [UQuery QCallback; UIdle] 1 0)
    by (by apply (ts_query_step _ _ 0 QWait)).
  apply rtc_refl.
Qed.

(** Two threads that call [Query] at the same time can both be in the callback. *)
Lemma two_queries_overlap :
  exists c : tconfig, rtc (tstep false) ex_pair c /\ sum r_callback u_callback c = 2%nat.
Proof.
  exists (mkTConfig (ex_srv false false) down down None [UQuery QCallback; UQuery QCallback] 2 0).
  split; [|done]. etrans; [apply ex_query_callback|].
  step_to (mkTConfig (ex_srv false false) down down None [UQuery QCallback; UQuery QCheck] 1 0)
    by (by apply (ts_query _ _ 1)).
  step_to (mkTConfig (ex_srv false false) down down None [UQuery QCallback; UQuery QWait] 1 0)
    by (by apply (ts_query_step _ _ 1 QCheck)).
  step_to (mkTConfig (ex_srv false false) up down None [UQuery QCallback; UQuery QWait] 1 0)
    by (apply ts_client_post).
  step_to (mkTConfig (ex_srv false false) down down None [UQuery QCallback; UQuery QCallback] 2 0)
    by (by apply (ts_query_step _ _ 1 QWait)).
  apply rtc_refl.
Qed.

(** A server that is started while a [Query] is past its check can run the callback a
    second time. *)
Lemma start_during_query_overlaps :
  exists c : tconfig, rtc (tstep false) ex_pair c /\ sum r_callback u_callback c = 2%nat.
Proof.
  exists (mkTConfig (ex_srv true false) down down None [UQuery QCallback; URun RCallback] 2 0).
  split; [|done]. etrans; [apply ex_query_callback|].
  step_to (mkTConfig (ex_srv true false) down down None [UQuery QCallback; URun RLoop] 1 0)
    by (by apply (ts_start _ _ 1)).
  step_to (mkTConfig (ex_srv true false) down down None [UQuery QCallback; URun RWait] 1 0)
    by (by apply (ts_user _ _ 1 RLoop)).
  step_to (mkTConfig (ex_srv true false) up down None [UQuery QCallback; URun RWait] 1 0)
    by (apply ts_client_post).
  step_to (mkTConfig (ex_srv true false) down down None [UQuery QCallback; URun RRecheck] 1 0)
    by (by apply (ts_user _ _ 1 RWait)).
  step_to (mkTConfig (ex_srv true false) down down None [UQuery QCallback; URun RCallback] 2 0)
    by (by apply (ts_user _ _ 1 RRecheck)).
  apply rtc_refl.
Qed.
