(* ===== verification/DomainSocket.v ===== *)
(** * Transfer of file descriptors over a domain socket
    ([icon/interprocess/shared_memory_manager/domain_socket_utils.{h,cc}], and the
     messages of [domain_socket_server.cc])

    A server splits its map from segment names to descriptors into messages of at most
    200 descriptors; a client receives them over a stream socket and rebuilds the map.
    The data of a message is a [TransferData]; its descriptors travel in a control
    message and get new numbers in the receiving process.  What the kernel returns
    from [recvmsg], [connect], [fcntl] and the clock are arguments. *)
From S2P Require Import Prelude Status FixedString Time SharedMemory.

(** ** Paths ([std::filesystem::path]) *)

Definition is_absolute (p : string) : bool :=
  match p with String c _ => bool_decide (c = slash) | EmptyString => false end.
Definition has_filename (p : string) : bool :=
  match last (chars p) with Some c => negb (bool_decide (c = slash)) | None => false end.

(** [p / q] *)
Definition path_append (p q : string) : string :=
  (if is_absolute q then q else if has_filename p then p ++ "/" ++ q else p ++ q)%string.

Definition kDomainSocketDirectory : string := "/tmp/intrinsic_icon".
Definition kSocketSuffix : string := ".sock".

(** [sizeof(sockaddr_un::sun_path)] *)
Definition sun_path_size : nat := 108.

(** [PathLengthIsValidForSockaddrUn(socket_path)] *)
Definition PathLengthIsValidForSockaddrUn (socket_path : string) : Status :=
  let kMaxSocketPathLength := (sun_path_size - 1)%nat in
  if (kMaxSocketPathLength <? length (chars socket_path))%nat then
    FormatStatus kInvalidArgument
      ("Socket path is too long. Got: '" ++ socket_path ++ "' with length "
         ++ pretty (length (chars socket_path)) ++ ", but max length is "
         ++ pretty kMaxSocketPathLength)
  else OkStatus.

(** [AbsoluteSocketPath(absolute_path, module_name)] *)
Definition AbsoluteSocketPath (absolute_path module_name : string) : expected string Status :=
  if negb (is_absolute absolute_path) then
    Unexpected (FormatStatus kInvalidArgument
      ("The path `socket_directory` must be absolute. Got: " ++ absolute_path))
  else
    let full_socket_path := (path_append absolute_path module_name ++ kSocketSuffix)%string in
    let status := PathLengthIsValidForSockaddrUn full_socket_path in
    if negb (status_ok status) then Unexpected status else Value full_socket_path.

(** [CreateSocketDirectory(absolute_path)]; [err] is the text of the error of
    [create_directories]. *)
Definition CreateSocketDirectory (err : option string) (absolute_path : string) : Status :=
  if negb (is_absolute absolute_path) then
    FormatStatus kInvalidArgument
      ("The path `socket_directory` must be absolute. Got: " ++ absolute_path)
  else match err with
       | Some ec =>
           FormatStatus kInternal
             ("Failed to create socket directory '" ++ absolute_path ++ "'. Error code " ++ ec)
       | None => OkStatus
       end.

(** [SocketDirectoryFromNamespace(shared_memory_namespace)] *)
Definition SocketDirectoryFromNamespace (shared_memory_namespace : string) : string :=
  if decide (shared_memory_namespace = "") then kDomainSocketDirectory
  else (path_append kDomainSocketDirectory "" ++ shared_memory_namespace)%string.

(** ** Messages *)

Definition kMaxFdsPerMessage : nat := 200.
Definition kDomainSocketProtocolVersion : Z := 2.

Record TransferData := mkTransferData {
  domain_socket_protocol_version : Z;
  num_messages : Z;
  message_index : Z;
  file_descriptor_names : FileDescriptorNames }.

Record ShmDescriptors := mkShmDescriptors {
  transfer_data : TransferData;
  file_descriptors_in_order : list Z }.

Definition default_ShmDescriptors : ShmDescriptors :=
  mkShmDescriptors
    (mkTransferData kDomainSocketProtocolVersion 0 0
       (mkFileDescriptorNames 0 (replicate kMaxFdsPerMessage default_SegmentName))) [].

(** Control messages ([<sys/socket.h>]). *)
Definition SOL_SOCKET : Z := 1.
Definition SCM_RIGHTS : Z := 1.
Definition sizeof_int : Z := 4.
Definition sizeof_cmsghdr : Z := 16.
Definition CMSG_ALIGN (n : Z) : Z := 8 * ((n + 7) / 8).
Definition CMSG_SPACE (n : Z) : Z := CMSG_ALIGN n + CMSG_ALIGN sizeof_cmsghdr.
Definition CMSG_LEN (n : Z) : Z := CMSG_ALIGN sizeof_cmsghdr + n.

Record cmsg := mkCmsg {
  cmsg_len : Z;
  cmsg_level : Z;
  cmsg_type : Z;
  cmsg_data : list Z }.

(** [CMSG_FIRSTHDR] of a buffer of [controllen] bytes. *)
Definition CMSG_FIRSTHDR (controllen : Z) (buf : cmsg) : option cmsg :=
  if controllen <? sizeof_cmsghdr then None else Some buf.

(** [DomainSocketServer::Message]: the data, and the control message. *)
Record Message := mkMessage {
  descriptors : ShmDescriptors;
  msg_control : cmsg }.

(** A buffer of zeros. *)
Definition zero_cmsg : cmsg := mkCmsg 0 0 0 [].

(** [PrepareMessage(message_index, num_messages, descriptors)] *)
Definition PrepareMessage (protocol_version_ index num : Z) (d : ShmDescriptors)
  : expected Message Status :=
  if index =? 0 then Unexpected (FormatStatus kOutOfRange "message_index starts at one")
  else if num =? 0 then Unexpected (FormatStatus kOutOfRange "num_messages starts at one")
  else if num <? index then
    Unexpected (FormatStatus kOutOfRange
      ("message_index (" ++ pretty index ++ ") cannot be greater than num_messages ("
         ++ pretty num ++ ")"))
  else
    let t := transfer_data d in
    let version := if negb (protocol_version_ =? kDomainSocketProtocolVersion)
                   then protocol_version_ else domain_socket_protocol_version t in
    let fds := file_descriptors_in_order d in
    let n := Z.of_nat (length fds) * sizeof_int in
    match CMSG_FIRSTHDR (CMSG_SPACE n) zero_cmsg with
    | None => Unexpected (FormatStatus kInternal "Failed to get first control message header")
    | Some _ =>
        Value (mkMessage
                 (mkShmDescriptors (mkTransferData version num index (file_descriptor_names t)) fds)
                 (mkCmsg (CMSG_LEN n) SOL_SOCKET SCM_RIGHTS fds))
    end.

(** The inner loop of [PrepareMessages]: fill one message from the map; what is left
    is returned too. *)
Fixpoint fill_message (rest : list (string * Z)) (d : ShmDescriptors)
  : expected (ShmDescriptors * list (string * Z)) Status :=
  match rest with
  | [] => Value (d, [])
  | (name, fd) :: rest' =>
      let t := transfer_data d in
      let fd_names := file_descriptor_names t in
      if (fdn_size fd_names <? Z.of_nat kMaxFdsPerMessage)
         && (fdn_size fd_names <? Z.of_nat (length (fdn_names fd_names))) then
        match StringCopy (Some (sn_value default_SegmentName)) name with
        | (status, value) =>
            if negb (rt_ok status) then Unexpected (ToStatus status)
            else
              let segment_name := mkSegmentName (default [] value) false in
              fill_message rest'
                (mkShmDescriptors
                   (mkTransferData (domain_socket_protocol_version t) (num_messages t)
                      (message_index t)
                      (mkFileDescriptorNames (wrap_u 32 (fdn_size fd_names + 1))
                         (<[Z.to_nat (fdn_size fd_names) := segment_name]> (fdn_names fd_names))))
                   (file_descriptors_in_order d ++ [fd]))
        end
      else Value (d, rest)
  end.

(** The outer loop: [n] messages from [index] on; the result is the messages and
    [descriptor_count]. *)
Fixpoint prepare_loop (protocol_version_ num : Z) (n : nat) (index : Z)
    (rest : list (string * Z)) (descriptor_count : Z) : expected (list Message * Z) Status :=
  match n with
  | O => Value ([], descriptor_count)
  | S n' =>
      match fill_message rest default_ShmDescriptors with
      | Unexpected st => Unexpected st
      | Value (d, rest') =>
          match PrepareMessage protocol_version_ index num d with
          | Unexpected st => Unexpected st
          | Value message =>
              match prepare_loop protocol_version_ num n' (index + 1) rest'
                      (descriptor_count + fdn_size (file_descriptor_names (transfer_data d))) with
              | Unexpected st => Unexpected st
              | Value (messages, count) => Value (message :: messages, count)
              end
          end
      end
  end.

(** [PrepareMessages(segment_name_to_file_descriptor_map)] *)
Definition PrepareMessages `{IterOrder} (protocol_version_ : Z) (segments : gmap string Z)
  : expected (list Message) Status :=
  if (size segments =? 0)%nat then
    Unexpected (FormatStatus kInvalidArgument "segment_name_to_file_descriptor_map is empty")
  else
    let kNumMessages := (1 + (size segments - 1) / kMaxFdsPerMessage)%nat in
    match prepare_loop protocol_version_ (Z.of_nat kNumMessages) kNumMessages 1 (iter segments) 0 with
    | Unexpected st => Unexpected st
    | Value (messages, descriptor_count) =>
        if negb (descriptor_count =? Z.of_nat (size segments)) then
          Unexpected (FormatStatus kInternal
            ("Expected " ++ pretty (size segments) ++ " descriptors, but only got "
               ++ pretty descriptor_count))
        else Value messages
    end.

(** ** The client *)

Section Client.
Context (StrError : Z -> string) (FormatTime : Z -> string).
(** [sizeof(TransferData)], and [fcntl(fd, F_GETFD)]: the error for a descriptor that
    is not open. *)
Context (kExpectedBytes : nat) (fcntl : Z -> option Z).

(** What the kernel delivers of one message: the results of the calls of [recvmsg]
    ([inl]: an error), the control message of the first call, and the data. *)
Record incoming := mkIncoming {
  in_recv : nat -> Z + nat;
  in_control : option cmsg;
  in_data : TransferData }.

(** The connection was closed by the server. *)
Definition closed_connection : incoming :=
  mkIncoming (fun _ => inr 0%nat) None (transfer_data default_ShmDescriptors).

(** The loop over [recvmsg]; every turn receives a byte or returns, so that
    [kExpectedBytes] turns are enough. *)
Fixpoint recv_loop (fuel : nat) (recv : nat -> Z + nat) (k received_bytes_sum : nat)
  : option (expected nat Status) :=
  if (received_bytes_sum <? kExpectedBytes)%nat then
    match fuel with
    | O => None
    | S fuel' =>
        match recv k with
        | inl e =>
            Some (Unexpected (FormatStatus kInternal
              ("Failed to receive data with error: " ++ StrError e)))
        | inr O =>
            Some (Unexpected (mkStatus kInternal "No data received. Likely due to shutdown."))
        | inr received_bytes =>
            let sum := (received_bytes_sum + received_bytes)%nat in
            if (kExpectedBytes <? sum)%nat then
              Some (Unexpected (FormatStatus kOutOfRange
                ("Received " ++ pretty sum ++ " bytes but only expected "
                   ++ pretty kExpectedBytes ++ " bytes")))
            else recv_loop fuel' recv (S k) sum
        end
    end
  else Some (Value received_bytes_sum).

(** The loop over the received descriptors. *)
Fixpoint check_fds (names : list string) (data : list Z) (n : nat) (acc : list Z)
  : expected (list Z) Status :=
  match n with
  | O => Value acc
  | S n' =>
      let fd := default 0 (head data) in
      match fcntl fd with
      | Some e =>
          Unexpected (FormatStatus kInternal
            ("File descriptor for segment '" ++ default "" (head names)
               ++ "' is not valid. Either the receiving process can't open any more files, or "
               ++ "the server sent a closed file descriptor. Error: " ++ StrError e))
      | None => check_fds (tail names) (tail data) n' (acc ++ [fd])
      end
  end.

(** [GetSingleMessage(to_server_sock, logger)] after the data has been received; the
    control message is looked up with the length of the whole buffer. *)
Definition parse_message (m : incoming) : checked (expected ShmDescriptors Status) :=
  let t := in_data m in
  if negb (domain_socket_protocol_version t =? kDomainSocketProtocolVersion) then
    Returns (Unexpected (FormatStatus kFailedPrecondition
      ("Incompatible domain socket protocol version. Got: "
         ++ pretty (domain_socket_protocol_version t) ++ ", expected "
         ++ pretty kDomainSocketProtocolVersion ++ ".")))
  else
    let kNumNames := wrap_s 32 (fdn_size (file_descriptor_names t)) in
    let! segment_names := GetNamesFromFileDescriptorNames (file_descriptor_names t) in
    Returns
      match segment_names with
      | Unexpected st => Unexpected st
      | Value names =>
          let controllen := CMSG_SPACE (Z.of_nat kMaxFdsPerMessage * sizeof_int) in
          match CMSG_FIRSTHDR controllen (default zero_cmsg (in_control m)) with
          | None => Unexpected (mkStatus kInternal "No control message received")
          | Some c =>
              if negb (cmsg_len c =? CMSG_LEN (kNumNames * sizeof_int)) then
                Unexpected (FormatStatus kInternal
                  ("Unexpected size of control message (" ++ pretty (message_index t) ++ "/"
                     ++ pretty (num_messages t) ++ "). Expected "
                     ++ pretty (CMSG_LEN (kNumNames * sizeof_int)) ++ " bytes, got "
                     ++ pretty (cmsg_len c) ++ " bytes."))
              else if negb (cmsg_level c =? SOL_SOCKET) then
                Unexpected (FormatStatus kInternal
                  ("Unexpected level of control message. Expected " ++ pretty SOL_SOCKET
                     ++ ", got " ++ pretty (cmsg_level c)))
              else if negb (cmsg_type c =? SCM_RIGHTS) then
                Unexpected (FormatStatus kInternal
                  ("Unexpected type of control message. Expected '" ++ pretty SCM_RIGHTS
                     ++ "', got '" ++ pretty (cmsg_type c) ++ "'"))
              else
                match check_fds names (cmsg_data c) (Z.to_nat kNumNames) [] with
                | Unexpected st => Unexpected st
                | Value fds => Value (mkShmDescriptors t fds)
                end
          end
      end.

(** [GetSingleMessage(to_server_sock, logger)]; [None] when the fuel is used up. *)
Definition GetSingleMessage (m : incoming) : option (checked (expected ShmDescriptors Status)) :=
  match recv_loop kExpectedBytes (in_recv m) 0 0 with
  | None => None
  | Some (Unexpected st) => Some (Returns (Unexpected st))
  | Some (Value received_bytes_sum) =>
      if negb (received_bytes_sum =? kExpectedBytes)%nat then
        Some (Returns (Unexpected (FormatStatus kInternal
          ("Received " ++ pretty received_bytes_sum ++ " bytes but only expected "
             ++ pretty kExpectedBytes ++ " bytes"))))
      else Some (parse_message m)
  end.

(** One turn of the loop of [GetSegmentNameToFileDescriptorMap] with a received
    message: an error, or [remaining_messages] and the new values of the variables. *)
Definition use_message (message : ShmDescriptors) (expected_message_index expected_num : Z)
    (acc : gmap string Z) : checked (expected (Z * Z * gmap string Z) Status) :=
  let t := transfer_data message in
  if negb (expected_message_index =? message_index t) then
    Returns (Unexpected (FormatStatus kInternal
      ("Expected message with index " ++ pretty expected_message_index ++ " but got "
         ++ pretty (message_index t))))
  else
    let expected_num := if expected_message_index =? 1 then num_messages t else expected_num in
    if negb (expected_num =? num_messages t) then
      Returns (Unexpected (FormatStatus kFailedPrecondition
        ("Expected " ++ pretty expected_num ++ " messages, but message "
           ++ pretty (message_index t) ++ " claims that there are "
           ++ pretty (num_messages t) ++ ".")))
    else
      let remaining_messages := wrap_u 64 (expected_num - expected_message_index) in
      let! names := GetNamesFromFileDescriptorNames (file_descriptor_names t) in
      Returns
        match names with
        | Unexpected st => Unexpected st
        | Value names =>
            if negb (length names =? length (file_descriptors_in_order message))%nat then
              Unexpected (FormatStatus kFailedPrecondition
                ("Names and file descriptors have different sizes. Got: "
                   ++ pretty (length names) ++ " names and "
                   ++ pretty (length (file_descriptors_in_order message)) ++ " file descriptors"))
            else
              Value (remaining_messages, expected_num,
                     fold_left (fun acc p => <[p.1 := p.2]> acc)
                       (zip names (file_descriptors_in_order message)) acc)
        end.

(** The loop of [GetSegmentNameToFileDescriptorMap] on a stream of messages: [ins] are the
    messages up to the moment at which the server closes the connection or stops sending
    (the socket then reports an error after a second), so that the next call returns no
    data.  The loop ends when [remaining_messages] is 0; on a stream that is longer than
    the number of messages announced it does not look at the rest (see [client_returns]). *)
Fixpoint receive_loop (ins : list incoming) (expected_message_index expected_num : Z)
    (acc : gmap string Z) : option (checked (expected (gmap string Z) Status)) :=
  let turn (m : incoming) (next : Z -> gmap string Z -> option (checked (expected (gmap string Z) Status))) :=
    match GetSingleMessage m with
    | None => None
    | Some (Aborts msg) => Some (Aborts msg)
    | Some (Returns (Unexpected st)) => Some (Returns (Unexpected st))
    | Some (Returns (Value message)) =>
        match use_message message expected_message_index expected_num acc with
        | Aborts msg => Some (Aborts msg)
        | Returns (Unexpected st) => Some (Returns (Unexpected st))
        | Returns (Value (remaining_messages, num, acc')) =>
            if 0 <? remaining_messages then next num acc' else Some (Returns (Value acc'))
        end
    end in
  match ins with
  | [] => turn closed_connection (fun _ _ => None)
  | m :: ins' =>
      turn m (fun num acc' => receive_loop ins' (wrap_u 64 (expected_message_index + 1)) num acc')
  end.

(** [AddressFromAbsolutePath(absolute_socket_path)]: the array [sun_path]; [err] is an
    error of [snprintf]. *)
Definition AddressFromAbsolutePath (err : option Z) (absolute_socket_path : string)
  : expected (list ascii) Status :=
  let status := PathLengthIsValidForSockaddrUn absolute_socket_path in
  if negb (status_ok status) then Unexpected status
  else match err with
       | Some e =>
           Unexpected (FormatStatus kInternal
             ("Failed to copy socket path '" ++ absolute_socket_path
                ++ "' to sockaddr_un struct with error: " ++ StrError e))
       | None =>
           let printed := take (sun_path_size - 1) (until_nul (chars absolute_socket_path)) in
           Value (printed ++ drop (length printed) (replicate sun_path_size NUL))
       end.

(** The loop of [ConnectToServer]: per attempt the error of [connect] and the time
    after the sleep; [None] when the attempts run out. *)
Fixpoint connect_loop (path : string) (deadline : Z) (attempts : list (option Z * Z)) : option Status :=
  match attempts with
  | [] => None
  | (None, _) :: _ => Some OkStatus
  | (Some _, now) :: attempts' =>
      if now <? deadline then connect_loop path deadline attempts'
      else Some (FormatStatus kDeadlineExceeded
                   ("Failed to connect to socket '" ++ path ++ "' before "
                      ++ FormatTime deadline ++ "."))
  end.

(** [ConnectToServer(to_server_sock, absolute_socket_path, deadline, logger)] *)
Definition ConnectToServer (err : option Z) (path : string) (deadline : Z)
    (attempts : list (option Z * Z)) : option Status :=
  match AddressFromAbsolutePath err path with
  | Unexpected st => Some st
  | Value _ => connect_loop path deadline attempts
  end.

(** What the other calls of one [GetSegmentNameToFileDescriptorMap] return. *)
Record client_env := mkClientEnv {
  ce_now : Z;
  ce_socket : Z + Z;
  ce_mkdir : option string;
  ce_snprintf : option Z;
  ce_attempts : list (option Z * Z);
  ce_setsockopt : option Z;
  ce_incoming : list incoming }.

(** [GetSegmentNameToFileDescriptorMap(socket_directory, module_name,
    connection_timeout, logger)], and the socket that it closes at the end. *)
Definition GetSegmentNameToFileDescriptorMap (env : client_env)
    (socket_directory module_name : string) (connection_timeout : Z)
  : option (checked (expected (gmap string Z) Status)) * option Z :=
  let fail st := Some (Returns (Unexpected st)) in
  let deadline := time_add (ce_now env) (seconds connection_timeout) in
  match ce_socket env with
  | inl e =>
      (fail (FormatStatus kInternal
         ("Failed to create GetShmDescriptors client socket with error: " ++ StrError e)), None)
  | inr to_server_sock =>
      (let status := CreateSocketDirectory (ce_mkdir env) socket_directory in
       if negb (status_ok status) then fail status
       else
         match AbsoluteSocketPath socket_directory module_name with
         | Unexpected st => fail st
         | Value absolute_socket_path =>
             match ConnectToServer (ce_snprintf env) absolute_socket_path deadline
                     (ce_attempts env) with
             | None => None
             | Some status =>
                 if negb (status_ok status) then fail status
                 else match ce_setsockopt env with
                      | Some e =>
                          fail (FormatStatus kInternal
                            ("Failed to set socket timeout with error: " ++ StrError e))
                      | None => receive_loop (ce_incoming env) 1 0 ∅
                      end
             end
         end,
       Some to_server_sock)
  end.

End Client.
