(* ===== verification/DomainSocketProofs.v ===== *)
(** * Correctness of the transfer of descriptors *)
From S2P Require Import Prelude Status FixedString SharedMemory SharedMemoryProofs DomainSocket.

#[local] Arguments FormatStatus : simpl never.
#[local] Arguments kMaxFdsPerMessage : simpl never.
#[local] Arguments kMaxSegmentStringSize : simpl never.

(** ** The messages of the server *)

Section Server.

Notation segment := (string * Z)%type.
Implicit Types (l done rest : list segment) (cs : list (list segment)).

(** The entry of a segment in the list of names. *)
Definition name_entry (s : segment) : SegmentName :=
  mkSegmentName (default [] (StringCopy (Some (sn_value default_SegmentName)) s.1).2) false.

(** The descriptors of a message that carries [done]. *)
Definition carrying (version num index : Z) done : ShmDescriptors :=
  mkShmDescriptors
    (mkTransferData version num index
       (mkFileDescriptorNames (Z.of_nat (length done))
          ((name_entry <$> done) ++ replicate (kMaxFdsPerMessage - length done) default_SegmentName)))
    done.*2.

Lemma StringCopy_ok d s : rt_ok (StringCopy (Some d) s).1 = true.
Proof. done. Qed.

Lemma fill_message_spec v num index rest done :
  (length done <= kMaxFdsPerMessage)%nat ->
  fill_message rest (carrying v num index done) =
    Value (carrying v num index (done ++ take (kMaxFdsPerMessage - length done) rest),
           drop (kMaxFdsPerMessage - length done) rest).
Proof.
  revert done. induction rest as [|[name fd] rest IH]; intros done Hl.
  { by rewrite take_nil, drop_nil, app_nil_r. }
  cbn [fill_message carrying transfer_data file_descriptor_names fdn_size fdn_names].
  rewrite length_app, length_fmap, length_replicate.
  replace (length done + (kMaxFdsPerMessage - length done))%nat with kMaxFdsPerMessage by lia.
  destruct (Z.ltb_spec (Z.of_nat (length done)) (Z.of_nat kMaxFdsPerMessage)); cbn [andb].
  - specialize (IH (done ++ [(name, fd)])). rewrite length_app in IH. cbn [length] in IH.
    pose proof (StringCopy_ok (sn_value default_SegmentName) name) as Hok.
    destruct (StringCopy _ name) as [status value] eqn:Hc. cbn [fst] in Hok.
    rewrite Hok. cbn [negb].
    replace (kMaxFdsPerMessage - length done)%nat
      with (S (kMaxFdsPerMessage - (length done + 1)))%nat by lia.
    cbn [take drop]. rewrite <-app_assoc in IH. cbn [app] in IH. rewrite <-IH by lia. f_equal.
    unfold carrying. cbn [domain_socket_protocol_version message_index num_messages
      file_descriptors_in_order]. unfold kMaxFdsPerMessage in *.
    rewrite wrap_u_id by (split; simpl; lia). rewrite Nat2Z.id, length_app, !fmap_app. cbn [length].
    do 3 f_equal; [lia|].
    rewrite insert_app_r_alt by (rewrite length_fmap; lia).
    rewrite length_fmap, Nat.sub_diag. cbn [replicate insert list_insert].
    rewrite <-app_assoc. f_equal. unfold name_entry. cbn [fmap list_fmap fst]. by rewrite Hc.
  - replace (kMaxFdsPerMessage - length done)%nat with 0%nat by lia.
    cbn [take drop]. by rewrite app_nil_r.
Qed.

Lemma default_carrying : default_ShmDescriptors = carrying kDomainSocketProtocolVersion 0 0 [].
Proof. done. Qed.

(** The message with index [index] of [num]. *)
Definition message_of (version num index : Z) done : Message :=
  mkMessage (carrying version num index done)
    (mkCmsg (CMSG_LEN (Z.of_nat (length done) * sizeof_int)) SOL_SOCKET SCM_RIGHTS done.*2).

Lemma PrepareMessage_spec v index num done :
  1 <= index <= num ->
  PrepareMessage v index num (carrying kDomainSocketProtocolVersion 0 0 done)
  = Value (message_of v num index done).
Proof.
  intros Hi. unfold PrepareMessage.
  destruct (Z.eqb_spec index 0); [lia|]. destruct (Z.eqb_spec num 0); [lia|].
  destruct (Z.ltb_spec num index); [lia|]. unfold CMSG_FIRSTHDR.
  cbn [carrying transfer_data file_descriptors_in_order domain_socket_protocol_version].
  rewrite length_fmap. unfold CMSG_SPACE, CMSG_ALIGN, sizeof_cmsghdr, sizeof_int.
  destruct (Z.ltb_spec (8 * ((Z.of_nat (length done) * 4 + 7) / 8) + 8 * ((16 + 7) / 8)) 16) as [Hb|_].
  { pose proof (Z.div_pos (Z.of_nat (length done) * 4 + 7) 8). change ((16 + 7) / 8) with 2 in Hb. lia. }
  unfold message_of, carrying. destruct (Z.eqb_spec v kDomainSocketProtocolVersion) as [->|]; done.
Qed.

(** The map, cut into pieces. *)
Fixpoint chunks (n : nat) l : list (list segment) :=
  match n with
  | O => []
  | S n' => take kMaxFdsPerMessage l :: chunks n' (drop kMaxFdsPerMessage l)
  end.
Fixpoint numbered (version num index : Z) cs : list Message :=
  match cs with
  | [] => []
  | c :: cs' => message_of version num index c :: numbered version num (index + 1) cs'
  end.

Lemma prepare_loop_spec v num n index l count :
  1 <= index -> index + Z.of_nat n - 1 <= num ->
  prepare_loop v num n index l count =
    Value (numbered v num index (chunks n l), count + Z.of_nat (length (concat (chunks n l)))).
Proof.
  revert index l count. induction n as [|n IH]; intros index l count H1 H2.
  { simpl. by rewrite Z.add_0_r. }
  cbn [prepare_loop chunks numbered concat]. rewrite default_carrying, fill_message_spec by (simpl; lia).
  cbn [length app]. rewrite Nat.sub_0_r, PrepareMessage_spec by lia.
  rewrite IH by lia. cbn [carrying transfer_data file_descriptor_names fdn_size].
  rewrite length_app. by rewrite Nat2Z.inj_add, Z.add_assoc.
Qed.

Lemma concat_chunks n l : concat (chunks n l) = take (n * kMaxFdsPerMessage) l.
Proof.
  revert l. induction n as [|n IH]; intros l; [done|]. cbn [chunks concat Nat.mul].
  by rewrite IH, take_take_drop.
Qed.

Lemma chunks_bounded n l : Forall (fun c => length c <= kMaxFdsPerMessage)%nat (chunks n l).
Proof.
  revert l. induction n; intros l; simpl; constructor; [rewrite length_take; lia|done].
Qed.

Definition message_count (n : nat) : nat := (1 + (n - 1) / kMaxFdsPerMessage)%nat.

Lemma message_count_enough n : (n <= message_count n * kMaxFdsPerMessage)%nat.
Proof.
  unfold message_count, kMaxFdsPerMessage.
  pose proof (Nat.div_mod_eq (n - 1) 200). pose proof (Nat.mod_upper_bound (n - 1) 200). lia.
Qed.

Lemma length_chunks n l : length (chunks n l) = n.
Proof. revert l. induction n; intros l; simpl; auto. Qed.

Context `{IterOrder}.

Lemma length_iter (segments : gmap string Z) : length (iter segments) = size segments.
Proof. rewrite iter_perm. apply length_map_to_list. Qed.

(** The server prepares all messages, for every map that is not empty. *)
Lemma PrepareMessages_spec v (segments : gmap string Z) :
  segments <> ∅ ->
  let n := message_count (size segments) in
  let cs := chunks n (iter segments) in
  PrepareMessages v segments = Value (numbered v (Z.of_nat n) 1 cs)
  /\ concat cs = iter segments.
Proof.
  intros Hne n cs. assert (concat cs = iter segments) as Hc.
  { unfold cs. rewrite concat_chunks, take_ge; [done|]. rewrite length_iter. apply message_count_enough. }
  split; [|done]. unfold PrepareMessages.
  destruct (Nat.eqb_spec (size segments) 0) as [Hz|_]; [by apply map_size_empty_inv in Hz|].
  fold (message_count (size segments)). fold n. rewrite prepare_loop_spec by lia. fold cs.
  by rewrite Hc, length_iter, Z.add_0_l, Z.eqb_refl.
Qed.

End Server.

(** ** The client *)

Section Receiving.
Context (StrError : Z -> string).
Context (kExpectedBytes : nat) (fcntl : Z -> option Z).
Notation recv_loop := (recv_loop StrError kExpectedBytes).
Notation check_fds := (check_fds StrError fcntl).
Notation parse_message := (parse_message StrError fcntl).
Notation GetSingleMessage := (GetSingleMessage StrError kExpectedBytes fcntl).
Notation receive_loop := (receive_loop StrError kExpectedBytes fcntl).
Implicit Types (l done : list (string * Z)) (cs : list (list (string * Z))).

(** The data arrives in pieces. *)
Definition chunked (recv : nat -> Z + nat) : Prop :=
  exists sizes : list nat, Forall (fun c => 0 < c)%nat sizes /\ sum_list sizes = kExpectedBytes
    /\ forall k c, sizes !! k = Some c -> recv k = inr c.


Lemma recv_loop_chunks fuel recv k sum (sizes : list nat) :
  (kExpectedBytes <= sum + fuel)%nat -> Forall (fun c => 0 < c)%nat sizes ->
  (sum + sum_list sizes = kExpectedBytes)%nat ->
  (forall j c, sizes !! j = Some c -> recv (k + j)%nat = inr c) ->
  recv_loop fuel recv k sum = Some (Value kExpectedBytes).
Proof.
  intros Hf Hpos. revert fuel k sum Hf. induction Hpos as [|c sizes Hc _ IH];
    intros fuel k sum Hf Hsum Hr; simpl in Hsum; destruct fuel as [|fuel]; cbn [DomainSocket.recv_loop];
    destruct (Nat.ltb_spec sum kExpectedBytes); try lia; try (do 2 f_equal; lia).
  specialize (Hr 0%nat c eq_refl) as Hc0. rewrite Nat.add_0_r in Hc0. rewrite Hc0.
  destruct c as [|c]; [lia|]. destruct (Nat.ltb_spec kExpectedBytes (sum + S c)); [lia|].
  apply IH; [lia|lia|]. intros j x Hx. rewrite <-(Hr (S j) x Hx). f_equal. lia.
Qed.

Lemma check_fds_spec names data acc :
  Forall (fun fd => fcntl fd = None) data ->
  check_fds names data (length data) acc = Value (acc ++ data).
Proof.
  intros Hf. revert names acc. induction Hf as [|fd data Hfd _ IH]; intros names acc; simpl.
  { by rewrite app_nil_r. }
  rewrite Hfd, IH. by rewrite <-app_assoc.
Qed.

(** Names that fit into the array. *)
Definition name_ok (name : string) : Prop :=
  no_nul (chars name) /\ (length (chars name) < kMaxSegmentStringSize)%nat.

Lemma name_entry_name s : name_ok s.1 -> InterfaceNameFromSegment (name_entry s) = Value s.1.
Proof.
  intros [Hn Hl]. unfold InterfaceNameFromSegment, name_entry. cbn [sn_value].
  destruct (StringCopy_roundtrip (sn_value default_SegmentName) s.1 Hn) as (d & -> & Hd).
  - unfold default_SegmentName. cbn [sn_value]. by rewrite length_replicate.
  - cbn [snd default]. unfold id. by rewrite Hd.
Qed.

Lemma carried_names v num index done :
  Forall (fun s => name_ok s.1) done ->
  GetNamesFromFileDescriptorNames
    (file_descriptor_names (transfer_data (carrying v num index done))) = Returns (Value done.*1).
Proof.
  intros Hn. unfold GetNamesFromFileDescriptorNames, carrying.
  cbn [transfer_data file_descriptor_names fdn_names fdn_size]. rewrite Nat2Z.id.
  pose proof (names_loop_spec name_entry fst (fun _ => true) done []) as Hloop.
  cbn [app length] in Hloop. rewrite Hloop, filter_all; [done|].
  eapply Forall_impl; [exact Hn|]. intros s. apply name_entry_name.
Qed.

(** A message [m] as it reaches the client: its data is complete, and its descriptors
    have become other descriptors for the same files ([R]), which are open. *)
Record delivered (R : Z -> Z -> Prop) (m : Message) (i : incoming) : Prop := mkDelivered {
  de_data : in_data i = transfer_data (descriptors m);
  de_recv : chunked (in_recv i);
  de_control : exists fds', in_control i = Some (mkCmsg (cmsg_len (msg_control m))
                  (cmsg_level (msg_control m)) (cmsg_type (msg_control m)) fds')
               /\ Forall2 R (cmsg_data (msg_control m)) fds'
               /\ Forall (fun fd => fcntl fd = None) fds' }.

Lemma GetSingleMessage_delivered R num index done i :
  Forall (fun s => name_ok s.1) done -> (length done <= kMaxFdsPerMessage)%nat ->
  delivered R (message_of kDomainSocketProtocolVersion num index done) i ->
  exists fds', Forall2 R done.*2 fds'
    /\ GetSingleMessage i = Some (Returns (Value (mkShmDescriptors
         (transfer_data (carrying kDomainSocketProtocolVersion num index done)) fds'))).
Proof.
  intros Hn Hlen [Hd (sizes & Hpos & Hsum & Hrecv) (fds' & Hc & HR & Hf)].
  exists fds'. split; [done|]. unfold DomainSocket.GetSingleMessage.
  rewrite (recv_loop_chunks _ _ _ _ sizes) by (done || lia). rewrite Nat.eqb_refl. cbn [negb].
  f_equal. unfold DomainSocket.parse_message. rewrite Hd, Hc. cbn [descriptors message_of].
  rewrite carried_names by done.
  cbn [carrying transfer_data domain_socket_protocol_version file_descriptor_names fdn_size].
  rewrite Z.eqb_refl. cbn [negb cbind default]. unfold id. cbn [msg_control message_of cmsg_len
    cmsg_level cmsg_type].
  change (CMSG_FIRSTHDR _ ?c) with (Some c). cbn [cmsg_len cmsg_level cmsg_type cmsg_data].
  unfold kMaxFdsPerMessage in Hlen. rewrite wrap_s_id by (try split; simpl; lia).
  rewrite !Z.eqb_refl. cbn [negb]. rewrite Nat2Z.id. apply Forall2_length in HR as Hl.
  cbn [msg_control message_of cmsg_data] in Hl. rewrite length_fmap in Hl.
  by rewrite Hl, check_fds_spec.
Qed.

(** What a message adds to the map of the client. *)
Definition add_all (acc : gmap string Z) (ps : list (string * Z)) : gmap string Z :=
  fold_left (fun acc p => <[p.1 := p.2]> acc) ps acc.

Lemma use_message_delivered num index expected_num done fds' acc :
  Forall (fun s => name_ok s.1) done -> length fds' = length done ->
  (index = 1 \/ expected_num = num) ->
  use_message (mkShmDescriptors
      (transfer_data (carrying kDomainSocketProtocolVersion num index done)) fds')
    index expected_num acc
  = Returns (Value (wrap_u 64 (num - index), num, add_all acc (zip done.*1 fds'))).
Proof.
  intros Hn Hl Hi. unfold use_message. cbn [transfer_data file_descriptors_in_order].
  rewrite carried_names by done. cbn [carrying transfer_data message_index num_messages].
  rewrite Z.eqb_refl. cbn [negb]. set (e := if _ =? _ then _ else _).
  assert (e = num) as -> by (unfold e; destruct (Z.eqb_spec index 1); naive_solver).
  rewrite Z.eqb_refl. cbn [negb cbind]. by rewrite length_fmap, Hl, Nat.eqb_refl.
Qed.

(** Pieces of a map that fit into messages. *)
Definition sendable cs : Prop :=
  Forall (fun c => Forall (fun s => name_ok s.1) c /\ (length c <= kMaxFdsPerMessage)%nat) cs.

Lemma zip_pairs (R : Z -> Z -> Prop) done fds' :
  Forall2 R done.*2 fds' ->
  Forall2 (fun s p => s.1 = p.1 /\ R s.2 p.2) done (zip done.*1 fds').
Proof.
  revert fds'. induction done as [|s done IH]; intros fds' Hf; inversion Hf; subst; simpl;
    constructor; auto.
Qed.

Lemma add_all_app acc ps qs : add_all acc (ps ++ qs) = add_all (add_all acc ps) qs.
Proof. apply fold_left_app. Qed.

Lemma receive_numbered R num index cs ins expected_num acc :
  cs <> [] -> 1 <= index -> num = index + Z.of_nat (length cs) - 1 -> num < 2 ^ 64 ->
  (index = 1 \/ expected_num = num) -> sendable cs ->
  Forall2 (delivered R) (numbered kDomainSocketProtocolVersion num index cs) ins ->
  exists ps, Forall2 (fun s p => s.1 = p.1 /\ R s.2 p.2) (concat cs) ps
    /\ receive_loop ins index expected_num acc = Some (Returns (Value (add_all acc ps))).
Proof.
  intros Hne H1 Hnum H64 Hi Hs. revert index ins expected_num acc Hne H1 Hnum Hi.
  induction Hs as [|c cs [Hn Hl] Hs IH]; intros index ins expected_num acc Hne H1 Hnum Hi Hd; [done|].
  cbn [numbered] in Hd. inversion Hd as [|m i ms ins' Hm Hd']; subst ins m ms.
  destruct (GetSingleMessage_delivered _ _ _ _ _ Hn Hl Hm) as (fds' & HR & Hget).
  pose proof (Forall2_length _ _ _ HR) as Hlen. rewrite length_fmap in Hlen.
  cbn [DomainSocket.receive_loop]. rewrite Hget, use_message_delivered by done.
  pose proof (zip_pairs R c fds' HR) as Hz. cbn [length] in Hnum.
  rewrite wrap_u_id by (split; lia). destruct cs as [|c' cs].
  - simpl in Hnum. destruct (Z.ltb_spec 0 (num - index)); [lia|].
    exists (zip c.*1 fds'). split; [by rewrite concat_cons, app_nil_r|done].
  - cbn [length] in Hnum. destruct (Z.ltb_spec 0 (num - index)); [|lia].
    rewrite wrap_u_id by (split; lia).
    edestruct (IH (index + 1) ins' num) as (ps & Hps & ->); [done|lia|cbn [length]; lia|auto|done|].
    exists (zip c.*1 fds' ++ ps). split; [by apply Forall2_app|]. by rewrite add_all_app.
Qed.

Lemma numbered_inv v num index cs m :
  m ∈ numbered v num index cs ->
  exists j c, index <= j /\ c ∈ cs /\ m = message_of v num j c.
Proof.
  revert index. induction cs as [|c cs IH]; intros index; cbn [numbered].
  { by intros ?%not_elem_of_nil. }
  intros [->|Hm]%elem_of_cons; [exists index, c; split; [lia|split; [by left|done]]|].
  destruct (IH _ Hm) as (j & c' & Hj & Hc & ->). exists j, c'. split; [lia|]. split; [by right|done].
Qed.

Lemma receive_closed index expected_num acc :
  (0 < kExpectedBytes)%nat ->
  exists st, receive_loop [] index expected_num acc = Some (Returns (Unexpected st)).
Proof.
  intros Hk. eexists. cbn [DomainSocket.receive_loop]. unfold DomainSocket.GetSingleMessage.
  destruct kExpectedBytes as [|k]; [lia|]. by cbn [DomainSocket.recv_loop closed_connection in_recv Nat.ltb Nat.leb].
Qed.

Lemma receive_incomplete R num index cs msgs ins expected_num acc :
  (0 < kExpectedBytes)%nat -> 1 <= index -> num = index + Z.of_nat (length cs) - 1 ->
  num < 2 ^ 64 -> (index = 1 \/ expected_num = num) -> sendable cs ->
  sublist msgs (numbered kDomainSocketProtocolVersion num index cs) ->
  msgs <> numbered kDomainSocketProtocolVersion num index cs ->
  Forall2 (delivered R) msgs ins ->
  exists st, receive_loop ins index expected_num acc = Some (Returns (Unexpected st)).
Proof.
  intros Hk H1 Hnum H64 Hi Hs. revert index msgs ins expected_num acc H1 Hnum Hi.
  induction Hs as [|c cs [Hn Hl] Hs IH]; intros index msgs ins expected_num acc H1 Hnum Hi Hsub Hne Hd.
  { by apply sublist_nil_r in Hsub as ->. }
  cbn [numbered length] in *. apply sublist_cons_r in Hsub as [Hsub|(msgs' & -> & Hsub)].
  - destruct Hd as [|m i msgs ins Hm Hd]; [by apply receive_closed|].
    assert (m ∈ numbered kDomainSocketProtocolVersion num (index + 1) cs) as Hin.
    { eapply elem_of_sublist; [|done]. by left. }
    destruct (numbered_inv _ _ _ _ _ Hin) as (j & c' & Hj & Hc' & ->).
    pose proof (proj1 (Forall_forall _ _) Hs c' Hc') as [Hn' Hl'].
    destruct (GetSingleMessage_delivered _ _ _ _ _ Hn' Hl' Hm) as (fds' & HR & Hget).
    cbn [DomainSocket.receive_loop]. rewrite Hget. unfold use_message.
    cbn [transfer_data carrying message_index]. destruct (Z.eqb_spec index j); [lia|]. by eexists.
  - inversion Hd as [|m i ms ins' Hm Hd']; subst.
    destruct (GetSingleMessage_delivered _ _ _ _ _ Hn Hl Hm) as (fds' & HR & Hget).
    pose proof (Forall2_length _ _ _ HR) as Hlen. rewrite length_fmap in Hlen.
    cbn [DomainSocket.receive_loop]. rewrite Hget, use_message_delivered by done.
    rewrite wrap_u_id by (split; lia). destruct cs as [|c' cs].
    { by apply sublist_nil_r in Hsub as ->. }
    cbn [length] in *. destruct (Z.ltb_spec 0 (index + Z.of_nat (S (S (length cs))) - 1 - index)); [|lia].
    rewrite wrap_u_id by (split; lia). eapply IH; [lia|cbn [length]; lia|auto|done| |done].
    intros ->. done.
Qed.

(** ** From map to map *)

Lemma add_all_lookup acc ps name :
  NoDup ps.*1 -> add_all acc ps !! name =
    match list_find (fun p => p.1 = name) ps with Some (_, p) => Some p.2 | None => acc !! name end.
Proof.
  revert acc. induction ps as [|p ps IH]; intros acc Hnd; [done|].
  cbn in Hnd. apply NoDup_cons in Hnd as [Hp Hnd]. cbn [add_all fold_left]. fold (add_all (<[p.1:=p.2]> acc) ps).
  rewrite IH by done. cbn [list_find]. destruct (decide (p.1 = name)) as [<-|Hne].
  - destruct (list_find _ ps) as [[j q]|] eqn:Hf; [|by rewrite lookup_insert_eq].
    apply list_find_Some in Hf as (Hq & Heq & _). destruct Hp. rewrite <-Heq.
    apply list_elem_of_fmap. exists q. split; [done|]. by eapply list_elem_of_lookup_2.
  - destruct (list_find _ ps) as [[j q]|] eqn:Hf; [done|]. by rewrite lookup_insert_ne.
Qed.

Lemma add_all_related (R : Z -> Z -> Prop) (l ps : list (string * Z)) (segments : gmap string Z) :
  l ≡ₚ map_to_list segments -> Forall2 (fun s p => s.1 = p.1 /\ R s.2 p.2) l ps ->
  map_relation (fun _ => R) (fun _ _ => False) (fun _ _ => False) segments (add_all ∅ ps).
Proof.
  intros Hl HR. assert (ps.*1 = l.*1) as Hk.
  { clear Hl. induction HR as [|s p l ps [Hs _] _ IH]; [done|]. cbn. by rewrite IH, Hs. }
  assert (NoDup ps.*1) as Hnd.
  { rewrite Hk, Hl. apply NoDup_fst_map_to_list. }
  intros name. rewrite add_all_lookup by done. rewrite lookup_empty.
  destruct (list_find _ ps) as [[j p]|] eqn:Hf.
  - apply list_find_Some in Hf as (Hp & <- & _).
    destruct (Forall2_lookup_r _ _ _ _ _ HR Hp) as (s & Hs & Hkey & Hval).
    assert (segments !! p.1 = Some s.2) as ->.
    { apply elem_of_map_to_list. rewrite <-Hl, <-Hkey. destruct s. by eapply list_elem_of_lookup_2. }
    done.
  - destruct (segments !! name) as [fd|] eqn:Hs; [|done]. cbn.
    apply elem_of_map_to_list in Hs. rewrite <-Hl in Hs. apply list_elem_of_lookup_1 in Hs as [j Hj].
    destruct (Forall2_lookup_l _ _ _ _ _ HR Hj) as (p & Hp & Hkey & _).
    apply list_find_None in Hf. rewrite Forall_lookup in Hf. by apply (Hf j p Hp).
Qed.

Context `{IterOrder}.

(** A map that the server can serve. *)
Record servable (segments : gmap string Z) : Prop := mkServable {
  se_nonempty : segments <> ∅;
  se_names name fd : segments !! name = Some fd -> name_ok name;
  se_size : Z.of_nat (size segments) < 2 ^ 32 }.

Lemma servable_pieces segments :
  servable segments ->
  let n := message_count (size segments) in
  sendable (chunks n (iter segments)) /\ (0 < n)%nat /\ Z.of_nat n < 2 ^ 64.
Proof.
  intros [_ Hn Hsz] n. split; [|split; [unfold n, message_count; lia|]].
  - assert (Forall (fun s : string * Z => name_ok s.1) (concat (chunks n (iter segments)))) as Hall.
    { rewrite concat_chunks. apply Forall_take, Forall_forall. intros [k x]. rewrite iter_perm.
      intros Hx%elem_of_map_to_list. by eapply Hn. }
    apply Forall_concat in Hall. pose proof (chunks_bounded n (iter segments)) as Hb.
    apply Forall_and. by split.
  - unfold n, message_count, kMaxFdsPerMessage.
    pose proof (Nat.Div0.div_le_upper_bound (size segments - 1) 200 (size segments)). lia.
Qed.

(** Descriptors arrive under the right names: for every map that is not empty and
    whose names fit, the server prepares messages of at most 200 descriptors, and a
    client that receives them - in pieces of any size - ends with a map of the same
    names, in which every descriptor denotes the file that the server's one denotes. *)
Theorem descriptors_roundtrip (R : Z -> Z -> Prop) segments :
  servable segments ->
  exists messages, PrepareMessages kDomainSocketProtocolVersion segments = Value messages
    /\ Forall (fun m => length (file_descriptors_in_order (descriptors m)) <= kMaxFdsPerMessage)%nat
         messages
    /\ forall ins, Forall2 (delivered R) messages ins ->
         exists segments', receive_loop ins 1 0 ∅ = Some (Returns (Value segments'))
           /\ map_relation (fun _ => R) (fun _ _ => False) (fun _ _ => False) segments segments'.
Proof.
  intros Hse. pose proof (servable_pieces _ Hse) as (Hs & H0 & H64).
  destruct (PrepareMessages_spec kDomainSocketProtocolVersion segments (se_nonempty _ Hse)) as [Hp Hc].
  set (n := message_count (size segments)) in *. set (cs := chunks n (iter segments)) in *.
  eexists. split; [exact Hp|]. split.
  - apply Forall_forall. intros m (j & c & _ & Hin & ->)%numbered_inv.
    pose proof (proj1 (Forall_forall _ _) Hs c Hin) as [_ Hl]. cbn. by rewrite length_fmap.
  - intros ins Hd. assert (length cs = n) as Hlen by apply length_chunks.
    assert (cs <> []) as Hne by (intros E; rewrite E in Hlen; simpl in Hlen; lia).
    destruct (receive_numbered R (Z.of_nat n) 1 cs ins 0 ∅) as (ps & Hps & Hr);
      [done|lia|rewrite Hlen; lia|done|by left|done|done|].
    exists (add_all ∅ ps). split; [done|]. eapply add_all_related; [|exact Hps].
    rewrite Hc. apply iter_perm.
Qed.

(** A client never accepts an incomplete map: when some of the messages do not reach
    it, it returns an error, whichever they are. *)
Theorem incomplete_is_rejected (R : Z -> Z -> Prop) segments messages received ins :
  (0 < kExpectedBytes)%nat -> servable segments ->
  PrepareMessages kDomainSocketProtocolVersion segments = Value messages ->
  sublist received messages -> received <> messages -> Forall2 (delivered R) received ins ->
  exists st, receive_loop ins 1 0 ∅ = Some (Returns (Unexpected st)).
Proof.
  intros Hk Hse Hp Hsub Hne Hd. pose proof (servable_pieces _ Hse) as (Hs & H0 & H64).
  destruct (PrepareMessages_spec kDomainSocketProtocolVersion segments (se_nonempty _ Hse)) as [Hp' Hc].
  rewrite Hp in Hp'. injection Hp' as ->.
  apply (receive_incomplete R (Z.of_nat (message_count (size segments))) 1
    (chunks (message_count (size segments)) (iter segments)) received); try done; [|by left].
  rewrite length_chunks. lia.
Qed.

(** A message with the types of its fields: at most as many names are announced as the
    array has entries. *)
Definition well_formed (m : incoming) : Prop :=
  fdn_size (file_descriptor_names (in_data m))
    <= Z.of_nat (length (fdn_names (file_descriptor_names (in_data m))))
  /\ in_u 64 (num_messages (in_data m)).

#[export] Instance well_formed_dec m : Decision (well_formed m).
Proof. unfold well_formed, in_u. apply _. Defined.










End Receiving.

(** ** A concrete transfer *)

#[local] Instance iter_map_to_list : IterOrder := {
  iter := fun _ m => map_to_list m; iter_perm := fun _ _ => reflexivity _ }.

Definition ex_segments : gmap string Z := {[ "command" := 5; "status" := 6 ]}.
Definition ex_messages : list Message :=
  match PrepareMessages kDomainSocketProtocolVersion ex_segments with
  | Value ms => ms
  | Unexpected _ => []
  end.
(** The data arrives in pieces of one and two bytes; the descriptors become
    [fd + 10]. *)
Definition ex_incoming (m : Message) : incoming :=
  mkIncoming (fun k => inr (S k)) (Some (mkCmsg (cmsg_len (msg_control m))
    (cmsg_level (msg_control m)) (cmsg_type (msg_control m))
    ((fun fd => fd + 10) <$> cmsg_data (msg_control m)))) (transfer_data (descriptors m)).

Lemma ex_servable : servable ex_segments.
Proof.
  split; [done| |done]. intros name fd. unfold ex_segments.
  rewrite lookup_insert_Some, lookup_singleton_Some.
  intros [[<- _]|[_ [<- _]]]; (split; [repeat constructor; done|unfold kMaxSegmentStringSize; simpl; lia]).
Qed.

Lemma ex_delivered m : delivered 3 (fun _ => None) (fun fd fd' => fd' = fd + 10) m (ex_incoming m).
Proof.
  split; [done| |].
  - exists [1; 2]%nat. split; [repeat constructor; lia|]. split; [done|].
    intros [|[|k]] c Hk; try by inversion Hk.
  - eexists. split; [done|]. split; [|apply Forall_true; done].
    apply Forall2_fmap_r. apply Forall_Forall2_diag, Forall_true. done.
Qed.

Lemma descriptors_roundtrip_witness :
  exists segments', receive_loop (fun _ => "error") 3 (fun _ => None) (ex_incoming <$> ex_messages)
                      1 0 ∅ = Some (Returns (Value segments'))
    /\ segments' !! "status" = Some 16.
Proof.
  destruct (descriptors_roundtrip (fun _ => "error") 3 (fun _ => None) (fun fd fd' => fd' = fd + 10)
    ex_segments ex_servable) as (ms & Hms & _ & Hr).
  assert (ms = ex_messages) as -> by (unfold ex_messages; by rewrite Hms).
  destruct (Hr (ex_incoming <$> ex_messages)) as (segments' & Hs & Hrel).
  { apply Forall2_fmap_r, Forall_Forall2_diag, Forall_true. intros m. apply ex_delivered. }
  exists segments'. split; [exact Hs|]. clear Hs Hr Hms. specialize (Hrel "status").
  assert (ex_segments !! "status" = Some 6) as E by (vm_compute; reflexivity). rewrite E in Hrel.
  destruct (segments' !! "status") as [fd|]; [|destruct Hrel]. cbn in Hrel. by rewrite Hrel.
Defined.

Lemma incomplete_is_rejected_witness :
  exists st, receive_loop (fun _ => "error") 3 (fun _ => None) [] 1 0 ∅
             = Some (Returns (Unexpected st)).
Proof.
  apply (incomplete_is_rejected (fun _ => "error") 3 (fun _ => None) (fun _ _ => True) ex_segments
    ex_messages [] []); [lia|exact ex_servable|vm_compute; reflexivity|apply sublist_nil_l| |constructor].
  intros Hnil. apply (f_equal length) in Hnil. vm_compute in Hnil. discriminate Hnil.
Defined.

