(* ===== verification/DomainSocketServer.v ===== *)
(** * The server of file descriptors
    ([icon/interprocess/shared_memory_manager/domain_socket_server.{h,cc}])

    A server owns a lock file, a bound socket and the prepared messages.  The state
    that all processes share is [sys]: the open lock descriptors, the lock that [flock]
    keeps per path, the sockets and the socket files.  The results of the system calls
    are arguments. *)
From S2P Require Import Prelude Status Time SharedMemory DomainSocket.

Record sys := mkSys {
  s_open : gmap Z string;
  s_locked : gmap string Z;
  s_sockets : gset Z;
  s_files : gset string }.

(** [open] of a lock file, [flock(fd, LOCK_EX)] that succeeds, [flock(fd, LOCK_UN)],
    [close] of a lock descriptor (which releases its lock). *)
Definition open_lock (fd : Z) (path : string) (s : sys) : sys :=
  mkSys (<[fd := path]> (s_open s)) (s_locked s) (s_sockets s) (s_files s).
Definition lock_path (fd : Z) (path : string) (s : sys) : sys :=
  mkSys (s_open s) (<[path := fd]> (s_locked s)) (s_sockets s) (s_files s).
Definition unlock (fd : Z) (s : sys) : sys :=
  mkSys (s_open s)
    (match s_open s !! fd with
     | Some path => if decide (s_locked s !! path = Some fd) then delete path (s_locked s)
                    else s_locked s
     | None => s_locked s
     end) (s_sockets s) (s_files s).
Definition close_lock (fd : Z) (s : sys) : sys :=
  let s1 := unlock fd s in
  mkSys (delete fd (s_open s1)) (s_locked s1) (s_sockets s1) (s_files s1).

(** [socket], [close] of a socket, [bind], [unlink] *)
Definition open_socket (fd : Z) (s : sys) : sys :=
  mkSys (s_open s) (s_locked s) ({[fd]} ∪ s_sockets s) (s_files s).
Definition close_socket (fd : Z) (s : sys) : sys :=
  mkSys (s_open s) (s_locked s) (s_sockets s ∖ {[fd]}) (s_files s).
Definition bind_socket (path : string) (s : sys) : sys :=
  mkSys (s_open s) (s_locked s) (s_sockets s) ({[path]} ∪ s_files s).
Definition unlink (path : string) (s : sys) : sys :=
  mkSys (s_open s) (s_locked s) (s_sockets s) (s_files s ∖ {[path]}).

Section Server.
Context `{IterOrder} (StrError : Z -> string).

Definition kLockSuffix : string := ".lock".
Definition EWOULDBLOCK : Z := 11.

(** [LockName(socket_directory, module_name)] *)
Definition LockName (socket_directory module_name : string) : string :=
  (path_append socket_directory module_name ++ kLockSuffix)%string.

(** The loop of [TryLockPath]: per attempt the error of [flock] and the time after it;
    [None] when the attempts run out. *)
Fixpoint lock_loop (path : string) (deadline : Z) (attempts : list (option Z * Z))
  : option (expected unit Status) :=
  match attempts with
  | [] => None
  | (None, _) :: _ => Some (Value tt)
  | (Some e, now) :: attempts' =>
      if e =? EWOULDBLOCK then
        if now <? deadline then lock_loop path deadline attempts'
        else Some (Unexpected (FormatStatus kDeadlineExceeded
                     ("Timed out waiting for lock '" ++ path ++ "' to become exclusive")))
      else Some (Unexpected (FormatStatus kInternal
                   ("Unable to lock '" ++ path ++ "' with error: " ++ StrError e)))
  end.

Record lock_env := mkLockEnv {
  le_now : Z;
  le_open : Z + Z;
  le_attempts : list (option Z * Z) }.

(** [TryLockPath(absolute_lock_path, timeout, logger)] *)
Definition TryLockPath (env : lock_env) (path : string) (timeout : Z) (s : sys)
  : option (expected Z Status) * sys :=
  let deadline := time_add (le_now env) (seconds timeout) in
  if decide (path = "") then
    (Some (Unexpected (FormatStatus kInvalidArgument "path cannot be empty")), s)
  else if negb (is_absolute path) then
    (Some (Unexpected (FormatStatus kInvalidArgument ("Path must be absolute. Got: " ++ path))), s)
  else
    match le_open env with
    | inl e =>
        (Some (Unexpected (FormatStatus kInternal
           ("Unable to open lock '" ++ path ++ "' with error: " ++ StrError e))), s)
    | inr lock_fd =>
        let s1 := open_lock lock_fd path s in
        match lock_loop path deadline (le_attempts env) with
        | None => (None, s1)
        | Some (Unexpected st) => (Some (Unexpected st), close_lock lock_fd s1)
        | Some (Value _) => (Some (Value lock_fd), lock_path lock_fd path s1)
        end
    end.

(** [UnlockPathCloseLockfile(lockfile_fd)]: the errors of [flock] and [close]. *)
Definition UnlockPathCloseLockfile (unlock_err close_err : option Z) (fd : Z) (s : sys)
  : Status * sys :=
  if fd =? -1 then (FormatStatus kInvalidArgument "Lockfile is invalid", s)
  else
    match unlock_err with
    | Some e => (FormatStatus kInternal ("Unable to unlock with error: " ++ StrError e), s)
    | None =>
        let s1 := close_lock fd (unlock fd s) in
        match close_err with
        | Some e =>
            (FormatStatus kInternal ("Failed to close lockfile fd with error: " ++ StrError e), s1)
        | None => (OkStatus, s1)
        end
    end.

(** ** [DomainSocketServer] *)

Record DomainSocketServer := mkDomainSocketServer {
  protocol_version_ : Z;
  socket_fd_ : Z;
  flock_fd_ : Z;
  messages_ : list Message;
  absolute_socket_path_ : string;
  absolute_lock_path_ : string;
  handler_started_ : bool;
  request_handler_ : bool }.

Record create_env := mkCreateEnv {
  cr_mkdir : option string;
  cr_lock : lock_env;
  cr_unlink : option Z;
  cr_socket : Z + Z;
  cr_snprintf : option Z;
  cr_bind : option Z;
  cr_unlock : option Z;
  cr_close : option Z }.

(** [Create] after the lock has been taken; the callers release the lock on errors. *)
Definition create_socket (env : create_env) (socket_directory module_name : string)
    (protocol_version flock_fd : Z) (s : sys) : expected DomainSocketServer Status * sys :=
  match AbsoluteSocketPath socket_directory module_name with
  | Unexpected st => (Unexpected st, s)
  | Value path =>
      let unlinked :=
        if decide (path ∈ s_files s) then
          match cr_unlink env with
          | Some _ =>
              inl (FormatStatus kInternal
                     ("Failed to unlink socket file '" ++ path ++ "' with error: "))
          | None => inr (unlink path s)
          end
        else inr s in
      match unlinked with
      | inl st => (Unexpected st, s)
      | inr s1 =>
          match cr_socket env with
          | inl e =>
              (Unexpected (FormatStatus kInternal
                 ("Failed to open socket file '" ++ path ++ "'. with error: " ++ StrError e)), s1)
          | inr socket_fd =>
              let s2 := open_socket socket_fd s1 in
              match AddressFromAbsolutePath StrError (cr_snprintf env) path with
              | Unexpected st => (Unexpected st, close_socket socket_fd s2)
              | Value _ =>
                  match cr_bind env with
                  | Some e =>
                      (Unexpected (FormatStatus kInternal
                         ("Failed to bind socket file '" ++ path ++ "'. with error: "
                            ++ StrError e)), close_socket socket_fd s2)
                  | None =>
                      (Value (mkDomainSocketServer protocol_version socket_fd flock_fd [] path
                                (LockName socket_directory module_name) false false),
                       bind_socket path s2)
                  end
              end
          end
      end
  end.

(** [Create(socket_directory, module_name, lock_acquire_timeout, logger,
    protocol_version)] *)
Definition CreateServer (env : create_env) (socket_directory module_name : string)
    (lock_acquire_timeout protocol_version : Z) (s : sys)
  : option (expected DomainSocketServer Status) * sys :=
  let status := CreateSocketDirectory (cr_mkdir env) socket_directory in
  if negb (status_ok status) then (Some (Unexpected status), s)
  else
    match TryLockPath (cr_lock env) (LockName socket_directory module_name)
            lock_acquire_timeout s with
    | (None, s1) => (None, s1)
    | (Some (Unexpected st), s1) => (Some (Unexpected st), s1)
    | (Some (Value flock_fd), s1) =>
        match create_socket env socket_directory module_name protocol_version flock_fd s1 with
        | (Value server, s2) => (Some (Value server), s2)
        | (Unexpected st, s2) =>
            (Some (Unexpected st),
             (UnlockPathCloseLockfile (cr_unlock env) (cr_close env) flock_fd s2).2)
        end
    end.

(** [~DomainSocketServer()]: the errors of [shutdown], [flock] and [close]; a failing
    [shutdown] ends the process ([None]). *)
Definition destroy_server (shutdown_err unlock_err close_err : option Z)
    (server : DomainSocketServer) (s : sys) : option sys :=
  let after_socket :=
    if socket_fd_ server =? -1 then Some s
    else match shutdown_err with
         | Some _ => None
         | None => Some (close_socket (socket_fd_ server) s)
         end in
  (fun s1 =>
     let s2 := if decide (absolute_socket_path_ server = "") then s1
               else unlink (absolute_socket_path_ server) s1 in
     (UnlockPathCloseLockfile unlock_err close_err (flock_fd_ server) s2).2) <$> after_socket.

(** ** Serving *)

Record serve_env := mkServeEnv {
  sv_rlimit : Z + Z * Z;
  sv_listen : option Z;
  sv_started : bool }.

Definition with_messages (server : DomainSocketServer) (ms : list Message)
    (started handler : bool) : DomainSocketServer :=
  mkDomainSocketServer (protocol_version_ server) (socket_fd_ server) (flock_fd_ server) ms
    (absolute_socket_path_ server) (absolute_lock_path_ server) started handler.

(** [ServeShmDescriptors(segment_name_to_file_descriptor_map)]; [sv_started] tells
    whether the handler thread starts within ten seconds. *)
Definition ServeShmDescriptors (env : serve_env) (segments : gmap string Z)
    (server : DomainSocketServer) : Status * DomainSocketServer :=
  if request_handler_ server then
    (FormatStatus kFailedPrecondition
       ("Server is already serving descriptors on socket " ++ absolute_socket_path_ server), server)
  else
    let kNumDescriptors := Z.of_nat (size segments) in
    match sv_rlimit env with
    | inl e =>
        (FormatStatus kFailedPrecondition
           ("Failed to get limit of in-flight file descriptors (RLIMIT_NOFILE) with error: "
              ++ StrError e), server)
    | inr (rlim_cur, rlim_max) =>
        if rlim_cur <=? kNumDescriptors then
          (FormatStatus kOutOfRange
             ("Number of file descriptors (" ++ pretty kNumDescriptors
                ++ ") >= current soft limit (rlim_cur: " ++ pretty rlim_cur
                ++ "). Max limit (rlim_max) of RLIMIT_NOFILE is " ++ pretty rlim_max), server)
        else if kNumDescriptors <? 1 then
          (FormatStatus kInvalidArgument
             "At least one file descriptor and name must be provided", server)
        else
          match PrepareMessages (protocol_version_ server) segments with
          | Unexpected st => (st, server)
          | Value ms =>
              match sv_listen env with
              | Some e =>
                  (FormatStatus kInternal
                     ("Failed to listen to socket with error: " ++ StrError e),
                   with_messages server ms (handler_started_ server) false)
              | None =>
                  if sv_started env then (OkStatus, with_messages server ms true true)
                  else
                    (FormatStatus kInternal
                       ("Failed to start request handler thread for '"
                          ++ absolute_socket_path_ server ++ "'"),
                     with_messages server ms false true)
              end
          end
    end.

(** One connection of the handler: the loop over [messages_] with the result of every
    [sendmsg]; the messages that were sent completely.  A short send is logged and the
    loop goes on, as in the code; the part of the message that is then on the stream is
    not modelled, and the theorems about clients assume that no send is short. *)
Fixpoint send_messages (sizeof_TransferData : Z) (ms : list Message) (results : list (Z + Z))
  : list Message :=
  match ms, results with
  | m :: ms', inl _ :: results' => send_messages sizeof_TransferData ms' results'
  | m :: ms', inr bytes_sent :: results' =>
      if bytes_sent =? sizeof_TransferData then m :: send_messages sizeof_TransferData ms' results'
      else send_messages sizeof_TransferData ms' results'
  | _, _ => []
  end.

(** The handler thread: per turn the request to stop, the result of [accept] and the
    results of [sendmsg]; what every client was sent. *)
Fixpoint request_handler (sizeof_TransferData : Z) (server : DomainSocketServer)
    (turns : list (bool * (Z + Z) * list (Z + Z))) : list (Z * list Message) :=
  match turns with
  | [] => []
  | (stop_requested, accepted, results) :: turns' =>
      if stop_requested : bool then []
      else match accepted with
           | inl _ => []
           | inr to_client_sock =>
               (to_client_sock, send_messages sizeof_TransferData (messages_ server) results)
                 :: request_handler sizeof_TransferData server turns'
           end
  end.

(** [AddSegmentInfoServeShmDescriptors(shared_memory_manager)] *)
Definition kModuleInfoName : string := "intrinsic_module_info".
Definition AddSegmentInfoServeShmDescriptors {V : Type} (of_info : SegmentInfo -> V)
    (sizeof_header sizeof_SegmentInfo : Z) (ienv : init_env) (env : serve_env)
    (server : DomainSocketServer) (w : world V) (m : SharedMemoryManager)
  : Status * DomainSocketServer * world V * SharedMemoryManager :=
  let '(status, w1, m1) :=
    AddSegment StrError sizeof_header ienv kModuleInfoName false sizeof_SegmentInfo
      (of_info (GetSegmentInfo m)) kModuleInfoName w m in
  if negb (status_ok status) then (status, server, w1, m1)
  else
    let '(status2, server2) :=
      ServeShmDescriptors env (segment_name_to_file_descriptor_map_ m1) server in
    (status2, server2, w1, m1).

End Server.
