(* ===== verification/DomainSocketServerProofs.v ===== *)
(** * One server per module

    Servers of any number of processes are created, serve and are destroyed in any
    order; a process may also die.  At most one live server owns a lock file and its
    socket file, and no descriptor is left behind. *)
From S2P Require Import Prelude Status SharedMemory SharedMemoryProofs DomainSocket DomainSocketProofs DomainSocketServer.

#[local] Arguments FormatStatus : simpl never.

Section Exclusive.
Context `{IterOrder} (StrError : Z -> string).
Implicit Types (s : sys) (sv : DomainSocketServer) (svs : list DomainSocketServer).

Record dconfig := mkDConfig { dc_sys : sys; dc_servers : list DomainSocketServer }.

(** What the kernel promises to one [Create]: new descriptors are new, [flock] only
    gives a lock that nobody holds, and unlocking a lock that is held works. *)
Record create_ok s (env : create_env) (lock : string) : Prop := mkCreateOk {
  ck_open fd : le_open (cr_lock env) = inr fd -> s_open s !! fd = None /\ fd <> -1;
  ck_socket fd : cr_socket env = inr fd -> fd ∉ s_sockets s /\ fd <> -1;
  ck_lock e : e ∈ le_attempts (cr_lock env) -> e.1 = None -> s_locked s !! lock = None;
  ck_unlock : cr_unlock env = None }.

(** The process of a server dies: the kernel closes its descriptors. *)
Definition die sv s : sys := close_lock (flock_fd_ sv) (close_socket (socket_fd_ sv) s).

Inductive dstep : dconfig -> dconfig -> Prop :=
| ds_create s svs env dir name timeout version r s' :
    create_ok s env (LockName dir name) ->
    CreateServer StrError env dir name timeout version s = (Some r, s') ->
    dstep (mkDConfig s svs)
      (mkDConfig s' (match r with Value sv => sv :: svs | Unexpected _ => svs end))
| ds_serve s svs i sv env segments : svs !! i = Some sv ->
    dstep (mkDConfig s svs)
      (mkDConfig s (<[i := (ServeShmDescriptors StrError env segments sv).2]> svs))
| ds_destroy s svs i sv close_err s' : svs !! i = Some sv ->
    destroy_server StrError None None close_err sv s = Some s' ->
    dstep (mkDConfig s svs) (mkDConfig s' (delete i svs))
| ds_die s svs i sv : svs !! i = Some sv ->
    dstep (mkDConfig s svs) (mkDConfig (die sv s) (delete i svs)).

Definition dinitial : dconfig := mkDConfig (mkSys ∅ ∅ ∅ ∅) [].

(** ** The invariant *)

(** The paths of a server belong together. *)
Definition paths_ok sv : Prop := exists base,
  absolute_lock_path_ sv = (base ++ kLockSuffix)%string
  /\ absolute_socket_path_ sv = (base ++ kSocketSuffix)%string.

(** What a live server owns. *)
Record owns s sv : Prop := mkOwns {
  ow_locked : s_locked s !! absolute_lock_path_ sv = Some (flock_fd_ sv);
  ow_open : s_open s !! flock_fd_ sv = Some (absolute_lock_path_ sv);
  ow_file : absolute_socket_path_ sv ∈ s_files s;
  ow_paths : paths_ok sv;
  ow_valid : flock_fd_ sv <> -1 /\ socket_fd_ sv <> -1 }.

Record dinv s svs : Prop := mkDInv {
  di_owns sv : sv ∈ svs -> owns s sv;
  di_open fd : is_Some (s_open s !! fd) <-> fd ∈ flock_fd_ <$> svs;
  di_sockets fd : fd ∈ s_sockets s <-> fd ∈ socket_fd_ <$> svs;
  di_locked path fd : s_locked s !! path = Some fd -> s_open s !! fd = Some path;
  di_flocks : NoDup (flock_fd_ <$> svs);
  di_socks : NoDup (socket_fd_ <$> svs) }.

Lemma dinv_perm s svs svs' : svs ≡ₚ svs' -> dinv s svs -> dinv s svs'.
Proof.
  intros Hp [Ho Hop Hs Hl Hf Hk]. split; try done.
  - intros sv. rewrite <-Hp. apply Ho.
  - intros fd. rewrite <-Hp. apply Hop.
  - intros fd. rewrite <-Hp. apply Hs.
  - by rewrite <-Hp.
  - by rewrite <-Hp.
Qed.

(** ** Paths *)

Lemma chars_app a b : chars (a ++ b)%string = chars a ++ chars b.
Proof. unfold chars. induction a as [|c a IH]; simpl; [done|by rewrite IH]. Qed.

Lemma suffix_inj (a b c : string) : (a ++ c)%string = (b ++ c)%string -> a = b.
Proof.
  intros E. apply (f_equal chars) in E. rewrite !chars_app in E. apply app_inv_tail in E.
  by rewrite <-(str_chars a), E, str_chars.
Qed.

Lemma same_lock_iff sv sv' : paths_ok sv -> paths_ok sv' ->
  absolute_lock_path_ sv = absolute_lock_path_ sv' <->
  absolute_socket_path_ sv = absolute_socket_path_ sv'.
Proof.
  intros (b & -> & ->) (b' & -> & ->). split; intros E%suffix_inj; by rewrite E.
Qed.

(** Two live servers that own a lock are the same. *)
Lemma owns_same s svs i j sv sv' :
  dinv s svs -> svs !! i = Some sv -> svs !! j = Some sv' ->
  absolute_lock_path_ sv = absolute_lock_path_ sv' -> i = j.
Proof.
  intros Hd Hi Hj Hp. eapply (NoDup_lookup (flock_fd_ <$> svs)); [apply Hd|..].
  - rewrite list_lookup_fmap, Hi. done.
  - rewrite list_lookup_fmap, Hj. simpl. f_equal.
    assert (sv ∈ svs) as H1 by (by eapply list_elem_of_lookup_2).
    assert (sv' ∈ svs) as H2 by (by eapply list_elem_of_lookup_2).
    pose proof (ow_locked _ _ (di_owns _ _ Hd _ H1)) as L1.
    pose proof (ow_locked _ _ (di_owns _ _ Hd _ H2)) as L2. rewrite <-Hp, L1 in L2. by injection L2.
Qed.

(** ** Closing *)

Lemma unlock_lookup s fd path fd' :
  (forall p x, s_locked s !! p = Some x -> s_open s !! x = Some p) ->
  s_locked (unlock fd s) !! path = Some fd' <-> s_locked s !! path = Some fd' /\ fd' <> fd.
Proof.
  intros Hl. unfold unlock. cbn [s_locked]. destruct (s_open s !! fd) as [p|] eqn:Ho.
  - case_decide as Hp; [rewrite lookup_delete_Some|]; split.
    + intros [Hne Hx]. split; [done|]. intros ->. apply Hl in Hx. congruence.
    + intros [Hx Hne]. split; [|done]. intros <-. congruence.
    + intros Hx. split; [done|]. intros ->. pose proof (Hl _ _ Hx). congruence.
    + by intros [Hx _].
  - split; [|by intros [Hx _]]. intros Hx. split; [done|]. intros ->. apply Hl in Hx. congruence.
Qed.

Lemma unlock_twice s fd : unlock fd (unlock fd s) = unlock fd s.
Proof.
  destruct s as [o l so f]. unfold unlock. cbn [s_open s_locked s_sockets s_files].
  destruct (o !! fd) as [p|]; [|done]. f_equal.
  destruct (decide (l !! p = Some fd)) as [Hp|Hp].
  - rewrite decide_False; [done|]. by rewrite lookup_delete_eq.
  - by rewrite decide_False.
Qed.

Lemma Unlock_closes s fd close_err :
  fd <> -1 -> (UnlockPathCloseLockfile StrError None close_err fd s).2 = close_lock fd s.
Proof.
  intros Hfd. unfold UnlockPathCloseLockfile. destruct (Z.eqb_spec fd (-1)); [done|].
  assert (close_lock fd (unlock fd s) = close_lock fd s) as E.
  { unfold close_lock. by rewrite unlock_twice. }
  destruct close_err; exact E.
Qed.

(** Releasing what a server owns; its socket file may be unlinked or stay. *)
Lemma dinv_release s s' svs sv :
  dinv s (sv :: svs) ->
  s_open s' = delete (flock_fd_ sv) (s_open s) ->
  (forall path fd, s_locked s' !! path = Some fd <->
     s_locked s !! path = Some fd /\ fd <> flock_fd_ sv) ->
  s_sockets s' = s_sockets s ∖ {[socket_fd_ sv]} ->
  s_files s ∖ {[absolute_socket_path_ sv]} ⊆ s_files s' ->
  dinv s' svs.
Proof.
  intros Hd Ho Hl Hs Hf. pose proof (di_flocks _ _ Hd) as Hnf. pose proof (di_socks _ _ Hd) as Hns.
  cbn in Hnf, Hns. apply NoDup_cons in Hnf as [Hf1 Hnf], Hns as [Hs1 Hns].
  assert (forall sv', sv' ∈ svs -> flock_fd_ sv' <> flock_fd_ sv) as Hne.
  { intros sv' Hin E. apply Hf1. rewrite <-E. by apply list_elem_of_fmap_2. }
  split; try done.
  - intros sv' Hin. destruct (di_owns _ _ Hd sv' ltac:(by right)) as [L O F P N].
    destruct (di_owns _ _ Hd sv ltac:(by left)) as [L0 _ _ P0 _].
    split; try done.
    + apply Hl. split; [done|by apply Hne].
    + rewrite Ho, lookup_delete_ne; [done|]. intros E. by apply (Hne sv').
    + apply Hf. apply elem_of_difference. split; [done|]. rewrite elem_of_singleton.
      intros E. apply (same_lock_iff _ _ P P0) in E. rewrite E, L0 in L. injection L as L.
      by apply (Hne sv').
  - intros fd. rewrite Ho. destruct (decide (fd = flock_fd_ sv)) as [->|Hfd].
    + rewrite lookup_delete_eq. split; [by intros [? [=]]|done].
    + rewrite lookup_delete_ne by done. rewrite (di_open _ _ Hd). cbn. rewrite elem_of_cons. naive_solver.
  - intros fd. rewrite Hs, elem_of_difference, elem_of_singleton, (di_sockets _ _ Hd). cbn.
    rewrite elem_of_cons. split; [naive_solver|]. intros Hin. split; [by right|]. by intros ->.
  - intros path fd [Hx Hfd]%Hl. rewrite Ho, lookup_delete_ne by done. by apply (di_locked _ _ Hd).
Qed.

Lemma destroy_fields s sv close_err s' :
  flock_fd_ sv <> -1 -> socket_fd_ sv <> -1 ->
  destroy_server StrError None None close_err sv s = Some s' ->
  s_open s' = delete (flock_fd_ sv) (s_open s)
  /\ s_locked s' = s_locked (unlock (flock_fd_ sv) s)
  /\ s_sockets s' = s_sockets s ∖ {[socket_fd_ sv]}
  /\ s_files s ∖ {[absolute_socket_path_ sv]} ⊆ s_files s'.
Proof.
  intros Hf Hs. unfold destroy_server. destruct (Z.eqb_spec (socket_fd_ sv) (-1)); [done|].
  cbn [fmap option_fmap option_map]. rewrite Unlock_closes by done. intros [= <-].
  case_decide; repeat split; simpl; set_solver.
Qed.

Lemma dinv_die s svs sv : dinv s (sv :: svs) -> dinv (die sv s) svs.
Proof.
  intros Hd. eapply dinv_release; [done|done| |done|simpl; set_solver].
  intros path fd. unfold die, close_lock. cbn [s_locked].
  rewrite unlock_lookup; [done|]. apply (di_locked _ _ Hd).
Qed.

Lemma dinv_destroy s svs sv close_err s' :
  dinv s (sv :: svs) -> destroy_server StrError None None close_err sv s = Some s' -> dinv s' svs.
Proof.
  intros Hd He. destruct (ow_valid _ _ (di_owns _ _ Hd sv ltac:(by left))) as [V1 V2].
  destruct (destroy_fields _ _ _ _ V1 V2 He) as (E1 & E2 & E3 & E4).
  eapply dinv_release; [done|done| |done|done]. intros path fd. rewrite E2.
  apply unlock_lookup. apply (di_locked _ _ Hd).
Qed.

(** ** Creating *)

Definition socket_name (dir name : string) : string :=
  (path_append dir name ++ kSocketSuffix)%string.

Lemma AbsoluteSocketPath_name dir name path :
  AbsoluteSocketPath dir name = Value path -> path = socket_name dir name.
Proof.
  unfold AbsoluteSocketPath. destruct (negb (is_absolute dir)); [done|].
  destruct (negb (status_ok _)); [done|]. by intros [= <-].
Qed.

(** What the second part of [Create] does. *)
Lemma create_socket_cases env dir name version fd s r s' :
  (forall x, cr_socket env = inr x -> x ∉ s_sockets s) ->
  create_socket StrError env dir name version fd s = (r, s') ->
  s_open s' = s_open s /\ s_locked s' = s_locked s
  /\ s_files s ∖ {[socket_name dir name]} ⊆ s_files s'
  /\ match r with
     | Unexpected _ => s_sockets s' = s_sockets s
     | Value sv => exists x, cr_socket env = inr x /\ s_sockets s' = {[x]} ∪ s_sockets s
         /\ socket_name dir name ∈ s_files s'
         /\ sv = mkDomainSocketServer version x fd [] (socket_name dir name) (LockName dir name)
                   false false
     end.
Proof.
  intros Hfresh. unfold create_socket.
  destruct (AbsoluteSocketPath dir name) as [path|st] eqn:Hp; [|intros [= <- <-]; by repeat split; set_solver].
  apply AbsoluteSocketPath_name in Hp as ->. set (path := socket_name dir name).
  set (un := if decide _ then _ else _).
  assert (forall s1, un = inr s1 -> s_open s1 = s_open s /\ s_locked s1 = s_locked s
            /\ s_sockets s1 = s_sockets s /\ s_files s ∖ {[path]} ⊆ s_files s1) as Hun.
  { unfold un. intros s1. case_decide; [destruct (cr_unlink env)|]; intros [= <-];
      repeat split; simpl; set_solver. }
  destruct un as [st|s1]; [intros [= <- <-]; by repeat split; set_solver|].
  destruct (Hun s1 eq_refl) as (E1 & E2 & E3 & E4). clear Hun.
  destruct (cr_socket env) as [e|x]; [intros [= <- <-]; by repeat split|].
  assert (s_sockets (close_socket x (open_socket x s1)) = s_sockets s) as Hc.
  { simpl. specialize (Hfresh x eq_refl). rewrite E3. set_solver. }
  destruct (AddressFromAbsolutePath _ _ _); [|intros [= <- <-]; by repeat split].
  destruct (cr_bind env); intros [= <- <-]; [by repeat split|].
  split; [done|]. split; [done|]. split; [simpl; set_solver|].
  exists x. split; [done|]. split; [simpl; by rewrite E3|]. split; [simpl; set_solver|done].
Qed.

Lemma lock_loop_locked path deadline attempts :
  lock_loop StrError path deadline attempts = Some (Value ()) ->
  exists e, e ∈ attempts /\ e.1 = None.
Proof.
  induction attempts as [|[[e|] now] attempts IH]; simpl; [done| |].
  - destruct (e =? EWOULDBLOCK); [|done]. destruct (now <? deadline); [|done].
    intros (x & Hx & Hn)%IH. exists x. split; [by right|done].
  - intros _. eexists. split; [by left|done].
Qed.

(** A descriptor that is opened, perhaps locked, and closed again leaves no trace. *)
Lemma close_opened s fd path (locked : gmap string Z) sockets files :
  s_open s !! fd = None -> (forall p x, s_locked s !! p = Some x -> s_open s !! x = Some p) ->
  (locked = s_locked s \/ (s_locked s !! path = None /\ locked = <[path := fd]> (s_locked s))) ->
  close_lock fd (mkSys (<[fd := path]> (s_open s)) locked sockets files)
  = mkSys (s_open s) (s_locked s) sockets files.
Proof.
  intros Ho Hl Hk. unfold close_lock, unlock. cbn [s_open s_locked s_sockets s_files].
  rewrite lookup_insert_eq, delete_insert_id by done. f_equal. destruct Hk as [->|[Hn ->]].
  - rewrite decide_False; [done|]. intros E%Hl. congruence.
  - rewrite lookup_insert_eq, decide_True by done. by apply delete_insert_id.
Qed.

(** Both outcomes of [Create]. *)
Lemma CreateServer_cases env dir name timeout version s r s' :
  create_ok s env (LockName dir name) ->
  (forall p x, s_locked s !! p = Some x -> s_open s !! x = Some p) ->
  CreateServer StrError env dir name timeout version s = (Some r, s') ->
  match r with
  | Unexpected _ => s_open s' = s_open s /\ s_locked s' = s_locked s /\ s_sockets s' = s_sockets s
      /\ (s_files s' = s_files s
          \/ s_locked s !! LockName dir name = None
             /\ s_files s ∖ {[socket_name dir name]} ⊆ s_files s')
  | Value sv => exists fd x, le_open (cr_lock env) = inr fd /\ cr_socket env = inr x
      /\ s_locked s !! LockName dir name = None
      /\ s_open s' = <[fd := LockName dir name]> (s_open s)
      /\ s_locked s' = <[LockName dir name := fd]> (s_locked s)
      /\ s_sockets s' = {[x]} ∪ s_sockets s
      /\ s_files s ∖ {[socket_name dir name]} ⊆ s_files s' /\ socket_name dir name ∈ s_files s'
      /\ sv = mkDomainSocketServer version x fd [] (socket_name dir name) (LockName dir name)
                false false
  end.
Proof.
  intros [Hopen Hsock Hlock Hun] Hl. unfold CreateServer. set (lock := LockName dir name) in *.
  destruct (negb (status_ok _)); [intros [= <- <-]; by auto|].
  unfold TryLockPath. case_decide; [intros [= <- <-]; by auto|].
  destruct (negb (is_absolute lock)); [intros [= <- <-]; by auto|].
  destruct (le_open (cr_lock env)) as [e|fd]; [intros [= <- <-]; by auto|].
  destruct (Hopen fd eq_refl) as [Hfd Hvalid].
  destruct (lock_loop _ _ _ _) as [[[]|st]|] eqn:Hloop; [|intros [= <- <-]|done].
  - apply lock_loop_locked in Hloop as (a & Ha & Hnone). pose proof (Hlock a Ha Hnone) as Hfree.
    destruct (create_socket _ _ _ _ _ _ _) as [r' s2] eqn:Hc.
    apply create_socket_cases in Hc as (E1 & E2 & E3 & E4); [|intros x Hx; by apply Hsock].
    destruct r' as [sv|st]; intros [= <- <-].
    + destruct E4 as (x & Hx & Hs & Hf & ->). by exists fd, x.
    + rewrite Hun, Unlock_closes by done. destruct s2 as [o2 l2 so2 f2].
      cbn in E1, E2, E3, E4. subst o2 l2 so2. rewrite (close_opened s fd lock) by auto. cbn.
      repeat (split; [done|]). by right.
  - unfold open_lock. rewrite (close_opened s fd lock) by auto. cbn.
    repeat (split; [done|]). by left.
Qed.

Lemma dinv_keep s s' svs dir name :
  dinv s svs -> s_open s' = s_open s -> s_locked s' = s_locked s -> s_sockets s' = s_sockets s ->
  (s_files s' = s_files s
   \/ s_locked s !! LockName dir name = None
      /\ s_files s ∖ {[socket_name dir name]} ⊆ s_files s') ->
  dinv s' svs.
Proof.
  intros [Ho Hop Hs Hl Hf Hk] E1 E2 E3 E4. split; rewrite ?E1, ?E2, ?E3; try done.
  intros sv Hin. destruct (Ho sv Hin) as [L O F P N]. split; rewrite ?E1, ?E2; try done.
  destruct E4 as [->|[Hn Hsub]]; [done|]. apply Hsub, elem_of_difference. split; [done|].
  rewrite elem_of_singleton. intros E. destruct P as (b & Pl & Ps).
  rewrite Ps in E. apply suffix_inj in E as ->. rewrite Pl in L. unfold LockName in Hn. congruence.
Qed.

Lemma dinv_create s s' svs fd x dir name version :
  dinv s svs -> s_open s !! fd = None -> fd <> -1 -> x ∉ s_sockets s -> x <> -1 ->
  s_locked s !! LockName dir name = None ->
  s_open s' = <[fd := LockName dir name]> (s_open s) ->
  s_locked s' = <[LockName dir name := fd]> (s_locked s) ->
  s_sockets s' = {[x]} ∪ s_sockets s ->
  s_files s ∖ {[socket_name dir name]} ⊆ s_files s' -> socket_name dir name ∈ s_files s' ->
  dinv s' (mkDomainSocketServer version x fd [] (socket_name dir name) (LockName dir name) false false
             :: svs).
Proof.
  intros [Ho Hop Hs Hl Hf Hk] Hfd V1 Hx V2 Hn E1 E2 E3 E4 E5.
  assert (fd ∉ flock_fd_ <$> svs) as Hfd' by (rewrite <-Hop, Hfd; by intros [? [=]]).
  split; cbn [fmap list_fmap flock_fd_ socket_fd_].
  - intros sv [->|Hin]%elem_of_cons.
    + split; cbn; rewrite ?E1, ?E2, ?lookup_insert_eq; try done. by exists (path_append dir name).
    + destruct (Ho sv Hin) as [L O F P N]. split; try done.
      * rewrite E2, lookup_insert_ne; [done|]. intros E. rewrite <-E in L. congruence.
      * rewrite E1, lookup_insert_ne; [done|]. intros E. rewrite <-E in O. congruence.
      * apply E4, elem_of_difference. split; [done|]. rewrite elem_of_singleton. intros E.
        destruct P as (b & Pl & Ps). rewrite Ps in E. apply suffix_inj in E as ->.
        rewrite Pl in L. unfold LockName in Hn. congruence.
  - intros y. rewrite E1, lookup_insert_is_Some, elem_of_cons, <-Hop. destruct (decide (fd = y)); naive_solver.
  - intros y. rewrite E3, elem_of_union, elem_of_singleton, elem_of_cons, <-Hs. done.
  - intros path y. rewrite E1, E2, lookup_insert_Some. intros [[<- <-]|[Hne Hy]].
    + apply lookup_insert_eq.
    + apply Hl in Hy. rewrite lookup_insert_ne; [done|]. intros <-. congruence.
  - by constructor.
  - constructor; [by rewrite <-Hs|done].
Qed.

(** Serving does not change what a server owns. *)
Lemma Serve_owns env segments sv :
  let sv' := (ServeShmDescriptors StrError env segments sv).2 in
  flock_fd_ sv' = flock_fd_ sv /\ socket_fd_ sv' = socket_fd_ sv
  /\ absolute_lock_path_ sv' = absolute_lock_path_ sv
  /\ absolute_socket_path_ sv' = absolute_socket_path_ sv.
Proof.
  unfold ServeShmDescriptors. destruct (request_handler_ sv); [done|].
  destruct (sv_rlimit env) as [e|[cur max]]; [done|]. destruct (cur <=? _); [done|].
  destruct (_ <? 1); [done|]. destruct (PrepareMessages _ _); [|done].
  destruct (sv_listen env); [done|]. by destruct (sv_started env).
Qed.

Lemma dinv_serve s svs sv env segments :
  dinv s (sv :: svs) -> dinv s ((ServeShmDescriptors StrError env segments sv).2 :: svs).
Proof.
  intros [Ho Hop Hs Hl Hf Hk]. destruct (Serve_owns env segments sv) as (E1 & E2 & E3 & E4).
  set (sv' := (ServeShmDescriptors _ _ _ _).2) in *.
  split; cbn [fmap list_fmap] in *; rewrite ?E1, ?E2; try done.
  intros x [->|Hin]%elem_of_cons; [|apply Ho; by right].
  destruct (Ho sv ltac:(by left)) as [L O F (b & P1 & P2) N].
  split; rewrite ?E1, ?E2, ?E3, ?E4; try done. exists b. by rewrite E3, E4.
Qed.

Lemma dinv_step c c' : dinv (dc_sys c) (dc_servers c) -> dstep c c' -> dinv (dc_sys c') (dc_servers c').
Proof.
  intros Hd Hs. destruct Hs as [s svs env dir name timeout version r s' Hok Hc
    |s svs i sv env segments Hi|s svs i sv close_err s' Hi He|s svs i sv Hi]; simpl in *.
  - pose proof (CreateServer_cases _ _ _ _ _ _ _ _ Hok (di_locked _ _ Hd) Hc) as Hcase.
    destruct r as [sv|st].
    + destruct Hcase as (fd & x & Hfd & Hx & Hn & E1 & E2 & E3 & E4 & E5 & ->).
      destruct (ck_open _ _ _ Hok _ Hfd), (ck_socket _ _ _ Hok _ Hx). by eapply dinv_create.
    + destruct Hcase as (E1 & E2 & E3 & E4). by eapply dinv_keep.
  - destruct (insert_perm svs i sv (ServeShmDescriptors StrError env segments sv).2 Hi) as (l & Hl & Hl').
    eapply dinv_perm; [symmetry; exact Hl'|]. apply dinv_serve. by eapply dinv_perm.
  - eapply dinv_destroy; [|exact He]. eapply dinv_perm; [|exact Hd]. by apply delete_Permutation.
  - apply dinv_die. eapply dinv_perm; [|exact Hd]. by apply delete_Permutation.
Qed.

(** C15: One server per module: in every history of creations (also failing ones),
    destructions and crashes, live servers have different lock and socket files, each
    holds the lock of its file, its socket file exists, and the open descriptors are
    exactly those of the live servers - so that no error path of [Create] leaks one. *)
Theorem one_server_per_module s svs :
  rtc dstep dinitial (mkDConfig s svs) ->
  (forall i j sv sv', svs !! i = Some sv -> svs !! j = Some sv' -> i <> j ->
     absolute_lock_path_ sv <> absolute_lock_path_ sv'
     /\ absolute_socket_path_ sv <> absolute_socket_path_ sv')
  /\ (forall sv, sv ∈ svs -> s_locked s !! absolute_lock_path_ sv = Some (flock_fd_ sv)
                   /\ absolute_socket_path_ sv ∈ s_files s)
  /\ (forall fd, is_Some (s_open s !! fd) <-> fd ∈ flock_fd_ <$> svs)
  /\ (forall fd, fd ∈ s_sockets s <-> fd ∈ socket_fd_ <$> svs).
Proof.
  intros Hr. assert (dinv s svs) as Hd.
  { apply (rtc_invariant dstep (fun c => dinv (dc_sys c) (dc_servers c)) _ _ dinv_step) in Hr; [done|].
    split; simpl; try done; [by intros sv ?%not_elem_of_nil| |set_solver|constructor..].
    intros fd. rewrite lookup_empty. split; [by intros [? [=]]|by intros ?%not_elem_of_nil]. }
  split; [|split; [|split; [apply Hd|apply Hd]]].
  - intros i j sv sv' Hi Hj Hij.
    assert (absolute_lock_path_ sv <> absolute_lock_path_ sv') as Hne.
    { intros E. by apply Hij, (owns_same s svs i j sv sv'). }
    split; [done|]. intros E. apply Hne, same_lock_iff; [..|done];
      eapply ow_paths, (di_owns _ _ Hd); by eapply list_elem_of_lookup_2.
  - intros sv Hin. destruct (di_owns _ _ Hd sv Hin) as [L O F P N]. done.
Qed.

(** ** What a client is sent *)

Lemma sent_sublist n ms results : sublist (send_messages n ms results) ms.
Proof.
  revert results. induction ms as [|m ms IH]; intros [|[e|b] results]; simpl; try done;
    [apply sublist_nil_l| |].
  - by apply sublist_cons.
  - destruct (b =? n); [by apply sublist_skip|by apply sublist_cons].
Qed.

Lemma sent_all n ms results :
  length results = length ms -> Forall (fun r => r = inr n) results -> send_messages n ms results = ms.
Proof.
  intros Hl Hr. revert ms Hl. induction Hr as [|r results -> _ IH]; intros [|m ms] Hl; try done.
  simpl. rewrite Z.eqb_refl, IH; [done|]. simpl in Hl. lia.
Qed.

Lemma sent_cases n ms results :
  length results = length ms ->
  Forall (fun r => r = inr n \/ exists e, r = inl e) results ->
  send_messages n ms results = ms
  \/ (Exists (fun r => exists e, r = inl e) results /\ send_messages n ms results <> ms).
Proof.
  intros Hl Hr. revert ms Hl. induction Hr as [|r results Hr _ IH]; intros [|m ms] Hl; try done;
    [by left|]. destruct Hr as [->|[e ->]]; simpl; rewrite ?Z.eqb_refl.
  - destruct (IH ms) as [->|[He Hne]]; [simpl in Hl; lia|by left|right].
    split; [by right|]. by intros [= E].
  - right. split; [left; by eexists|]. intros E. apply (f_equal length) in E.
    pose proof (sublist_length _ _ (sent_sublist n ms results)). simpl in E. lia.
Qed.

Lemma Serve_messages env segments sv sv' :
  ServeShmDescriptors StrError env segments sv = (OkStatus, sv') ->
  PrepareMessages (protocol_version_ sv) segments = Value (messages_ sv').
Proof.
  unfold ServeShmDescriptors. destruct (request_handler_ sv); [done|].
  destruct (sv_rlimit env) as [e|[cur max]]; [done|]. destruct (cur <=? _); [done|].
  destruct (_ <? 1); [done|].
  destruct (PrepareMessages (protocol_version_ sv) segments) as [ms|st] eqn:Hp.
  - destruct (sv_listen env); [done|]. destruct (sv_started env); [|done]. by intros [= <-].
  - intros [= -> <-]. unfold PrepareMessages in Hp. destruct (size segments =? 0)%nat; [done|].
    rewrite prepare_loop_spec in Hp by lia. by destruct (negb _).
Qed.

(** C14: A client of a serving server gets the whole map or an error: when every message
    could be sent it ends with the names of the server and descriptors for the same
    files, and when [sendmsg] failed for some of them it reports an error.  Assumed: each
    [sendmsg] sends its message whole or fails. *)
Theorem clients_get_map_or_error kExpectedBytes fcntl (R : Z -> Z -> Prop) env segments sv sv'
    results ins :
  (0 < kExpectedBytes)%nat -> servable segments ->
  protocol_version_ sv = kDomainSocketProtocolVersion ->
  ServeShmDescriptors StrError env segments sv = (OkStatus, sv') ->
  length results = length (messages_ sv') ->
  Forall (fun r => r = inr (Z.of_nat kExpectedBytes) \/ exists e, r = inl e) results ->
  Forall2 (delivered kExpectedBytes fcntl R)
    (send_messages (Z.of_nat kExpectedBytes) (messages_ sv') results) ins ->
  (exists segments', receive_loop StrError kExpectedBytes fcntl ins 1 0 ∅
                     = Some (Returns (Value segments'))
     /\ map_relation (fun _ => R) (fun _ _ => False) (fun _ _ => False) segments segments')
  \/ (Exists (fun r => exists e, r = inl e) results
      /\ exists st, receive_loop StrError kExpectedBytes fcntl ins 1 0 ∅
                    = Some (Returns (Unexpected st))).
Proof.
  intros Hk Hse Hv Hserve Hl Hr Hd. apply Serve_messages in Hserve. rewrite Hv in Hserve.
  destruct (descriptors_roundtrip StrError kExpectedBytes fcntl R segments Hse) as (ms & Hms & _ & Hrt).
  rewrite Hms in Hserve. injection Hserve as Hms'.
  destruct (sent_cases _ _ _ Hl Hr) as [E|[He Hne]].
  - left. apply Hrt. by rewrite Hms', <-E.
  - right. split; [done|]. eapply incomplete_is_rejected; [done|exact Hse|exact Hms| | |exact Hd].
    + rewrite Hms'. apply sent_sublist.
    + by rewrite Hms'.
Qed.

End Exclusive.

(** ** Concrete servers *)

#[local] Existing Instance iter_map_to_list.

Definition ex_create : create_env :=
  mkCreateEnv None (mkLockEnv 0 (inr 4) [(None, 0)]) None (inr 5) None None None None.
Definition ex_server : DomainSocketServer :=
  mkDomainSocketServer 2 5 4 [] "/tmp/m.sock" "/tmp/m.lock" false false.
Definition ex_sys : sys :=
  mkSys {[ 4 := "/tmp/m.lock" ]} {[ "/tmp/m.lock" := 4 ]} {[ 5 ]} {[ "/tmp/m.sock" ]}.
Definition ex_serve : serve_env := mkServeEnv (inr (1024, 4096)) None true.

Lemma one_server_per_module_witness :
  s_locked ex_sys !! absolute_lock_path_ ex_server = Some (flock_fd_ ex_server).
Proof.
  destruct (one_server_per_module (fun _ => "error") ex_sys [ex_server]) as (_ & Hown & _).
  - eapply rtc_l; [|apply rtc_refl].
    eapply (ds_create (fun _ => "error") _ [] ex_create "/tmp" "m" 1 2 (Value ex_server));
      [|vm_compute; reflexivity].
    split; [intros fd [= <-]; split; [done|lia]|intros fd [= <-]; split; [set_solver|lia]|done|done].
  - apply (Hown ex_server). by left.
Defined.

Lemma clients_get_map_or_error_witness :
  exists segments', receive_loop (fun _ => "error") 3 (fun _ => None) (ex_incoming <$> ex_messages)
                      1 0 ∅ = Some (Returns (Value segments')).
Proof.
  destruct (clients_get_map_or_error (fun _ => "error") 3 (fun _ => None) (fun fd fd' => fd' = fd + 10)
    ex_serve ex_segments ex_server (with_messages ex_server ex_messages true true)
    [inr 3] (ex_incoming <$> ex_messages)) as [(segments' & Hs & _)|[He _]].
  - lia.
  - exact ex_servable.
  - reflexivity.
  - vm_compute. reflexivity.
  - vm_compute. reflexivity.
  - constructor; [by left|constructor].
  - assert (send_messages (Z.of_nat 3) (messages_ (with_messages ex_server ex_messages true true))
              [inr 3] = ex_messages) as -> by (vm_compute; reflexivity).
    apply Forall2_fmap_r, Forall_Forall2_diag, Forall_true. intros m. apply ex_delivered.
  - exists segments'. exact Hs.
  - exfalso. inversion He as [? ? [e Hx]|? ? Hx]; [discriminate Hx|inversion Hx].
Defined.
