(* ===== verification/HalState.v ===== *)
(** * State of a hardware module ([icon/hal/hardware_module_util.{h,cc}],
    [icon/hal/interfaces/hardware_module_state_utils.{h,cc}],
    [flatbuffer_definitions/icon/hal/interfaces/hardware_module_state.fbs]) *)
From S2P Require Import Prelude Status.

(** ** States and transitions *)

(** [intrinsic_fbs::StateCode] *)
Inductive StateCode :=
| kDeactivated | kDeactivating | kActivated | kActivating | kMotionEnabled
| kMotionEnabling | kMotionDisabling | kFaulted | kClearingFaults | kInitFailed
| kFatallyFaulted | kPreparing | kPrepared.

#[export] Instance StateCode_eq_dec : EqDecision StateCode.
Proof. solve_decision. Defined.

(** [intrinsic_fbs::EnumValuesStateCode()], in the order of their values. *)
Definition EnumValuesStateCode : list StateCode :=
  [kDeactivated; kDeactivating; kActivated; kActivating; kMotionEnabled; kMotionEnabling;
   kMotionDisabling; kFaulted; kClearingFaults; kInitFailed; kFatallyFaulted; kPreparing;
   kPrepared].

(** [intrinsic_fbs::EnumNameStateCode] *)
Definition EnumNameStateCode (s : StateCode) : string :=
  match s with
  | kDeactivated => "kDeactivated" | kDeactivating => "kDeactivating"
  | kActivated => "kActivated" | kActivating => "kActivating"
  | kMotionEnabled => "kMotionEnabled" | kMotionEnabling => "kMotionEnabling"
  | kMotionDisabling => "kMotionDisabling" | kFaulted => "kFaulted"
  | kClearingFaults => "kClearingFaults" | kInitFailed => "kInitFailed"
  | kFatallyFaulted => "kFatallyFaulted" | kPreparing => "kPreparing"
  | kPrepared => "kPrepared"
  end.

Inductive TransitionGuardResult := kNoOp | kAllowed | kProhibited.

#[export] Instance TransitionGuardResult_eq_dec : EqDecision TransitionGuardResult.
Proof. solve_decision. Defined.

(** [HardwareModuleTransitionGuard(from, to)] *)
Definition HardwareModuleTransitionGuard (from to : StateCode) : TransitionGuardResult :=
  if decide (from = to) then kNoOp
  else if decide (to = kFatallyFaulted) then kAllowed
  else
    match from with
    | kPreparing =>
        match to with
        | kPrepared | kFaulted | kFatallyFaulted => kAllowed
        | _ => kProhibited
        end
    | kPrepared =>
        match to with kActivating | kDeactivating => kAllowed | _ => kProhibited end
    | kDeactivating =>
        match to with kDeactivated => kAllowed | _ => kProhibited end
    | kDeactivated =>
        match to with
        | kDeactivating => kNoOp
        | kPreparing | kInitFailed => kAllowed
        | _ => kProhibited
        end
    | kActivating =>
        match to with kActivated => kAllowed | _ => kProhibited end
    | kActivated =>
        match to with
        | kMotionDisabling | kClearingFaults => kNoOp
        | kMotionEnabling | kDeactivating | kFaulted => kAllowed
        | _ => kProhibited
        end
    | kMotionEnabling =>
        match to with
        | kDeactivating | kMotionEnabled | kFaulted => kAllowed
        | _ => kProhibited
        end
    | kMotionEnabled =>
        match to with
        | kMotionEnabling | kClearingFaults => kNoOp
        | kMotionDisabling | kFaulted | kDeactivating => kAllowed
        | _ => kProhibited
        end
    | kMotionDisabling =>
        match to with kFaulted | kActivated | kDeactivating => kAllowed | _ => kProhibited end
    | kFaulted =>
        match to with
        | kClearingFaults | kDeactivating | kFaulted => kAllowed
        | _ => kProhibited
        end
    | kClearingFaults =>
        match to with kDeactivating | kFaulted | kActivated => kAllowed | _ => kProhibited end
    | kInitFailed => kProhibited
    | kFatallyFaulted => kProhibited
    end.

Definition allowed (from to : StateCode) : Prop :=
  HardwareModuleTransitionGuard from to = kAllowed.

#[export] Instance allowed_dec from to : Decision (allowed from to).
Proof. unfold allowed. apply _. Defined.

Definition newline : string := str [Ascii.ascii_of_nat 10].
Definition dquote : string := str [Ascii.ascii_of_nat 34].

(** [CreateDotGraphvizStateMachineString(transitions)] *)
Definition dot_of_transitions (transitions : list (StateCode * StateCode)) : string :=
  let node s := ("  " ++ EnumNameStateCode s ++ " [label=" ++ dquote
                   ++ EnumNameStateCode s ++ dquote ++ "];" ++ newline)%string in
  let edge (t : StateCode * StateCode) :=
    ("  " ++ EnumNameStateCode t.1 ++ " -> " ++ EnumNameStateCode t.2 ++ ";"
       ++ newline)%string in
  ("digraph StateMachine {" ++ newline
   ++ String.concat "" (map node EnumValuesStateCode)
   ++ String.concat "" (map edge transitions)
   ++ "}" ++ newline)%string.

(** The pairs that [CreateDotGraphvizStateMachineString()] collects. *)
Definition allowed_transitions : list (StateCode * StateCode) :=
  flat_map (fun from =>
    flat_map (fun to => if decide (allowed from to) then [(from, to)] else [])
      EnumValuesStateCode) EnumValuesStateCode.

(** [CreateDotGraphvizStateMachineString()] *)
Definition CreateDotGraphvizStateMachineString : string :=
  dot_of_transitions allowed_transitions.

(** ** The state in shared memory *)

(** [intrinsic_fbs::kMaxFaultReasonLength], the length of [message:[uint8:256]]. *)
Definition kMaxFaultReasonLength : nat := 256.

(** [struct HardwareModuleState] *)
Record HardwareModuleState := mkHardwareModuleState {
  hms_code : StateCode;
  hms_message : list ascii }.

#[export] Instance HardwareModuleState_eq_dec : EqDecision HardwareModuleState.
Proof. solve_decision. Defined.

(** [HardwareModuleState()], as [BuildHardwareModuleState()] creates it. *)
Definition default_HardwareModuleState : HardwareModuleState :=
  mkHardwareModuleState kDeactivated (replicate kMaxFaultReasonLength NUL).

(** [SetState(hardware_module_state, code, message)]; [None] is the null pointer. *)
Definition SetState (s : option HardwareModuleState) (code : StateCode) (message : string)
  : option HardwareModuleState :=
  match s with
  | None => None
  | Some s =>
      let size := length (hms_message s) in
      let copy_length := Nat.min (size - 1) (length (chars message)) in
      Some (mkHardwareModuleState code
              (take copy_length (chars message) ++ replicate (size - copy_length) NUL))
  end.

(** [GetMessage(hardware_module_state)] *)
Definition GetMessage (s : option HardwareModuleState) : string :=
  match s with
  | None => ""
  | Some s => str (until_nul (hms_message s))
  end.

(** ** Exit codes *)

(** [HardwareModuleExitCode] *)
Inductive HardwareModuleExitCode :=
| kNormalShutdown | kRestartRequested | kFatalFaultDuringInit | kFatalFaultDuringExec.

Definition exit_code_value (e : HardwareModuleExitCode) : Z :=
  match e with
  | kNormalShutdown => 0
  | kRestartRequested => 110
  | kFatalFaultDuringInit => 111
  | kFatalFaultDuringExec => 112
  end.

(** [SharedPromiseWrapper<T>]: [spw_open] is [promise_.has_value()]; the shared
    future holds the value once it is set. *)
Record SharedPromiseWrapper (T : Type) := mkSharedPromiseWrapper {
  spw_open : bool;
  spw_future : option T }.
Arguments mkSharedPromiseWrapper {T}.
Arguments spw_open {T}.
Arguments spw_future {T}.

Definition new_SharedPromiseWrapper {T} : SharedPromiseWrapper T :=
  mkSharedPromiseWrapper true None.

(** [SharedPromiseWrapper::SetValue(value)] *)
Definition SetValue {T} (w : SharedPromiseWrapper T) (value : T)
  : Status * SharedPromiseWrapper T :=
  if negb (spw_open w) then
    (FormatStatus kFailedPrecondition "Promise is already set.", w)
  else (OkStatus, mkSharedPromiseWrapper false (Some value)).

(** [SharedPromiseWrapper::HasBeenSet()] *)
Definition HasBeenSet {T} (w : SharedPromiseWrapper T) : bool := negb (spw_open w).

(** ** Facts *)

Lemma EnumValuesStateCode_complete s : s ∈ EnumValuesStateCode.
Proof. apply list_elem_of_In. destruct s; simpl; tauto. Qed.

(** The graph lists exactly the allowed transitions. *)
Lemma allowed_transitions_spec from to :
  (from, to) ∈ allowed_transitions <-> allowed from to.
Proof.
  unfold allowed_transitions. rewrite list_elem_of_In, in_flat_map. split.
  - intros (f & _ & Hf). apply in_flat_map in Hf as (t & _ & Ht).
    case_decide; [|done]. destruct Ht as [[= -> ->]|[]]. done.
  - intros Ha. exists from. split; [apply list_elem_of_In, EnumValuesStateCode_complete|].
    apply in_flat_map. exists to.
    split; [apply list_elem_of_In, EnumValuesStateCode_complete|].
    rewrite decide_True by done. by left.
Qed.

(** A fatal fault is final, and [kInitFailed] can only become a fatal fault. *)
Lemma fatal_is_final to : ~ allowed kFatallyFaulted to.
Proof. unfold allowed. by destruct to. Qed.

Lemma init_failed_final to : allowed kInitFailed to -> to = kFatallyFaulted.
Proof. unfold allowed. by destruct to. Qed.

(** Every state but a fatal fault can fail fatally. *)
Lemma fatal_always_allowed from : from <> kFatallyFaulted -> allowed from kFatallyFaulted.
Proof. unfold allowed. by destruct from. Qed.

(** A message survives the state in shared memory, cut at 255 characters. *)
Theorem SetState_GetMessage (s : HardwareModuleState) (code : StateCode) (message : string) :
  length (hms_message s) = kMaxFaultReasonLength -> no_nul (chars message) ->
  exists s', SetState (Some s) code message = Some s' /\ hms_code s' = code
    /\ length (hms_message s') = kMaxFaultReasonLength
    /\ GetMessage (Some s') = str (take 255 (chars message)).
Proof.
  intros Hl Hn. eexists. split; [reflexivity|]. rewrite Hl. simpl hms_code. split; [done|].
  unfold kMaxFaultReasonLength in *. cbn [hms_message]. split.
  - rewrite length_app, length_replicate, length_take. lia.
  - unfold GetMessage. cbn [hms_message]. rewrite until_nul_app_zeros, until_nul_no_nul
      by (by apply no_nul_take). f_equal.
    destruct (Nat.min_spec (256 - 1) (length (chars message))) as [[? ->]|[? ->]]; [done|].
    rewrite !take_ge by lia. done.
Qed.

(** ** Paths of the state machine *)

(** [h] lists the states on a path of allowed transitions that ends in the last
    one. *)
Inductive path (start : StateCode) : list StateCode -> StateCode -> Prop :=
| path_start : path start [start] start
| path_step h s t : path start h s -> allowed s t -> path start (h ++ [t]) t.

(** The states that a path from [kDeactivated] has passed, in this order. *)
Definition passed (s : StateCode) : list StateCode :=
  match s with
  | kDeactivated | kDeactivating | kInitFailed | kFatallyFaulted => []
  | kPreparing | kPrepared | kActivating | kFaulted | kClearingFaults => [kPreparing]
  | kActivated | kMotionDisabling => [kPreparing; kActivated]
  | kMotionEnabling => [kPreparing; kActivated; kMotionEnabling]
  | kMotionEnabled => [kPreparing; kActivated; kMotionEnabling; kMotionEnabled]
  end.

Lemma passed_step s t :
  allowed s t -> passed t `sublist_of` passed s
  \/ exists l, passed t = l ++ [t] /\ l `sublist_of` passed s.
Proof.
  unfold allowed. destruct s, t; intros Ha; try discriminate Ha; simpl;
    first [left; solve [repeat constructor]
          |right; solve [exists []; split; [done|repeat constructor]]
          |right; solve [exists [kPreparing]; split; [done|repeat constructor]]
          |right; solve [exists [kPreparing; kActivated]; split; [done|repeat constructor]]
          |right; exists [kPreparing; kActivated; kMotionEnabling]; split; [done|repeat constructor]].
Qed.

Lemma path_passed (h : list StateCode) s : path kDeactivated h s -> passed s `sublist_of` h.
Proof.
  intros Hp. induction Hp as [|h s t Hp IH Ha]; [apply sublist_nil_l|].
  destruct (passed_step s t Ha) as [Hsub|(l & -> & Hsub)].
  - apply sublist_inserts_r. by etrans.
  - apply sublist_app; [by etrans|done].
Qed.

(** Motion is enabled only after preparation and activation: every path of allowed
    transitions from [kDeactivated] to [kMotionEnabled] passes through
    [kPreparing], then [kActivated], then [kMotionEnabling]. *)
Theorem motion_needs_activation (h : list StateCode) :
  path kDeactivated h kMotionEnabled ->
  [kPreparing; kActivated; kMotionEnabling; kMotionEnabled] `sublist_of` h.
Proof. apply (path_passed h kMotionEnabled). Qed.

Lemma path_last start h s : path start h s -> last h = Some s.
Proof. destruct 1; [done|apply last_snoc]. Qed.

Lemma path_head start h s : path start h s -> head h = Some start.
Proof. induction 1 as [|h s t _ IH _]; [done|]. by destruct h. Qed.

Lemma path_trans a b c h1 h2 : path a h1 b -> path b h2 c -> path a (h1 ++ tail h2) c.
Proof.
  intros H1 H2. induction H2 as [|h s t H2 IH Ha]; simpl; [by rewrite app_nil_r|].
  replace (tail (h ++ [t])) with (tail h ++ [t]) by (by destruct H2 as [|[]]).
  rewrite app_assoc. by eapply path_step.
Qed.

(** Neighbours on a path are allowed transitions. *)
Lemma path_allowed start h e i s t :
  path start h e -> h !! i = Some s -> h !! S i = Some t -> allowed s t.
Proof.
  intros Hp. revert i s t. induction Hp as [|h r u Hp IH Ha]; intros i s t Hi Hj; [done|].
  apply lookup_app_Some in Hj as [Hj|[Hlen Hj]].
  - rewrite lookup_app_l in Hi by (apply lookup_lt_Some in Hj; lia). by eapply IH.
  - apply list_lookup_singleton_Some in Hj as [Hz ->].
    apply path_last in Hp. rewrite last_lookup in Hp.
    rewrite lookup_app_l in Hi by (destruct h; simpl in *; [discriminate Hp|lia]).
    replace (pred (length h)) with i in Hp by lia. by simplify_eq.
Qed.

Lemma enabled_from_enabling s : allowed s kMotionEnabled -> s = kMotionEnabling.
Proof. unfold allowed. by destruct s. Qed.

(** A fatal fault is the last state of a path. *)
Lemma path_fatal start h e : path start h e -> kFatallyFaulted ∈ h -> e = kFatallyFaulted.
Proof.
  intros Hp Hin. apply list_elem_of_lookup in Hin as [i Hi].
  destruct (decide (S i < length h)%nat) as [Hlt|Hge].
  - apply lookup_lt_is_Some in Hlt as [t Ht].
    exfalso. eapply fatal_is_final, path_allowed; eauto.
  - pose proof (lookup_lt_Some _ _ _ Hi). apply path_last in Hp. rewrite last_lookup in Hp.
    replace (pred (length h)) with i in Hp by lia. by simplify_eq.
Qed.
