(* ===== verification/HalRuntime.v ===== *)
(** * Hardware module runtime: the callback handler
    ([icon/hal/hardware_module_runtime.{h,cc}], class [CallbackHandler])

    The handler keeps the state of the hardware module, forwards the triggers of
    the realtime loop to the module, and serialises the state changes that
    non-realtime threads ask for: a request is queued, the realtime thread applies
    it in [OnReadStatus], and the asking thread waits for the answer.  The module
    behind [HardwareModuleInterface] is any implementation of the class
    [HardwareModule]; every reading of [Now()] is an argument.  Log output is not
    modelled. *)
From S2P Require Import Prelude Status AsyncBuffer HalState.

(** ** [HardwareModuleInterface] *)

Inductive module_call :=
| MInit | MPrepare | MActivate | MDeactivate | MEnableMotion | MEnabled | MDisabled
| MDisableMotion | MClearFaults | MShutdown | MReadStatus | MApplyCommand.

#[export] Instance module_call_eq_dec : EqDecision module_call.
Proof. solve_decision. Defined.

(** The virtual methods: those that return [Status] and those that return
    [RealtimeStatus]. *)
Class HardwareModule (M : Type) := {
  hm_status : M -> module_call -> Status * M;
  hm_rt : M -> module_call -> RealtimeStatus * M }.

(** ** The handler *)

(** [AsyncRequestData], with the identity of the promise that the request carries. *)
Record Request := mkRequest {
  rq_id : nat;
  rq_from : StateCode;
  rq_to : StateCode;
  rq_message : list ascii;
  rq_time : Z }.

Definition kMaxPendingRequests : nat := 10.

Section Handler.
Context {M : Type} `{HardwareModule M}.

(** [CallbackHandler]: the members, the calls made on the module so far, the answers
    set on the promises of the requests, and every value that the atomic state code
    has had, the oldest first. *)
Record Handler := mkHandler {
  hd_module : M;
  hd_calls : list module_call;
  hd_code : StateCode;
  hd_previous : StateCode;
  hd_shm : HardwareModuleState;
  hd_buffer : AsyncBuffer HardwareModuleState;
  hd_queue : list Request;
  hd_reject : bool;
  hd_update_time : Z;
  hd_responses : list (nat * RealtimeStatus);
  hd_states : list StateCode }.

Definition set_module (h : Handler) (x0 : M) (x1 : list module_call) : Handler :=
  mkHandler x0 x1 (hd_code h) (hd_previous h) (hd_shm h) (hd_buffer h) (hd_queue h)
    (hd_reject h) (hd_update_time h) (hd_responses h) (hd_states h).
Definition set_code (h : Handler) (x0 : StateCode) (x1 : HardwareModuleState) (x2 : AsyncBuffer HardwareModuleState) (x3 : Z) : Handler :=
  mkHandler (hd_module h) (hd_calls h) x0 (hd_previous h) x1 x2 (hd_queue h)
    (hd_reject h) x3 (hd_responses h) (hd_states h ++ [x0]).
Definition set_previous (h : Handler) (x0 : StateCode) : Handler :=
  mkHandler (hd_module h) (hd_calls h) (hd_code h) x0 (hd_shm h) (hd_buffer h)
    (hd_queue h) (hd_reject h) (hd_update_time h) (hd_responses h) (hd_states h).
Definition set_buffer (h : Handler) (x0 : AsyncBuffer HardwareModuleState) : Handler :=
  mkHandler (hd_module h) (hd_calls h) (hd_code h) (hd_previous h) (hd_shm h) x0
    (hd_queue h) (hd_reject h) (hd_update_time h) (hd_responses h) (hd_states h).
Definition set_queue (h : Handler) (x0 : list Request) : Handler :=
  mkHandler (hd_module h) (hd_calls h) (hd_code h) (hd_previous h) (hd_shm h)
    (hd_buffer h) x0 (hd_reject h) (hd_update_time h) (hd_responses h) (hd_states h).
Definition set_reject (h : Handler) (x0 : bool) : Handler :=
  mkHandler (hd_module h) (hd_calls h) (hd_code h) (hd_previous h) (hd_shm h)
    (hd_buffer h) (hd_queue h) x0 (hd_update_time h) (hd_responses h) (hd_states h).
Definition set_answers (h : Handler) (x0 : list Request) (x1 : list (nat * RealtimeStatus)) : Handler :=
  mkHandler (hd_module h) (hd_calls h) (hd_code h) (hd_previous h) (hd_shm h)
    (hd_buffer h) x0 (hd_reject h) (hd_update_time h) x1 (hd_states h).

(** Calls on the module. *)
Definition call_status (h : Handler) (k : module_call) : Status * Handler :=
  let '(st, m) := hm_status (hd_module h) k in (st, set_module h m (hd_calls h ++ [k])).
Definition call_rt (h : Handler) (k : module_call) : RealtimeStatus * Handler :=
  let '(st, m) := hm_rt (hd_module h) k in (st, set_module h m (hd_calls h ++ [k])).

(** [GetFreeBuffer()], [SetState(free_buffer, ...)], [CommitFreeBuffer()] on
    [hwm_state_buffer_]. *)
Definition publish (b : AsyncBuffer HardwareModuleState) (code : StateCode) (message : string)
  : bool * AsyncBuffer HardwareModuleState :=
  let '(i, b1) := GetFreeBuffer b in
  let b2 := mkAsyncBuffer (state_ b1) (free_buffer_checked_out_ b1)
              (alter (fun s => default s (SetState (Some s) code message)) i (buffers_ b1)) in
  match CommitFreeBuffer false b2 [(state_ b2, state_ b2)] with
  | Some (Returns (r, b3)) => (r, b3)
  | _ => (false, b2)
  end.

(** [CheckAndTriggerDisabledTransitionHook(from)] *)
Definition CheckAndTriggerDisabledTransitionHook (h : Handler) (from : StateCode)
  : RealtimeStatus * Handler :=
  if decide (from = kMotionEnabled) then
    let '(st, h1) := call_rt h MDisabled in
    if negb (rt_ok st) then (st, h1) else (RtOkStatus, h1)
  else (RtOkStatus, h).

(** [SetStateDirectly(state, status, force, silent)] *)
Definition SetStateDirectly (h : Handler) (state : StateCode) (status : RealtimeStatus)
    (force : bool) (now : Z) : bool * Handler :=
  let current_state := hd_code h in
  if negb force && negb (bool_decide (allowed current_state state)) then (false, h)
  else
    let fault_reason := Status.GetMessage status in
    if bool_decide (current_state = state)
       && bool_decide (GetMessage (Some (hd_shm h)) = fault_reason) then (false, h)
    else
      let state_changed := negb (bool_decide (current_state = state)) in
      let '(state', current_status, h1) :=
        if state_changed then
          let '(hook_status, h1) := CheckAndTriggerDisabledTransitionHook h current_state in
          if negb (rt_ok hook_status)
             && negb (bool_decide (state = kInitFailed))
             && negb (bool_decide (state = kFatallyFaulted))
             && negb (bool_decide (state = kFaulted))
          then (kFaulted,
                FormatRealtimeStatus (rt_code hook_status)
                  ("Disabled() failed: " ++ Status.GetMessage hook_status), h1)
          else (state, status, h1)
        else (state, status, h) in
      let message := Status.GetMessage current_status in
      let '(committed, b) := publish (hd_buffer h1) state' message in
      (committed && state_changed,
       set_code h1 state'
         (default (hd_shm h1) (SetState (Some (hd_shm h1)) state' message)) b now).

(** [CallbackHandler(name, instance, hardware_module_state, logger)] *)
Definition new_Handler (m : M) (shm : HardwareModuleState) (now0 now1 : Z) : Handler :=
  (SetStateDirectly
     (mkHandler m [] kDeactivated kDeactivated shm
        (new_AsyncBuffer default_HardwareModuleState) [] false now0 [] [kDeactivated])
     kDeactivated RtOkStatus true now1).2.

(** [CancelPendingRequests(cancel_reason)] *)
Fixpoint cancel_all (cancel_reason : string) (queue : list Request)
    (responses : list (nat * RealtimeStatus)) : list (nat * RealtimeStatus) :=
  match queue with
  | [] => responses
  | r :: queue' =>
      cancel_all cancel_reason queue'
        (responses ++ [(rq_id r, FormatRealtimeStatus kCancelled cancel_reason)])
  end.
Definition CancelPendingRequests (h : Handler) (cancel_reason : string) : Handler :=
  set_answers h [] (cancel_all cancel_reason (hd_queue h) (hd_responses h)).

(** [Shutdown()] *)
Definition Shutdown (h : Handler) : Handler :=
  CancelPendingRequests (set_reject h true) "Request cancelled due to shutdown".

(** [OnDeactivate()]; [now k] is the [k]-th reading of the clock in the call. *)
Definition OnDeactivate (now : nat -> Z) (h : Handler) : Handler :=
  let '(ok, h1) := SetStateDirectly h kDeactivating RtOkStatus false (now 0%nat) in
  if negb ok then h1
  else
    let h2 := CancelPendingRequests (set_reject h1 true)
                "Request cancelled due to deactivation" in
    let '(ret, h3) := call_rt h2 MDeactivate in
    if negb (rt_ok ret) then (SetStateDirectly h3 kFatallyFaulted ret false (now 1%nat)).2
    else (SetStateDirectly h3 kDeactivated RtOkStatus false (now 1%nat)).2.

(** [OnPrepare()] *)
Definition OnPrepare (now : nat -> Z) (h : Handler) : Handler :=
  let h1 :=
    match hd_code h with
    | kActivated | kMotionEnabled | kMotionEnabling | kMotionDisabling | kFaulted
    | kClearingFaults | kPreparing => OnDeactivate now h
    | _ => h
    end in
  let '(ok, h2) := SetStateDirectly h1 kPreparing RtOkStatus false (now 2%nat) in
  if negb ok then h2
  else
    let h3 := CancelPendingRequests h2 "Request cancelled by a call to Prepare()" in
    let '(ret, h4) := call_status h3 MPrepare in
    if negb (status_ok ret)
    then (SetStateDirectly h4 kFatallyFaulted
            (FormatRealtimeStatus (st_code ret) (st_message ret)) false (now 3%nat)).2
    else (SetStateDirectly h4 kPrepared RtOkStatus false (now 3%nat)).2.

(** [OnActivate()] *)
Definition OnActivate (now : nat -> Z) (h : Handler) : Handler :=
  let '(ok, h1) := SetStateDirectly h kActivating RtOkStatus false (now 0%nat) in
  if negb ok then h1
  else
    let h2 := CancelPendingRequests h1 "Request cancelled due to activation" in
    let '(ret, h3) := call_rt h2 MActivate in
    let h4 :=
      if negb (rt_ok ret) then (SetStateDirectly h3 kFatallyFaulted ret false (now 1%nat)).2
      else (SetStateDirectly h3 kActivated RtOkStatus false (now 1%nat)).2 in
    set_reject h4 false.

(** [CheckAndTriggerEnabledTransitionHook(from, to)] *)
Definition CheckAndTriggerEnabledTransitionHook (h : Handler) (from to : StateCode) (now : Z)
  : Handler :=
  if decide (from = kMotionEnabling /\ to = kMotionEnabled) then
    let '(st, h1) := call_rt h MEnabled in
    if negb (rt_ok st)
    then (SetStateDirectly h1 kFaulted
            (FormatRealtimeStatus (rt_code st)
               ("Enabled() callback failed: " ++ Status.GetMessage st)) false now).2
    else h1
  else h.

(** [ProcessNextPendingRequest()] *)
Definition ProcessNextPendingRequest (now : Z) (h : Handler) : Handler :=
  let h1 := set_previous h (hd_code h) in
  match hd_queue h1 with
  | [] => h1
  | r :: queue' =>
      let h2 := set_queue h1 queue' in
      let current_state := hd_code h2 in
      if bool_decide (hd_update_time h2 <= rq_time r)
         && bool_decide (rq_from r = current_state) then
        let req_status := FormatRealtimeStatus kUnknown (str (until_nul (rq_message r))) in
        let '(ok, h3) := SetStateDirectly h2 (rq_to r) req_status false now in
        set_answers h3 (hd_queue h3)
          (hd_responses h3 ++
             [(rq_id r,
               if ok : bool then RtOkStatus
               else FormatRealtimeStatus kFailedPrecondition
                      ("Transition from " ++ EnumNameStateCode current_state ++ " to "
                         ++ EnumNameStateCode (rq_to r) ++ " is prohibited!"))])
      else
        set_answers h2 (hd_queue h2)
          (hd_responses h2 ++
             [(rq_id r, FormatRealtimeStatus kCancelled
                          "Request cancelled due to newer request")])
  end.

(** The state after a failed call of the realtime loop. *)
Definition fault_of (ret : RealtimeStatus) : StateCode :=
  if decide (rt_code ret = kAborted) then kFatallyFaulted else kFaulted.

(** [OnReadStatus()] *)
Definition OnReadStatus (now : nat -> Z) (h : Handler) : Handler :=
  let h1 := ProcessNextPendingRequest (now 0%nat) h in
  let h2 := CheckAndTriggerEnabledTransitionHook h1 (hd_previous h1) (hd_code h1) (now 1%nat) in
  let '(ret, h3) := call_rt h2 MReadStatus in
  if negb (rt_ok ret) && negb (bool_decide (hd_code h3 = kClearingFaults)) then
    let '(changed, h4) := SetStateDirectly h3 (fault_of ret) ret false (now 2%nat) in
    if changed : bool
    then CancelPendingRequests h4 "Request cancelled due to error in ReadStatus" else h4
  else h3.

(** [OnApplyCommand()] *)
Definition OnApplyCommand (now : Z) (h : Handler) : Handler :=
  let current_state := hd_code h in
  if decide (current_state = kMotionDisabling) then h
  else if decide (current_state <> kMotionEnabled) then
    let message := "PUBLIC: 'ApplyCommand' called while not enabled."%string in
    let '(changed, h1) :=
      SetStateDirectly h kFaulted (FormatRealtimeStatus kFailedPrecondition message) false now in
    if changed : bool
    then CancelPendingRequests h1 "Request cancelled due to error in ApplyCommand" else h1
  else
    let '(ret, h1) := call_rt h MApplyCommand in
    if negb (rt_ok ret) then
      let '(changed, h2) := SetStateDirectly h1 (fault_of ret) ret false now in
      if changed : bool
      then CancelPendingRequests h2 "Request cancelled due to error in ApplyCommand" else h2
    else h1.

(** [GetHardwareModuleState()] of the handler. *)
Definition GetHardwareModuleState (h : Handler) : HardwareModuleState * Handler :=
  let b := hd_buffer h in
  match GetActiveBuffer false false b [(state_ b, state_ b)] with
  | Some (Returns (fresh, state, b')) =>
      let h' := set_buffer h b' in
      match state with
      | Some i =>
          if negb fresh then (default_HardwareModuleState, h')
          else (default default_HardwareModuleState (buffers_ b' !! i), h')
      | None => (default_HardwareModuleState, h')
      end
  | _ => (default_HardwareModuleState, h)
  end.

(** ** State changes of non-realtime threads *)

(** The array of the request: the reason is cut at 255 characters. *)
Definition request_message (fault_reason : string) : list ascii :=
  let copy_len := Nat.min (kMaxFaultReasonLength - 1) (length (chars fault_reason)) in
  take copy_len (chars fault_reason) ++ replicate (kMaxFaultReasonLength - copy_len) NUL.

(** [SetStateAndWait(from, to, fault_reason)] up to the wait: the request is queued,
    or the call returns false. *)
Definition SetStateAndWait_request (h : Handler) (id : nat) (from to : StateCode)
    (fault_reason : string) (now : Z) : bool * Handler :=
  if negb (bool_decide (allowed from to)) then (false, h)
  else if hd_reject h then (false, h)
  else if bool_decide (length (hd_queue h) = kMaxPendingRequests) then (false, h)
  else (true, set_queue h (hd_queue h ++
                [mkRequest id from to (request_message fault_reason) now])).

(** What [SetStateAndWait] returns for an answer. *)
Definition SetStateAndWait_result (answer : RealtimeStatus) : bool := rt_ok answer.

(** [OnEnableMotion()], [OnDisableMotion()] and [OnClearFaults()] *)
Inductive action := EnableMotion | DisableMotion | ClearFaults.

Definition action_intermediate (a : action) : StateCode :=
  match a with
  | EnableMotion => kMotionEnabling
  | DisableMotion => kMotionDisabling
  | ClearFaults => kClearingFaults
  end.
Definition action_success (a : action) : StateCode :=
  match a with EnableMotion => kMotionEnabled | DisableMotion | ClearFaults => kActivated end.
Definition action_call (a : action) : module_call :=
  match a with
  | EnableMotion => MEnableMotion
  | DisableMotion => MDisableMotion
  | ClearFaults => MClearFaults
  end.

(** The first request of an action. *)
Definition action_begin (h : Handler) (a : action) (id : nat) (now : Z) : bool * Handler :=
  SetStateAndWait_request h id (hd_code h) (action_intermediate a) "" now.

(** The call on the module and the second request, after the first was granted. *)
Definition action_continue (h : Handler) (a : action) (id : nat) (now : Z) : bool * Handler :=
  let '(ret, h1) := call_status h (action_call a) in
  if negb (status_ok ret) then
    SetStateAndWait_request h1 id (action_intermediate a)
      (if decide (st_code ret = kAborted) then kFatallyFaulted else kFaulted)
      (st_message ret) now
  else SetStateAndWait_request h1 id (action_intermediate a) (action_success a) "" now.

(** ** The restart trigger *)

(** The callback of the restart server in [HardwareModuleRuntime::Connect];
    [wrapper] is what [exit_code_promise.lock()] returns.  The boolean tells
    whether the domain socket server was destroyed. *)
Definition on_restart (wrapper : option (SharedPromiseWrapper HardwareModuleExitCode))
    (h : Handler)
  : option (SharedPromiseWrapper HardwareModuleExitCode) * Handler * bool :=
  match wrapper with
  | Some w =>
      if negb (HasBeenSet w) then
        let '(state, h1) := GetHardwareModuleState h in
        match hms_code state with
        | kMotionEnabled => (Some w, h1, false)
        | kInitFailed => (Some (SetValue w kFatalFaultDuringInit).2, h1, true)
        | kFatallyFaulted => (Some (SetValue w kFatalFaultDuringExec).2, h1, true)
        | _ => (Some (SetValue w kRestartRequested).2, h1, true)
        end
      else (wrapper, h, false)
  | None => (None, h, false)
  end.

(** ** All threads together *)

(** The state-change thread: idle, or waiting for the answer to its first or second
    request.  The action lock admits one action at a time. *)
Inductive apc := AIdle | AWait1 (a : action) (id : nat) | AWait2 (a : action) (id : nat).

Record hconfig := mkHConfig {
  hc_h : Handler;
  hc_a : apc;
  hc_next : nat }.

(** One step.  A callback that writes the state ([OnPrepare], [OnActivate],
    [OnDeactivate], [OnReadStatus], [OnApplyCommand]) is one step although the code
    checks, calls the module and stores one after the other: the source rules out that
    two of them run in parallel (the comments at hardware_module_runtime.cc:374, :478,
    :541 and :548; ICON triggers them one at a time).  The non-realtime actions are
    split where they wait for the realtime thread; a call of the module and the
    request that follows it are one step, since the call does not touch the handler.
    [hs_init_failed] is the store of [HardwareModuleRuntime::Run] when a step of the
    initialisation fails.  ([SetStateTestOnly], which forces a state in tests, is left
    out.) *)
Inductive hstep : hconfig -> hconfig -> Prop :=
| hs_prepare now h n : hstep (mkHConfig h AIdle n) (mkHConfig (OnPrepare now h) AIdle n)
| hs_activate now h a n : hstep (mkHConfig h a n) (mkHConfig (OnActivate now h) a n)
| hs_deactivate now h a n : hstep (mkHConfig h a n) (mkHConfig (OnDeactivate now h) a n)
| hs_read now h a n : hstep (mkHConfig h a n) (mkHConfig (OnReadStatus now h) a n)
| hs_apply now h a n : hstep (mkHConfig h a n) (mkHConfig (OnApplyCommand now h) a n)
| hs_get h a n : hstep (mkHConfig h a n) (mkHConfig (GetHardwareModuleState h).2 a n)
| hs_shutdown h a n : hstep (mkHConfig h a n) (mkHConfig (Shutdown h) a n)
| hs_begin h a n now ok h' : action_begin h a n now = (ok, h') ->
    hstep (mkHConfig h AIdle n)
      (mkHConfig h' (if ok : bool then AWait1 a n else AIdle) (S n))
| hs_granted h a id n now st ok h' : (id, st) ∈ hd_responses h ->
    SetStateAndWait_result st = true -> action_continue h a n now = (ok, h') ->
    hstep (mkHConfig h (AWait1 a id) n)
      (mkHConfig h' (if ok : bool then AWait2 a n else AIdle) (S n))
| hs_refused h a id n st : (id, st) ∈ hd_responses h -> SetStateAndWait_result st = false ->
    hstep (mkHConfig h (AWait1 a id) n) (mkHConfig h AIdle n)
| hs_done h a id n st : (id, st) ∈ hd_responses h ->
    hstep (mkHConfig h (AWait2 a id) n) (mkHConfig h AIdle n)
| hs_timeout1 h a id n : hstep (mkHConfig h (AWait1 a id) n) (mkHConfig h AIdle n)
| hs_timeout2 h a id n : hstep (mkHConfig h (AWait2 a id) n) (mkHConfig h AIdle n)
| hs_init_failed h a n st now :
    hstep (mkHConfig h a n) (mkHConfig (SetStateDirectly h kInitFailed st false now).2 a n).

End Handler.
Arguments Handler : clear implicits.
