(* ===== verification/HalRuntimeProofs.v ===== *)
(** * Correctness of the callback handler *)
From S2P Require Import Prelude Status AsyncBuffer HalState HalRuntime.

#[local] Arguments SetState : simpl never.
#[local] Arguments request_message : simpl never.

(** ** Publication of the state *)

(** The buffer that holds the latest published state. *)
Definition latest_index (s : BState) : nat :=
  if mailbox_full s then mailbox_index s else active_index s.

(** The state buffer holds [shm] as its latest value; all buffers have their size. *)
Record published (b : AsyncBuffer HardwareModuleState) (shm : HardwareModuleState) : Prop :=
  mkPublished {
    pb_consistent : IsConsistent (state_ b) = true;
    pb_length : length (buffers_ b) = 3%nat;
    pb_sizes : Forall (fun s => length (hms_message s) = kMaxFaultReasonLength) (buffers_ b);
    pb_latest : buffers_ b !! latest_index (state_ b) = Some shm }.

Definition sized (s : HardwareModuleState) : Prop :=
  length (hms_message s) = kMaxFaultReasonLength.

(** The state that [SetState] writes, whatever was there before. *)
Definition state_of (code : StateCode) (message : string) : HardwareModuleState :=
  mkHardwareModuleState code (request_message message).

Lemma SetState_sized s code message :
  sized s -> SetState (Some s) code message = Some (state_of code message).
Proof. unfold sized, SetState. by intros ->. Qed.

Lemma state_of_sized code message : sized (state_of code message).
Proof.
  unfold sized, state_of, request_message. cbn [hms_message].
  rewrite length_app, length_take, length_replicate. unfold kMaxFaultReasonLength. lia.
Qed.

Lemma publish_spec b shm code message :
  published b shm ->
  exists b', publish b code message = (true, b') /\ published b' (state_of code message)
    /\ mailbox_full (state_ b') = true.
Proof.
  intros [Hc Hl Hs _]. unfold publish, GetFreeBuffer, CommitFreeBuffer. cbn [state_
    free_buffer_checked_out_ buffers_ negb]. unfold cas_loop, compare_exchange_strong.
  rewrite decide_True by done. cbn [negb orb cbind check].
  eexists. split; [reflexivity|]. split; [|done].
  apply IsConsistent_spec in Hc as Hd. destruct Hd as ((? & ? & Hf) & _).
  destruct (lookup_lt_is_Some_2 (buffers_ b) (free_index (state_ b))) as [x Hx]; [lia|].
  assert (sized x) as Hxs by (by eapply Forall_lookup_1 in Hs).
  split; cbn [state_ buffers_].
  - by apply next_commit_consistent.
  - by rewrite length_alter.
  - apply Forall_alter; [done|]. intros y Hy _. assert (y = x) as -> by congruence.
    rewrite SetState_sized by done. apply state_of_sized.
  - unfold latest_index. cbn [next_commit mailbox_full mailbox_index].
    rewrite list_lookup_alter_eq, Hx.
    assert (default x (SetState (Some x) code message) = state_of code message) as <-
      by (by rewrite SetState_sized). done.
Qed.

Section Proofs.
Context {M : Type} `{HardwareModule M}.
Implicit Types h : Handler M.

(** Shared memory, the atomic code and the buffer for non-realtime threads agree. *)
Record consistent h : Prop := mkConsistent {
  cs_code : hms_code (hd_shm h) = hd_code h;
  cs_sized : sized (hd_shm h);
  cs_published : published (hd_buffer h) (hd_shm h) }.

(** What a part of a callback may do: follow allowed transitions, extend the calls
    on the module by calls satisfying [P], keep the three copies of the state in
    agreement. *)
Record evolves (P : module_call -> Prop) h h' : Prop := mkEvolves {
  ev_path : exists new, hd_states h' = hd_states h ++ new
    /\ path (hd_code h) (hd_code h :: new) (hd_code h');
  ev_calls : exists new, hd_calls h' = hd_calls h ++ new /\ Forall P new;
  ev_consistent : consistent h -> consistent h' }.

(** A part that stores no state code. *)
Lemma no_store h h' :
  hd_code h' = hd_code h -> hd_states h' = hd_states h ->
  exists new, hd_states h' = hd_states h ++ new
    /\ path (hd_code h) (hd_code h :: new) (hd_code h').
Proof. intros -> ->. exists []. split; [by rewrite app_nil_r|apply path_start]. Qed.

Lemma evolves_refl P h : evolves P h h.
Proof. split; [by apply no_store| |done]. exists []. by rewrite app_nil_r. Qed.

Lemma evolves_trans P h1 h2 h3 : evolves P h1 h2 -> evolves P h2 h3 -> evolves P h1 h3.
Proof.
  intros [(s1 & Ha1 & Ha2) (n1 & Hc1 & HP1) Hk1] [(s2 & Hb1 & Hb2) (n2 & Hc2 & HP2) Hk2].
  split; [| |auto].
  { exists (s1 ++ s2). rewrite Hb1, Ha1, app_assoc. split; [done|].
    exact (path_trans _ _ _ _ _ Ha2 Hb2). }
  exists (n1 ++ n2). rewrite Hc2, Hc1, app_assoc. split; [done|]. by apply Forall_app.
Qed.

Lemma evolves_weaken (P Q : module_call -> Prop) h h' :
  (forall k, P k -> Q k) -> evolves P h h' -> evolves Q h h'.
Proof.
  intros HPQ [Ha (n & Hc & HP) Hk]. split; [done| |done]. exists n. split; [done|].
  by eapply Forall_impl.
Qed.

(** Parts that touch neither the state nor the module. *)
Lemma evolves_frame P h h' :
  hd_code h' = hd_code h -> hd_calls h' = hd_calls h -> hd_shm h' = hd_shm h ->
  hd_buffer h' = hd_buffer h -> hd_states h' = hd_states h -> evolves P h h'.
Proof.
  intros H1 H2 H3 H4 H5. split; [by apply no_store| |].
  - exists []. by rewrite app_nil_r.
  - intros [Hc Hs Hp]. split; [by rewrite H3, H1|by rewrite H3|by rewrite H3, H4].
Qed.

Lemma call_rt_evolves (P : module_call -> Prop) h k : P k -> evolves P h (call_rt h k).2.
Proof.
  intros Hk. unfold call_rt. destruct (hm_rt (hd_module h) k). split; simpl; [by apply no_store| |].
  - exists [k]. auto.
  - intros []. by split.
Qed.

Lemma call_status_evolves (P : module_call -> Prop) h k :
  P k -> evolves P h (call_status h k).2.
Proof.
  intros Hk. unfold call_status. destruct (hm_status (hd_module h) k). split; simpl; [by apply no_store| |].
  - exists [k]. auto.
  - intros []. by split.
Qed.

Definition only_hooks (k : module_call) : Prop := k = MDisabled \/ k = MEnabled.

(** [hd_queue], [hd_responses], [hd_reject] and [hd_previous] are untouched. *)
Definition same_requests h h' : Prop :=
  hd_queue h' = hd_queue h /\ hd_responses h' = hd_responses h
  /\ hd_reject h' = hd_reject h /\ hd_previous h' = hd_previous h.

Lemma set_code_consistent h code message now b :
  sized (hd_shm h) -> published b (state_of code message) ->
  consistent (set_code h code (default (hd_shm h) (SetState (Some (hd_shm h)) code message)) b now).
Proof.
  intros Hs Hp. rewrite SetState_sized by done.
  split; cbn [set_code hd_shm hd_code hd_buffer default]; [done|apply state_of_sized|done].
Qed.

Lemma disabled_hook_spec h from :
  let r := CheckAndTriggerDisabledTransitionHook h from in
  evolves only_hooks h r.2 /\ hd_code r.2 = hd_code h /\ hd_states r.2 = hd_states h
  /\ same_requests h r.2
  /\ (rt_ok r.1 = false -> from = kMotionEnabled).
Proof.
  unfold CheckAndTriggerDisabledTransitionHook. case_decide as Hf; simpl.
  - pose proof (call_rt_evolves only_hooks h MDisabled ltac:(by left)) as He.
    unfold call_rt in *. destruct (hm_rt (hd_module h) MDisabled) as [st m]. simpl in *.
    destruct (rt_ok st); simpl; (split; [exact He|]); repeat split; auto.
  - split; [apply evolves_refl|]. done.
Qed.

(** ** [SetStateDirectly] *)

(** The stores at the end of the function. *)
Lemma store_evolves h h1 code message now b :
  evolves only_hooks h h1 -> hd_states h1 = hd_states h -> allowed (hd_code h) code ->
  (consistent h1 -> published b (state_of code message)) ->
  evolves only_hooks h
    (set_code h1 code (default (hd_shm h1) (SetState (Some (hd_shm h1)) code message)) b now).
Proof.
  intros [_ Hcalls Hk] Hc Ha Hp. split; [|done|].
  { exists [code]. cbn [set_code hd_states hd_code]. rewrite Hc. split; [done|].
    apply (path_step _ [hd_code h] (hd_code h) code); [apply path_start|done]. }
  intros Hcons. specialize (Hk Hcons). apply set_code_consistent; [apply Hk|auto].
Qed.

Lemma SetStateDirectly_spec h state status now :
  let r := SetStateDirectly h state status false now in
  evolves only_hooks h r.2 /\ same_requests h r.2
  /\ (r.1 = true -> hd_code r.2 = state \/ hd_code h = kMotionEnabled /\ hd_code r.2 = kFaulted)
  /\ (r.1 = false -> consistent h -> r.2 = h).
Proof.
  unfold SetStateDirectly. case_bool_decide as Ha; simpl; last first.
  { split; [apply evolves_refl|]. done. }
  assert (hd_code h <> state) as Hne.
  { intros Heq. unfold allowed, HardwareModuleTransitionGuard in Ha.
    by rewrite decide_True in Ha. }
  rewrite (bool_decide_false _ Hne). cbn [andb negb].
  destruct (disabled_hook_spec h (hd_code h)) as (He & Hc1 & Hst1 & Hsame & Hfail).
  destruct (CheckAndTriggerDisabledTransitionHook h (hd_code h)) as [hook h1]. simpl in *.
  set (fails := negb (rt_ok hook) && _ && _ && _).
  assert (exists st' cs, (if fails then (kFaulted, FormatRealtimeStatus (rt_code hook)
            ("Disabled() failed: " ++ Status.GetMessage hook), h1) else (state, status, h1))
            = (st', cs, h1) /\ allowed (hd_code h) st'
            /\ (st' = state \/ hd_code h = kMotionEnabled /\ st' = kFaulted))
    as (st' & cs & -> & Hall & Hst).
  { destruct fails eqn:Hf; [|by eauto 8]. eexists _, _. split; [done|].
    subst fails. rewrite !andb_true_iff in Hf. destruct Hf as [[[Hf _] _] _].
    apply negb_true_iff in Hf. rewrite (Hfail Hf). split; [done|auto]. }
  assert (consistent h1 -> exists b, publish (hd_buffer h1) st' (Status.GetMessage cs) = (true, b)
            /\ published b (state_of st' (Status.GetMessage cs))) as Hpub.
  { intros [_ _ Hp]. destruct (publish_spec _ _ st' (Status.GetMessage cs) Hp) as (b & ? & ? & _).
    eauto. }
  destruct (publish (hd_buffer h1) st' (Status.GetMessage cs)) as [ok b]. simpl.
  split; [|split; [done|split]].
  - apply store_evolves; auto. intros Hk. destruct (Hpub Hk) as (b' & [= -> ->] & ?). done.
  - intros _. naive_solver.
  - intros Hok Hk. destruct (Hpub (ev_consistent _ _ _ He Hk)) as (b' & [= -> ->] & _). done.
Qed.

(** ** The callbacks *)

Definition not_apply (k : module_call) : Prop := k <> MApplyCommand.

Lemma ssd_evolves (P : module_call -> Prop) h h0 state status now :
  P MDisabled -> P MEnabled -> evolves P h0 h ->
  evolves P h0 (SetStateDirectly h state status false now).2.
Proof.
  intros Hd He Hev. eapply evolves_trans; [exact Hev|].
  eapply evolves_weaken; [|apply SetStateDirectly_spec]. intros k [->| ->]; done.
Qed.

Lemma rt_evolves (P : module_call -> Prop) h h0 k :
  P k -> evolves P h0 h -> evolves P h0 (call_rt h k).2.
Proof. intros Hk Hev. eapply evolves_trans; [exact Hev|]. by apply call_rt_evolves. Qed.

Lemma status_evolves (P : module_call -> Prop) h h0 k :
  P k -> evolves P h0 h -> evolves P h0 (call_status h k).2.
Proof. intros Hk Hev. eapply evolves_trans; [exact Hev|]. by apply call_status_evolves. Qed.

Lemma cancel_evolves P h h0 reason :
  evolves P h0 h -> evolves P h0 (CancelPendingRequests h reason).
Proof. intros Hev. eapply evolves_trans; [exact Hev|]. by apply evolves_frame. Qed.

Lemma reject_evolves P h h0 b : evolves P h0 h -> evolves P h0 (set_reject h b).
Proof. intros Hev. eapply evolves_trans; [exact Hev|]. by apply evolves_frame. Qed.

Lemma answers_evolves P h h0 q r : evolves P h0 h -> evolves P h0 (set_answers h q r).
Proof. intros Hev. eapply evolves_trans; [exact Hev|]. by apply evolves_frame. Qed.

(** Chain the parts of a callback: name the handler after each part and use the lemma
    of the part. *)
Ltac evolve_pair :=
  match goal with
  | |- context [let '(_, _) := SetStateDirectly ?h ?s ?st false ?n in _] =>
      let E := fresh "E" in
      destruct (SetStateDirectly h s st false n) as [? ?] eqn:E;
      apply (f_equal snd) in E; simpl in E; subst
  | |- context [let '(_, _) := call_rt ?h ?k in _] =>
      let E := fresh "E" in
      destruct (call_rt h k) as [? ?] eqn:E; apply (f_equal snd) in E; simpl in E; subst
  | |- context [let '(_, _) := call_status ?h ?k in _] =>
      let E := fresh "E" in
      destruct (call_status h k) as [? ?] eqn:E; apply (f_equal snd) in E; simpl in E; subst
  end.

Ltac evolve :=
  repeat (evolve_pair || case_match || case_decide);
  repeat first [apply evolves_refl | apply ssd_evolves; [done|done|]
    | apply rt_evolves; [done|] | apply status_evolves; [done|]
    | apply cancel_evolves | apply reject_evolves].

Lemma OnDeactivate_evolves now h : evolves not_apply h (OnDeactivate now h).
Proof. unfold OnDeactivate. evolve. Qed.

Lemma OnActivate_evolves now h : evolves not_apply h (OnActivate now h).
Proof. unfold OnActivate. evolve. Qed.

Lemma OnPrepare_evolves now h : evolves not_apply h (OnPrepare now h).
Proof.
  unfold OnPrepare.
  set (h1 := match hd_code h with kActivated => _ | _ => _ end).
  assert (evolves not_apply h h1) as H1.
  { subst h1. case_match; try apply evolves_refl; apply OnDeactivate_evolves. }
  clearbody h1. eapply evolves_trans; [exact H1|]. evolve.
Qed.

Lemma process_evolves now h : evolves only_hooks h (ProcessNextPendingRequest now h).
Proof.
  unfold ProcessNextPendingRequest. destruct (hd_queue (set_previous h (hd_code h))) as [|r q].
  { by apply evolves_frame. }
  set (h2 := set_queue _ q). assert (evolves only_hooks h h2) as H2 by (by apply evolves_frame).
  clearbody h2. eapply evolves_trans; [exact H2|]. case_match.
  - evolve_pair. apply answers_evolves.
    apply ssd_evolves; [by left|by right|apply evolves_refl].
  - by apply evolves_frame.
Qed.

Lemma enabled_hook_evolves h from to now :
  evolves only_hooks h (CheckAndTriggerEnabledTransitionHook h from to now).
Proof.
  unfold CheckAndTriggerEnabledTransitionHook. case_decide; [|apply evolves_refl].
  evolve_pair. case_match.
  - apply ssd_evolves; [by left|by right|]. apply rt_evolves; [by right|apply evolves_refl].
  - apply rt_evolves; [by right|apply evolves_refl].
Qed.

Lemma only_hooks_not_apply k : only_hooks k -> not_apply k.
Proof. by intros [->| ->]. Qed.

Lemma OnReadStatus_evolves now h : evolves not_apply h (OnReadStatus now h).
Proof.
  unfold OnReadStatus. set (h1 := ProcessNextPendingRequest _ h).
  set (h2 := CheckAndTriggerEnabledTransitionHook h1 _ _ _).
  assert (evolves not_apply h h2) as H2.
  { eapply evolves_trans; eapply evolves_weaken; try apply only_hooks_not_apply;
      [apply process_evolves|apply enabled_hook_evolves]. }
  clearbody h2. clear h1. eapply evolves_trans; [exact H2|]. evolve.
Qed.

Lemma OnApplyCommand_evolves now h :
  evolves (fun k => k = MApplyCommand -> hd_code h = kMotionEnabled) h (OnApplyCommand now h).
Proof.
  unfold OnApplyCommand. case_decide; [apply evolves_refl|]. case_decide as Hc.
  - evolve.
  - destruct (decide (hd_code h = kMotionEnabled)); [|done]. evolve.
Qed.

Lemma get_state_evolves P h : evolves P h (GetHardwareModuleState h).2.
Proof.
  unfold GetHardwareModuleState, GetActiveBuffer, cas_loop, compare_exchange_strong.
  rewrite decide_True by done. cbn [negb orb cbind check].
  assert (evolves P h (set_buffer h (mkAsyncBuffer (next_active (state_ (hd_buffer h)))
    (free_buffer_checked_out_ (hd_buffer h)) (buffers_ (hd_buffer h))))) as Hev.
  { split; simpl; [by apply no_store|exists []; by rewrite app_nil_r|].
    intros [Hc Hs [Hb Hl Hz Hlat]]. split; simpl; [done|done|]. split; simpl; auto with icon.
    rewrite <-Hlat. unfold latest_index, next_active.
    by destruct (mailbox_full (state_ (hd_buffer h))) eqn:E; simpl; rewrite ?E. }
  by destruct (negb _).
Qed.

Lemma request_evolves P h id from to reason now :
  evolves P h (SetStateAndWait_request h id from to reason now).2.
Proof.
  unfold SetStateAndWait_request. repeat case_match; try apply evolves_refl. by apply evolves_frame.
Qed.

Lemma continue_evolves h a id now : evolves not_apply h (action_continue h a id now).2.
Proof.
  unfold action_continue. evolve_pair.
  assert (not_apply (action_call a)) by (by destruct a).
  case_match; (eapply evolves_trans; [apply call_status_evolves; done|apply request_evolves]).
Qed.

Lemma hstep_evolves (c c' : hconfig (M := M)) :
  hstep c c' ->
  evolves (fun k => k = MApplyCommand -> hd_code (hc_h c) = kMotionEnabled) (hc_h c) (hc_h c').
Proof.
  assert (forall h h', evolves not_apply h h' ->
    evolves (fun k => k = MApplyCommand -> hd_code h = kMotionEnabled) h h') as Hw.
  { intros h h'. apply evolves_weaken. intros k Hk ->. done. }
  destruct 1; simpl; try apply evolves_refl.
  - apply Hw, OnPrepare_evolves.
  - apply Hw, OnActivate_evolves.
  - apply Hw, OnDeactivate_evolves.
  - apply Hw, OnReadStatus_evolves.
  - apply OnApplyCommand_evolves.
  - apply get_state_evolves.
  - apply Hw, cancel_evolves, reject_evolves, evolves_refl.
  - replace h' with (action_begin h a n now).2 by (by rewrite H0). apply request_evolves.
  - replace h' with (action_continue h a n now).2 by (by rewrite H2). apply Hw, continue_evolves.
  - apply Hw, ssd_evolves; [done|done|apply evolves_refl].
Qed.

(** ** Transitions *)

(** A handler on a fresh segment. *)
Definition hinitial (m : M) (t0 t1 : Z) : hconfig :=
  mkHConfig (new_Handler m default_HardwareModuleState t0 t1) AIdle 0.

Lemma reachable_path m t0 t1 (c : hconfig (M := M)) :
  rtc hstep (hinitial m t0 t1) c ->
  path kDeactivated (hd_states (hc_h c)) (hd_code (hc_h c)).
Proof.
  intros Hr. eapply (rtc_invariant hstep
    (fun c => path kDeactivated (hd_states (hc_h c)) (hd_code (hc_h c)))); [| |exact Hr].
  - intros a b Ha Hs. destruct (ev_path _ _ _ (hstep_evolves a b Hs)) as (new & -> & Hp).
    exact (path_trans _ _ _ _ _ Ha Hp).
  - apply path_start.
Qed.

(** C18: no illegal transition.  Whatever the interleaving of the realtime triggers,
    activation, deactivation, preparation, the non-realtime actions and a failed
    initialisation, and whatever the module answers: [hd_states], the values that the
    state code has had one after the other, starts with [kDeactivated] and ends with the present code; every store
    in between is a transition that [HardwareModuleTransitionGuard] allows from the
    value before it; [kMotionEnabled] is only ever stored directly over
    [kMotionEnabling], and is in force only after [kPreparing], [kActivated] and
    [kMotionEnabling] in this order; once a fatal fault was stored it is the present
    state. *)
Theorem no_illegal_transitions m t0 t1 (c : hconfig (M := M)) :
  rtc hstep (hinitial m t0 t1) c ->
  let h := hc_h c in
  head (hd_states h) = Some kDeactivated /\ last (hd_states h) = Some (hd_code h)
  /\ (forall i s t, hd_states h !! i = Some s -> hd_states h !! S i = Some t ->
        allowed s t /\ (t = kMotionEnabled -> s = kMotionEnabling))
  /\ (hd_code h = kMotionEnabled ->
        [kPreparing; kActivated; kMotionEnabling; kMotionEnabled] `sublist_of` hd_states h)
  /\ (kFatallyFaulted ∈ hd_states h -> hd_code h = kFatallyFaulted).
Proof.
  intros Hr h. pose proof (reachable_path m t0 t1 c Hr) as Hp.
  split; [by eapply path_head|]. split; [by eapply path_last|]. split; [|split].
  - intros i s t Hi Hj. pose proof (path_allowed _ _ _ _ _ _ Hp Hi Hj) as Ha.
    split; [done|]. intros ->. by apply enabled_from_enabling.
  - intros He. apply path_passed in Hp. unfold h in He. by rewrite He in Hp.
  - by apply (path_fatal kDeactivated).
Qed.

(** C19: commands reach the module only while motion is enabled: a step that calls
    [ApplyCommand] on the module starts in the state [kMotionEnabled]. *)
Theorem apply_only_when_enabled (c c' : hconfig (M := M)) (new : list module_call) :
  hstep c c' -> hd_calls (hc_h c') = hd_calls (hc_h c) ++ new -> MApplyCommand ∈ new ->
  hd_code (hc_h c) = kMotionEnabled.
Proof.
  intros Hs Hc Hin. destruct (hstep_evolves c c' Hs) as [_ (new' & Hc' & HP) _].
  rewrite Hc in Hc'. apply app_inv_head in Hc' as ->.
  rewrite Forall_forall in HP. by apply (HP MApplyCommand).
Qed.

(** ** The state that others see *)

Lemma hinitial_consistent (m : M) t0 t1 : consistent (hc_h (hinitial m t0 t1)).
Proof. repeat split; repeat constructor. Qed.

Lemma reachable_consistent m t0 t1 (c : hconfig (M := M)) :
  rtc hstep (hinitial m t0 t1) c -> consistent (hc_h c).
Proof.
  intros Hr. eapply (rtc_invariant hstep (fun c => consistent (hc_h c))); [| |exact Hr].
  - intros a b Ha Hs. by apply (hstep_evolves a b Hs).
  - apply hinitial_consistent.
Qed.

Lemma get_state_cases h :
  consistent h ->
  (GetHardwareModuleState h).1 =
    (if mailbox_full (state_ (hd_buffer h)) then hd_shm h else default_HardwareModuleState)
  /\ mailbox_full (state_ (hd_buffer (GetHardwareModuleState h).2)) = false.
Proof.
  intros [_ _ [Hb Hl Hz Hlat]].
  unfold GetHardwareModuleState, GetActiveBuffer, cas_loop, compare_exchange_strong.
  rewrite decide_True by done. cbn [negb orb cbind check].
  unfold latest_index, next_active in *.
  destruct (mailbox_full (state_ (hd_buffer h))) eqn:E; simpl; [|done].
  split; [|done]. by rewrite Hlat.
Qed.

Lemma get_state_frame h :
  hd_shm (GetHardwareModuleState h).2 = hd_shm h
  /\ hd_code (GetHardwareModuleState h).2 = hd_code h.
Proof. unfold GetHardwareModuleState. by repeat case_match. Qed.

(** C22: the copies of the state agree.  In every reachable configuration the code
    that the handler acts on is the code that ICON reads in shared memory; the entry
    of the buffer for non-realtime threads that was committed last is the content of
    shared memory, message included; and [GetHardwareModuleState] returns this content
    when a state was committed since its last call, and the default state otherwise
    (see [second_reading_is_default]), changing neither copy. *)
Theorem state_copies_agree m t0 t1 (c : hconfig (M := M)) :
  rtc hstep (hinitial m t0 t1) c ->
  let h := hc_h c in
  hms_code (hd_shm h) = hd_code h
  /\ buffers_ (hd_buffer h) !! latest_index (state_ (hd_buffer h)) = Some (hd_shm h)
  /\ (GetHardwareModuleState h).1
     = (if mailbox_full (state_ (hd_buffer h)) then hd_shm h else default_HardwareModuleState)
  /\ mailbox_full (state_ (hd_buffer (GetHardwareModuleState h).2)) = false
  /\ hd_shm (GetHardwareModuleState h).2 = hd_shm h
  /\ hd_code (GetHardwareModuleState h).2 = hd_code h.
Proof.
  intros Hr h. pose proof (reachable_consistent _ _ _ _ Hr) as Hc.
  destruct (get_state_cases h Hc) as [Hg Hm].
  split; [apply Hc|]. split; [apply Hc|]. split; [done|]. split; [done|].
  apply get_state_frame.
Qed.

(** a second reading is lost.  [GetHardwareModuleState] takes "no new value" for
    "no value": called twice without a state change in between, it returns the
    default state [kDeactivated], whatever the state is. *)
Theorem second_reading_is_default m t0 t1 (c : hconfig (M := M)) :
  rtc hstep (hinitial m t0 t1) c ->
  (GetHardwareModuleState (GetHardwareModuleState (hc_h c)).2).1
    = default_HardwareModuleState.
Proof.
  intros Hr. pose proof (reachable_consistent _ _ _ _ Hr) as Hc.
  destruct (get_state_cases _ Hc) as [_ Hm].
  assert (consistent (GetHardwareModuleState (hc_h c)).2) as Hc2
    by (by apply (get_state_evolves (fun _ => True))).
  destruct (get_state_cases _ Hc2) as [-> _]. by rewrite Hm.
Qed.

(** ** Requests *)

(** The requests that are queued or answered. *)
Definition requests h : list nat := (rq_id <$> hd_queue h) ++ (hd_responses h).*1.

Lemma cancel_all_ids reason q r :
  (cancel_all reason q r).*1 = r.*1 ++ (rq_id <$> q).
Proof.
  revert r. induction q as [|x q IH]; intros r; simpl; [by rewrite app_nil_r|].
  rewrite IH, fmap_app, <-app_assoc. done.
Qed.

Definition keeps h h' : Prop := requests h' ≡ₚ requests h.

Lemma keeps_refl h : keeps h h.
Proof. unfold keeps. reflexivity. Qed.

Lemma keeps_same h h0 h' : same_requests h h' -> keeps h0 h -> keeps h0 h'.
Proof. intros (Hq & Hr & _) Hk. unfold keeps, requests in *. by rewrite Hq, Hr. Qed.

Lemma keeps_ssd h h0 s st n : keeps h0 h -> keeps h0 (SetStateDirectly h s st false n).2.
Proof. apply keeps_same. apply SetStateDirectly_spec. Qed.

Lemma keeps_rt h h0 k : keeps h0 h -> keeps h0 (call_rt h k).2.
Proof. apply keeps_same. unfold call_rt. by destruct (hm_rt _ _). Qed.

Lemma keeps_status h h0 k : keeps h0 h -> keeps h0 (call_status h k).2.
Proof. apply keeps_same. unfold call_status. by destruct (hm_status _ _). Qed.

Lemma keeps_cancel h h0 reason : keeps h0 h -> keeps h0 (CancelPendingRequests h reason).
Proof.
  unfold keeps, requests, CancelPendingRequests. simpl. intros Hk.
  rewrite cancel_all_ids. etrans; [apply Permutation_app_comm|exact Hk].
Qed.

Lemma keeps_reject h h0 b : keeps h0 h -> keeps h0 (set_reject h b).
Proof. intros Hk. exact Hk. Qed.

Ltac keep :=
  repeat (evolve_pair || case_match || case_decide);
  repeat first [apply keeps_refl | apply keeps_ssd | apply keeps_rt | apply keeps_status
    | apply keeps_cancel | apply keeps_reject].

Lemma keeps_deactivate now h : keeps h (OnDeactivate now h).
Proof. unfold OnDeactivate. keep. Qed.

Lemma keeps_process now h : keeps h (ProcessNextPendingRequest now h).
Proof.
  unfold ProcessNextPendingRequest. destruct (hd_queue (set_previous h (hd_code h))) as [|r q] eqn:Hq;
    [unfold keeps; reflexivity|]. simpl in Hq. set (h2 := set_queue _ q).
  assert (forall h3 st, same_requests h2 h3 ->
    keeps h (set_answers h3 (hd_queue h3) (hd_responses h3 ++ [(rq_id r, st)]))) as Hans.
  { intros h3 st (H1 & H2 & _). unfold keeps, requests. simpl. rewrite H1, H2, Hq. simpl.
    rewrite fmap_app. simpl. rewrite app_assoc, Permutation_app_comm. done. }
  case_match.
  - pose proof (SetStateDirectly_spec h2 (rq_to r)
      (FormatRealtimeStatus kUnknown (str (until_nul (rq_message r)))) now) as (_ & Hs & _).
    destruct (SetStateDirectly h2 _ _ _ _) as [ok h3]. simpl in Hs. by apply Hans.
  - by apply Hans.
Qed.

Lemma keeps_read now h : keeps h (OnReadStatus now h).
Proof.
  unfold OnReadStatus, CheckAndTriggerEnabledTransitionHook.
  pose proof (keeps_process (now 0%nat) h) as Hk.
  set (h1 := ProcessNextPendingRequest _ h) in *. clearbody h1. unfold keeps in Hk |- *.
  rewrite <-Hk. fold (keeps h1). keep.
Qed.

Lemma keeps_trans h1 h2 h3 : keeps h1 h2 -> keeps h2 h3 -> keeps h1 h3.
Proof. unfold keeps. intros H1 H2. by rewrite H2. Qed.

Lemma keeps_activate now h : keeps h (OnActivate now h).
Proof. unfold OnActivate. keep. Qed.

Lemma keeps_prepare now h : keeps h (OnPrepare now h).
Proof.
  unfold OnPrepare. set (h1 := match hd_code h with kActivated => _ | _ => _ end).
  assert (keeps h h1) as H1.
  { subst h1. case_match; try apply keeps_refl; apply keeps_deactivate. }
  clearbody h1. eapply keeps_trans; [exact H1|]. keep.
Qed.

Lemma keeps_apply now h : keeps h (OnApplyCommand now h).
Proof. unfold OnApplyCommand. keep. Qed.

Lemma keeps_get h : keeps h (GetHardwareModuleState h).2.
Proof.
  unfold GetHardwareModuleState. repeat case_match; simpl; unfold keeps; reflexivity.
Qed.

(** A request adds its identifier when it is queued. *)
Lemma request_ids h id from to reason now :
  let r := SetStateAndWait_request h id from to reason now in
  requests r.2 ≡ₚ (if r.1 : bool then id :: requests h else requests h).
Proof.
  unfold SetStateAndWait_request.
  destruct (negb _); [reflexivity|]. destruct (hd_reject h); [reflexivity|].
  destruct (bool_decide _); [reflexivity|].
  unfold requests. cbn [fst snd hd_queue hd_responses set_queue].
  rewrite fmap_app, <-app_assoc. cbn [fmap list_fmap rq_id app].
  by rewrite <-Permutation_middle.
Qed.

Definition waiting (a : apc) : option nat :=
  match a with AIdle => None | AWait1 _ id | AWait2 _ id => Some id end.

Record rinv (c : hconfig (M := M)) : Prop := mkRInv {
  ri_nodup : NoDup (requests (hc_h c));
  ri_bound id : id ∈ requests (hc_h c) -> (id < hc_next c)%nat;
  ri_waiting id : waiting (hc_a c) = Some id -> id ∈ requests (hc_h c) }.

Lemma rinv_keeps h h' a a' n :
  keeps h h' -> waiting a' = waiting a \/ waiting a' = None ->
  rinv (mkHConfig h a n) -> rinv (mkHConfig h' a' n).
Proof.
  unfold keeps. intros Hk Ha [Hn Hb Hw]. split; cbn [hc_h hc_a hc_next] in *.
  - by rewrite Hk.
  - intros id. rewrite Hk. apply Hb.
  - intros id Hid. rewrite Hk. apply Hw. destruct Ha; congruence.
Qed.

Lemma rinv_request h h1 a n a' id from to reason now ok h' :
  keeps h h1 -> rinv (mkHConfig h a n) -> id = n ->
  SetStateAndWait_request h1 id from to reason now = (ok, h') ->
  waiting a' = (if ok : bool then Some n else None) ->
  rinv (mkHConfig h' a' (S n)).
Proof.
  unfold keeps. intros Hk [Hn Hb Hw] -> Hreq Ha. pose proof (request_ids h1 n from to reason now) as Hids.
  rewrite Hreq in Hids. cbn [fst snd hc_h hc_a hc_next] in *.
  assert (n ∉ requests h) as Hfresh by (intros Hin; specialize (Hb _ Hin); lia).
  destruct ok; split; cbn [hc_h hc_a hc_next].
  - rewrite Hids, Hk. by constructor.
  - intros id. rewrite Hids, Hk, elem_of_cons. intros [->|Hin]; [lia|]. specialize (Hb _ Hin). lia.
  - intros id Hid. rewrite Hids. rewrite Ha in Hid. injection Hid as ->. left.
  - by rewrite Hids, Hk.
  - intros id. rewrite Hids, Hk. intros Hin. specialize (Hb _ Hin). lia.
  - intros id Hid. congruence.
Qed.

Lemma rinv_step (c c' : hconfig (M := M)) : rinv c -> hstep c c' -> rinv c'.
Proof.
  intros Hi Hs. destruct Hs;
    try (by eapply rinv_keeps; [apply keeps_refl|by right|exact Hi]).
  - by eapply rinv_keeps; [apply keeps_prepare|by left|exact Hi].
  - by eapply rinv_keeps; [apply keeps_activate|by left|exact Hi].
  - by eapply rinv_keeps; [apply keeps_deactivate|by left|exact Hi].
  - by eapply rinv_keeps; [apply keeps_read|by left|exact Hi].
  - by eapply rinv_keeps; [apply keeps_apply|by left|exact Hi].
  - by eapply rinv_keeps; [apply keeps_get|by left|exact Hi].
  - eapply rinv_keeps; [apply keeps_cancel, keeps_reject, keeps_refl|by left|exact Hi].
  - eapply (rinv_request h h); [apply keeps_refl|exact Hi|reflexivity|exact H0|by destruct ok].
  - unfold action_continue in H2.
    pose proof (keeps_status h h (action_call a) (keeps_refl h)) as Hk.
    destruct (call_status h (action_call a)) as [ret h1]. simpl in Hk.
    destruct (negb (status_ok ret));
      (eapply (rinv_request h h1); [exact Hk|exact Hi|reflexivity|exact H2|by destruct ok]).
  - by eapply rinv_keeps; [apply keeps_ssd, keeps_refl|by left|exact Hi].
Qed.

(** C20: requests are answered exactly once.  No request is both queued and answered,
    and none is answered twice; the request on which the state-change thread waits is
    in the queue or its answer is available: it is not lost, whatever cancels it. *)
Theorem requests_answered_once m t0 t1 (c : hconfig (M := M)) :
  rtc hstep (hinitial m t0 t1) c ->
  NoDup ((rq_id <$> hd_queue (hc_h c)) ++ (hd_responses (hc_h c)).*1)
  /\ (forall id, waiting (hc_a c) = Some id ->
       id ∈ (rq_id <$> hd_queue (hc_h c)) \/ exists st, (id, st) ∈ hd_responses (hc_h c)).
Proof.
  intros Hr. assert (rinv c) as [Hn _ Hw].
  { eapply rtc_invariant; [apply rinv_step| |exact Hr].
    split; simpl; [constructor| |done]. intros id Hin. by apply elem_of_nil in Hin. }
  split; [exact Hn|]. intros id Hid. specialize (Hw id Hid). unfold requests in Hw.
  apply elem_of_app in Hw as [?|Hin]; [by left|right].
  apply list_elem_of_fmap in Hin as ([i st] & -> & Hin). by exists st.
Qed.

End Proofs.
