(* ===== verification/HalRuntimeRuns.v ===== *)
(** * Runs of the callback handler

    What a whole action does when nothing interferes, the restart trigger, the hooks
    of a cycle, and a concrete module on which the theorems are applied. *)
From S2P Require Import Prelude Status AsyncBuffer HalState HalRuntime HalRuntimeProofs.

#[local] Arguments SetState : simpl never.
#[local] Arguments request_message : simpl never.

(** ** A state change that nothing hinders *)

Section Runs.
Context {M : Type} `{HardwareModule M}.
Implicit Types h : Handler M.

(** An allowed change from a state other than [kMotionEnabled] happens, is stamped
    with the time, and touches neither the module nor the requests. *)
Lemma SetStateDirectly_changes h s st now :
  consistent h -> allowed (hd_code h) s -> hd_code h <> kMotionEnabled ->
  exists b, SetStateDirectly h s st false now
      = (true, set_code h s (state_of s (Status.GetMessage st)) b now)
    /\ consistent (set_code h s (state_of s (Status.GetMessage st)) b now).
Proof.
  intros [Hc Hs Hp] Ha Hm. unfold SetStateDirectly.
  rewrite (bool_decide_true _ Ha). cbn [negb andb].
  assert (hd_code h <> s) as Hne.
  { intros Heq. unfold allowed, HardwareModuleTransitionGuard in Ha. by rewrite decide_True in Ha. }
  rewrite (bool_decide_false _ Hne). cbn [negb andb].
  unfold CheckAndTriggerDisabledTransitionHook. rewrite decide_False by done.
  change (negb (rt_ok RtOkStatus)) with false. cbn [andb].
  destruct (publish_spec _ _ s (Status.GetMessage st) Hp) as (b & -> & Hb & _).
  rewrite SetState_sized by done. exists b. split; [done|].
  split; cbn [set_code hd_shm hd_code hd_buffer default]; [done|apply state_of_sized|done].
Qed.

(** One cycle that grants the only request. *)
Lemma grant_cycle h r now :
  consistent h -> hd_queue h = [r] -> rq_from r = hd_code h -> hd_update_time h <= rq_time r ->
  allowed (hd_code h) (rq_to r) -> hd_code h <> kMotionEnabled ->
  exists h', ProcessNextPendingRequest now h = h' /\ consistent h'
    /\ hd_code h' = rq_to r /\ hd_previous h' = hd_code h /\ hd_queue h' = []
    /\ hd_responses h' = hd_responses h ++ [(rq_id r, RtOkStatus)]
    /\ hd_reject h' = hd_reject h /\ hd_update_time h' = now
    /\ hd_module h' = hd_module h /\ hd_calls h' = hd_calls h.
Proof.
  intros Hk Hq Hf Ht Ha Hm. eexists. split; [reflexivity|].
  unfold ProcessNextPendingRequest. cbn [hd_queue set_previous]. rewrite Hq.
  cbn [set_queue hd_code hd_update_time].
  rewrite (bool_decide_true _ Ht), (bool_decide_true _ Hf). cbn [andb].
  set (h2 := set_queue _ []).
  assert (consistent h2) as Hk2 by (destruct Hk as [H1 H2 H3]; by split).
  destruct (SetStateDirectly_changes h2 (rq_to r)
    (FormatRealtimeStatus kUnknown (str (until_nul (rq_message r)))) now Hk2 Ha Hm)
    as (b & -> & Hk3).
  split; [|done]. destruct Hk3. by split.
Qed.

(** A module on which no call fails. *)
Definition healthy : Prop :=
  forall m k, rt_ok (hm_rt m k).1 = true /\ status_ok (hm_status m k).1 = true.

(** [OnReadStatus] on a healthy module is [ProcessNextPendingRequest] and the calls
    of [Enabled] and [ReadStatus]. *)
Lemma OnReadStatus_healthy h now :
  healthy ->
  let h1 := ProcessNextPendingRequest (now 0%nat) h in
  OnReadStatus now h =
    (call_rt (if decide (hd_previous h1 = kMotionEnabling /\ hd_code h1 = kMotionEnabled)
              then (call_rt h1 MEnabled).2 else h1) MReadStatus).2.
Proof.
  intros Hh h1. unfold OnReadStatus. fold h1. unfold CheckAndTriggerEnabledTransitionHook.
  assert (forall x k, rt_ok (call_rt x k).1 = true) as Hok.
  { intros x k. unfold call_rt. pose proof (proj1 (Hh (hd_module x) k)) as Hx.
    by destruct (hm_rt _ _). }
  case_decide.
  - pose proof (Hok h1 MEnabled) as H1. destruct (call_rt h1 MEnabled) as [st h2]. simpl in H1 |- *.
    rewrite H1. simpl. pose proof (Hok h2 MReadStatus) as H2.
    destruct (call_rt h2 MReadStatus) as [st3 h3]. simpl in H2 |- *. by rewrite H2.
  - pose proof (Hok h1 MReadStatus) as H2.
    destruct (call_rt h1 MReadStatus) as [st3 h3]. simpl in H2 |- *. by rewrite H2.
Qed.

Lemma call_rt_frame h k :
  let h' := (call_rt h k).2 in
  hd_calls h' = hd_calls h ++ [k] /\ hd_code h' = hd_code h /\ hd_queue h' = hd_queue h
  /\ hd_responses h' = hd_responses h /\ hd_reject h' = hd_reject h
  /\ hd_update_time h' = hd_update_time h /\ (consistent h -> consistent h').
Proof.
  unfold call_rt. destruct (hm_rt _ _). simpl. do 6 (split; [done|]). intros []. by split.
Qed.

(** The hooks and the call of a cycle in which the state went from [from] to [to]. *)
Definition cycle_calls (from to : StateCode) : list module_call :=
  if decide (from = kMotionEnabling /\ to = kMotionEnabled)
  then [MEnabled; MReadStatus] else [MReadStatus].

(** A handler that waits for the next request. *)
Record idle h : Prop := mkIdle {
  il_consistent : consistent h;
  il_queue : hd_queue h = [];
  il_reject : hd_reject h = false }.

(** A request and the cycle that grants it. *)
Lemma request_granted h id to reason t now :
  healthy -> idle h -> allowed (hd_code h) to -> hd_code h <> kMotionEnabled ->
  hd_update_time h <= t ->
  exists h1, SetStateAndWait_request h id (hd_code h) to reason t = (true, h1)
    /\ let h' := OnReadStatus now h1 in
       idle h' /\ hd_code h' = to /\ hd_update_time h' = now 0%nat
       /\ hd_responses h' = hd_responses h ++ [(id, RtOkStatus)]
       /\ hd_calls h' = hd_calls h ++ cycle_calls (hd_code h) to.
Proof.
  intros Hh [Hk Hq Hr] Ha Hm Ht. unfold SetStateAndWait_request.
  rewrite (bool_decide_true _ Ha), Hr, Hq. cbn [negb]. rewrite bool_decide_false by done.
  eexists. split; [reflexivity|]. cbv zeta. set (r := mkRequest _ _ _ _ _).
  set (h1 := set_queue h _).
  assert (consistent h1) as Hk1 by (destruct Hk as [H1 H2 H3]; by split).
  destruct (grant_cycle h1 r (now 0%nat) Hk1 eq_refl eq_refl Ht Ha Hm)
    as (h2 & E & Hk2 & Hc2 & Hp2 & Hq2 & Hr2 & Hj2 & Hu2 & _ & Hl2).
  rewrite OnReadStatus_healthy, E, Hp2, Hc2 by done. change (rq_to r) with to in *.
  change (hd_code h1) with (hd_code h). unfold cycle_calls.
  set (h3 := if decide _ then _ else _).
  assert (hd_calls h3 ++ [MReadStatus] = hd_calls h ++ (if decide (hd_code h = kMotionEnabling
            /\ to = kMotionEnabled) then [MEnabled; MReadStatus] else [MReadStatus])
          /\ hd_code h3 = to /\ hd_queue h3 = [] /\ hd_reject h3 = false
          /\ hd_update_time h3 = now 0%nat /\ hd_responses h3 = hd_responses h2 /\ consistent h3)
    as (E3 & ? & ? & ? & ? & ? & ?).
  { subst h3. change (hd_reject h1) with (hd_reject h) in Hj2. rewrite Hr in Hj2.
    change (hd_calls h1) with (hd_calls h) in Hl2. case_decide.
    - destruct (call_rt_frame h2 MEnabled) as (-> & -> & -> & -> & -> & -> & F6).
      rewrite <-app_assoc. naive_solver congruence.
    - naive_solver congruence. }
  clearbody h3. destruct (call_rt_frame h3 MReadStatus) as (-> & F1 & F2 & F3 & F4 & F5 & F6).
  split; [split; [auto|congruence|congruence]|].
  rewrite <-E3. naive_solver congruence.
Qed.

(** [EnableMotion] from request to answer, with the two cycles of the realtime thread
    that process it; [t1] and [t3] are the times of the requests. *)
Definition enable_motion_run (h : Handler M) (n : nat) (t1 t3 : Z) (now2 now4 : nat -> Z)
  : option (Handler M) :=
  match action_begin h EnableMotion n t1 with
  | (true, h1) =>
      let h2 := OnReadStatus now2 h1 in
      match list_find (fun p => p.1 = n) (hd_responses h2) with
      | Some (_, (_, answer)) =>
          if SetStateAndWait_result answer then
            match action_continue h2 EnableMotion (S n) t3 with
            | (true, h3) => Some (OnReadStatus now4 h3)
            | (false, _) => None
            end
          else None
      | None => None
      end
  | (false, _) => None
  end.

(** C21: motion can be enabled.  On an activated module that answers every call with
    [Ok], and with no other requests in the queue, [OnEnableMotion] and two cycles of
    the realtime thread lead to [kMotionEnabled]; both requests are answered [Ok],
    and the module sees exactly the calls [ReadStatus], [EnableMotion], [Enabled],
    [ReadStatus]: [Enabled] is called in the cycle that sets the state. *)
Theorem enable_motion_works h n t1 t3 now2 now4 :
  healthy -> idle h -> hd_code h = kActivated -> n ∉ (hd_responses h).*1 ->
  hd_update_time h <= t1 -> now2 0%nat <= t3 ->
  exists h', enable_motion_run h n t1 t3 now2 now4 = Some h'
    /\ hd_code h' = kMotionEnabled /\ idle h'
    /\ hd_responses h' = hd_responses h ++ [(n, RtOkStatus); (S n, RtOkStatus)]
    /\ hd_calls h' = hd_calls h ++ [MReadStatus; MEnableMotion; MEnabled; MReadStatus].
Proof.
  intros Hh Hi Hc Hn H1 H2. unfold enable_motion_run, action_begin.
  destruct (request_granted h n kMotionEnabling "" t1 now2)
    as (h1 & E1 & Hi2 & Hc2 & Hu2 & Hr2 & Hl2); rewrite ?Hc; try done.
  simpl action_intermediate. rewrite Hc in E1, Hl2. rewrite E1. set (h2 := OnReadStatus now2 h1) in *.
  rewrite Hr2, list_find_app_r by
    (apply list_find_None, Forall_forall; intros [i st] Hin Heq; simpl in Heq; subst i;
     apply Hn, list_elem_of_fmap; by exists (n, st)).
  simpl. rewrite decide_True by done. simpl.
  unfold action_continue, call_status. pose proof (proj2 (Hh (hd_module h2) MEnableMotion)) as Hok.
  destruct (hm_status (hd_module h2) (action_call EnableMotion)) as [ret m] eqn:E.
  simpl in E. rewrite E in Hok. simpl in Hok. rewrite Hok. cbn [negb].
  set (h3 := set_module h2 m _).
  assert (idle h3) as Hi3 by (destruct Hi2 as [[] ? ?]; by split).
  destruct (request_granted h3 (S n) kMotionEnabled "" t3 now4)
    as (h4 & E4 & Hi5 & Hc5 & Hu5 & Hr5 & Hl5);
    change (hd_code h3) with (hd_code h2) in *; rewrite ?Hc2 in *; try done.
  { change (hd_update_time h3) with (hd_update_time h2). lia. }
  simpl in E4 |- *. rewrite E4. eexists. split; [reflexivity|]. split; [done|]. split; [done|].
  rewrite Hr5, Hl5. subst h3. cbn [set_module hd_responses hd_calls].
  rewrite Hr2, Hl2, <-!app_assoc. done.
Qed.

(** ** The restart trigger *)

(** a restart can be accepted while motion is enabled.  The first restart after a
    state change is refused in [kMotionEnabled], as intended; after any other reading
    of the state the same trigger is accepted, destroys the domain socket server and
    sets the exit code [kRestartRequested]. *)
Theorem restart_while_enabled m t0 t1 (c : hconfig (M := M)) w :
  rtc hstep (hinitial m t0 t1) c -> hd_code (hc_h c) = kMotionEnabled ->
  HasBeenSet w = false ->
  (mailbox_full (state_ (hd_buffer (hc_h c))) = true ->
     (on_restart (Some w) (hc_h c)).1.1 = Some w /\ (on_restart (Some w) (hc_h c)).2 = false)
  /\ let h' := (GetHardwareModuleState (hc_h c)).2 in
     hd_code h' = kMotionEnabled
     /\ (on_restart (Some w) h').1.1
          = Some (mkSharedPromiseWrapper false (Some kRestartRequested))
     /\ (on_restart (Some w) h').2 = true.
Proof.
  intros Hr Hc Hw. pose proof (reachable_consistent _ _ _ _ Hr) as Hk.
  destruct (get_state_cases _ Hk) as [Hg Hm].
  assert (consistent (GetHardwareModuleState (hc_h c)).2) as Hk2
    by (by apply (get_state_evolves (fun _ => True))).
  destruct (get_state_cases _ Hk2) as [Hg2 _]. rewrite Hm in Hg2.
  unfold on_restart. rewrite Hw. cbn [negb]. split.
  - intros Hf. rewrite Hf in Hg. destruct (GetHardwareModuleState (hc_h c)) as [s h1].
    simpl in Hg |- *. rewrite Hg, (cs_code _ Hk), Hc. done.
  - set (h' := (GetHardwareModuleState (hc_h c)).2) in *. cbv zeta. split.
    { subst h'. unfold GetHardwareModuleState. repeat case_match; done. }
    destruct (GetHardwareModuleState h') as [s h2]. simpl in Hg2 |- *.
    rewrite Hg2. unfold HasBeenSet in Hw. unfold SetValue. simpl. by rewrite Hw.
Qed.

(** ** What the triggers do in other states *)

(** [ReadStatus] is forwarded to the module in every state, also before
    activation. *)
Lemma read_status_forwarded now h :
  hd_queue h = [] -> rt_ok (hm_rt (hd_module h) MReadStatus).1 = true ->
  hd_calls (OnReadStatus now h) = hd_calls h ++ [MReadStatus].
Proof.
  intros Hq Hok. unfold OnReadStatus, ProcessNextPendingRequest. cbn [hd_queue set_previous].
  rewrite Hq. unfold CheckAndTriggerEnabledTransitionHook. cbn [hd_previous hd_code set_previous].
  rewrite decide_False by (intros [H1 H2]; congruence).
  unfold call_rt. cbn [hd_module]. destruct (hm_rt _ _) as [st m]. simpl in Hok |- *.
  by rewrite Hok.
Qed.

(** A deactivation after a fatal fault changes nothing. *)
Lemma deactivate_after_fatal now h : hd_code h = kFatallyFaulted -> OnDeactivate now h = h.
Proof. intros Hc. unfold OnDeactivate, SetStateDirectly. by rewrite Hc. Qed.

End Runs.

(** ** A concrete module *)

(** A module given by the calls that fail, with their codes. *)
Abbreviation script := (list (module_call * StatusCode)).

Definition script_code (m : script) (k : module_call) : StatusCode :=
  match list_find (fun p => p.1 = k) m with Some (_, (_, c)) => c | None => kOk end.

#[export] Instance scripted : HardwareModule script := {
  hm_status m k := (mkStatus (script_code m k) "scripted", m);
  hm_rt m k := (FormatRealtimeStatus (script_code m k) "scripted", m) }.

Definition clk : nat -> Z := fun _ => 0.

Definition h_initial : Handler script := hc_h (hinitial [] 0 0).
Definition h_activated : Handler script := OnActivate clk (OnPrepare clk h_initial).
Definition h_req1 : Handler script := (action_begin h_activated EnableMotion 0 0).2.
Definition h_cycle1 : Handler script := OnReadStatus clk h_req1.
Definition h_req2 : Handler script := (action_continue h_cycle1 EnableMotion 1 0).2.
Definition h_enabled : Handler script := OnReadStatus clk h_req2.
Definition c_enabled : hconfig := mkHConfig h_enabled (AWait2 EnableMotion 1) 2.

Definition c_applied : hconfig :=
  mkHConfig (OnApplyCommand 0 h_enabled) (AWait2 EnableMotion 1) 2.

Lemma c_applied_step : hstep c_enabled c_applied.
Proof. apply hs_apply. Qed.

Lemma with_result {A B} (p : A * B) a : p.1 = a -> p = (a, p.2).
Proof. by destruct p; intros <-. Qed.

Lemma c_enabled_reachable : rtc hstep (hinitial ([] : script) 0 0) c_enabled.
Proof.
  apply (rtc_l _ _ (mkHConfig (OnPrepare clk h_initial) AIdle 0)); [apply hs_prepare|].
  apply (rtc_l _ _ (mkHConfig h_activated AIdle 0)); [apply hs_activate|].
  apply (rtc_l _ _ (mkHConfig h_req1 (AWait1 EnableMotion 0) 1)).
  { apply (hs_begin h_activated EnableMotion 0 0 true h_req1), with_result.
    vm_compute. reflexivity. }
  apply (rtc_l _ _ (mkHConfig h_cycle1 (AWait1 EnableMotion 0) 1)); [apply hs_read|].
  apply (rtc_l _ _ (mkHConfig h_req2 (AWait2 EnableMotion 1) 2)).
  { apply (hs_granted h_cycle1 EnableMotion 0 1 0 RtOkStatus true h_req2).
    - apply list_elem_of_In. vm_compute. by left.
    - reflexivity.
    - apply with_result. vm_compute. reflexivity. }
  apply rtc_once. apply hs_read.
Qed.

(** A module on which no call ever fails. *)
#[local] Instance good_module : HardwareModule unit := {
  hm_status m k := (OkStatus, m);
  hm_rt m k := (RtOkStatus, m) }.

Definition g_activated : Handler unit :=
  OnActivate clk (OnPrepare clk (hc_h (hinitial () 0 0))).

Lemma enable_motion_works_witness :
  exists h', enable_motion_run g_activated 0 0 0 clk clk = Some h'
    /\ hd_code h' = kMotionEnabled /\ idle h'
    /\ hd_responses h' = hd_responses g_activated ++ [(0%nat, RtOkStatus); (1%nat, RtOkStatus)]
    /\ hd_calls h' = hd_calls g_activated ++ [MReadStatus; MEnableMotion; MEnabled; MReadStatus].
Proof.
  apply (enable_motion_works g_activated 0 0 0 clk clk).
  - by intros [].
  - repeat split; repeat constructor.
  - reflexivity.
  - apply not_elem_of_nil.
  - vm_compute. discriminate.
  - vm_compute. discriminate.
Defined.

Lemma restart_while_enabled_witness :
  (on_restart (Some new_SharedPromiseWrapper) (GetHardwareModuleState (hc_h c_enabled)).2).2 = true.
Proof.
  destruct (restart_while_enabled [] 0 0 c_enabled new_SharedPromiseWrapper)
    as (_ & _ & _ & Hr).
  - exact c_enabled_reachable.
  - vm_compute. reflexivity.
  - reflexivity.
  - exact Hr.
Defined.

Lemma no_illegal_transitions_witness :
  last (hd_states (hc_h c_enabled)) = Some kMotionEnabled
  /\ [kPreparing; kActivated; kMotionEnabling; kMotionEnabled]
       `sublist_of` hd_states (hc_h c_enabled).
Proof.
  destruct (no_illegal_transitions [] 0 0 c_enabled c_enabled_reachable)
    as (_ & Hl & _ & Hs & _).
  split; [exact Hl|apply Hs; vm_compute; reflexivity].
Defined.

Lemma apply_only_when_enabled_witness :
  hd_code (hc_h c_enabled) = kMotionEnabled.
Proof.
  apply (apply_only_when_enabled c_enabled c_applied [MApplyCommand]).
  - exact c_applied_step.
  - vm_compute. reflexivity.
  - apply list_elem_of_In. by left.
Defined.

Lemma state_copies_agree_witness :
  hms_code (hd_shm (hc_h c_enabled)) = hd_code (hc_h c_enabled)
  /\ (GetHardwareModuleState (hc_h c_enabled)).1 = hd_shm (hc_h c_enabled).
Proof.
  destruct (state_copies_agree [] 0 0 c_enabled c_enabled_reachable) as (H1 & _ & H2 & _).
  split; [exact H1|]. exact H2.
Defined.

Lemma second_reading_is_default_witness :
  (GetHardwareModuleState (GetHardwareModuleState (hc_h c_enabled)).2).1 = default_HardwareModuleState.
Proof. exact (second_reading_is_default [] 0 0 c_enabled c_enabled_reachable). Defined.

Lemma requests_answered_once_witness :
  1%nat ∈ (rq_id <$> hd_queue (hc_h c_enabled)) \/ exists st, (1%nat, st) ∈ hd_responses (hc_h c_enabled).
Proof.
  destruct (requests_answered_once [] 0 0 c_enabled c_enabled_reachable) as [_ Hw].
  apply Hw. reflexivity.
Defined.

Lemma SetState_GetMessage_witness :
  exists s', SetState (Some default_HardwareModuleState) kFaulted "joint limit" = Some s'
    /\ hms_code s' = kFaulted /\ length (hms_message s') = kMaxFaultReasonLength
    /\ HalState.GetMessage (Some s') = str (take 255 (chars "joint limit")).
Proof.
  apply SetState_GetMessage; [reflexivity|]. repeat constructor; done.
Defined.

Lemma motion_needs_activation_witness :
  [kPreparing; kActivated; kMotionEnabling; kMotionEnabled] `sublist_of`
  [kDeactivated; kPreparing; kPrepared; kActivating; kActivated; kMotionEnabling;
   kMotionEnabled].
Proof.
  apply motion_needs_activation.
  apply (path_step _ [kDeactivated; kPreparing; kPrepared; kActivating; kActivated;
    kMotionEnabling] kMotionEnabling); [|reflexivity].
  apply (path_step _ [kDeactivated; kPreparing; kPrepared; kActivating; kActivated]
    kActivated); [|reflexivity].
  apply (path_step _ [kDeactivated; kPreparing; kPrepared; kActivating] kActivating);
    [|reflexivity].
  apply (path_step _ [kDeactivated; kPreparing; kPrepared] kPrepared); [|reflexivity].
  apply (path_step _ [kDeactivated; kPreparing] kPreparing); [|reflexivity].
  apply (path_step _ [kDeactivated] kDeactivated); [|reflexivity].
  constructor.
Defined.
