(* ===== verification/ModuleRuntime.v ===== *)
(** * Hardware module runtime: set-up, start and stop
    ([icon/hal/hardware_module_runtime.{h,cc}], class [HardwareModuleRuntime];
     [util/thread/thread_options.h], [icon/utils/cleanup.h])

    The runtime owns the shared memory manager, the domain socket server, the callback
    handler, one trigger server per callback and the thread for state changes.  The
    state in the segment [hardware_module_state] and the field [hd_shm] of the handler
    are the same memory: [sync] writes the one to the other after every call of the
    handler.  The module's [Init], which may advertise interfaces, is an argument of
    [Run]. *)
From stdpp Require Import functions.
From S2P Require Import Prelude Status Time Signal SegmentHeader SharedMemory MemorySegment SegmentRuns.
From S2P Require Import RealtimeClock Interfaces RemoteTrigger DomainSocket DomainSocketServer HalState HalRuntime.

(** ** [ThreadOptions] *)

Definition SCHED_OTHER : Z := 0.
Definition SCHED_FIFO : Z := 1.
Definition EPERM : Z := 1.

Definition kLowRealtimePriority : Z := 40.
Definition kHighRealtimePriority : Z := 45.
Definition kDefaultRealtimePriority : Z := kLowRealtimePriority.
Definition kDefaultRealtimeScheduler : Z := SCHED_FIFO.
Definition kDefaultNonRealtimePriority : Z := 0.
Definition kDefaultNonRealtimeScheduler : Z := SCHED_OTHER.

Record ThreadOptions := mkThreadOptions {
  to_name : string;
  is_realtime : bool;
  priority : option Z;
  schedule_policy : option Z;
  cpu_affinity : list Z }.

Implicit Type o : ThreadOptions.

Definition default_ThreadOptions : ThreadOptions := mkThreadOptions "" false None None [].
Definition SetName o (n : string) : ThreadOptions :=
  mkThreadOptions n (is_realtime o) (priority o) (schedule_policy o) (cpu_affinity o).
Definition SetPriority o (p : Z) : ThreadOptions :=
  mkThreadOptions (to_name o) (is_realtime o) (Some p) (schedule_policy o) (cpu_affinity o).
Definition SetScheduler o (policy : Z) : ThreadOptions :=
  mkThreadOptions (to_name o) (is_realtime o) (priority o) (Some policy) (cpu_affinity o).
Definition SetIsRealtime o (b : bool) : ThreadOptions :=
  mkThreadOptions (to_name o) b (priority o) (schedule_policy o) (cpu_affinity o).
Definition SetAffinity o (cpus : list Z) : ThreadOptions :=
  mkThreadOptions (to_name o) (is_realtime o) (priority o) (schedule_policy o) cpus.
Definition SetLowRealtimePriorityAndScheduler o : ThreadOptions :=
  mkThreadOptions (to_name o) true (Some kLowRealtimePriority) (Some kDefaultRealtimeScheduler)
    (cpu_affinity o).
Definition SetHighRealtimePriorityAndScheduler o : ThreadOptions :=
  mkThreadOptions (to_name o) true (Some kHighRealtimePriority) (Some kDefaultRealtimeScheduler)
    (cpu_affinity o).

(** ** Thread preludes *)

Definition kMaxThreadNameLength : nat := 15.

(** What a thread has asked the system for: its name, its policy and priority, and its
    processors. *)
Record thread_setup := mkThreadSetup {
  ts_name : option string;
  ts_sched : option (Z * Z);
  ts_affinity : option (gset Z) }.

(** The errors of [pthread_setname_np], [pthread_setschedparam] and
    [pthread_setaffinity_np]. *)
Record prelude_env := mkPreludeEnv {
  pe_setname : option Z;
  pe_setsched : option Z;
  pe_setaffinity : option Z }.

Section Prelude.
Context (strerror : Z -> string).

(** The last part of the prelude: the processors. *)
Definition set_affinity (env : prelude_env) o (t : thread_setup) : Status * thread_setup :=
  if decide (cpu_affinity o = []) then (OkStatus, t)
  else
    match pe_setaffinity env with
    | Some err => (FormatStatus kInternal ("Failed to set CPU affinity: " ++ strerror err), t)
    | None => (OkStatus, mkThreadSetup (ts_name t) (ts_sched t) (Some (list_to_set (cpu_affinity o))))
    end.

(** Policy and priority; unset values of a realtime thread get realtime defaults. *)
Definition policy_of o : option Z :=
  if is_realtime o then Some (default kDefaultRealtimeScheduler (schedule_policy o)) else None.
Definition priority_of o : option Z :=
  if is_realtime o then Some (default kDefaultRealtimePriority (priority o)) else None.

Definition set_sched (env : prelude_env) o (t : thread_setup) : Status * thread_setup :=
  match priority_of o, policy_of o with
  | None, None => set_affinity env o t
  | p, q =>
      match pe_setsched env with
      | Some err =>
          (if err =? EPERM
           then FormatStatus kPermissionDenied "Permission denied setting priority and scheduler"
           else FormatStatus kInternal ("Failed to set thread scheduling: " ++ strerror err), t)
      | None =>
          set_affinity env o
            (mkThreadSetup (ts_name t)
               (Some (default kDefaultNonRealtimeScheduler q, default kDefaultNonRealtimePriority p))
               (ts_affinity t))
      end
  end.

(** The function that [MakeThreadPrelude(options, logger)] returns. *)
Definition MakeThreadPrelude o (env : prelude_env) (t : thread_setup) : Status * thread_setup :=
  if decide (to_name o = "") then set_sched env o t
  else
    match pe_setname env with
    | Some err => (FormatStatus kInternal ("Failed to set thread name: " ++ strerror err), t)
    | None =>
        set_sched env o
          (mkThreadSetup (Some (str (take kMaxThreadNameLength (chars (to_name o)))))
             (ts_sched t) (ts_affinity t))
    end.

End Prelude.

(** ** The runtime *)

(** The trigger servers, in the order of their creation. *)
Inductive trigger :=
| TRestart | TActivate | TDeactivate | TPrepare | TEnableMotion | TDisableMotion | TClearFaults
| TReadStatus | TApplyCommand.

#[export] Instance trigger_eq_dec : EqDecision trigger.
Proof. solve_decision. Defined.

Definition triggers : list trigger :=
  [TRestart; TActivate; TDeactivate; TPrepare; TEnableMotion; TDisableMotion; TClearFaults;
   TReadStatus; TApplyCommand].

Definition trigger_name (t : trigger) : string :=
  match t with
  | TRestart => "restart"
  | TActivate => "activate"
  | TDeactivate => "deactivate"
  | TPrepare => "prepare"
  | TEnableMotion => "enable_motion"
  | TDisableMotion => "disable_motion"
  | TClearFaults => "clear_faults"
  | TReadStatus => "read_status"
  | TApplyCommand => "apply_command"
  end.

(** The options of the threads that [Run(is_realtime, cpu_affinity)] starts; [None] is
    the thread for state changes. *)
Definition thread_options (realtime : bool) (cpus : list Z) (t : option trigger) : ThreadOptions :=
  let low n := let o := SetName default_ThreadOptions n in
    if realtime then SetAffinity (SetLowRealtimePriorityAndScheduler o) cpus else o in
  let high n := let o := SetName default_ThreadOptions n in
    if realtime then SetAffinity (SetHighRealtimePriorityAndScheduler o) cpus else o in
  match t with
  | Some TRestart => low "Restart"%string
  | None => low "StateChange"%string
  | Some TActivate => low "Activate"%string
  | Some TDeactivate => SetName (low "Activate"%string) "Deactivate"
  | Some TReadStatus => high "ReadStatus"%string
  | Some TApplyCommand => high "ApplyCommand"%string
  | Some _ => default_ThreadOptions
  end.

(** The values in the segments of the runtime and of its module. *)
Inductive rt_value (F O : Type) :=
| VState (s : HardwareModuleState)
| VFutex (f : F)
| VInfo (i : SegmentInfo)
| VModule (o : O).
Arguments VState {F O}.
Arguments VFutex {F O}.
Arguments VInfo {F O}.
Arguments VModule {F O}.

Section Runtime.
Context {F O M : Type} `{Signal F} `{HardwareModule M} `{IterOrder}.
Context (StrError : Z -> string).
Context (sizeof_header sizeof_futex sizeof_SegmentInfo : Z).
(** Sizes of the structs and of the built messages. *)
Context (sizeof_State sizeof_IconState sizeof_ControlPeriod : Z).
Context (size_State size_IconState size_ControlPeriod : Z).
Context (futex_type : string).
Notation P := (rt_value F O).
Notation V := (payload P).
Notation world := (world V).
Notation Handler := (Handler M).
Implicit Types (w : world) (s : sys).

(** [callback_handler_] is [inr] of the handler, or null ([inl], with the module). *)
Record Runtime := mkRuntime {
  has_stopped_ : bool;
  shared_memory_manager_ : SharedMemoryManager;
  domain_socket_server_ : option DomainSocketServer;
  callback_handler_ : M + Handler;
  servers_ : trigger -> option RemoteTriggerServer;
  hardware_module_state_interface_ : InterfaceHandle;
  icon_state_interface_ : InterfaceHandle;
  control_period_interface_ : InterfaceHandle;
  state_change_thread_ : bool }.
Implicit Type r : Runtime.

Definition set_stopped r : Runtime :=
  mkRuntime true (shared_memory_manager_ r) (domain_socket_server_ r) (callback_handler_ r) (servers_ r)
    (hardware_module_state_interface_ r) (icon_state_interface_ r) (control_period_interface_ r)
    (state_change_thread_ r).
Definition set_manager r (m : SharedMemoryManager) : Runtime :=
  mkRuntime (has_stopped_ r) m (domain_socket_server_ r) (callback_handler_ r) (servers_ r)
    (hardware_module_state_interface_ r) (icon_state_interface_ r) (control_period_interface_ r)
    (state_change_thread_ r).
Definition set_socket r (d : option DomainSocketServer) : Runtime :=
  mkRuntime (has_stopped_ r) (shared_memory_manager_ r) d (callback_handler_ r) (servers_ r)
    (hardware_module_state_interface_ r) (icon_state_interface_ r) (control_period_interface_ r)
    (state_change_thread_ r).
Definition set_handler r (h : Handler) : Runtime :=
  mkRuntime (has_stopped_ r) (shared_memory_manager_ r) (domain_socket_server_ r) (inr h) (servers_ r)
    (hardware_module_state_interface_ r) (icon_state_interface_ r) (control_period_interface_ r)
    (state_change_thread_ r).
Definition set_server r (t : trigger) (x : RemoteTriggerServer) : Runtime :=
  mkRuntime (has_stopped_ r) (shared_memory_manager_ r) (domain_socket_server_ r) (callback_handler_ r)
    (<[t := Some x]> (servers_ r))
    (hardware_module_state_interface_ r) (icon_state_interface_ r) (control_period_interface_ r)
    (state_change_thread_ r).
Definition set_interfaces r (st ic cp : InterfaceHandle) : Runtime :=
  mkRuntime (has_stopped_ r) (shared_memory_manager_ r) (domain_socket_server_ r) (callback_handler_ r)
    (servers_ r) st ic cp (state_change_thread_ r).
Definition set_state_thread r (b : bool) : Runtime :=
  mkRuntime (has_stopped_ r) (shared_memory_manager_ r) (domain_socket_server_ r) (callback_handler_ r)
    (servers_ r)
    (hardware_module_state_interface_ r) (icon_state_interface_ r) (control_period_interface_ r) b.

Definition empty_handle : InterfaceHandle := mkInterfaceHandle default_MemorySegment None.

(** [HardwareModuleRuntime(hardware_module, shared_memory_manager, domain_socket_server,
    logger)] *)
Definition new_Runtime (m : M) (manager : SharedMemoryManager) (server : DomainSocketServer) : Runtime :=
  mkRuntime false manager (Some server) (inl m) (fun _ => None) empty_handle empty_handle empty_handle false.

(** The handler's state is the value of its segment. *)
Definition sync r w (h : Handler) : world := mutate w (hardware_module_state_interface_ r) (Payload (VState (hd_shm h))).

(** ** [Connect] *)

Definition State_type : interface_type P :=
  mkInterfaceType "intrinsic_fbs.HardwareModuleState" sizeof_State None.
Definition kHardwareModuleStateName : string := "hardware_module_state".

Notation AdvertiseMutableInterface := (AdvertiseMutableInterface StrError sizeof_header).
Notation AdvertiseInterface := (AdvertiseInterface StrError sizeof_header).
Notation CreateTriggerServer :=
  (CreateTriggerServer StrError sizeof_header sizeof_futex (Payload (VFutex (sig_new false))) futex_type).

(** The creation of the trigger servers, one after the other; each is moved to the
    heap. *)
Fixpoint create_servers (k : kernel V) (ts : list trigger) r w : Status * Runtime * world :=
  match ts with
  | [] => (OkStatus, r, w)
  | t :: ts' =>
      match CreateTriggerServer k (trigger_name t) w (shared_memory_manager_ r) with
      | (Unexpected e, w1, m1) => (e, set_manager r m1, w1)
      | (Value x, w1, m1) => create_servers k ts' (set_server (set_manager r m1) t (move_server x).1) w1
      end
  end.

(** The value behind the handle of the state, for the constructor of the handler. *)
Definition state_value w (x : InterfaceHandle) : option HardwareModuleState :=
  match deref w x with Some (Payload (VState st)) => Some st | _ => None end.

(** The part of [Connect] after the handler has been made; [now k] are readings of
    [Now()], [current_cycle_] the cycle counter. *)
Definition connect_period (k : kernel V) (now : nat -> Z) (current_cycle_ control_period : Z) r w
  : checked (Status * Runtime * world) :=
  cbind (AdvertiseInterface k (IconState_type sizeof_IconState) kIconStateInterfaceName BuildIconState
           size_IconState w (shared_memory_manager_ r)) (fun '(x, w1, m1) =>
  let r1 := set_manager r m1 in
  match x with
  | Unexpected e => Returns (e, r1, w1)
  | Value icon_state =>
      let r2 := set_interfaces r1 (hardware_module_state_interface_ r1) icon_state (control_period_interface_ r1) in
      cbind (AdvertiseMutableInterface k (ControlPeriod_type sizeof_ControlPeriod)
               kControlPeriodInterfaceName BuildControlPeriod size_ControlPeriod w1
               (shared_memory_manager_ r2)) (fun '(y, w2, m2) =>
      let r3 := set_manager r2 m2 in
      match y with
      | Unexpected e => Returns (e, r3, w2)
      | Value period =>
          let r4 := set_interfaces r3 (hardware_module_state_interface_ r3) (icon_state_interface_ r3) period in
          if control_period <=? 0 then
            Returns (FormatStatus kInvalidArgument
                       ("Control period must be positive, got: " ++ pretty control_period ++ " ns"), r4, w2)
          else
            let '(st, w3) := UpdateControlPeriod current_cycle_ (now 2%nat) w2 period control_period in
            if negb (status_ok st) then Returns (st, r4, w3)
            else Returns (create_servers k triggers r4 w3)
      end)
  end).

(** [Connect(name, control_period, exit_code_promise)] *)
Definition Connect (k : kernel V) (now : nat -> Z) (current_cycle_ control_period : Z) r w
  : checked (Status * Runtime * world) :=
  cbind (AdvertiseMutableInterface k State_type kHardwareModuleStateName
           (Payload (VState default_HardwareModuleState)) size_State w (shared_memory_manager_ r))
    (fun '(x, w1, m1) =>
  let r1 := set_manager r m1 in
  match x with
  | Unexpected e => Returns (e, r1, w1)
  | Value state_interface =>
      let r2 := set_interfaces r1 state_interface (icon_state_interface_ r1) (control_period_interface_ r1) in
      match callback_handler_ r2, state_value w1 state_interface with
      | inl m, Some st =>
          let h := new_Handler m st (now 0%nat) (now 1%nat) in
          connect_period k now current_cycle_ control_period (set_handler r2 h) (sync r2 w1 h)
      | _, _ => Aborts "undefined behaviour"
      end
  end).

(** ** Stopping *)

(** A call on a trigger server; a null pointer is undefined behaviour. *)
Definition on_server (f : RemoteTriggerServer -> RemoteTriggerServer) (t : trigger) r : checked Runtime :=
  match servers_ r t with
  | Some x => Returns (set_server r t (f x))
  | None => Aborts "undefined behaviour"
  end.
Fixpoint on_servers (f : RemoteTriggerServer -> RemoteTriggerServer) (ts : list trigger) r : checked Runtime :=
  match ts with
  | [] => Returns r
  | t :: ts' => cbind (on_server f t r) (on_servers f ts')
  end.

(** [Stop()], when the threads that are asked to stop do so. *)
Definition Stop r w : checked (Status * Runtime * world) :=
  match callback_handler_ r with
  | inl _ => Aborts "undefined behaviour"
  | inr h =>
      let h1 := Shutdown h in
      cbind (on_servers RequestStop
               [TApplyCommand; TReadStatus; TDeactivate; TEnableMotion; TClearFaults; TPrepare;
                TActivate; TRestart] (set_handler r h1)) (fun r1 =>
      let '(status, h2) := call_status h1 MShutdown in
      cbind (on_servers JoinAsyncThread [TApplyCommand; TReadStatus; TDeactivate; TActivate; TRestart]
               (set_handler r1 h2)) (fun r2 =>
      let r3 := if state_change_thread_ r2 then set_state_thread r2 false else r2 in
      Returns (status, set_stopped r3, sync r w h2)))
  end.

(** ** Running *)

(** What happens outside: whether a new thread is joinable, what the prelude of the
    thread of a server returns ([MakeThreadPrelude], run by that thread), the module's
    [Init] on the manager, the system calls of the domain socket server. *)
Record run_env := mkRunEnv {
  ru_created : trigger -> bool;
  ru_prelude : trigger -> Status;
  ru_init : M -> world -> SharedMemoryManager -> Status * M * world * SharedMemoryManager;
  ru_now : Z;
  ru_serve : serve_env }.

(** [StartAsync] on a server, and the prelude of its new thread: a prelude that fails
    clears [is_running_] and ends the thread, which stays joinable
    ([RemoteTrigger.prelude_step]).  The prelude runs concurrently with the rest of
    [Run]; nothing there reads the flag of this server, so that its effect can be taken
    at once. *)
Definition start_server (env : run_env) (t : trigger) r : checked (Status * Runtime) :=
  match servers_ r t with
  | Some x =>
      let '(st, spawned, x') := StartAsync (ru_created env t) x in
      let x'' := if spawned && negb (status_ok (ru_prelude env t)) then set_running x' false else x' in
      Returns (st, set_server r t x'')
  | None => Aborts "undefined behaviour"
  end.

(** [set_init_failed_on_error(status)] *)
Definition set_init_failed_on_error (now : Z) (status : Status) r w : checked (Runtime * world) :=
  if negb (status_ok status) then
    match callback_handler_ r with
    | inl _ => Aborts "undefined behaviour"
    | inr h =>
        let h' := (SetStateDirectly h kInitFailed
                     (FormatRealtimeStatus (st_code status) (st_message status)) false now).2 in
        Returns (set_handler r h', sync r w h')
    end
  else Returns (r, w).

(** The start of the servers for the realtime loop. *)
Fixpoint start_servers (env : run_env) (ts : list trigger) r w
  : checked (Status * Runtime * world) :=
  match ts with
  | [] => Returns (OkStatus, r, w)
  | t :: ts' =>
      cbind (start_server env t r) (fun '(st, r1) =>
      cbind (set_init_failed_on_error (ru_now env) st r1 w) (fun '(r2, w2) =>
      if negb (status_ok st) then Returns (st, r2, w2)
      else start_servers env ts' r2 w2))
  end.

(** [hardware_module_->Init(context)] *)
Definition init_module (env : run_env) r w : checked (Status * Runtime * world) :=
  match callback_handler_ r with
  | inl _ => Aborts "undefined behaviour"
  | inr h =>
      let '(st, m, w1, mgr) := ru_init env (hd_module h) w (shared_memory_manager_ r) in
      Returns (st, set_manager (set_handler r (set_module h m (hd_calls h ++ [MInit]))) mgr, w1)
  end.

(** [Run] after its first check, without the guard [stop_on_error].  The prelude of the
    thread for state changes is left out: its error is only logged.  That the thread
    can be created is assumed, since [std::jthread] reports a failure by an exception. *)
Definition run_body (k : kernel V) (env : run_env) r w : checked (Status * Runtime * world) :=
  match servers_ r TActivate with
  | None =>
      Returns (FormatStatus kInternal
                 "PUBLIC: Hardware module does not seem to be connected. Did you call `Connect()`?", r, w)
  | Some _ =>
      cbind (start_server env TRestart r) (fun '(st1, r1) =>
      if negb (status_ok st1) then Returns (st1, r1, w)
      else
        cbind (init_module env r1 w) (fun '(init_status, r2, w2) =>
        cbind (set_init_failed_on_error (ru_now env) init_status r2 w2) (fun '(r3, w3) =>
        match domain_socket_server_ r3 with
        | None =>
            Returns (FormatStatus kInternal
                       "Run was called, but domain_socket_server_ is nullptr. This should never happen.",
                     r3, w3)
        | Some server =>
            let '(st2, server', w4, m4) :=
              AddSegmentInfoServeShmDescriptors StrError (fun i => Payload (VInfo i)) sizeof_header
                sizeof_SegmentInfo (k_init k w3) (ru_serve env) server w3 (shared_memory_manager_ r3) in
            let r4 := set_manager (set_socket r3 (Some server')) m4 in
            if negb (status_ok st2) then Returns (st2, r4, w4)
            else if negb (status_ok init_status) then Returns (init_status, r4, w4)
            else
              start_servers env
                [TActivate; TDeactivate; TReadStatus; TApplyCommand] (set_state_thread r4 true) w4
        end)))
  end.

(** [Run(is_realtime, cpu_affinity)]: every error after the first check calls [Stop]. *)
Definition Run (k : kernel V) (env : run_env) r w : checked (Status * Runtime * world) :=
  if has_stopped_ r then
    Returns (FormatStatus kFailedPrecondition
               "Cannot restart HardwareModuleRuntime after Stop(), or failed attempts at Run()", r, w)
  else
    cbind (run_body k env r w) (fun '(st, r1, w1) =>
    if negb (status_ok st) then cbind (Stop r1 w1) (fun '(_, r2, w2) => Returns (st, r2, w2))
    else Returns (st, r1, w1)).

(** [IsStarted()] *)
Definition runtime_IsStarted r : bool :=
  let started := state_change_thread_ r in
  let started := match servers_ r TReadStatus with Some x => started && IsStarted x | None => started end in
  match servers_ r TApplyCommand with Some x => started && IsStarted x | None => started end.

(** [GetHardwareModuleState()] *)
Definition runtime_GetHardwareModuleState r : expected HardwareModuleState Status * Runtime :=
  match callback_handler_ r with
  | inl _ =>
      (Unexpected (FormatStatus kInternal "Hardware Module Runtime callback_handler is null"), r)
  | inr h => let '(st, h') := GetHardwareModuleState h in (Value st, set_handler r h')
  end.

(** [SetStateTestOnly(state, status)] and [SetStateTestOnly(state, fault_reason)] *)
Definition SetStateTestOnly r w (state : StateCode) (status : RealtimeStatus) (now : Z)
  : checked (Runtime * world) :=
  match callback_handler_ r with
  | inl _ => Aborts "undefined behaviour"
  | inr h => let h' := (SetStateDirectly h state status true now).2 in
             Returns (set_handler r h', sync r w h')
  end.
Definition SetStateTestOnly_reason r w (state : StateCode) (fault_reason : string) (now : Z) :=
  SetStateTestOnly r w state
    (if decide (fault_reason = "") then RtOkStatus else FormatRealtimeStatus Status.kUnknown fault_reason) now.

(** ** Creation and destruction *)

(** [~HardwareModuleRuntime()] and the destruction of the members, last one first; a
    failing [shutdown] of the socket ends the process ([None]). *)
Definition destroy_Runtime (close_futex : V -> V) (shutdown_err unlock_err close_err : option Z)
    r w s : option (world * sys) :=
  let w1 := match callback_handler_ r with inl _ => w | inr h => sync r w (Shutdown h) end in
  let w2 := CleanUpSharedMemory (CleanUpSharedMemory (CleanUpSharedMemory w1
              (segment_ (control_period_interface_ r))) (segment_ (icon_state_interface_ r)))
              (segment_ (hardware_module_state_interface_ r)) in
  let w3 := fold_left (fun w t => match servers_ r t with
                                  | Some x => destroy_TriggerServer close_futex w x
                                  | None => w
                                  end) (reverse triggers) w2 in
  (fun s1 => (destroy_Manager w3 (shared_memory_manager_ r), s1)) <$>
    match domain_socket_server_ r with
    | Some server => destroy_server StrError shutdown_err unlock_err close_err server s
    | None => Some s
    end.

Definition kDefaultLockAcquireTimeout : Z := 0.

(** [Create(name, control_period, shared_memory_manager, hardware_module, logger,
    exit_code_promise)]; a null pointer is [None].  The outer [option] is [None] when
    the attempts to lock run out or a destructor ends the process. *)
Definition CreateRuntime (cenv : create_env) (k : kernel V) (close_futex : V -> V) (now : nat -> Z)
    (current_cycle_ control_period : Z) (manager : option SharedMemoryManager) (module : option M) w s
  : option (checked (expected Runtime Status * world * sys)) :=
  match manager, module with
  | None, _ =>
      Some (Returns (Unexpected (FormatStatus kInvalidArgument "shared_memory_manager cannot be null"), w, s))
  | _, None =>
      Some (Returns (Unexpected (FormatStatus kInvalidArgument "hardware_module cannot be null"), w, s))
  | Some mgr, Some m =>
      if control_period <=? 0 then
        Some (Returns (Unexpected (FormatStatus kInvalidArgument
                ("Control period must be positive, got: " ++ pretty control_period ++ " ns")), w, s))
      else
        match CreateServer StrError cenv (SocketDirectoryFromNamespace (SharedMemoryNamespace mgr))
                (ModuleName mgr) kDefaultLockAcquireTimeout kDomainSocketProtocolVersion s with
        | (None, _) => None
        | (Some (Unexpected e), s1) => Some (Returns (Unexpected e, w, s1))
        | (Some (Value server), s1) =>
            match Connect k now current_cycle_ control_period (new_Runtime m mgr server) w with
            | Aborts msg => Some (Aborts msg)
            | Returns (st, r, w1) =>
                if negb (status_ok st) then
                  (fun '(w2, s2) => Returns (Unexpected st, w2, s2)) <$>
                    destroy_Runtime close_futex None (cr_unlock cenv) (cr_close cenv) r w1 s1
                else Some (Returns (Value r, w1, s1))
            end
        end
  end.

End Runtime.
