(* ===== verification/ModuleRuntimeProofs.v ===== *)
(** * Correctness of the set-up, the start and the stop of a hardware module *)
From stdpp Require Import functions.
From S2P Require Import Prelude Status Time BinaryFutex Signal SegmentHeader SharedMemory SharedMemoryProofs.
From S2P Require Import MemorySegment MemorySegmentProofs SegmentRuns RealtimeClock Interfaces InterfacesProofs.
From S2P Require Import RemoteTrigger DomainSocket DomainSocketServer AsyncBuffer HalState HalRuntime HalRuntimeProofs ModuleRuntime.

(** ** Preludes *)

(** When no call fails, a thread gets the first fifteen characters of its name; policy
    and priority are set for realtime threads only, with the given values or the
    realtime defaults; processors are set when some are given. *)
Lemma prelude_applies strerror o t :
  MakeThreadPrelude strerror o (mkPreludeEnv None None None) t =
  (OkStatus,
   mkThreadSetup
     (if decide (to_name o = "") then ts_name t
      else Some (str (take kMaxThreadNameLength (chars (to_name o)))))
     (if is_realtime o
      then Some (default SCHED_FIFO (schedule_policy o), default kLowRealtimePriority (priority o))
      else ts_sched t)
     (if decide (cpu_affinity o = []) then ts_affinity t else Some (list_to_set (cpu_affinity o)))).
Proof.
  unfold MakeThreadPrelude, set_sched, set_affinity, priority_of, policy_of. cbn.
  destruct t as [n sc af]. repeat case_decide; destruct (is_realtime o); cbn; repeat case_decide; done.
Qed.

(** In realtime mode the threads of the control cycle are scheduled before all others;
    otherwise no thread asks for a policy. *)
Lemma realtime_threads cpus t :
  let setup b t := (MakeThreadPrelude (fun _ => "") (thread_options b cpus t)
                      (mkPreludeEnv None None None) (mkThreadSetup None None None)).2 in
  (t = TReadStatus \/ t = TApplyCommand -> ts_sched (setup true (Some t)) = Some (SCHED_FIFO, 45))
  /\ (t = TRestart \/ t = TActivate \/ t = TDeactivate ->
      ts_sched (setup true (Some t)) = Some (SCHED_FIFO, 40))
  /\ ts_sched (setup true None) = Some (SCHED_FIFO, 40)
  /\ ts_sched (setup false (Some t)) = None.
Proof.
  cbv beta zeta. rewrite !prelude_applies. cbn [snd ts_sched].
  repeat split; [intros [-> | ->]; done|intros [-> |[-> | ->]]; done|by destruct t].
Qed.

(** ** Starting and stopping *)

Section Lifecycle.
Context {F O M : Type} `{Signal F} `{HardwareModule M} `{IterOrder}.
Context (StrError : Z -> string) (sizeof_header sizeof_SegmentInfo : Z).
Notation P := (rt_value F O).
Notation V := (payload P).
Notation world := (world V).
Notation Runtime := (Runtime (M := M)).
Notation Run := (Run StrError sizeof_header sizeof_SegmentInfo).
Implicit Types (w : world) (r : Runtime) (t : trigger).

(** The servers that [Run] starts; the other four are polled by one thread. *)
Definition asynchronous : list trigger := [TRestart; TActivate; TDeactivate; TReadStatus; TApplyCommand].

Definition idle (x : RemoteTriggerServer) : Prop := is_running_ x = false /\ async_thread_ x = false.

(** A runtime as [Create] returns it and as its operations keep it. *)
Record runtime_wf r : Prop := mkRuntimeWf {
  rw_handler : exists h, callback_handler_ r = inr h;
  rw_servers t : is_Some (servers_ r t);
  rw_polled t x : servers_ r t = Some x -> t ∉ asynchronous -> idle x }.

Lemma on_servers_spec f ts r :
  (forall t, is_Some (servers_ r t)) -> NoDup ts ->
  exists r', on_servers f ts r = Returns r'
    /\ (forall t, servers_ r' t = if decide (t ∈ ts) then f <$> servers_ r t else servers_ r t)
    /\ callback_handler_ r' = callback_handler_ r /\ state_change_thread_ r' = state_change_thread_ r
    /\ has_stopped_ r' = has_stopped_ r.
Proof.
  revert r. induction ts as [|t ts IH]; intros r Hs Hnd; cbn [on_servers].
  - exists r. by repeat split.
  - apply NoDup_cons in Hnd as [Hni Hnd]. unfold on_server. destruct (Hs t) as [x Hx]. rewrite Hx.
    cbn [cbind]. destruct (IH (set_server r t (f x))) as (r' & Hr & Hsv & Hh & Ht & Hst); [|done|].
    { intros u. unfold set_server. cbn [servers_]. destruct (decide (t = u)) as [->|Hne];
        [by rewrite fn_lookup_insert|by rewrite fn_lookup_insert_ne]. }
    exists r'. split; [done|]. split; [|done]. intros u. rewrite Hsv. unfold set_server. cbn [servers_].
    destruct (decide (u = t)) as [->|Hne].
    + rewrite decide_False by done. rewrite decide_True by (by left).
      by rewrite fn_lookup_insert, Hx.
    + rewrite fn_lookup_insert_ne by done.
      destruct (decide (u ∈ ts)); [rewrite decide_True by (by right)|rewrite decide_False]; [done..|].
      by intros [?|?]%elem_of_cons.
Qed.

(** What [Stop] leaves. *)
Record stopped r : Prop := mkStopped {
  sp_flag : has_stopped_ r = true;
  sp_thread : state_change_thread_ r = false;
  sp_servers t x : servers_ r t = Some x -> idle x;
  sp_handler : exists h, callback_handler_ r = inr h /\ hd_reject h = true /\ hd_queue h = []
    /\ last (hd_calls h) = Some MShutdown }.

Lemma Stop_stops r w :
  runtime_wf r -> exists st r' w', Stop r w = Returns (st, r', w') /\ stopped r' /\ runtime_wf r'.
Proof.
  intros [[h Hh] Hs Hp]. unfold Stop. rewrite Hh. set (stop_list := [_; _; _; _; _; _; _; _]).
  destruct (on_servers_spec RequestStop stop_list (set_handler r (Shutdown h)))
    as (r1 & -> & Hsv & Hh1 & Ht1 & _); [done|by vm_compute; repeat constructor; set_solver|].
  cbn [cbind]. destruct (call_status (Shutdown h) MShutdown) as [status h2] eqn:Hc.
  set (join_list := [_; _; _; _; _]).
  destruct (on_servers_spec JoinAsyncThread join_list (set_handler r1 h2))
    as (r2 & -> & Hsv2 & Hh2 & Ht2 & _).
  { intros t. cbn [set_handler servers_]. rewrite Hsv. destruct (Hs t) as [x Hx]. cbn [set_handler servers_].
    rewrite Hx. case_decide; by eexists. }
  { by vm_compute; repeat constructor; set_solver. }
  cbn [cbind]. eexists _, _, _. split; [done|].
  assert (hd_reject (Shutdown h) = true /\ hd_queue (Shutdown h) = []) as [Hrej Hq] by done.
  unfold call_status in Hc. destruct (hm_status _ _) as [st m]. injection Hc as <- <-.
  set (h2 := set_module _ _ _) in *.
  assert (forall t x, servers_ r2 t = Some x -> idle x) as Hidle.
  { intros t x. rewrite Hsv2. cbn [set_handler servers_]. rewrite Hsv. cbn [set_handler servers_].
    destruct (servers_ r t) as [y|] eqn:Hy; [|by repeat case_decide].
    assert (t ∉ asynchronous -> idle y) as Hpoll by (by apply Hp).
    destruct t; cbn; intros [= <-]; unfold idle, JoinAsyncThread, RequestStop; cbn;
      try (destruct (async_thread_ y) eqn:Ha; cbn; by rewrite ?Ha);
      (destruct Hpoll as [? ?]; [unfold asynchronous; set_solver|done]). }
  assert (forall t, is_Some (servers_ r2 t)) as Hsome.
  { intros t. rewrite Hsv2. cbn [set_handler servers_]. rewrite Hsv. cbn [set_handler servers_].
    destruct (Hs t) as [x Hx]. rewrite Hx. repeat case_decide; by eexists. }
  cbn [set_handler callback_handler_] in Hh2.
  split.
  - split; [done|..].
    + destruct (state_change_thread_ r2) eqn:E; [done|exact E].
    + intros t x. destruct (state_change_thread_ r2); cbn; apply Hidle.
    + exists h2. split; [by destruct (state_change_thread_ r2)|]. split; [done|]. split; [done|].
      unfold h2, set_module. cbn [hd_calls]. by rewrite last_snoc.
  - split.
    + exists h2. by destruct (state_change_thread_ r2).
    + intros t. destruct (state_change_thread_ r2); apply Hsome.
    + intros t x Hx _. apply (Hidle t x). by destruct (state_change_thread_ r2).
Qed.

(** ** [Run] *)

(** The server [t] was started: it has a thread, and it is running unless the prelude of
    the thread failed. *)
Definition started_by (env : run_env (F := F) (O := O) (M := M)) r t : Prop :=
  exists x, servers_ r t = Some x /\ async_thread_ x = true
    /\ IsStarted x = status_ok (ru_prelude env t).

Lemma start_server_spec env t r :
  runtime_wf r -> t ∈ asynchronous ->
  exists st r', start_server env t r = Returns (st, r') /\ runtime_wf r'
    /\ (status_ok st = true -> (forall x, servers_ r t = Some x -> idle x) -> started_by env r' t)
    /\ (forall u, u <> t -> servers_ r' u = servers_ r u)
    /\ state_change_thread_ r' = state_change_thread_ r.
Proof.
  intros [Hh Hs Hp] Ht. unfold start_server. destruct (Hs t) as [x Hx]. rewrite Hx.
  destruct (StartAsync (ru_created env t) x) as [[st b] x'] eqn:E.
  set (x'' := if b && _ then _ else _). exists st, (set_server r t x'').
  split; [done|]. split; [|split; [|split; [|done]]].
  - split; [done|..]; intros u; cbn [set_server servers_]; destruct (decide (t = u)) as [->|Hne];
      rewrite ?fn_lookup_insert, ?fn_lookup_insert_ne by done; [by eexists|done|done|by apply Hp].
  - intros Hok Hi. destruct (Hi x eq_refl) as [Hr Ha]. exists x''. cbn [set_server servers_].
    rewrite fn_lookup_insert. split; [done|]. unfold StartAsync in E. rewrite Hr, Ha in E.
    destruct (ru_created env t); cbn in E; simplify_eq; try done.
    subst x''. by destruct (status_ok (ru_prelude env t)).
  - intros u Hu. cbn [set_server servers_]. by rewrite fn_lookup_insert_ne.
Qed.

Lemma set_handler_wf r h : runtime_wf r -> runtime_wf (set_handler r h).
Proof. intros [_ Hs Hp]. split; [by exists h|done..]. Qed.
Lemma set_manager_wf r m : runtime_wf r -> runtime_wf (set_manager r m).
Proof. intros [Hh Hs Hp]. by split. Qed.
Lemma set_socket_wf r d : runtime_wf r -> runtime_wf (set_socket r d).
Proof. intros [Hh Hs Hp]. by split. Qed.
Lemma set_thread_wf r b : runtime_wf r -> runtime_wf (set_state_thread r b).
Proof. intros [Hh Hs Hp]. by split. Qed.
#[local] Hint Resolve set_handler_wf set_manager_wf set_socket_wf set_thread_wf : core.

Lemma set_init_failed_spec now st r w :
  runtime_wf r -> exists r' w', set_init_failed_on_error now st r w = Returns (r', w')
    /\ runtime_wf r' /\ servers_ r' = servers_ r /\ state_change_thread_ r' = state_change_thread_ r.
Proof.
  intros Hwf. unfold set_init_failed_on_error. destruct (status_ok st); cbn [negb]; [by exists r, w|].
  destruct (rw_handler _ Hwf) as [h ->]. eexists _, _. split; [done|]. by split; [apply set_handler_wf|].
Qed.

Lemma start_servers_spec env ts r w :
  runtime_wf r -> NoDup ts -> (forall t, t ∈ ts -> t ∈ asynchronous) ->
  exists st r' w', start_servers env ts r w = Returns (st, r', w') /\ runtime_wf r'
    /\ state_change_thread_ r' = state_change_thread_ r
    /\ (forall u, u ∉ ts -> servers_ r' u = servers_ r u)
    /\ (status_ok st = true -> (forall t x, t ∈ ts -> servers_ r t = Some x -> idle x) ->
        forall t, t ∈ ts -> started_by env r' t).
Proof.
  revert r w. induction ts as [|t ts IH]; intros r w Hwf Hnd Hts; cbn [start_servers].
  { exists OkStatus, r, w. do 4 (split; [done|]). by intros _ _ t ?%not_elem_of_nil. }
  apply NoDup_cons in Hnd as [Hni Hnd].
  destruct (start_server_spec env t r Hwf) as (st & r1 & -> & Hwf1 & Hrun & Hoth & Hth);
    [by apply Hts; left|]. cbn [cbind].
  destruct (set_init_failed_spec (ru_now env) st r1 w Hwf1) as (r2 & w2 & -> & Hwf2 & Hsv & Hth2). cbn [cbind].
  destruct (status_ok st) eqn:Hok; cbn [negb].
  - destruct (IH r2 w2 Hwf2 Hnd) as (st' & r3 & w3 & -> & Hwf3 & Hth3 & Hsame & Hall);
      [intros u Hu; apply Hts; by right|].
    exists st', r3, w3. split; [done|]. split; [done|]. split; [congruence|]. split.
    + intros u Hu. apply not_elem_of_cons in Hu as [Hu1 Hu2]. rewrite Hsame by done. rewrite Hsv. by apply Hoth.
    + intros Hst Hidle u [->|Hu]%elem_of_cons.
      * unfold started_by. rewrite Hsame by done. rewrite Hsv. apply Hrun; [done|].
        intros x. apply Hidle. by left.
      * apply Hall; [done| |done]. intros u' x Hu'. rewrite Hsv, Hoth by (by intros ->).
        apply Hidle. by right.
  - exists st, r2, w2. split; [done|]. split; [done|]. split; [congruence|]. split; [|by rewrite Hok].
    intros u Hu. apply not_elem_of_cons in Hu as [Hu1 Hu2]. rewrite Hsv. by apply Hoth.
Qed.

(** No server has been started. *)
Definition all_idle r : Prop := forall t x, servers_ r t = Some x -> idle x.

Lemma run_body_spec k env r w :
  runtime_wf r ->
  exists st r' w', run_body StrError sizeof_header sizeof_SegmentInfo k env r w = Returns (st, r', w')
    /\ runtime_wf r'
    /\ (status_ok st = true -> state_change_thread_ r' = true
         /\ (all_idle r -> forall t, t ∈ asynchronous -> started_by env r' t)).
Proof.
  intros Hwf. unfold run_body. destruct (rw_servers _ Hwf TActivate) as [xa ->].
  destruct (start_server_spec env TRestart r Hwf) as (st1 & r1 & -> & Hwf1 & Hrun & Hoth & _);
    [unfold asynchronous; set_solver|]. cbn [cbind].
  destruct (status_ok st1) eqn:Eq1; cbn [negb]; [|exists st1, r1, w; by rewrite Eq1].
  unfold init_module. destruct (rw_handler _ Hwf1) as [h ->].
  destruct (ru_init env _ _ _) as [[[ist m] w2] mgr]. cbn [cbind]. set (r2 := set_manager _ _).
  assert (runtime_wf r2) as Hwf2 by (unfold r2; auto).
  destruct (set_init_failed_spec (ru_now env) ist r2 w2 Hwf2) as (r3 & w3 & -> & Hwf3 & Hsv3 & Hth3). cbn [cbind].
  destruct (domain_socket_server_ r3) as [server|]; [|by eexists _, r3, w3].
  destruct (AddSegmentInfoServeShmDescriptors _ _ _ _ _ _ _ _) as [[[st2 server'] w4] m4].
  set (r4 := set_manager _ _). assert (runtime_wf r4) as Hwf4 by (unfold r4; auto).
  destruct (status_ok st2) eqn:Eq2; cbn [negb]; [|exists st2, r4, w4; by rewrite Eq2].
  destruct (status_ok ist) eqn:Eq3; cbn [negb]; [|exists ist, r4, w4; by rewrite Eq3].
  destruct (start_servers_spec env [TActivate; TDeactivate; TReadStatus; TApplyCommand]
    (set_state_thread r4 true) w4) as (st & r5 & w5 & -> & Hwf5 & Hth5 & Hsame & Hall);
    [auto|by vm_compute; repeat constructor; set_solver|unfold asynchronous; set_solver|].
  assert (servers_ (set_state_thread r4 true) = servers_ r1) as Hsv4.
  { cbn [set_state_thread servers_ r4 set_manager set_socket]. exact Hsv3. }
  exists st, r5, w5. split; [done|]. split; [done|]. intros Hok. split; [by rewrite Hth5|].
  intros Hidle t [->|Ht]%elem_of_cons.
  - unfold started_by. rewrite Hsame by set_solver. rewrite Hsv4. apply Hrun; [done|]. apply Hidle.
  - apply Hall; [done| |done]. intros u x Hu. rewrite Hsv4, Hoth by set_solver. apply Hidle.
Qed.

(** [Stop] does not touch the domain socket server. *)
Lemma on_servers_socket f ts r r' :
  on_servers f ts r = Returns r' -> domain_socket_server_ r' = domain_socket_server_ r.
Proof.
  revert r. induction ts as [|t ts IH]; intros r; cbn [on_servers]; [by intros [= <-]|].
  unfold on_server. destruct (servers_ r t) as [x|]; [|done]. cbn [cbind]. intros Hr.
  by rewrite (IH _ Hr).
Qed.

Lemma Stop_socket r w st r' w' :
  Stop r w = Returns (st, r', w') -> domain_socket_server_ r' = domain_socket_server_ r.
Proof.
  unfold Stop. destruct (callback_handler_ r) as [|h]; [done|].
  destruct (on_servers RequestStop _ _) as [r1|] eqn:E1; [|done]. cbn [cbind].
  destruct (call_status _ MShutdown) as [status h2].
  destruct (on_servers JoinAsyncThread _ _) as [r2|] eqn:E2; [|done]. cbn [cbind]. intros [= _ <- _].
  apply on_servers_socket in E1, E2. cbn [set_handler domain_socket_server_] in E1, E2.
  destruct (state_change_thread_ r2); cbn [set_stopped set_state_thread domain_socket_server_]; congruence.
Qed.

(** A stopped runtime stays stopped. *)
Lemma Run_refused k env r w :
  has_stopped_ r = true ->
  exists st, Run k env r w = Returns (st, r, w) /\ st_code st = kFailedPrecondition.
Proof. intros Hs. unfold ModuleRuntime.Run. rewrite Hs. by eexists. Qed.

(** C29: [Run] starts the module or stops it again.  For a connected runtime that was not
    started before, whatever the module's [Init], the domain socket server, the creation
    of threads and the preludes of the threads do:
    - If [Run] returns OK, the thread for state changes runs and each of the five
      asynchronous servers has its thread; the server is running exactly if the prelude of
      its thread succeeded.  [IsStarted] therefore holds unless the prelude of ReadStatus
      or ApplyCommand failed, which [Run] does not report.
    - If [Run] returns an error, it has stopped and joined all trigger servers (the restart
      server included) and the thread for state changes, cancelled the pending requests,
      rejects new ones, and has called [Shutdown] on the module last; every later [Run] is
      refused.  The domain socket server is not stopped: it is as it was when the error
      occurred. *)
Theorem run_started_or_stopped k env r w :
  runtime_wf r -> all_idle r -> has_stopped_ r = false ->
  exists st r' w', Run k env r w = Returns (st, r', w') /\ runtime_wf r'
    /\ (status_ok st = true ->
         state_change_thread_ r' = true
         /\ (forall t, t ∈ asynchronous -> started_by env r' t)
         /\ runtime_IsStarted r'
            = (status_ok (ru_prelude env TReadStatus) && status_ok (ru_prelude env TApplyCommand)))
    /\ (status_ok st = false ->
         stopped r' /\ runtime_IsStarted r' = false
         /\ (exists r1 w1, run_body StrError sizeof_header sizeof_SegmentInfo k env r w = Returns (st, r1, w1)
              /\ domain_socket_server_ r' = domain_socket_server_ r1)
         /\ forall k2 env2 w2, exists st2, Run k2 env2 r' w2 = Returns (st2, r', w2)
              /\ st_code st2 = kFailedPrecondition).
Proof.
  intros Hwf Hidle Hns. unfold ModuleRuntime.Run at 1. rewrite Hns.
  destruct (run_body_spec k env r w Hwf) as (st & r1 & w1 & Hb & Hwf1 & Hok). rewrite Hb. cbn [cbind].
  destruct (status_ok st) eqn:Hst; cbn [negb].
  - exists st, r1, w1. split; [done|]. split; [done|]. rewrite Hst. split; [|done]. intros _.
    destruct (Hok eq_refl) as [Hth Hrun]. specialize (Hrun Hidle). split; [done|]. split; [done|].
    unfold runtime_IsStarted. rewrite Hth.
    destruct (Hrun TReadStatus) as (x & -> & _ & ->); [unfold asynchronous; set_solver|].
    by destruct (Hrun TApplyCommand) as (y & -> & _ & ->); [unfold asynchronous; set_solver|].
  - destruct (Stop_stops r1 w1 Hwf1) as (st2 & r2 & w2 & Hs & Hsp & Hwf2). rewrite Hs. cbn [cbind].
    exists st, r2, w2. split; [done|]. split; [done|]. rewrite Hst. split; [done|]. intros _.
    split; [done|]. split; [|split].
    + unfold runtime_IsStarted. rewrite (sp_thread _ Hsp).
      by destruct (servers_ r2 TReadStatus), (servers_ r2 TApplyCommand).
    + exists r1, w1. split; [done|]. by eapply Stop_socket.
    + intros k2 env2 w3. apply Run_refused, Hsp.
Qed.

(** The restart server is started before [Init] so that a module whose initialisation
    failed can still be restarted; but the error of [Init] stops it again. *)
Lemma restart_stopped_after_failed_init k env r w :
  runtime_wf r -> has_stopped_ r = false ->
  (forall m w mgr, status_ok (ru_init env m w mgr).1.1.1 = false) ->
  exists st r' w' x, Run k env r w = Returns (st, r', w') /\ status_ok st = false
    /\ servers_ r' TRestart = Some x /\ idle x.
Proof.
  intros Hwf Hns Hinit. unfold ModuleRuntime.Run. rewrite Hns.
  destruct (run_body_spec k env r w Hwf) as (st & r1 & w1 & Hb & Hwf1 & _). rewrite Hb. cbn [cbind].
  assert (status_ok st = false) as Hst.
  { revert Hb. unfold run_body. destruct (servers_ r TActivate); [|by intros [= <- _ _]].
    destruct (start_server _ _ _) as [[st1 r2]|]; [|done]. cbn [cbind].
    destruct (status_ok st1) eqn:E1; cbn [negb]; [|by intros [= <- _ _]].
    unfold init_module. destruct (callback_handler_ r2) as [?|h]; [done|].
    specialize (Hinit (hd_module h) w (shared_memory_manager_ r2)).
    destruct (ru_init env _ _ _) as [[[ist m] w2] mgr]. cbn [fst] in Hinit. cbn [cbind].
    destruct (set_init_failed_on_error _ _ _ _) as [[r3 w3]|]; [|done]. cbn [cbind].
    destruct (domain_socket_server_ r3); [|by intros [= <- _ _]].
    destruct (AddSegmentInfoServeShmDescriptors _ _ _ _ _ _ _ _) as [[[st2 ?] ?] ?].
    destruct (status_ok st2) eqn:E2; cbn [negb]; [|by intros [= <- _ _]].
    rewrite Hinit. cbn [negb]. by intros [= <- _ _]. }
  rewrite Hst. cbn [negb]. destruct (Stop_stops r1 w1 Hwf1) as (st2 & r2 & w2 & -> & Hsp & Hwf2). cbn [cbind].
  destruct (rw_servers _ Hwf2 TRestart) as [x Hx]. exists st, r2, w2, x. repeat (split; [done|]).
  by apply (sp_servers _ Hsp TRestart).
Qed.

End Lifecycle.

(** ** Creation *)

Section Creation.
Context {V : Type} `{IterOrder} (StrError : Z -> string) (sizeof_header sizeof_futex : Z).
Context (futex : V) (futex_type : string).
Implicit Types (w : world V) (m : SharedMemoryManager).

Lemma extends_added w fd i a n ty (v : option V) :
  w_files w !! i = None -> w_fds w !! fd = None -> w_maps w !! a = None -> extends w (added w fd i a n ty v).
Proof. intros. repeat split; by apply insert_subseteq. Qed.

Lemma extends_opened w0 w kind a i f :
  extends w0 w -> w_files w0 !! i = None -> w_maps w !! a = None -> extends w0 (opened_world w kind a i f).
Proof.
  intros (Hf & Hd & Hm) Hi Ha. repeat split; [|done|].
  - apply map_subseteq_spec. intros j x Hj. cbn [opened_world w_files].
    rewrite lookup_insert_ne by (intros <-; congruence). by eapply lookup_weaken.
  - etrans; [done|]. by apply insert_subseteq.
Qed.

(** A trigger server is created on a working kernel when its two names are free. *)
Lemma CreateTriggerServer_ok k name w m :
  reliable k -> 0 <= sizeof_header -> 0 < sizeof_futex -> sizeof_header + sizeof_futex < 2 ^ 64 ->
  accepts m (name ++ kSemRequestSuffix) futex_type -> accepts m (name ++ kSemResponseSuffix) futex_type ->
  (S (size (memory_segments_ m)) < kMaxNumberOfSegments)%nat ->
  exists req res w' m', CreateTriggerServer StrError sizeof_header sizeof_futex futex futex_type k name w m
      = (Value (mkRemoteTriggerServer name true false req res false), w', m')
    /\ extends w w'
    /\ dom (memory_segments_ m') = dom (memory_segments_ m) ∪ {[(name ++ kSemRequestSuffix)%string; (name ++ kSemResponseSuffix)%string]}
    /\ size (memory_segments_ m') = (2 + size (memory_segments_ m))%nat.
Proof.
  intros Hk H0 Hf Hn Ha1 Ha2 Hsz. set (rq := (name ++ kSemRequestSuffix)%string) in *.
  set (rs := (name ++ kSemResponseSuffix)%string) in *. pose proof Hk as [Hki Hkg].
  assert (rq <> rs) as Hne.
  { unfold rq, rs, kSemRequestSuffix, kSemResponseSuffix. intros E. by apply (inj (String.append name)) in E. }
  destruct (Hki w) as (fd1 & i1 & a1 & E1 & P1 & F1 & I1 & M1). set (N := sizeof_header + sizeof_futex) in *.
  set (w1 := added w fd1 i1 a1 N futex_type (Some futex)).
  set (m1 := registered m rq a1 N false fd1).
  assert (accepts m1 rs futex_type) as Ha2' by (by eapply registered_accepts).
  destruct (Hki w1) as (fd2 & i2 & a2 & E2 & P2 & F2 & I2 & M2).
  pose proof F2 as F2'. pose proof I2 as I2'. pose proof M2 as M2'.
  simpl in F2', I2', M2'. apply lookup_insert_None in F2' as [F2a F2b].
  apply lookup_insert_None in I2' as [I2a I2b].
  set (w2 := added w1 fd2 i2 a2 N futex_type (Some futex)). set (m2 := registered m1 rs a2 N false fd2).
  destruct (Hkg w2) as (b1 & E3 & B1). set (f0 := mkFile N (Some (new_SegmentHeader futex_type)) (Some futex)).
  set (w3 := opened_world w2 kReadOnly b1 i1 f0). destruct (Hkg w3) as (b2 & E4 & B2).
  assert (manager_Get StrError sizeof_header kReadOnly sizeof_futex (k_get k w2) m2 rq w2
          = (Value (mkMemorySegment rq (Some b1) (Some (b1 + sizeof_header)) N kReadOnly), w3)) as G1.
  { apply (manager_Get_opened _ _ _ b1 _ _ _ _ fd1 i1 f0); try done; simpl;
      try lia; by rewrite lookup_insert_ne, lookup_insert_eq. }
  assert (manager_Get StrError sizeof_header kReadWrite sizeof_futex (k_get k w3) m2 rs w3
          = (Value (mkMemorySegment rs (Some b2) (Some (b2 + sizeof_header)) N kReadWrite),
             opened_world w3 kReadWrite b2 i2 f0)) as G2.
  { apply (manager_Get_opened _ _ _ b2 _ _ _ _ fd2 i2 f0); try done; simpl;
      try lia; first [by rewrite lookup_insert_eq|by rewrite lookup_insert_ne, lookup_insert_eq]. }
  eexists _, _, _, m2. split.
  { unfold CreateTriggerServer. fold rq rs.
    rewrite (AddSegment_added _ _ _ fd1 i1 a1) by done. rewrite wrap_u_id by (split; lia).
    cbn [negb status_ok st_code OkStatus]. fold N. fold w1 m1.
    rewrite (AddSegment_added _ _ _ fd2 i2 a2) by done. rewrite wrap_u_id by (split; lia).
    cbn [negb status_ok st_code OkStatus]. fold N. fold w2 m2. rewrite G1, G2. done. }
  split.
  { apply extends_opened; [|done|done]. apply extends_opened; [|done|done].
    transitivity w1; by apply extends_added. }
  split.
  - simpl. rewrite !dom_insert_L. set_solver.
  - simpl. rewrite !map_size_insert_None; [lia|apply Ha1|]. rewrite lookup_insert_ne by done. apply Ha2.
Qed.

End Creation.

(** The segments of a trigger. *)
Definition trigger_segments (t : trigger) : gset string :=
  {[ (trigger_name t ++ kSemRequestSuffix)%string; (trigger_name t ++ kSemResponseSuffix)%string ]}.

Lemma trigger_segments_disjoint t u : t <> u -> trigger_segments t ## trigger_segments u.
Proof.
  intros Hne. unfold trigger_segments.
  rewrite disjoint_union_l, !disjoint_union_r, !disjoint_singleton_l, !not_elem_of_singleton.
  destruct t, u; first [destruct Hne; reflexivity|repeat split; discriminate].
Qed.

Lemma trigger_names_valid t n : n ∈ trigger_segments t -> status_ok (VerifyName n) = true.
Proof. unfold trigger_segments. rewrite elem_of_union, !elem_of_singleton. intros [-> | ->]; by destruct t. Qed.

Lemma all_triggers t : t ∈ triggers.
Proof. unfold triggers. rewrite !elem_of_cons. destruct t; tauto. Qed.

Lemma inbuilt_not_trigger t :
  kHardwareModuleStateName ∉ trigger_segments t /\ kIconStateInterfaceName ∉ trigger_segments t
  /\ kControlPeriodInterfaceName ∉ trigger_segments t.
Proof. unfold trigger_segments. rewrite !not_elem_of_union, !not_elem_of_singleton. by destruct t. Qed.

Section Connected.
Context {F O M : Type} `{Signal F} `{HardwareModule M} `{IterOrder}.
Context (StrError : Z -> string) (sizeof_header sizeof_futex : Z).
Context (sizeof_State sizeof_IconState sizeof_ControlPeriod : Z).
Context (size_State size_IconState size_ControlPeriod : Z) (futex_type : string).
Notation P := (rt_value F O).
Notation V := (payload P).
Notation world := (world V).
Notation Runtime := (Runtime (M := M)).
Notation segments r := (memory_segments_ (shared_memory_manager_ r)).
Notation create_servers := (create_servers (F := F) (O := O) StrError sizeof_header sizeof_futex futex_type).
Implicit Types (w : world) (r : Runtime) (t : trigger).

Record runtime_sizes : Prop := mkRuntimeSizes {
  rs_header : 0 <= sizeof_header;
  rs_futex : 0 < sizeof_futex /\ sizeof_header + sizeof_futex < 2 ^ 64;
  rs_state : 0 < sizeof_State <= size_State /\ sizeof_header + size_State < 2 ^ 64;
  rs_icon : 0 < sizeof_IconState <= size_IconState /\ sizeof_header + size_IconState < 2 ^ 64;
  rs_period : 0 < sizeof_ControlPeriod <= size_ControlPeriod /\ sizeof_header + size_ControlPeriod < 2 ^ 64;
  rs_type : (length (chars futex_type) <= kMaxSize)%nat }.

(** The rest of the runtime is not touched. *)
Definition same_but_servers r r' : Prop :=
  has_stopped_ r' = has_stopped_ r /\ domain_socket_server_ r' = domain_socket_server_ r
  /\ callback_handler_ r' = callback_handler_ r
  /\ hardware_module_state_interface_ r' = hardware_module_state_interface_ r
  /\ icon_state_interface_ r' = icon_state_interface_ r
  /\ control_period_interface_ r' = control_period_interface_ r
  /\ state_change_thread_ r' = state_change_thread_ r.

Lemma create_servers_ok k ts r w :
  reliable k -> runtime_sizes -> NoDup ts ->
  (forall t, t ∈ ts -> trigger_segments t ## dom (segments r)) ->
  (size (segments r) + 2 * length ts <= kMaxNumberOfSegments)%nat ->
  exists r' w', create_servers k ts r w = (OkStatus, r', w') /\ extends w w' /\ same_but_servers r r'
    /\ (forall t, servers_ r' t = servers_ r t \/ t ∈ ts)
    /\ (forall t, t ∈ ts -> exists x, servers_ r' t = Some x /\ idle x)
    /\ dom (segments r') = dom (segments r) ∪ ⋃ (trigger_segments <$> ts).
Proof.
  intros Hk Hsz. revert r w. induction ts as [|t ts IH]; intros r w Hnd Hdis Hlen; cbn [ModuleRuntime.create_servers].
  { exists r, w. split; [done|]. split; [done|]. split; [done|]. split; [by left|].
    split; [by intros t ?%not_elem_of_nil|]. cbn. set_solver. }
  apply NoDup_cons in Hnd as [Hni Hnd]. cbn [length] in Hlen. pose proof Hsz as [S0 [S1 S2] _ _ _ S3].
  assert (forall n, n ∈ trigger_segments t -> accepts (shared_memory_manager_ r) n futex_type) as Hacc.
  { intros n Hn. split; [lia|done| |by eapply trigger_names_valid].
    apply not_elem_of_dom. specialize (Hdis t (list_elem_of_here _ _)). set_solver. }
  destruct (CreateTriggerServer_ok StrError sizeof_header sizeof_futex (Payload (VFutex (sig_new false)) : V)
    futex_type k (trigger_name t) w (shared_memory_manager_ r)) as (req & res & w1 & m1 & -> & He & Hdom & Hsize);
    [done..|apply Hacc; set_solver|apply Hacc; set_solver|lia|].
  set (x := mkRemoteTriggerServer _ _ _ _ _ _). set (r1 := set_server _ _ _).
  destruct (IH r1 w1) as (r' & w' & -> & He' & Hsame & Hoth & Hall & Hdom'); [done|..].
  { intros u Hu. cbn [r1 set_server set_manager shared_memory_manager_]. rewrite Hdom.
    assert (trigger_segments u ## trigger_segments t) as Hd
      by (apply trigger_segments_disjoint; by intros ->).
    specialize (Hdis u (list_elem_of_further _ _ _ Hu)). unfold trigger_segments in Hd at 2. set_solver. }
  { cbn [r1 set_server set_manager shared_memory_manager_]. lia. }
  exists r', w'. split; [done|]. split; [by etrans|]. split; [done|]. split; [|split].
  - intros u. destruct (Hoth u) as [-> | ?]; [|right; by right]. cbn [r1 set_server servers_].
    destruct (decide (u = t)) as [->|Hne]; [right; by left|left]. by rewrite fn_lookup_insert_ne.
  - intros u [->|Hu]%elem_of_cons; [|by apply Hall]. destruct (Hoth t) as [-> | ?]; [|by apply Hall].
    cbn [r1 set_server servers_]. rewrite fn_lookup_insert. by eexists.
  - rewrite Hdom'. cbn [r1 set_server set_manager shared_memory_manager_]. rewrite Hdom. cbn [fmap list_fmap union_list foldr].
    unfold trigger_segments at 2. set_solver.
Qed.

(** What a handle shows is not changed by new segments. *)
Lemma on_extends w w' x i : extends w w' -> on w x i -> on w' x i.
Proof.
  intros (_ & _ & Hm) [Hp Hi]. split; [done|]. destruct (header_ (segment_ x)) as [a|]; [|done]. simpl in *.
  unfold mapped in *. destruct (w_maps w !! a) as [y|] eqn:E; [|done].
  by rewrite (lookup_weaken _ _ _ _ E Hm).
Qed.

Lemma slot_extends w w' i c (v : V) : extends w w' -> slot w i = Some (c, v) -> slot w' i = Some (c, v).
Proof.
  intros (Hf & _) Hs. unfold slot in *. destruct (w_files w !! i) as [f|] eqn:E; [|done].
  by rewrite (lookup_weaken _ _ _ _ E Hf).
Qed.

Lemma extends_attached w kind fd i a b n ty (v : option V) :
  unused w fd i a b -> extends w (attached w kind fd i a b n ty v).
Proof.
  intros [[_ Hfd] Hi (Ha & Hb & Hab)]. repeat split; [by apply insert_subseteq|by apply insert_subseteq|].
  cbn [attached w_maps]. transitivity (<[a := (i, n)]> (w_maps w)); apply insert_subseteq; [done|].
  by rewrite lookup_insert_ne.
Qed.

(** A handle on a new segment. *)
Lemma attached_shows w kind fd i a b n ty (v : V) name sz :
  let x := new_InterfaceHandle (mkMemorySegment name (Some b) (Some (b + sizeof_header)) sz kind) in
  let w' := attached w kind fd i a b n ty (Some v) in
  on w' x i /\ exists c, slot w' i = Some (c, v).
Proof.
  cbn zeta. split; [split; [by eexists|]|].
  - cbn. unfold mapped. simpl. by rewrite lookup_insert_eq.
  - unfold slot. simpl. rewrite lookup_insert_eq. by eexists.
Qed.

Lemma deref_of w x i c (v : V) : on w x i -> slot w i = Some (c, v) -> deref w x = Some v.
Proof. intros Hon Hs. by destruct (on_reads w x i c v Hon Hs). Qed.

(** The handler of a new runtime. *)
Lemma new_Handler_spec (m : M) now0 now1 :
  new_Handler m default_HardwareModuleState now0 now1
  = mkHandler m [] kDeactivated kDeactivated default_HardwareModuleState
      (new_AsyncBuffer default_HardwareModuleState) [] false now0 [] [kDeactivated].
Proof.
  unfold new_Handler, SetStateDirectly. cbn [hd_code hd_shm negb andb].
  rewrite bool_decide_true by done. rewrite bool_decide_true by (by vm_compute). done.
Qed.


(** The names that a runtime registers. *)
Definition runtime_segments : gset string :=
  {[ kHardwareModuleStateName; kIconStateInterfaceName; kControlPeriodInterfaceName ]}
  ∪ ⋃ (trigger_segments <$> triggers).

Lemma empty_accepts (m : SharedMemoryManager) name (ty : string) :
  (size (memory_segments_ m) < kMaxNumberOfSegments)%nat -> name ∉ dom (memory_segments_ m) ->
  (length (chars ty) <= kMaxSize)%nat -> status_ok (VerifyName name) = true -> accepts m name ty.
Proof. intros Hs Hn Ht Hv. split; try done. by apply not_elem_of_dom. Qed.

(** Advertising one of the interfaces of the runtime. *)
Lemma advertise_new kind k T name (buffer : V) n w m :
  reliable k -> 0 <= sizeof_header -> 0 < sizeof_T T <= n -> sizeof_header + n < 2 ^ 64 ->
  verifier T = None -> accepts m name (kTypeString T) -> kind <> kUnknown ->
  exists x i c w' m',
    advertise StrError sizeof_header k T false
      (open_handle StrError sizeof_header kind T k)
      name buffer n w m = Returns (Value x, w', m')
    /\ extends w w' /\ on w' x i /\ slot w' i = Some (c, buffer) /\ w_files w !! i = None
    /\ dom (memory_segments_ m') = {[name]} ∪ dom (memory_segments_ m)
    /\ size (memory_segments_ m') = S (size (memory_segments_ m)).
Proof.
  intros Hk S0 S1 S2 Hv Hacc Hkind.
  destruct (advertise_ok StrError sizeof_header kind k T name false buffer n w m)
    as (fd & i & a & b & Hu & ->); [done..|unfold verified; by rewrite Hv|].
  destruct (attached_shows w kind fd i a b (sizeof_header + n) (kTypeString T) buffer name
    (sizeof_header + n)) as [Hon [c Hs]].
  eexists _, i, c, _, _. split; [done|]. split; [by apply extends_attached|]. split; [done|]. split; [done|].
  split; [apply Hu|]. split; simpl; [by rewrite dom_insert_L|]. apply map_size_insert_None, Hacc.
Qed.

Notation Connect := (Connect (F := F) (O := O) StrError sizeof_header sizeof_futex sizeof_State
  sizeof_IconState sizeof_ControlPeriod size_State size_IconState size_ControlPeriod futex_type).
Notation connect_period := (connect_period (F := F) (O := O) StrError sizeof_header sizeof_futex
  sizeof_IconState sizeof_ControlPeriod size_IconState size_ControlPeriod futex_type).

(** A connected runtime, and what it shows in shared memory. *)
Record connected r w (m : M) (control_period : Z) : Prop := mkConnected {
  co_wf : runtime_wf r;
  co_stopped : has_stopped_ r = false /\ state_change_thread_ r = false;
  co_servers t x : servers_ r t = Some x -> idle x;
  co_handler : exists h, callback_handler_ r = inr h /\ hd_module h = m /\ hd_code h = kDeactivated
    /\ hd_calls h = [] /\ hd_queue h = [] /\ hd_reject h = false;
  co_period : deref w (control_period_interface_ r) = Some (ControlPeriod control_period);
  co_state : state_value w (hardware_module_state_interface_ r) = Some default_HardwareModuleState;
  co_segments : dom (segments r) = runtime_segments }.

(** The control period is written and marked; other segments stay as they are. *)
Lemma UpdateControlPeriod_slot cycle now w x i c (v : V) period :
  on w x i -> slot w i = Some (c, v) -> 0 < period ->
  exists w', UpdateControlPeriod cycle now w x period = (OkStatus, w')
    /\ (forall b, mapped w' b = mapped w b) /\ (forall j, j <> i -> slot w' j = slot w j)
    /\ slot w' i = Some (cycle, ControlPeriod period).
Proof.
  intros Hon Hs Hp. unfold UpdateControlPeriod. rewrite (proj2 (Z.leb_gt _ _)) by done.
  destruct (mutate_slot w x i c v (ControlPeriod period) Hon Hs) as (M1 & O1 & S1).
  set (w1 := mutate _ _ _) in *. assert (on w1 x i) as On1 by (by eapply on_mapped).
  destruct (mark_slot w1 x i _ _ now cycle On1 S1) as (M2 & O2 & S2).
  eexists. split; [done|]. split; [intros b; by rewrite M2|].
  split; [intros j Hj; by rewrite O2, O1|done].
Qed.

(** The first part of [connect_period]: both inbuilt interfaces are advertised, the
    control period is shown, and what was shown before is still there. *)
Lemma connect_period_interfaces k now cycle control_period r w i c (v : V) :
  reliable k -> runtime_sizes -> 0 < control_period ->
  dom (segments r) = {[kHardwareModuleStateName]} -> size (segments r) = 1%nat ->
  on w (hardware_module_state_interface_ r) i -> slot w i = Some (c, v) ->
  exists m ic cp j w',
    connect_period k now cycle control_period r w
      = Returns (create_servers k triggers
          (set_interfaces (set_manager r m) (hardware_module_state_interface_ r) ic cp) w')
    /\ dom (memory_segments_ m)
       = {[kHardwareModuleStateName; kIconStateInterfaceName; kControlPeriodInterfaceName]}
    /\ size (memory_segments_ m) = 3%nat
    /\ on w' cp j /\ slot w' j = Some (cycle, ControlPeriod control_period)
    /\ on w' (hardware_module_state_interface_ r) i /\ slot w' i = Some (c, v).
Proof.
  intros Hk [S0 _ _ [S1 S2] [S3 S4] _] Hp Hdom Hsize Hon Hslot. unfold ModuleRuntime.connect_period.
  destruct (advertise_new kReadOnly k (IconState_type sizeof_IconState) kIconStateInterfaceName BuildIconState
    size_IconState w (shared_memory_manager_ r)) as (ic & i1 & c1 & w1 & m1 & Ha1 & He1 & _ & _ & _ & D1 & Z1);
    [done..|apply empty_accepts; [rewrite Hsize; by vm_compute; lia|rewrite Hdom; set_solver|vm_compute; lia|done]|done|].
  change (Interfaces.AdvertiseInterface StrError sizeof_header k (IconState_type sizeof_IconState)
    kIconStateInterfaceName BuildIconState size_IconState w (shared_memory_manager_ r) = Returns (Value ic, w1, m1)) in Ha1.
  rewrite Ha1.
  cbn [cbind set_interfaces set_manager shared_memory_manager_].
  destruct (advertise_new kReadWrite k (ControlPeriod_type sizeof_ControlPeriod) kControlPeriodInterfaceName
    BuildControlPeriod size_ControlPeriod w1 m1) as (cp & i2 & c2 & w2 & m2 & Ha2 & He2 & On2 & Sl2 & New2 & D2 & Z2);
    [done..|apply empty_accepts;
      [rewrite Z1, Hsize; by vm_compute; lia|rewrite D1, Hdom; set_solver|vm_compute; lia|done]|done|].
  change (Interfaces.AdvertiseMutableInterface StrError sizeof_header k (ControlPeriod_type sizeof_ControlPeriod)
    kControlPeriodInterfaceName BuildControlPeriod size_ControlPeriod w1 m1 = Returns (Value cp, w2, m2)) in Ha2.
  rewrite Ha2. cbn [cbind].
  rewrite (proj2 (Z.leb_gt _ _)) by done.
  destruct (UpdateControlPeriod_slot cycle (now 2%nat) w2 cp i2 c2 _ control_period On2 Sl2 Hp)
    as (w3 & -> & Mp3 & Oth3 & Sl3). cbn [negb status_ok st_code OkStatus].
  apply (slot_extends _ _ _ _ _ He1) in Hslot.
  assert (i <> i2) as Hne. { intros ->. unfold slot in Hslot. by rewrite New2 in Hslot. }
  exists m2, ic, cp, i2, w3. split; [done|]. split; [rewrite D2, D1, Hdom; set_solver|].
  split; [by rewrite Z2, Z1, Hsize|]. split; [by eapply on_mapped|]. split; [done|]. split.
  - eapply on_mapped; [exact Mp3|]. eapply on_extends; [exact He2|]. by eapply on_extends.
  - rewrite Oth3 by done. by eapply slot_extends.
Qed.

Lemma connect_period_ok k now cycle control_period r w h i c :
  reliable k -> runtime_sizes -> 0 < control_period ->
  callback_handler_ r = inr h -> hd_shm h = default_HardwareModuleState ->
  (forall t, servers_ r t = None) -> has_stopped_ r = false -> state_change_thread_ r = false ->
  dom (segments r) = {[kHardwareModuleStateName]} -> size (segments r) = 1%nat ->
  on w (hardware_module_state_interface_ r) i ->
  slot w i = Some (c, Payload (VState default_HardwareModuleState)) ->
  hd_code h = kDeactivated -> hd_calls h = [] -> hd_queue h = [] -> hd_reject h = false ->
  exists r' w', connect_period k now cycle control_period r w = Returns (OkStatus, r', w')
    /\ connected r' w' (hd_module h) control_period /\ domain_socket_server_ r' = domain_socket_server_ r.
Proof.
  intros Hk Hsz Hp Hh Hshm Hns Hst Hth Hdom Hsize Hon Hslot Hc1 Hc2 Hc3 Hc4.
  destruct (connect_period_interfaces k now cycle control_period r w i c
    (Payload (VState default_HardwareModuleState))) as (m & ic & cp & j & w1 & -> & D & Z & OnP & SlP & OnS & SlS);
    [done..|]. set (r1 := set_interfaces _ _ _ _).
  destruct (create_servers_ok k triggers r1 w1) as (r' & w' & -> & He & Hsame & _ & Hall & HD); try done.
  { apply (bool_decide_unpack _). by vm_compute. }
  { intros t _. cbn [r1 set_interfaces set_manager shared_memory_manager_]. rewrite D.
    destruct (inbuilt_not_trigger t) as (? & ? & ?). set_solver. }
  { cbn [r1 set_interfaces set_manager shared_memory_manager_]. rewrite Z. vm_compute. lia. }
  destruct Hsame as (E1 & E2 & E3 & E4 & E5 & E6 & E7).
  assert (forall t, exists x, servers_ r' t = Some x /\ idle x) as Hsv by (intros t; apply Hall, all_triggers).
  exists r', w'. split; [done|]. split; [|by rewrite E2]. split.
  - split; [exists h; by rewrite E3|intros t; destruct (Hsv t) as (x & -> & _); by eexists|].
    intros t x Hx _. destruct (Hsv t) as (y & Hy & Hid). congruence.
  - by rewrite E1, E7.
  - intros t x Hx. destruct (Hsv t) as (y & Hy & Hid). congruence.
  - exists h. by rewrite E3.
  - rewrite E6. eapply deref_of; [by eapply on_extends|by eapply slot_extends].
  - rewrite E4. unfold state_value. cbn [r1 set_interfaces set_manager hardware_module_state_interface_].
    erewrite deref_of; [|by eapply on_extends|by eapply slot_extends]. reflexivity.
  - rewrite HD. cbn [r1 set_interfaces set_manager shared_memory_manager_]. by rewrite D.
Qed.

Notation CreateRuntime := (CreateRuntime (F := F) (O := O) StrError sizeof_header sizeof_futex sizeof_State
  sizeof_IconState sizeof_ControlPeriod size_State size_IconState size_ControlPeriod futex_type).

Lemma Connect_ok k now cycle control_period (m : M) manager server w :
  reliable k -> runtime_sizes -> 0 < control_period ->
  memory_segments_ manager = ∅ ->
  exists r w', Connect k now cycle control_period (new_Runtime m manager server) w = Returns (OkStatus, r, w')
    /\ connected r w' m control_period /\ domain_socket_server_ r = Some server.
Proof.
  intros Hk Hsz Hp Hm. pose proof Hsz as [S0 _ [S1 S2] _ _ _]. unfold ModuleRuntime.Connect.
  destruct (advertise_new kReadWrite k (State_type sizeof_State) kHardwareModuleStateName
    (Payload (VState default_HardwareModuleState)) size_State w (shared_memory_manager_ (new_Runtime m manager server)))
    as (x & i & c & w1 & m1 & Ha & He & On & Sl & _ & D & Z);
    [done..|apply empty_accepts; cbn [new_Runtime shared_memory_manager_];
      [rewrite Hm, map_size_empty; vm_compute; lia|rewrite Hm; set_solver|vm_compute; lia|done]|done|].
  change (Interfaces.AdvertiseMutableInterface StrError sizeof_header k (State_type sizeof_State)
    kHardwareModuleStateName (Payload (VState default_HardwareModuleState)) size_State w
    (shared_memory_manager_ (new_Runtime m manager server)) = Returns (Value x, w1, m1)) in Ha.
  rewrite Ha. cbn [cbind]. cbn [set_interfaces set_manager callback_handler_ new_Runtime].
  unfold state_value. rewrite (deref_of w1 x i c _ On Sl). rewrite new_Handler_spec. set (h := mkHandler _ _ _ _ _ _ _ _ _ _ _).
  unfold sync. cbn [hardware_module_state_interface_ set_interfaces hd_shm h].
  destruct (mutate_slot w1 x i c _ (Payload (VState default_HardwareModuleState)) On Sl) as (Mp & _ & Sl').
  set (w2 := mutate _ _ _) in *. cbn [shared_memory_manager_ new_Runtime] in D, Z.
  match goal with |- context [ModuleRuntime.connect_period _ _ _ _ _ _ _ _ _ _ _ _ ?r _] => set (r1 := r) end.
  destruct (connect_period_ok k now cycle control_period r1 w2 h i c) as (r & w' & Hc & Hco & Hd); try done.
  - cbn. rewrite D, Hm, dom_empty_L. set_solver.
  - cbn. by rewrite Z, Hm, map_size_empty.
  - eapply on_mapped; [exact Mp|exact On].
  - exists r, w'. split; [exact Hc|]. split; [exact Hco|exact Hd].
Qed.

(** C30: A module can be created on a working kernel: with a new shared memory manager, a
    positive control period and a free name, [Create] returns a runtime that owns the
    domain socket server and its nine idle trigger servers; exactly the segments of the
    triggers and the three inbuilt interfaces are registered; shared memory shows the
    control period and the state kDeactivated; no method of the module has been
    called. *)
Theorem create_connects cenv k close_futex now cycle control_period (m : M) manager w s server s1 :
  reliable k -> runtime_sizes -> 0 < control_period -> memory_segments_ manager = ∅ ->
  CreateServer StrError cenv (SocketDirectoryFromNamespace (SharedMemoryNamespace manager))
    (ModuleName manager) kDefaultLockAcquireTimeout kDomainSocketProtocolVersion s
  = (Some (Value server), s1) ->
  exists r w', CreateRuntime cenv k close_futex now cycle control_period (Some manager) (Some m) w s
      = Some (Returns (Value r, w', s1))
    /\ connected r w' m control_period /\ domain_socket_server_ r = Some server.
Proof.
  intros Hk Hsz Hp Hm Hs. unfold ModuleRuntime.CreateRuntime. rewrite (proj2 (Z.leb_gt _ _)) by done. rewrite Hs.
  destruct (Connect_ok k now cycle control_period m manager server w Hk Hsz Hp Hm) as (r & w' & -> & Hc & Hd).
  cbn [negb status_ok st_code OkStatus]. exists r, w'. split; [done|]. split; [exact Hc|exact Hd].
Qed.

(** The arguments that [Create] refuses, before it touches anything. *)
Lemma create_refuses cenv k close_futex now cycle control_period manager (module : option M) w s :
  manager = None \/ module = None \/ control_period <= 0 ->
  exists st, CreateRuntime cenv k close_futex now cycle control_period manager module w s
      = Some (Returns (Unexpected st, w, s)) /\ st_code st = kInvalidArgument.
Proof.
  intros Hc. unfold ModuleRuntime.CreateRuntime. destruct manager, module; try (by eexists).
  rewrite (proj2 (Z.leb_le _ _)) by (by destruct Hc as [?|[?|?]]). by eexists.
Qed.

End Connected.

(** ** Witnesses *)

#[local] Instance iter_sorted : IterOrder := {
  iter := fun _ m => map_to_list m; iter_perm := fun _ _ => reflexivity _ }.

(** A module that does nothing. *)
#[local] Instance quiet_module : HardwareModule unit := {
  hm_status := fun m _ => (OkStatus, m); hm_rt := fun m _ => (RtOkStatus, m) }.

Definition ex_sys : sys := mkSys ∅ ∅ ∅ ∅.
Definition ex_cenv : create_env :=
  mkCreateEnv None (mkLockEnv 0 (inr 7) [(None, 0)]) None (inr 8) None None None None.
Definition ex_mgr : SharedMemoryManager := mkSharedMemoryManager ∅ ∅ "module" "ns".
Definition ex_server : expected DomainSocketServer Status * sys :=
  match CreateServer (fun _ => "error") ex_cenv (SocketDirectoryFromNamespace "ns") "module" 0
          kDomainSocketProtocolVersion ex_sys with
  | (Some x, s) => (x, s)
  | (None, s) => (Unexpected OkStatus, s)
  end.
Definition ex_value : Type := payload (rt_value BinaryFutex unit).
Definition ex_created :=
  CreateRuntime (F := BinaryFutex) (O := unit) (fun _ => "error") 256 4 272 8 8 288 24 24 "futex" ex_cenv
    (free_kernel ex_value) id (fun _ => 0) 0 1000000 (Some ex_mgr) (Some tt) (mkWorld ∅ ∅ ∅) ex_sys.

Lemma create_connects_witness :
  exists r w' s', ex_created = Some (Returns (Value r, w', s')) /\ connected r w' tt 1000000.
Proof.
  assert (exists server s1, ex_server = (Value server, s1)) as (server & s1 & Hs) by (vm_compute; eauto).
  destruct (create_connects (F := BinaryFutex) (O := unit) (fun _ => "error") 256 4 272 8 8 288 24 24 "futex"
    ex_cenv (free_kernel ex_value) id (fun _ => 0) 0 1000000 tt ex_mgr (mkWorld ∅ ∅ ∅) ex_sys server s1)
    as (r & w' & Hc & Hco & _).
  - apply free_kernel_reliable.
  - split; try (split; lia); cbn; unfold kMaxSize; lia.
  - lia.
  - reflexivity.
  - revert Hs. unfold ex_server. change kDefaultLockAcquireTimeout with 0.
    change (SharedMemoryNamespace ex_mgr) with "ns"%string. change (ModuleName ex_mgr) with "module"%string.
    destruct (CreateServer _ _ _ _ _ _ _) as [[x|] s]; [|discriminate]. intros Hs. by inversion Hs.
  - exists r, w', s1. exact (conj Hc Hco).
Defined.

Definition ex_runtime : Runtime (M := unit) :=
  mkRuntime false ex_mgr
    (Some (mkDomainSocketServer kDomainSocketProtocolVersion 8 7 [] "/tmp/module.sock" "/tmp/module.lock" false false))
    (inr (new_Handler tt default_HardwareModuleState 0 0))
    (fun t => Some (mkRemoteTriggerServer (trigger_name t) true false default_MemorySegment default_MemorySegment false))
    empty_handle empty_handle empty_handle false.
Definition ex_env : run_env (F := BinaryFutex) (O := unit) (M := unit) :=
  mkRunEnv (fun _ => true) (fun _ => OkStatus) (fun m w mgr => (OkStatus, m, w, mgr)) 0
    (mkServeEnv (inr (1024, 1024)) None true).
Definition ex_no_world : world ex_value := mkWorld ∅ ∅ ∅.

Definition run_status {A B} (c : checked (Status * A * B)) : option Status :=
  match c with Returns (st, _, _) => Some st | Aborts _ => None end.

Lemma run_started_or_stopped_witness :
  exists r' w', Run (fun _ => "error") 256 76800 (free_kernel ex_value) ex_env ex_runtime ex_no_world
                = Returns (OkStatus, r', w') /\ runtime_IsStarted r' = true.
Proof.
  destruct (run_started_or_stopped (fun _ => "error") 256 76800 (free_kernel ex_value) ex_env ex_runtime ex_no_world)
    as (st & r' & w' & Hr & _ & Hok & _).
  - split; [eexists; reflexivity|intros t; eexists; reflexivity|intros t x [= <-] _; by split].
  - intros t x [= <-]. by split.
  - reflexivity.
  - assert (run_status (Run (fun _ => "error") 256 76800 (free_kernel ex_value) ex_env ex_runtime ex_no_world)
            = Some OkStatus) as E by (vm_compute; reflexivity).
    rewrite Hr in E. injection E as ->. exists r', w'. split; [exact Hr|].
    destruct (Hok eq_refl) as (_ & _ & Hs). exact Hs.
Defined.

(** The scheduling of the ReadStatus thread is refused: [Run] returns OK, and the server
    is not running. *)
Definition ex_env_refused : run_env (F := BinaryFutex) (O := unit) (M := unit) :=
  mkRunEnv (fun _ => true)
    (fun t => match t with
              | TReadStatus => FormatStatus kPermissionDenied
                  "Permission denied setting priority and scheduler"
              | _ => OkStatus
              end)
    (fun m w mgr => (OkStatus, m, w, mgr)) 0 (mkServeEnv (inr (1024, 1024)) None true).

Lemma run_hides_failed_prelude :
  match Run (fun _ => "error") 256 76800 (free_kernel ex_value) ex_env_refused ex_runtime ex_no_world with
  | Returns (st, r, _) => st = OkStatus /\ runtime_IsStarted r = false
  | Aborts _ => False
  end.
Proof. vm_compute. by split. Qed.
