(* ===== verification/Doubles.v ===== *)
(** * IEEE 754 doubles

    A C++ [double] is a [spec_float] of the Standard Library at precision 53 and
    largest exponent 1024 whose mantissa is canonical ([is_double]).  Arithmetic and
    comparisons are those of [SpecFloat], which compute; NaN has no payload.

    The lemmas are what the joint limits need: [==] on doubles identifies exactly the
    two zeros and separates NaN from everything, and the sign of a difference decides
    the order of its operands, because a subtraction of doubles never underflows to
    zero. *)
From Stdlib Require Export SpecFloat.
From S2P Require Import Prelude.

Definition double : Set := spec_float.

Definition prec : Z := 53.
Definition emax : Z := 1024.

(** The bit patterns of a double are the canonical values. *)
Definition is_double (x : double) : Prop := valid_binary prec emax x = true.

Definition zero : double := S754_zero false.
Definition infinity : double := S754_infinity false.
Definition NaN : double := S754_nan.

Definition opp : double -> double := SFopp.
Definition sub : double -> double -> double := SFsub prec emax.

(** [x == y], [x <= y] and [std::isnan(x)] *)
Definition eqb : double -> double -> bool := SFeqb.
Definition leb : double -> double -> bool := SFleb.
Definition isnan (x : double) : bool := match x with S754_nan => true | _ => false end.

#[export] Instance double_eq_dec : EqDecision double.
Proof. unfold double. solve_decision. Defined.

#[export] Instance double_inhabited : Inhabited double := populate zero.

(** ** Equality *)

(** The representative of a double under [==]: both zeros are the same. *)
Definition canon (x : double) : double :=
  match x with S754_zero _ => S754_zero false | _ => x end.

Lemma eqb_canon x y : eqb x y = negb (isnan x) && bool_decide (canon x = canon y).
Proof.
  destruct x as [s|s| |s m e], y as [s'|s'| |s' m' e']; try done;
    try (by destruct s); try (by destruct s, s'); unfold eqb, SFeqb; simpl.
  replace (Pos.compare_cont Eq m m') with (m ?= m')%positive by done.
  destruct s, s', (Z.compare_spec e e'); subst; try (by rewrite bool_decide_eq_false_2 by (intros [=]; lia)).
  all: destruct (Pos.compare_spec m m'); subst; simpl;
    try (by rewrite bool_decide_eq_false_2 by (intros [=]; lia)); by rewrite bool_decide_eq_true_2.
Qed.

(** ** Rounding keeps a positive magnitude positive *)

Lemma digits2_bounds m :
  2 ^ (Zpos (digits2_pos m) - 1) <= Zpos m < 2 ^ Zpos (digits2_pos m).
Proof.
  induction m as [m IH|m IH|]; simpl digits2_pos; [| |simpl; lia].
  all: rewrite Pos2Z.inj_succ, Z.pow_succ_r by lia.
  all: replace (Z.succ (Zpos (digits2_pos m)) - 1) with (Z.succ (Zpos (digits2_pos m) - 1)) by lia.
  all: rewrite Z.pow_succ_r by lia; lia.
Qed.

Lemma shr_1_half r : 0 <= shr_m r -> shr_m (shr_1 r) = shr_m r / 2.
Proof.
  destruct r as [[|[p|p|]|p] b s]; simpl; intros ?; try done; try lia.
  - rewrite Pos2Z.inj_xI, (Z.mul_comm 2), Z.div_add_l by lia.
    change (1 / 2) with 0. lia.
  - by rewrite Pos2Z.inj_xO, Z.mul_comm, Z.div_mul.
Qed.

Lemma iter_shr_1 p r : 0 <= shr_m r ->
  shr_m (SpecFloat.iter_pos shr_1 p r) = shr_m r / 2 ^ Zpos p.
Proof.
  revert r. induction p as [p IH|p IH|]; intros r Hr; cbn [SpecFloat.iter_pos].
  - assert (0 <= shr_m (shr_1 r)) by (rewrite shr_1_half by done; apply Z.div_pos; lia).
    rewrite IH by (rewrite IH by done; apply Z.div_pos; lia). rewrite IH by done.
    rewrite shr_1_half by done. rewrite !Z.div_div by lia.
    f_equal. rewrite (Pos2Z.inj_xI p), Z.pow_add_r, Z.pow_twice_r by lia. lia.
  - rewrite IH by (rewrite IH by done; apply Z.div_pos; lia). rewrite IH by done.
    rewrite Z.div_div by lia. f_equal. rewrite (Pos2Z.inj_xO p), Z.pow_twice_r. lia.
  - by apply shr_1_half.
Qed.

(** The smallest exponent of a double. *)
Definition lowest : Z := emin prec emax.

(** Normalising a positive magnitude at an exponent of the format keeps it positive:
    only the bits beyond the precision are dropped. *)
Lemma shr_fexp_pos m e : lowest <= e ->
  let '(r, e') := shr_fexp prec emax (Zpos m) e loc_Exact in
  0 < shr_m r /\ lowest <= e'.
Proof.
  intros He. unfold shr_fexp, shr, fexp, Zdigits2. fold lowest. simpl shr_record_of_loc.
  destruct (Z.max _ _ - e) as [|p|p] eqn:Hn; [simpl; lia| |simpl; lia].
  rewrite iter_shr_1 by (simpl; lia). simpl shr_m. split; [|lia].
  pose proof (digits2_bounds m) as [Hm _]. apply Z.div_str_pos. split; [lia|].
  etransitivity; [|exact Hm]. apply Z.pow_le_mono_r; [lia|]. unfold prec in Hn. lia.
Qed.

Lemma round_even_pos m l : 0 < m -> exists p, round_nearest_even m l = Zpos p.
Proof.
  intros. exists (Z.to_pos (round_nearest_even m l)). rewrite Z2Pos.id; [done|].
  unfold round_nearest_even. repeat case_match; lia.
Qed.

(** A non-zero value of the sign [s]. *)
Definition has_sign (s : bool) (x : double) : bool :=
  match x with
  | S754_finite s' _ _ | S754_infinity s' => Bool.eqb s s'
  | _ => false
  end.

Lemma binary_round_sign s m e : lowest <= e -> has_sign s (binary_round prec emax s m e) = true.
Proof.
  intros He. unfold binary_round.
  destruct (shl_align _ _ _) as [mz ez] eqn:Ha.
  assert (lowest <= ez).
  { unfold shl_align in Ha. unfold fexp in Ha. fold lowest in Ha.
    destruct (Z.max _ _ - e) eqn:?; simplify_eq; lia. }
  unfold binary_round_aux. pose proof (shr_fexp_pos mz ez ltac:(done)) as H1.
  destruct (shr_fexp _ _ (Zpos mz) _ _) as [r1 e1]. destruct H1 as [Hr1 He1].
  destruct (round_even_pos (shr_m r1) (loc_of_shr_record r1) Hr1) as [p ->].
  pose proof (shr_fexp_pos p e1 He1) as H2.
  destruct (shr_fexp _ _ (Zpos p) _ _) as [r2 e2]. destruct H2 as [Hr2 _].
  destruct (shr_m r2) as [|q|q]; [lia| |lia]. by case_match; destruct s.
Qed.

(** ** Order *)

(** A magnitude [m * 2 ^ (e - ez)]. *)
Definition aligned (m : positive) (e ez : Z) : Z := Zpos (fst (shl_align m e ez)).

Lemma aligned_spec m e ez : ez <= e -> aligned m e ez = Zpos m * 2 ^ (e - ez).
Proof.
  intros. unfold aligned, shl_align. destruct (ez - e) as [|p|p] eqn:Hd; [|lia|].
  - replace (e - ez) with 0 by lia. simpl. lia.
  - replace (e - ez) with (Zpos p) by lia. simpl fst.
    clear Hd. induction p as [|p IH] using Pos.peano_ind; [simpl; lia|].
    rewrite Pos.iter_succ, Pos2Z.inj_xO, IH, Pos2Z.inj_succ, Z.pow_succ_r by lia. lia.
Qed.

(** Of two canonical magnitudes the one with the smaller exponent is smaller. *)
Lemma canonical_lt m1 e1 m2 e2 :
  canonical_mantissa prec emax m1 e1 = true -> canonical_mantissa prec emax m2 e2 = true ->
  e1 < e2 -> Zpos m1 < Zpos m2 * 2 ^ (e2 - e1).
Proof.
  unfold canonical_mantissa, fexp. fold lowest. intros H1%Z.eqb_eq H2%Z.eqb_eq He.
  pose proof (digits2_bounds m1) as [_ Hm1]. pose proof (digits2_bounds m2) as [Hm2 _].
  assert (Zpos (digits2_pos m1) <= prec) by lia.
  assert (Zpos (digits2_pos m2) = prec) as Hd2 by lia.
  rewrite Hd2 in Hm2. unfold prec in *.
  pose proof (Z.pow_le_mono_r 2 (Zpos (digits2_pos m1)) 53 ltac:(lia) ltac:(lia)).
  pose proof (Z.pow_le_mono_r 2 1 (e2 - e1) ltac:(lia) ltac:(lia)). lia.
Qed.

(** The comparison of magnitudes by exponent and mantissa is the comparison of the
    aligned magnitudes. *)
Lemma magnitude_compare m1 e1 m2 e2 :
  canonical_mantissa prec emax m1 e1 = true -> canonical_mantissa prec emax m2 e2 = true ->
  match (e1 ?= e2)%Z with Lt => Lt | Gt => Gt | Eq => (m1 ?= m2)%positive end =
  (aligned m1 e1 (Z.min e1 e2) ?= aligned m2 e2 (Z.min e1 e2))%Z.
Proof.
  intros H1 H2. rewrite !aligned_spec by lia. destruct (Z.compare_spec e1 e2) as [->|He|He].
  - rewrite Z.min_id, Z.sub_diag, Z.mul_1_r, Z.mul_1_r. done.
  - rewrite Z.min_l, Z.sub_diag, Z.mul_1_r by lia. symmetry. apply Z.compare_lt_iff.
    by apply canonical_lt.
  - rewrite Z.min_r, Z.sub_diag, Z.mul_1_r by lia. symmetry. apply Z.compare_gt_iff.
    by apply canonical_lt.
Qed.

Lemma normalize_leb d e : lowest <= e ->
  leb zero (binary_normalize prec emax d e false) = (0 <=? d).
Proof.
  intros He. destruct d as [|m|m]; [done| |]; simpl binary_normalize.
  - pose proof (binary_round_sign false m e He) as H. by destruct (binary_round _ _ _ _ _) as [|[]| |[]].
  - pose proof (binary_round_sign true m e He) as H. by destruct (binary_round _ _ _ _ _) as [|[]| |[]].
Qed.

(** The sign of a difference decides the order of its operands. *)
Lemma sub_nonneg x y : is_double x -> is_double y -> isnan (sub x y) = false ->
  leb zero (sub x y) = leb y x.
Proof.
  unfold is_double. intros Hx Hy Hn.
  destruct x as [s1|s1| |s1 m1 e1], y as [s2|s2| |s2 m2 e2]; try done;
    try (by destruct s1, s2); try (by destruct s1); try (by destruct s2).
  unfold sub, SFsub. fold (aligned m1 e1 (Z.min e1 e2)). fold (aligned m2 e2 (Z.min e1 e2)).
  simpl in Hx, Hy. unfold bounded in Hx, Hy. apply andb_true_iff in Hx as [Hx _], Hy as [Hy _].
  rewrite normalize_leb.
  2: { unfold canonical_mantissa, fexp in Hx, Hy. fold lowest in Hx, Hy.
       apply Z.eqb_eq in Hx, Hy. lia. }
  pose proof (magnitude_compare m2 e2 m1 e1 Hy Hx) as Hc. rewrite (Z.min_comm e2 e1) in Hc.
  unfold leb, SFleb, SFcompare. change (Pos.compare_cont Eq m2 m1) with (m2 ?= m1)%positive.
  assert (0 < aligned m1 e1 (Z.min e1 e2)) by (unfold aligned; lia).
  assert (0 < aligned m2 e2 (Z.min e1 e2)) by (unfold aligned; lia).
  clear Hn. revert Hc. generalize dependent (aligned m1 e1 (Z.min e1 e2)). intros a1 ?.
  generalize dependent (aligned m2 e2 (Z.min e1 e2)). intros a2 ? Hc.
  destruct s1, s2; simpl cond_Zopp; [|by apply Z.leb_gt; lia|by apply Z.leb_le; lia|];
    destruct (Z.compare_spec a2 a1), (e2 ?= e1)%Z, (m2 ?= m1)%positive; simplify_eq/=;
    (apply Z.leb_le; lia) || (apply Z.leb_gt; lia).
Qed.

(** A difference is NaN only if an operand is, or for equal infinities. *)
Definition subtractable (x y : double) : bool :=
  match x, y with
  | S754_nan, _ | _, S754_nan => false
  | S754_infinity s, S754_infinity s' => negb (Bool.eqb s s')
  | _, _ => true
  end.

Lemma sub_not_nan x y : is_double x -> is_double y -> isnan (sub x y) = negb (subtractable x y).
Proof.
  unfold is_double. intros Hx Hy.
  destruct x as [s1|s1| |s1 m1 e1], y as [s2|s2| |s2 m2 e2]; try done;
    try (by destruct s1, s2); try (by destruct s1); try (by destruct s2).
  simpl in Hx, Hy. unfold bounded, canonical_mantissa, fexp in Hx, Hy. fold lowest in Hx, Hy.
  apply andb_true_iff in Hx as [Hx%Z.eqb_eq _], Hy as [Hy%Z.eqb_eq _].
  unfold sub, SFsub. simpl subtractable.
  match goal with |- context [binary_normalize _ _ ?z _ _] => destruct z as [|d|d] end;
    [done| |]; simpl binary_normalize.
  - pose proof (binary_round_sign false d (Z.min e1 e2) ltac:(lia)) as H.
    by destruct (binary_round _ _ _ _ _) as [|[]| |[]].
  - pose proof (binary_round_sign true d (Z.min e1 e2) ltac:(lia)) as H.
    by destruct (binary_round _ _ _ _ _) as [|[]| |[]].
Qed.

Lemma opp_double x : is_double x -> is_double (opp x).
Proof. by destruct x. Qed.

#[export] Hint Resolve opp_double : icon.

(** [<=] is the lexicographic order of a sign and class, the exponent and the mantissa. *)
Definition rank (x : double) : Z * Z * Z :=
  match x with
  | S754_infinity true => (-2, 0, 0)
  | S754_finite true m e => (-1, - e, - Zpos m)
  | S754_zero _ | S754_nan => (0, 0, 0)
  | S754_finite false m e => (1, e, Zpos m)
  | S754_infinity false => (2, 0, 0)
  end.

Definition rank_le (r r' : Z * Z * Z) : Prop :=
  let '(c, e, m) := r in let '(c', e', m') := r' in
  c < c' \/ c = c' /\ (e < e' \/ e = e' /\ m <= m').

Lemma leb_rank x y :
  leb x y = true <-> isnan x = false /\ isnan y = false /\ rank_le (rank x) (rank y).
Proof.
  destruct x as [s1|s1| |s1 m1 e1], y as [s2|s2| |s2 m2 e2]; unfold leb, SFleb, rank_le; simpl;
    repeat match goal with s : bool |- _ => destruct s end; simpl;
    try (split; [intros [=]|]; by (lia || intros (? & ? & ?); try lia));
    try (split; [intros _; repeat split; lia | done]); try (split; [done | intros (? & ? & ?); (done || lia)]).
  all: change (PosDef.Pos.compare_cont Eq m1 m2) with (m1 ?= m2)%positive;
    destruct (Z.compare_spec e1 e2); subst; try destruct (Pos.compare_spec m1 m2); subst;
    simpl; split; intros; try done; try lia.
Qed.

Lemma leb_trans x y z : leb x y = true -> leb y z = true -> leb x z = true.
Proof.
  rewrite !leb_rank. unfold rank_le.
  destruct (rank x) as [[??]?], (rank y) as [[??]?], (rank z) as [[??]?]. intuition lia.
Qed.

Lemma leb_total x y : isnan x = false -> isnan y = false -> leb x y = false -> leb y x = true.
Proof.
  intros Hx Hy Hn. apply not_true_iff_false in Hn. rewrite leb_rank in Hn |- *. unfold rank_le in *.
  destruct (rank x) as [[??]?], (rank y) as [[??]?]. intuition lia.
Qed.

Lemma leb_refl x : isnan x = false -> leb x x = true.
Proof.
  intros. rewrite leb_rank. unfold rank_le. destruct (rank x) as [[??]?]. intuition lia.
Qed.

Lemma leb_not_nan x y : leb x y = true -> isnan x = false /\ isnan y = false.
Proof. rewrite leb_rank. tauto. Qed.

(** A bound and its negation *)
Lemma opp_leb x : leb zero x = true -> leb (opp x) x = true.
Proof. by destruct x as [|[]| |[]]. Qed.

Lemma opp_subtractable x : isnan x = false -> subtractable x (opp x) = true.
Proof. by destruct x as [|[]| |]. Qed.
