(* ===== verification/JointLimits.v ===== *)
(** * Joint limits ([kinematics/types/joint_limits.{h,cc}], [eigenmath/types.h])

    An [eigenmath::VectorNd] is the list of its elements; its storage has room for
    [MAX_EIGEN_VECTOR_SIZE] of them.  A size or an index outside of the contract of Eigen
    (an [eigen_assert]) ends in [Aborts].  [minCoeff] of Eigen is an argument: Eigen
    documents its result for vectors without NaN only ([minCoeff_ok]).

    [IsValid] is compared with the pointwise definition of valid limits, and
    [operator==] with equality up to the sign of zero. *)
From S2P Require Import Prelude Status Doubles.

(** [eigenmath::MAX_EIGEN_VECTOR_SIZE] *)
Definition MAX_EIGEN_VECTOR_SIZE : Z := 25.

(** [eigenmath::VectorNd] *)
Abbreviation VectorNd := (list double).

(** [size()], an [Index] *)
Definition vec_size (v : VectorNd) : Z := Z.of_nat (length v).

(** [VectorNd::Constant(size, x)] *)
Definition Constant (size : Z) (x : double) : checked VectorNd :=
  let! _ := check ((0 <=? size) && (size <=? MAX_EIGEN_VECTOR_SIZE)) "eigen_assert" in
  Returns (replicate (Z.to_nat size) x).

(** [v.setConstant(x)] *)
Definition setConstant (v : VectorNd) (x : double) : VectorNd := replicate (length v) x.

(** [v[i] = x] *)
Definition vec_set (v : VectorNd) (i : nat) (x : double) : checked VectorNd :=
  let! _ := check (bool_decide (i < length v)%nat) "eigen_assert" in
  Returns (<[i := x]> v).

(** [for (i = 0; i < n; ++i) body] *)
Fixpoint for_loop {S} (n : nat) (body : nat -> S -> checked S) (s : S) : checked S :=
  match n with
  | O => Returns s
  | S n' => let! s' := for_loop n' body s in body n' s'
  end.

(** [struct JointLimits] *)
Record JointLimits := mkJointLimits {
  min_position : VectorNd;
  max_position : VectorNd;
  max_velocity : VectorNd;
  max_acceleration : VectorNd;
  max_jerk : VectorNd;
  max_torque : VectorNd }.

#[export] Instance JointLimits_eq_dec : EqDecision JointLimits.
Proof. solve_decision. Defined.

(** [JointLimits limits;] *)
Definition default_JointLimits : JointLimits := mkJointLimits [] [] [] [] [] [].

(** [JointLimits::kMaxSize] *)
Definition kMaxSize : Z := MAX_EIGEN_VECTOR_SIZE.

(** [JointLimits::size] *)
Definition limits_size (l : JointLimits) : Z := vec_size (min_position l).

(** [JointLimits::IsSizeConsistent] *)
Definition IsSizeConsistent (l : JointLimits) : bool :=
  let size := limits_size l in
  (vec_size (min_position l) =? size) && (vec_size (max_position l) =? size) &&
  (vec_size (max_velocity l) =? size) && (vec_size (max_acceleration l) =? size) &&
  (vec_size (max_jerk l) =? size) && (vec_size (max_torque l) =? size).

(** [JointLimits::SetSize] *)
Definition SetSize (size : Z) (l : JointLimits) : checked (RealtimeStatus * JointLimits) :=
  if kMaxSize <? size then
    Returns (FormatRealtimeStatus kInvalidArgument
               ("size=" +:+ pretty size +:+ " exceeds max size=" +:+ pretty kMaxSize), l)
  else
    let! min_position := Constant size zero in
    let! max_position := Constant size zero in
    let! max_velocity := Constant size zero in
    let! max_acceleration := Constant size zero in
    let! max_jerk := Constant size zero in
    let! max_torque := Constant size zero in
    Returns (RtOkStatus,
      mkJointLimits min_position max_position max_velocity max_acceleration max_jerk max_torque).

(** [JointLimits::SetUnlimited] *)
Definition SetUnlimited (l : JointLimits) : JointLimits :=
  mkJointLimits (setConstant (min_position l) (opp infinity))
    (setConstant (max_position l) infinity)
    (setConstant (max_velocity l) infinity)
    (setConstant (max_acceleration l) infinity)
    (setConstant (max_jerk l) infinity)
    (setConstant (max_torque l) infinity).

(** [JointLimits::Unlimited]; the [size_t] is converted to the signed [Index]. *)
Definition Unlimited (size : Z) : checked (expected JointLimits RealtimeStatus) :=
  let! (status, limits) := SetSize (wrap_s 64 size) default_JointLimits in
  if negb (rt_ok status) then Returns (Unexpected status)
  else Returns (Value (SetUnlimited limits)).

(** One iteration of the loop of [CreateSimpleJointLimits]. *)
Definition simple_body (max_pos max_vel max_acc max_j : double) (i : nat) (l : JointLimits)
  : checked JointLimits :=
  let! min_position := vec_set (min_position l) i (opp max_pos) in
  let! max_position := vec_set (max_position l) i max_pos in
  let! max_velocity := vec_set (max_velocity l) i max_vel in
  let! max_acceleration := vec_set (max_acceleration l) i max_acc in
  let! max_jerk := vec_set (max_jerk l) i max_j in
  Returns (mkJointLimits min_position max_position max_velocity max_acceleration max_jerk
             (max_torque l)).

(** [CreateSimpleJointLimits(ndof, ..., max_jerk)] *)
Definition CreateSimpleJointLimits (ndof : Z) (max_pos max_vel max_acc max_j : double)
  : checked JointLimits :=
  let! (status, limits) := SetSize ndof default_JointLimits in
  let! _ := check (rt_ok status) "exit(1)" in
  for_loop (Z.to_nat ndof) (simple_body max_pos max_vel max_acc max_j) (SetUnlimited limits).

(** One iteration of the loop of the second overload. *)
Definition simple_effort_body (max_pos max_vel max_acc max_j max_effort : double) (i : nat)
    (l : JointLimits) : checked JointLimits :=
  let! l' := simple_body max_pos max_vel max_acc max_j i l in
  let! max_torque := vec_set (max_torque l') i max_effort in
  Returns (mkJointLimits (min_position l') (max_position l') (max_velocity l')
             (max_acceleration l') (max_jerk l') max_torque).

(** [CreateSimpleJointLimits(ndof, ..., max_jerk, max_effort)] *)
Definition CreateSimpleJointLimits_effort (ndof : Z) (max_pos max_vel max_acc max_j max_effort : double)
  : checked JointLimits :=
  let! (status, limits) := SetSize ndof default_JointLimits in
  let! _ := check (rt_ok status) "exit(1)" in
  for_loop (Z.to_nat ndof) (simple_effort_body max_pos max_vel max_acc max_j max_effort)
    (SetUnlimited limits).

(** [CompareDoubles] *)
Definition CompareDoubles (lhs rhs : double) : bool :=
  if isnan lhs && isnan rhs then true else eqb lhs rhs.

(** The loop of [CompareVector], which stops at the first difference. *)
Fixpoint compare_elements (vec1 vec2 : VectorNd) : bool :=
  match vec1, vec2 with
  | x :: vec1', y :: vec2' =>
      if negb (CompareDoubles x y) then false else compare_elements vec1' vec2'
  | _, _ => true
  end.

(** [CompareVector] *)
Definition CompareVector (vec1 vec2 : VectorNd) : bool :=
  if negb (vec_size vec1 =? vec_size vec2) then false else compare_elements vec1 vec2.

(** [JointLimits::operator==] *)
Definition limits_eqb (l other : JointLimits) : bool :=
  CompareVector (min_position l) (min_position other) &&
  CompareVector (max_position l) (max_position other) &&
  CompareVector (max_velocity l) (max_velocity other) &&
  CompareVector (max_acceleration l) (max_acceleration other) &&
  CompareVector (max_jerk l) (max_jerk other) &&
  CompareVector (max_torque l) (max_torque other).

(** [(v.array() >= 0).all()] *)
Definition all_nonneg (v : VectorNd) : bool := forallb (leb zero) v.

Section validity.
Context (minCoeff : VectorNd -> double).

(** [JointLimits::IsValid] *)
Definition IsValid (l : JointLimits) : bool :=
  if negb (IsSizeConsistent l) then false
  else if limits_size l =? 0 then true
  else
    leb zero (minCoeff (zip_with sub (max_position l) (min_position l))) &&
    all_nonneg (max_velocity l) && all_nonneg (max_acceleration l) &&
    all_nonneg (max_jerk l) && all_nonneg (max_torque l).

(** What Eigen documents: on a non-empty vector without NaN, [minCoeff] is one of the
    elements and no element is smaller. *)
Definition minCoeff_ok : Prop := forall v, v <> [] -> Forall (fun x => isnan x = false) v ->
  minCoeff v ∈ v /\ Forall (fun x => leb (minCoeff v) x = true) v.
End validity.

(** ** Equality *)

(** A vector and limits up to the sign of zeros. *)
Definition vec_canon (v : VectorNd) : VectorNd := canon <$> v.

Definition limits_canon (l : JointLimits) : JointLimits :=
  mkJointLimits (vec_canon (min_position l)) (vec_canon (max_position l))
    (vec_canon (max_velocity l)) (vec_canon (max_acceleration l))
    (vec_canon (max_jerk l)) (vec_canon (max_torque l)).

Lemma CompareDoubles_canon x y : CompareDoubles x y = bool_decide (canon x = canon y).
Proof.
  unfold CompareDoubles. rewrite eqb_canon.
  destruct x, y; simpl; try done; by rewrite ?bool_decide_eq_true_2, ?bool_decide_eq_false_2.
Qed.

Lemma vec_size_eqb v w : (vec_size v =? vec_size w) = bool_decide (length v = length w).
Proof.
  apply eq_true_iff_eq. unfold vec_size. rewrite Z.eqb_eq, bool_decide_eq_true. lia.
Qed.

Lemma CompareVector_canon v w : CompareVector v w = bool_decide (vec_canon v = vec_canon w).
Proof.
  apply eq_true_iff_eq. rewrite bool_decide_eq_true. unfold CompareVector. rewrite vec_size_eqb.
  revert w. induction v as [|x v IH]; intros [|y w]; simpl; try done.
  specialize (IH w). rewrite CompareDoubles_canon.
  rewrite (bool_decide_ext (S (length v) = S (length w)) (length v = length w)) by lia.
  case_bool_decide as Hxy; case_bool_decide as Hl; simpl in *; try rewrite IH; try rewrite Hl.
  all: split; intros; simplify_eq/=; try done; try congruence.
  by apply IH in H.
Qed.

(** Two limits compare equal exactly when they agree element by element up to
    the sign of zeros; NaN equals NaN, and every other value only itself. *)
Theorem limits_eqb_equivalence l other :
  limits_eqb l other = bool_decide (limits_canon l = limits_canon other).
Proof.
  unfold limits_eqb. rewrite !CompareVector_canon. apply eq_bool_prop_intro.
  rewrite !Is_true_true, !andb_true_iff, !bool_decide_eq_true. unfold limits_canon.
  split; [by intros (((((-> & ->) & ->) & ->) & ->) & ->) | intros [=]; tauto].
Qed.

(** ** Loops that fill a vector *)

Lemma for_loop_steps {S} (g : nat -> S) (body : nat -> S -> checked S) (n : nat) :
  (forall i, (i < n)%nat -> body i (g i) = Returns (g (Datatypes.S i))) ->
  for_loop n body (g O) = Returns (g n).
Proof.
  induction n as [|n IH]; [done|]. intros H. simpl.
  rewrite IH by (intros; apply H; lia). simpl. apply H. lia.
Qed.

(** The first [i] elements of [v] are overwritten with those of [f]. *)
Definition filled (f : nat -> double) (v : VectorNd) (i : nat) : VectorNd :=
  (f <$> seq 0 i) ++ drop i v.

Lemma filled_0 f v : filled f v 0 = v.
Proof. done. Qed.

Lemma filled_all f v : filled f v (length v) = f <$> seq 0 (length v).
Proof. unfold filled. by rewrite drop_all, app_nil_r. Qed.

Lemma filled_const x n v : length v = n -> filled (fun _ => x) v n = replicate n x.
Proof. intros <-. rewrite filled_all. by rewrite (const_fmap _ _ x), length_seq. Qed.

Lemma vec_set_filled f v i : (i < length v)%nat ->
  vec_set (filled f v i) i (f i) = Returns (filled f v (S i)).
Proof.
  intros Hi. unfold vec_set, filled. rewrite length_app, length_fmap, length_seq, length_drop.
  rewrite bool_decide_eq_true_2 by lia. simpl check. simpl cbind. f_equal.
  rewrite insert_app_r_alt by (rewrite length_fmap, length_seq; lia).
  rewrite length_fmap, length_seq, Nat.sub_diag.
  destruct (drop i v) as [|y w] eqn:Hd.
  { apply (f_equal length) in Hd. rewrite length_drop in Hd. simpl in Hd. lia. }
  rewrite seq_S, fmap_app, <-app_assoc. simpl. f_equal. f_equal.
  change w with (drop 1 (y :: w)). rewrite <-Hd, drop_drop. f_equal. lia.
Qed.

(** ** Sizes *)

(** The type invariant: one size for all vectors, within the capacity. *)
Definition limits_wf (l : JointLimits) : Prop :=
  IsSizeConsistent l = true /\ limits_size l <= kMaxSize.

(** Limits whose vectors are constant. *)
Definition uniform (n : nat) (lo hi v a j t : double) : JointLimits :=
  mkJointLimits (replicate n lo) (replicate n hi) (replicate n v) (replicate n a)
    (replicate n j) (replicate n t).

Lemma IsSizeConsistent_spec l :
  IsSizeConsistent l = true <->
  let n := length (min_position l) in
  length (max_position l) = n /\ length (max_velocity l) = n /\
  length (max_acceleration l) = n /\ length (max_jerk l) = n /\ length (max_torque l) = n.
Proof.
  unfold IsSizeConsistent, limits_size, vec_size. rewrite !andb_true_iff, !Z.eqb_eq. lia.
Qed.

Lemma uniform_wf n lo hi v a j t :
  Z.of_nat n <= kMaxSize -> limits_wf (uniform n lo hi v a j t).
Proof.
  intros. split; [apply IsSizeConsistent_spec; simpl; by rewrite !length_replicate|].
  unfold limits_size, vec_size, uniform. simpl. by rewrite length_replicate.
Qed.

Lemma Constant_in size x : 0 <= size <= kMaxSize ->
  Constant size x = Returns (replicate (Z.to_nat size) x).
Proof.
  unfold Constant, kMaxSize. intros.
  by rewrite (proj2 (Z.leb_le _ _)), (proj2 (Z.leb_le _ _)) by lia.
Qed.

(** [SetSize] on its three ranges *)
Lemma SetSize_in size l : 0 <= size <= kMaxSize ->
  SetSize size l = Returns (RtOkStatus, uniform (Z.to_nat size) zero zero zero zero zero zero).
Proof.
  intros. unfold SetSize. rewrite (proj2 (Z.ltb_ge _ _)) by lia. by rewrite !Constant_in by done.
Qed.

Lemma SetSize_big size l : kMaxSize < size ->
  exists text, SetSize size l = Returns (FormatRealtimeStatus kInvalidArgument text, l).
Proof. intros. unfold SetSize. rewrite (proj2 (Z.ltb_lt _ _)) by lia. eauto. Qed.

Lemma SetSize_negative size l : size < 0 -> SetSize size l = Aborts "eigen_assert".
Proof.
  intros. unfold SetSize, Constant. rewrite (proj2 (Z.ltb_ge _ _)) by (unfold kMaxSize, MAX_EIGEN_VECTOR_SIZE; lia).
  by rewrite (proj2 (Z.leb_gt _ _)) by lia.
Qed.

Lemma SetUnlimited_uniform n lo hi v a j t :
  SetUnlimited (uniform n lo hi v a j t) =
  uniform n (opp infinity) infinity infinity infinity infinity infinity.
Proof. unfold SetUnlimited, uniform, setConstant. simpl. by rewrite !length_replicate. Qed.

Lemma SetUnlimited_wf l : limits_wf l -> limits_wf (SetUnlimited l).
Proof.
  unfold limits_wf. rewrite !IsSizeConsistent_spec. unfold limits_size, vec_size, SetUnlimited, setConstant.
  simpl. by rewrite !length_replicate.
Qed.

Lemma SetSize_wf size l st l' : limits_wf l -> SetSize size l = Returns (st, l') -> limits_wf l'.
Proof.
  intros Hl H. destruct (decide (size < 0)) as [?|?].
  { by rewrite SetSize_negative in H. }
  destruct (decide (kMaxSize < size)) as [?|?].
  - destruct (SetSize_big size l) as [text Ht]; [done|]. rewrite Ht in H. by simplify_eq.
  - rewrite SetSize_in in H by lia. simplify_eq. apply uniform_wf. lia.
Qed.

(** What the loops of [CreateSimpleJointLimits] build. *)
Definition partly (n i : nat) (p v a j : double) (x y z u w : double) (t : VectorNd) : JointLimits :=
  mkJointLimits
    (filled (fun _ => opp p) (replicate n x) i) (filled (fun _ => p) (replicate n y) i)
    (filled (fun _ => v) (replicate n z) i) (filled (fun _ => a) (replicate n u) i)
    (filled (fun _ => j) (replicate n w) i) t.

Lemma simple_body_partly n i p v a j x y z u w t : (i < n)%nat ->
  simple_body p v a j i (partly n i p v a j x y z u w t) =
  Returns (partly n (S i) p v a j x y z u w t).
Proof.
  intros. unfold simple_body, partly. simpl.
  by do 5 (rewrite (vec_set_filled (fun _ => _)) by (by rewrite length_replicate); simpl).
Qed.

Lemma partly_all n p v a j x y z u w t :
  partly n n p v a j x y z u w (replicate n t) = uniform n (opp p) p v a j t.
Proof. unfold partly, uniform. by rewrite !filled_const by apply length_replicate. Qed.

Lemma simple_loop n p v a j x y z u w t :
  for_loop n (simple_body p v a j) (uniform n x y z u w t) = Returns (uniform n (opp p) p v a j t).
Proof.
  rewrite <-(partly_all n p v a j x y z u w).
  apply (for_loop_steps (fun i => partly n i p v a j x y z u w (replicate n t))).
  intros. by apply simple_body_partly.
Qed.

Lemma simple_effort_loop n p v a j f x y z u w t :
  for_loop n (simple_effort_body p v a j f) (uniform n x y z u w t) =
  Returns (uniform n (opp p) p v a j f).
Proof.
  rewrite <-(partly_all n p v a j x y z u w), <-(filled_const f n (replicate n t)) by apply length_replicate.
  apply (for_loop_steps (fun i => partly n i p v a j x y z u w (filled (fun _ => f) (replicate n t) i))).
  intros. unfold simple_effort_body. rewrite simple_body_partly by done. simpl.
  by rewrite (vec_set_filled (fun _ => _)) by (by rewrite length_replicate).
Qed.

Lemma CreateSimpleJointLimits_in ndof p v a j : 0 <= ndof <= kMaxSize ->
  CreateSimpleJointLimits ndof p v a j =
  Returns (uniform (Z.to_nat ndof) (opp p) p v a j infinity).
Proof.
  intros. unfold CreateSimpleJointLimits. rewrite SetSize_in by done. simpl.
  by rewrite SetUnlimited_uniform, simple_loop.
Qed.

Lemma CreateSimpleJointLimits_effort_in ndof p v a j f : 0 <= ndof <= kMaxSize ->
  CreateSimpleJointLimits_effort ndof p v a j f =
  Returns (uniform (Z.to_nat ndof) (opp p) p v a j f).
Proof.
  intros. unfold CreateSimpleJointLimits_effort. rewrite SetSize_in by done. simpl.
  by rewrite SetUnlimited_uniform, simple_effort_loop.
Qed.

(** Sizes out of range end the process. *)
Lemma CreateSimpleJointLimits_out ndof p v a j : ~ 0 <= ndof <= kMaxSize ->
  has_returned (CreateSimpleJointLimits ndof p v a j) = false.
Proof.
  intros. unfold CreateSimpleJointLimits. destruct (decide (ndof < 0)).
  - by rewrite SetSize_negative.
  - by destruct (SetSize_big ndof default_JointLimits) as [text ->]; [lia|].
Qed.

Lemma CreateSimpleJointLimits_effort_out ndof p v a j f : ~ 0 <= ndof <= kMaxSize ->
  has_returned (CreateSimpleJointLimits_effort ndof p v a j f) = false.
Proof.
  intros. unfold CreateSimpleJointLimits_effort. destruct (decide (ndof < 0)).
  - by rewrite SetSize_negative.
  - by destruct (SetSize_big ndof default_JointLimits) as [text ->]; [lia|].
Qed.

(** ** Validity *)

(** The definition of valid limits joint by joint. *)
Record valid_joint (l : JointLimits) (i : nat) : Prop := mkValidJoint {
  vj_position : exists lo hi, min_position l !! i = Some lo /\ max_position l !! i = Some hi /\
    leb lo hi = true;
  vj_velocity : exists x, max_velocity l !! i = Some x /\ leb zero x = true;
  vj_acceleration : exists x, max_acceleration l !! i = Some x /\ leb zero x = true;
  vj_jerk : exists x, max_jerk l !! i = Some x /\ leb zero x = true;
  vj_torque : exists x, max_torque l !! i = Some x /\ leb zero x = true }.

Definition valid_limits (l : JointLimits) : Prop :=
  IsSizeConsistent l = true /\ forall i, (i < length (min_position l))%nat -> valid_joint l i.

(** Positions whose differences are numbers. *)
Definition positions_ok (l : JointLimits) : Prop :=
  Forall is_double (min_position l) /\ Forall is_double (max_position l) /\
  Forall2 (fun hi lo => subtractable hi lo = true) (max_position l) (min_position l).

Lemma all_nonneg_spec v n : length v = n ->
  all_nonneg v = true <-> forall i, (i < n)%nat -> exists x, v !! i = Some x /\ leb zero x = true.
Proof.
  intros <-. unfold all_nonneg. rewrite forallb_forall. split.
  - intros H i [x Hx]%lookup_lt_is_Some. exists x. split; [done|]. apply H.
    apply list_elem_of_In. by eapply list_elem_of_lookup_2.
  - intros H x [i Hx]%list_elem_of_In%list_elem_of_lookup.
    destruct (H i) as (y & Hy & ?); [by eapply lookup_lt_Some|]. by simplify_eq.
Qed.

Lemma minCoeff_nonneg minCoeff v : minCoeff_ok minCoeff -> v <> [] ->
  Forall (fun x => isnan x = false) v ->
  leb zero (minCoeff v) = true <-> Forall (fun x => leb zero x = true) v.
Proof.
  intros Hm Hv Hn. destruct (Hm v Hv Hn) as [Hin Hle]. split.
  - intros H. eapply Forall_impl; [exact Hle|]. intros x. by apply leb_trans.
  - rewrite Forall_forall. auto.
Qed.

(** The differences of the positions decide their order. *)
Lemma differences_spec l : positions_ok l ->
  let d := zip_with sub (max_position l) (min_position l) in
  Forall (fun x => isnan x = false) d /\
  (Forall (fun x => leb zero x = true) d <->
   forall i, (i < length (min_position l))%nat ->
     exists lo hi, min_position l !! i = Some lo /\ max_position l !! i = Some hi /\ leb lo hi = true).
Proof.
  unfold positions_ok. intros (Hlo & Hhi & Hs). simpl.
  generalize dependent (min_position l). generalize dependent (max_position l). clear l.
  intros hi Hhi lo Hlo Hs. induction Hs as [|h l' hs ls Hhl Hs IH]; simpl.
  { split; [constructor|]. split; [lia|constructor]. }
  apply Forall_cons in Hhi as [Hh Hhi], Hlo as [Hl Hlo].
  destruct (IH Hhi Hlo) as [IHn IHle].
  assert (isnan (sub h l') = false) as Hn by (by rewrite sub_not_nan, Hhl by done).
  split; [by constructor|]. rewrite Forall_cons, sub_nonneg, IHle by done. split.
  - intros [H0 H] [|i] Hi; [eauto 10|]. apply H. simpl in Hi. lia.
  - intros H. split.
    + destruct (H O) as (? & ? & ? & ? & ?); [simpl; lia|]. by simplify_eq/=.
    + intros i Hi. apply (H (S i)). simpl. lia.
Qed.

Lemma valid_joints_split l n : length (min_position l) = n ->
  (forall i, (i < n)%nat -> valid_joint l i) <->
  (forall i, (i < n)%nat -> exists lo hi, min_position l !! i = Some lo /\
     max_position l !! i = Some hi /\ leb lo hi = true) /\
  (forall i, (i < n)%nat -> exists x, max_velocity l !! i = Some x /\ leb zero x = true) /\
  (forall i, (i < n)%nat -> exists x, max_acceleration l !! i = Some x /\ leb zero x = true) /\
  (forall i, (i < n)%nat -> exists x, max_jerk l !! i = Some x /\ leb zero x = true) /\
  (forall i, (i < n)%nat -> exists x, max_torque l !! i = Some x /\ leb zero x = true).
Proof.
  intros _. split.
  - intros H. repeat split; intros i Hi; by destruct (H i Hi).
  - intros (? & ? & ? & ? & ?) i Hi. constructor; auto.
Qed.

Lemma IsValid_iff minCoeff l : minCoeff_ok minCoeff -> positions_ok l ->
  IsValid minCoeff l = true <-> valid_limits l.
Proof.
  intros Hm Hp. unfold IsValid, valid_limits. destruct (IsSizeConsistent l) eqn:Hs; simpl; [|naive_solver].
  apply IsSizeConsistent_spec in Hs as (H1 & H2 & H3 & H4 & H5).
  destruct (Z.eqb_spec (limits_size l) 0) as [H0|H0]; unfold limits_size, vec_size in H0.
  { split; [|done]. intros _. split; [done|]. intros; lia. }
  destruct (differences_spec l Hp) as [Hn Hd].
  rewrite !andb_true_iff, minCoeff_nonneg, Hd by
    (try done; intros Hz%(f_equal length); rewrite length_zip_with in Hz; simpl in Hz; lia).
  rewrite valid_joints_split, !(all_nonneg_spec _ (length (min_position l))) by done. tauto.
Qed.

(** C31: On limits none of whose position differences is NaN ([positions_ok]: no
    position is NaN, and no joint has the same infinity as both of its positions),
    [IsValid], which looks at the sign of the smallest coefficient of the difference of
    the vectors, accepts exactly the limits that are valid joint by joint:
    [min_position <= max_position] and no negative (or NaN) bound.  Nothing is assumed
    of the other vectors.  Outside of this condition the equivalence fails:
    [nan_position_can_be_valid]. *)
Theorem IsValid_pointwise minCoeff l : minCoeff_ok minCoeff -> positions_ok l ->
  IsValid minCoeff l = true <-> valid_limits l.
Proof. apply IsValid_iff. Qed.

(** A minimum that satisfies the contract of Eigen. *)
Definition min_element (v : VectorNd) : double :=
  match v with
  | [] => zero
  | x :: v' => fold_left (fun m y => if leb m y then m else y) v' x
  end.

Lemma min_element_ok : minCoeff_ok min_element.
Proof.
  intros [|x v] Hv Hn; [done|]. clear Hv. simpl. revert x Hn.
  induction v as [|y v IH]; intros x [Hx Hn]%Forall_cons; simpl.
  { split; [set_solver|]. constructor; [by apply leb_refl|constructor]. }
  apply Forall_cons in Hn as [Hy Hn]. destruct (leb x y) eqn:Hxy.
  - destruct (IH x) as [Hin Hle]; [by constructor|]. apply Forall_cons in Hle as [Hle1 Hle2].
    split; [set_solver|]. repeat constructor; [done| |done]. by eapply leb_trans.
  - destruct (IH y) as [Hin Hle]; [by constructor|]. apply Forall_cons in Hle as [Hle1 Hle2].
    split; [set_solver|]. repeat constructor; [|done|done]. eapply leb_trans; [done|]. by apply leb_total.
Qed.

(** 1.5 and -2.0 *)
Definition d_1_5 : double := S754_finite false 6755399441055744 (-52).
Definition d_m2 : double := S754_finite true 4503599627370496 (-51).

Definition ex_limits : JointLimits :=
  mkJointLimits [d_m2; d_m2] [d_1_5; infinity] [d_1_5; zero] [zero; zero] [infinity; d_1_5] [zero; zero].

Lemma IsValid_pointwise_witness :
  IsValid min_element ex_limits = true /\ (IsValid min_element ex_limits = true <-> valid_limits ex_limits).
Proof.
  split; [by vm_compute|]. apply (IsValid_pointwise min_element ex_limits min_element_ok).
  repeat split; repeat constructor; by vm_compute.
Defined.

Lemma uniform_valid minCoeff n lo hi v a j t : minCoeff_ok minCoeff ->
  is_double lo -> is_double hi -> subtractable hi lo = true -> leb lo hi = true ->
  Forall (fun x => leb zero x = true) [v; a; j; t] ->
  IsValid minCoeff (uniform n lo hi v a j t) = true.
Proof.
  intros Hm Hlo Hhi Hs Hle Hnn. rewrite !Forall_cons in Hnn. destruct Hnn as (? & ? & ? & ? & _).
  apply IsValid_iff; [done| |].
  - repeat split; simpl; [by apply Forall_replicate..|]. by apply Forall2_replicate.
  - split; [apply IsSizeConsistent_spec; simpl; by rewrite !length_replicate|].
    simpl. rewrite length_replicate. intros i Hi.
    constructor; simpl; setoid_rewrite lookup_replicate_2; eauto 10.
Qed.

(** The limits the library itself creates are valid: [Unlimited] for every
    admissible size, and both [CreateSimpleJointLimits] for bounds that are
    non-negative doubles. *)
Theorem created_limits_valid minCoeff n p v a j f :
  minCoeff_ok minCoeff -> 0 <= n <= kMaxSize -> is_double p ->
  Forall (fun x => leb zero x = true) [p; v; a; j; f] ->
  (exists l, Unlimited n = Returns (Value l) /\ limits_size l = n /\ IsValid minCoeff l = true) /\
  (exists l, CreateSimpleJointLimits n p v a j = Returns l /\ limits_size l = n /\
     IsValid minCoeff l = true) /\
  (exists l, CreateSimpleJointLimits_effort n p v a j f = Returns l /\ limits_size l = n /\
     IsValid minCoeff l = true).
Proof.
  intros Hm Hn Hp Hnn. rewrite !Forall_cons in Hnn. destruct Hnn as (Hp0 & ? & ? & ? & ? & _).
  assert (isnan p = false) by (by apply leb_not_nan in Hp0 as []).
  rewrite CreateSimpleJointLimits_in, CreateSimpleJointLimits_effort_in by done.
  unfold Unlimited. rewrite wrap_s_id by (unfold in_s, kMaxSize, MAX_EIGEN_VECTOR_SIZE in *; lia).
  rewrite SetSize_in by done. simpl. rewrite SetUnlimited_uniform.
  split_and!; eexists; (split; [done|]); (split;
    [unfold limits_size, vec_size; simpl; rewrite length_replicate; lia|]);
    apply uniform_valid; auto using opp_leb, opp_subtractable with icon; try done;
    repeat constructor; done.
Qed.

Lemma created_limits_valid_witness :
  (exists l, Unlimited 6 = Returns (Value l) /\ limits_size l = 6 /\ IsValid min_element l = true) /\
  (exists l, CreateSimpleJointLimits 6 d_1_5 d_1_5 zero infinity = Returns l /\ limits_size l = 6 /\
     IsValid min_element l = true) /\
  (exists l, CreateSimpleJointLimits_effort 6 d_1_5 d_1_5 zero infinity d_1_5 = Returns l /\
     limits_size l = 6 /\ IsValid min_element l = true).
Proof.
  apply (created_limits_valid min_element 6 d_1_5 d_1_5 zero infinity d_1_5 min_element_ok);
    [unfold kMaxSize, MAX_EIGEN_VECTOR_SIZE; lia | by vm_compute | repeat constructor].
Defined.

(** ** Sizes out of range *)

(** [Unlimited] on all of [size_t]: sizes up to [kMaxSize] succeed, larger ones are
    refused, but the conversion to the signed [Index] makes sizes from 2^63 on negative,
    and these pass the check of [SetSize]. *)
Lemma Unlimited_ranges size : in_u 64 size ->
  match Unlimited size with
  | Returns (Value l) => 0 <= size <= kMaxSize /\ limits_size l = size
  | Returns (Unexpected st) => kMaxSize < size < 2 ^ 63 /\ rt_code st = kInvalidArgument
  | Aborts _ => 2 ^ 63 <= size
  end.
Proof.
  intros Hs. unfold in_u in Hs. unfold Unlimited.
  destruct (decide (size < 2 ^ 63)) as [?|?].
  - rewrite wrap_s_id by (unfold in_s; lia). destruct (decide (size <= kMaxSize)).
    + rewrite SetSize_in by lia. simpl. rewrite SetUnlimited_uniform. split; [lia|].
      unfold limits_size, vec_size, uniform. simpl. rewrite length_replicate. lia.
    + destruct (SetSize_big size default_JointLimits) as [text ->]; [lia|]. simpl. split; [lia|done].
  - rewrite SetSize_negative; [simpl; lia|]. unfold wrap_s. change (64 - 1) with 63.
    rewrite <-(Z_mod_plus_full _ (-1)). rewrite Z.mod_small; lia.
Qed.

(** With a NaN among the positions Eigen promises nothing: a minimum that skips NaN
    satisfies the contract, and [IsValid] then accepts the limits. *)
Definition min_skip_nan (v : VectorNd) : double :=
  min_element (filter (fun x => isnan x = false) v).

Lemma nan_position_can_be_valid :
  minCoeff_ok min_skip_nan /\
  IsValid min_skip_nan
    (mkJointLimits [NaN; zero] [zero; zero] [zero; zero] [zero; zero] [zero; zero] [zero; zero]) = true.
Proof.
  split; [|by vm_compute]. intros v Hv Hn. unfold min_skip_nan.
  assert (filter (fun x => isnan x = false) v = v) as ->; [|by apply min_element_ok].
  clear Hv. induction Hn; [done|]. rewrite filter_cons_True by done. by f_equal.
Qed.
