(* ===== verification/StatusMacros.v ===== *)
(** * Early returns ([icon/utils/status_and_expected_macros.h])

    The macros work on a [Status], a [RealtimeStatus], or a [tl::expected] with one of
    them as its error.  [ToBool] is the class of these types; its instances are the helper
    structs of the header.

    A macro is a function of the expression and of the rest of the body.  [ret] makes the
    result of the surrounding function from the status that is returned early: the status
    itself, or a pair with the state at that point. *)
From S2P Require Import Prelude Status.

(** The interface of the helper structs; [GetStatus] of an [expected] is [error()], which
    is only there in the absence of a value. *)
Class ToBool (A E : Type) := {
  ok : A -> bool;
  GetStatus : A -> option E;
  GetStatus_error : forall a, ok a = false -> is_Some (GetStatus a) }.

(** [expected_.error()] *)
Definition error {T E} (e : expected T E) : option E :=
  match e with Value _ => None | Unexpected s => Some s end.

Lemma error_there {T E} (e : expected T E) : has_value e = false -> is_Some (error e).
Proof. destruct e; simpl; [done|eauto]. Qed.

Lemma status_there {S} (s : S) (b : bool) : b = false -> is_Some (Some s).
Proof. eauto. Qed.

(** [StatusToBool] *)
Definition StatusToBool : ToBool Status Status :=
  {| ok := status_ok; GetStatus := Some; GetStatus_error s := status_there s _ |}.

(** [RealtimeStatusToBool] *)
Definition RealtimeStatusToBool : ToBool RealtimeStatus RealtimeStatus :=
  {| ok := rt_ok; GetStatus := Some; GetStatus_error s := status_there s _ |}.

(** [ExpectedStatusToBool] *)
Definition ExpectedStatusToBool T : ToBool (expected T Status) Status :=
  {| ok := has_value; GetStatus := error; GetStatus_error := error_there |}.

(** [ExpectedRealtimeStatusToBool] *)
Definition ExpectedRealtimeStatusToBool T : ToBool (expected T RealtimeStatus) RealtimeStatus :=
  {| ok := has_value; GetStatus := error; GetStatus_error := error_there |}.

#[export] Existing Instances StatusToBool RealtimeStatusToBool ExpectedStatusToBool
  ExpectedRealtimeStatusToBool.

Section macros.
Context {A E : Type} `{ToBool A E}.

(** [GetUnexpected()] *)
Definition GetUnexpected {T} (a : A) : option (expected T E) := Unexpected <$> GetStatus a.

(** [INTR_RETURN_STATUS_IF_ERROR(expr); rest] *)
Definition INTR_RETURN_STATUS_IF_ERROR {R} (ret : E -> R) (expr : A) (rest : R) : R :=
  if negb (ok expr) then match GetStatus expr with Some s => ret s | None => rest end else rest.

(** [INTR_RETURN_UNEXPECTED_IF_ERROR(expr); rest] *)
Definition INTR_RETURN_UNEXPECTED_IF_ERROR {T R} (ret : expected T E -> R) (expr : A) (rest : R) : R :=
  if negb (ok expr) then match GetUnexpected expr with Some s => ret s | None => rest end else rest.
End macros.

(** [INTR_ASSIGN_OR_RETURN_STATUS(lhs, expr); rest] *)
Definition INTR_ASSIGN_OR_RETURN_STATUS {T E R} (ret : E -> R) (expr : expected T E) (rest : T -> R) : R :=
  match expr with Value lhs => rest lhs | Unexpected s => ret s end.

(** [INTR_ASSIGN_OR_RETURN_UNEXPECTED(lhs, expr); rest] *)
Definition INTR_ASSIGN_OR_RETURN_UNEXPECTED {T U E R} (ret : expected U E -> R) (expr : expected T E)
    (rest : T -> R) : R :=
  match expr with Value lhs => rest lhs | Unexpected s => ret (Unexpected s) end.

(** ** Laws *)
Section laws.
Context {A E : Type} `{ToBool A E}.

Lemma return_if_ok {R} (ret : E -> R) (expr : A) rest :
  ok expr = true -> INTR_RETURN_STATUS_IF_ERROR ret expr rest = rest.
Proof. unfold INTR_RETURN_STATUS_IF_ERROR. by intros ->. Qed.

Lemma return_if_error {R} (ret : E -> R) (expr : A) s rest :
  ok expr = false -> GetStatus expr = Some s -> INTR_RETURN_STATUS_IF_ERROR ret expr rest = ret s.
Proof. unfold INTR_RETURN_STATUS_IF_ERROR. by intros -> ->. Qed.

(** An early return never goes on with the rest of the body: its result is made from the
    status of the expression. *)
Lemma early_return_cases {R} (ret : E -> R) (expr : A) rest :
  INTR_RETURN_STATUS_IF_ERROR ret expr rest = rest /\ ok expr = true \/
  exists s, GetStatus expr = Some s /\ ok expr = false /\
    INTR_RETURN_STATUS_IF_ERROR ret expr rest = ret s.
Proof.
  destruct (ok expr) eqn:Ho; [left; split; [by apply return_if_ok|done]|].
  destruct (GetStatus_error expr Ho) as [s Hs]. right. exists s. split_and!; [done..|].
  by apply return_if_error.
Qed.

(** What follows an early return can be moved into the rest of the body. *)
Lemma return_if_map {R R'} (f : R -> R') (ret : E -> R) (expr : A) rest :
  f (INTR_RETURN_STATUS_IF_ERROR ret expr rest) =
  INTR_RETURN_STATUS_IF_ERROR (fun s => f (ret s)) expr (f rest).
Proof. unfold INTR_RETURN_STATUS_IF_ERROR. by repeat case_match. Qed.
End laws.

(** The common case *)
Lemma rt_return_ok {R} (ret : RealtimeStatus -> R) st rest :
  rt_ok st = true -> INTR_RETURN_STATUS_IF_ERROR ret st rest = rest.
Proof. exact (return_if_ok ret st rest). Qed.

Lemma rt_return_error {R} (ret : RealtimeStatus -> R) st rest :
  rt_ok st = false -> INTR_RETURN_STATUS_IF_ERROR ret st rest = ret st.
Proof. intros H. exact (return_if_error ret st st rest H eq_refl). Qed.

#[export] Hint Rewrite @rt_return_ok @rt_return_error using done : icon.
