(* ===== verification/JointData.v ===== *)
(** * Joint data in flatbuffers

    [icon/hal/interfaces/joint_limits_utils.cc], [joint_command_utils.cc] and
    [joint_state_utils.cc], over the tables of [flatbuffer_definitions/icon/hal/interfaces/].

    A vector of a table is [None] when the table does not have it (its accessor returns a
    null pointer), a scalar is [None] when it is not stored (it then has its default, and
    cannot be mutated).  The length of a stored vector never changes.  Dereferencing a null
    pointer or an index out of range ends in [Aborts]. *)
From S2P Require Import Prelude Status StatusMacros FixedString Doubles JointLimits.

(** ** Tables *)

(** A [flatbuffers::Vector<double>*]. *)
Abbreviation fb_vector := (option (list double)).

Module fbs.
(** [table JointLimits] *)
Record JointLimits := mkJointLimits {
  min_position : fb_vector;
  max_position : fb_vector;
  has_velocity_limits : option bool;
  max_velocity : fb_vector;
  has_acceleration_limits : option bool;
  max_acceleration : fb_vector;
  has_jerk_limits : option bool;
  max_jerk : fb_vector;
  has_effort_limits : option bool;
  max_effort : fb_vector }.

(** [table JointPositionCommand] *)
Record JointPositionCommand := mkJointPositionCommand {
  position : fb_vector;
  velocity_feedforward : fb_vector;
  acceleration_feedforward : fb_vector }.

(** [table JointVelocityCommand] *)
Record JointVelocityCommand := mkJointVelocityCommand {
  vc_velocity : fb_vector;
  vc_acceleration_feedforward : fb_vector }.

(** [table JointTorqueCommand] *)
Record JointTorqueCommand := mkJointTorqueCommand { tc_torque : fb_vector }.

(** [table JointAccelerationAndTorqueCommand] *)
Record JointAccelerationAndTorqueCommand := mkJointAccelerationAndTorqueCommand {
  ac_acceleration : fb_vector;
  ac_torque : fb_vector }.

(** [struct HandGuidingCommand] *)
Record HandGuidingCommand := mkHandGuidingCommand { unused : bool }.

(** [table JointPositionState] and its siblings *)
Record JointPositionState := mkJointPositionState { ps_position : fb_vector }.
Record JointVelocityState := mkJointVelocityState { vs_velocity : fb_vector }.
Record JointAccelerationState := mkJointAccelerationState { as_acceleration : fb_vector }.
Record JointTorqueState := mkJointTorqueState { ts_torque : fb_vector }.

(** [table JointCommandedPosition] *)
Record JointCommandedPosition := mkJointCommandedPosition {
  cp_position : fb_vector;
  cp_velocity_feedforward : fb_vector;
  cp_acceleration_feedforward : fb_vector }.
End fbs.

(** [builder.CreateVector(zeros)] with [std::vector<double> zeros(num_dof, 0.0)] *)
Definition zeros (num_dof : Z) : fb_vector := Some (replicate (Z.to_nat num_dof) zero).

(** ** Messages filled with zeros; [ForceDefaults] stores the scalars as well. *)

(** [BuildJointLimits] *)
Definition BuildJointLimits (num_dof : Z) : fbs.JointLimits :=
  fbs.mkJointLimits (zeros num_dof) (zeros num_dof) (Some false) (zeros num_dof)
    (Some false) (zeros num_dof) (Some false) (zeros num_dof) (Some false) (zeros num_dof).

(** [BuildJointPositionCommand] *)
Definition BuildJointPositionCommand (num_dof : Z) : fbs.JointPositionCommand :=
  fbs.mkJointPositionCommand (zeros num_dof) (zeros num_dof) (zeros num_dof).

(** [BuildJointVelocityCommand] *)
Definition BuildJointVelocityCommand (num_dof : Z) : fbs.JointVelocityCommand :=
  fbs.mkJointVelocityCommand (zeros num_dof) (zeros num_dof).

(** [BuildJointTorqueCommand] *)
Definition BuildJointTorqueCommand (num_dof : Z) : fbs.JointTorqueCommand :=
  fbs.mkJointTorqueCommand (zeros num_dof).

(** [BuildJointAccelerationAndTorqueCommand] *)
Definition BuildJointAccelerationAndTorqueCommand (num_dof : Z)
  : fbs.JointAccelerationAndTorqueCommand :=
  fbs.mkJointAccelerationAndTorqueCommand (zeros num_dof) (zeros num_dof).

(** [BuildHandGuidingCommand] *)
Definition BuildHandGuidingCommand : fbs.HandGuidingCommand := fbs.mkHandGuidingCommand false.

(** [BuildJointPositionState], [BuildJointVelocityState], [BuildJointAccelerationState],
    [BuildJointTorqueState] *)
Definition BuildJointPositionState (num_dof : Z) : fbs.JointPositionState :=
  fbs.mkJointPositionState (zeros num_dof).
Definition BuildJointVelocityState (num_dof : Z) : fbs.JointVelocityState :=
  fbs.mkJointVelocityState (zeros num_dof).
Definition BuildJointAccelerationState (num_dof : Z) : fbs.JointAccelerationState :=
  fbs.mkJointAccelerationState (zeros num_dof).
Definition BuildJointTorqueState (num_dof : Z) : fbs.JointTorqueState :=
  fbs.mkJointTorqueState (zeros num_dof).

(** [BuildJointCommandedPosition] *)
Definition BuildJointCommandedPosition (num_dof : Z) : fbs.JointCommandedPosition :=
  fbs.mkJointCommandedPosition (zeros num_dof) (zeros num_dof) (zeros num_dof).

(** ** Access to vectors and scalars *)

(** [*p] *)
Definition deref {A} (p : option A) : checked A :=
  match p with Some a => Returns a | None => Aborts "null pointer" end.

(** [p->Get(i)] and [field[i]] *)
Definition vec_get (v : list double) (i : nat) : checked double :=
  match v !! i with Some x => Returns x | None => Aborts "index out of range" end.

(** [mutate_<scalar>(x)]: a scalar that is not stored stays as it is. *)
Definition mutate_scalar (field : option bool) (x : bool) : option bool :=
  match field with Some _ => Some x | None => None end.

(** The accessor of a scalar with default [false]. *)
Definition scalar (field : option bool) : bool := default false field.

(** ** From limits to a flatbuffer *)

(** [CheckSizeEqual]; both sizes are converted to [int]. *)
Definition CheckSizeEqual (field fb_field : list double) (field_name : string) : RealtimeStatus :=
  let fb_num_joints := wrap_s 32 (Z.of_nat (length fb_field)) in
  let num_joints := wrap_s 32 (Z.of_nat (length field)) in
  if negb (fb_num_joints =? num_joints) then
    FormatRealtimeStatus kInvalidArgument
      ("JointLimits Flatbuffer expects " +:+ pretty fb_num_joints +:+ " joints but the "
         +:+ "field '" +:+ field_name +:+ "' contains " +:+ pretty num_joints +:+ " values")
  else RtOkStatus.

(** [ToFlatbufferWithSizeCheck] *)
Definition ToFlatbufferWithSizeCheck (field : list double) (fb_field : fb_vector)
    (field_name : string) : checked (RealtimeStatus * fb_vector) :=
  let! fb := deref fb_field in
  let status := CheckSizeEqual field fb field_name in
  if negb (rt_ok status) then Returns (status, fb_field)
  else
    let! fb' := for_loop (length fb) (fun i v => let! x := vec_get field i in vec_set v i x) fb in
    Returns (RtOkStatus, Some fb').

(** [CopyTo(const JointLimits&, intrinsic_fbs::JointLimits&)]; an early return leaves the
    vectors that were already copied. *)
Definition CopyTo_fbs (limits : JointLimits) (fb : fbs.JointLimits)
  : checked (RealtimeStatus * fbs.JointLimits) :=
  let '(fbs.mkJointLimits p1 p2 hv v ha a hj j he e) := fb in
  let! (st, p1) := ToFlatbufferWithSizeCheck (min_position limits) p1 "min_position" in
  INTR_RETURN_STATUS_IF_ERROR (fun st => Returns (st, fbs.mkJointLimits p1 p2 hv v ha a hj j he e)) st $
  let! (st, p2) := ToFlatbufferWithSizeCheck (max_position limits) p2 "max_position" in
  INTR_RETURN_STATUS_IF_ERROR (fun st => Returns (st, fbs.mkJointLimits p1 p2 hv v ha a hj j he e)) st $
  let! (st, v) := ToFlatbufferWithSizeCheck (max_velocity limits) v "max_velocity" in
  INTR_RETURN_STATUS_IF_ERROR (fun st => Returns (st, fbs.mkJointLimits p1 p2 hv v ha a hj j he e)) st $
  let! (st, a) := ToFlatbufferWithSizeCheck (max_acceleration limits) a "max_acceleration" in
  INTR_RETURN_STATUS_IF_ERROR (fun st => Returns (st, fbs.mkJointLimits p1 p2 hv v ha a hj j he e)) st $
  let! (st, j) := ToFlatbufferWithSizeCheck (max_jerk limits) j "max_jerk" in
  INTR_RETURN_STATUS_IF_ERROR (fun st => Returns (st, fbs.mkJointLimits p1 p2 hv v ha a hj j he e)) st $
  let! (st, e) := ToFlatbufferWithSizeCheck (max_torque limits) e "max_effort" in
  INTR_RETURN_STATUS_IF_ERROR (fun st => Returns (st, fbs.mkJointLimits p1 p2 hv v ha a hj j he e)) st $
  Returns (RtOkStatus,
    fbs.mkJointLimits p1 p2 (mutate_scalar hv true) v (mutate_scalar ha true) a
      (mutate_scalar hj true) j (mutate_scalar he true) e).

(** ** From a flatbuffer to limits *)

(** [target[i] = source->Get(i)] *)
Definition copy_element (source : fb_vector) (target : VectorNd) (i : nat) : checked VectorNd :=
  let! s := deref source in
  let! x := vec_get s i in
  vec_set target i x.

(** [if (flag) target[i] = source->Get(i)] *)
Definition copy_element_if (flag : option bool) (source : fb_vector) (target : VectorNd) (i : nat)
  : checked VectorNd :=
  if scalar flag then copy_element source target i else Returns target.

(** One iteration of the loop of the second [CopyTo]. *)
Definition copy_joint (fb : fbs.JointLimits) (i : nat) (l : JointLimits) : checked JointLimits :=
  let! p1 := copy_element (fbs.min_position fb) (min_position l) i in
  let! p2 := copy_element (fbs.max_position fb) (max_position l) i in
  let! v := copy_element_if (fbs.has_velocity_limits fb) (fbs.max_velocity fb) (max_velocity l) i in
  let! a := copy_element_if (fbs.has_acceleration_limits fb) (fbs.max_acceleration fb)
              (max_acceleration l) i in
  let! j := copy_element_if (fbs.has_jerk_limits fb) (fbs.max_jerk fb) (max_jerk l) i in
  let! e := copy_element_if (fbs.has_effort_limits fb) (fbs.max_effort fb) (max_torque l) i in
  Returns (mkJointLimits p1 p2 v a j e).

(** [CopyTo(const intrinsic_fbs::JointLimits&, JointLimits&)] *)
Definition CopyTo_limits (fb : fbs.JointLimits) (limits : JointLimits)
  : checked (RealtimeStatus * JointLimits) :=
  let! p1 := deref (fbs.min_position fb) in
  let num_joints := length p1 in
  let! (st, l) := SetSize (Z.of_nat num_joints) limits in
  INTR_RETURN_STATUS_IF_ERROR (fun st => Returns (st, l)) st $
  let! l' := for_loop num_joints (copy_joint fb) l in
  Returns (RtOkStatus, l').

(** ** Copies of commands *)

(** [CopyFbsVector( *src, *dest )] *)
Definition copy_fb_vector (src dest : fb_vector) : checked (RealtimeStatus * fb_vector) :=
  let! s := deref src in
  let! d := deref dest in
  let '(st, d') := CopyFbsVector s d in
  Returns (st, Some d').

(** [CopyTo(const JointPositionCommand&, JointPositionCommand&)] *)
Definition CopyTo_command (src dest : fbs.JointPositionCommand)
  : checked (RealtimeStatus * fbs.JointPositionCommand) :=
  let '(fbs.mkJointPositionCommand p v a) := dest in
  let! (st, p) := copy_fb_vector (fbs.position src) p in
  INTR_RETURN_STATUS_IF_ERROR (fun st => Returns (st, fbs.mkJointPositionCommand p v a)) st $
  let! (st, v) := copy_fb_vector (fbs.velocity_feedforward src) v in
  INTR_RETURN_STATUS_IF_ERROR (fun st => Returns (st, fbs.mkJointPositionCommand p v a)) st $
  let! (st, a) := copy_fb_vector (fbs.acceleration_feedforward src) a in
  Returns (st, fbs.mkJointPositionCommand p v a).

(** ** Single vectors *)

Lemma CheckSizeEqual_ok field fb name : length field = length fb ->
  CheckSizeEqual field fb name = RtOkStatus.
Proof. intros H. unfold CheckSizeEqual. by rewrite H, Z.eqb_refl. Qed.

Lemma CheckSizeEqual_bad (field fb : list double) name :
  Z.of_nat (length field) <= int_max -> Z.of_nat (length fb) <= int_max ->
  length field <> length fb -> rt_code (CheckSizeEqual field fb name) = kInvalidArgument.
Proof.
  unfold int_max. intros H1 H2 Hne. unfold CheckSizeEqual.
  rewrite !wrap_s_id by (unfold in_s; simpl; lia). by rewrite (proj2 (Z.eqb_neq _ _)) by lia.
Qed.

Lemma vec_get_total (v : list double) i : (i < length v)%nat -> vec_get v i = Returns (v !!! i).
Proof.
  intros [x Hx]%lookup_lt_is_Some. unfold vec_get. rewrite Hx.
  by rewrite (list_lookup_total_correct _ _ _ Hx).
Qed.

Lemma total_seq (v : list double) n : (n <= length v)%nat ->
  (fun i => v !!! i) <$> seq 0 n = take n v.
Proof.
  intros H. apply list_eq. intros i. rewrite list_lookup_fmap.
  destruct (decide (i < n)%nat).
  - rewrite lookup_seq_lt, lookup_take_lt by done. simpl. symmetry.
    apply list_lookup_lookup_total_lt. lia.
  - rewrite lookup_seq_ge, lookup_take_ge by lia. done.
Qed.

Lemma copy_loop (field fb : list double) : length field = length fb ->
  for_loop (length fb) (fun i v => let! x := vec_get field i in vec_set v i x) fb = Returns field.
Proof.
  intros H. rewrite <-(filled_0 (fun i => field !!! i) fb) at 2.
  rewrite (for_loop_steps (filled (fun i => field !!! i) fb)).
  - by rewrite filled_all, total_seq, <-H, take_ge by lia.
  - intros i Hi. rewrite vec_get_total by lia. simpl. by apply (vec_set_filled (fun i => field !!! i)).
Qed.

Lemma ToFlatbuffer_ok field fb name : length field = length fb ->
  ToFlatbufferWithSizeCheck field (Some fb) name = Returns (RtOkStatus, Some field).
Proof.
  intros H. unfold ToFlatbufferWithSizeCheck. simpl. rewrite CheckSizeEqual_ok by done. simpl.
  by rewrite copy_loop.
Qed.

(** The outcome for one vector of a table: its length is kept, it is overwritten when
    the sizes agree and left alone otherwise. *)
Lemma ToFlatbuffer_cases (field fb : list double) name :
  Z.of_nat (length field) <= int_max -> Z.of_nat (length fb) <= int_max ->
  exists st fb', ToFlatbufferWithSizeCheck field (Some fb) name = Returns (st, Some fb') /\
    length fb' = length fb /\
    (rt_ok st = true /\ length field = length fb /\ fb' = field \/
     rt_ok st = false /\ rt_code st = kInvalidArgument /\ length field <> length fb /\ fb' = fb).
Proof.
  intros H1 H2. destruct (decide (length field = length fb)) as [He|Hne].
  - exists RtOkStatus, field. rewrite ToFlatbuffer_ok by done. auto 10.
  - pose proof (CheckSizeEqual_bad field fb name H1 H2 Hne) as Hc.
    assert (rt_ok (CheckSizeEqual field fb name) = false) as Hf
      by (apply rt_ok_false; by rewrite Hc).
    exists (CheckSizeEqual field fb name), fb. unfold ToFlatbufferWithSizeCheck. simpl.
    rewrite Hf. auto 10.
Qed.

(** ** Whole tables *)

(** A table that stores all its fields, with vectors of [n] elements. *)
Record stored (n : nat) (fb : fbs.JointLimits) : Prop := mkStored {
  st_min_position : exists v, fbs.min_position fb = Some v /\ length v = n;
  st_max_position : exists v, fbs.max_position fb = Some v /\ length v = n;
  st_max_velocity : exists v, fbs.max_velocity fb = Some v /\ length v = n;
  st_max_acceleration : exists v, fbs.max_acceleration fb = Some v /\ length v = n;
  st_max_jerk : exists v, fbs.max_jerk fb = Some v /\ length v = n;
  st_max_effort : exists v, fbs.max_effort fb = Some v /\ length v = n;
  st_flags : is_Some (fbs.has_velocity_limits fb) /\ is_Some (fbs.has_acceleration_limits fb) /\
    is_Some (fbs.has_jerk_limits fb) /\ is_Some (fbs.has_effort_limits fb) }.

Lemma BuildJointLimits_stored num_dof : stored (Z.to_nat num_dof) (BuildJointLimits num_dof).
Proof. constructor; simpl; eauto using length_replicate. all: by repeat split. Qed.

(** The table that holds the limits. *)
Definition fbs_of (l : JointLimits) : fbs.JointLimits :=
  fbs.mkJointLimits (Some (min_position l)) (Some (max_position l)) (Some true)
    (Some (max_velocity l)) (Some true) (Some (max_acceleration l)) (Some true)
    (Some (max_jerk l)) (Some true) (Some (max_torque l)).

Lemma CopyTo_fbs_stored l fb : IsSizeConsistent l = true ->
  stored (length (min_position l)) fb -> CopyTo_fbs l fb = Returns (RtOkStatus, fbs_of l).
Proof.
  rewrite IsSizeConsistent_spec. intros (H2 & H3 & H4 & H5 & H6).
  destruct fb as [p1 p2 hv v ha a hj j he e].
  intros [(?&?&?) (?&?&?) (?&?&?) (?&?&?) (?&?&?) (?&?&?) ([??]&[??]&[??]&[??])].
  simpl in *. subst.
  do 6 (rewrite ToFlatbuffer_ok by congruence; simpl). done.
Qed.

(** ** Reading limits back *)

(** What a loop over [n] joints has read into a vector after [i] of them. *)
Definition read_into (flag : bool) (source : list double) (n i : nat) : VectorNd :=
  if flag then filled (fun k => source !!! k) (replicate n zero) i else replicate n zero.

Lemma copy_element_read (flag : option bool) source n i :
  (i < n)%nat -> (scalar flag = true -> exists s, source = Some s /\ (n <= length s)%nat) ->
  copy_element_if flag source (read_into (scalar flag) (default [] source) n i) i =
  Returns (read_into (scalar flag) (default [] source) n (S i)).
Proof.
  intros Hi Hs. unfold copy_element_if, read_into. destruct (scalar flag); [|done].
  destruct Hs as (s & -> & Hn); [done|]. unfold copy_element. simpl.
  rewrite vec_get_total by lia. simpl.
  apply (vec_set_filled (fun k => s !!! k)). by rewrite length_replicate.
Qed.

(** The vector the limits get from a field of the table. *)
Definition read_result (flag : bool) (source : list double) (n : nat) : VectorNd :=
  if flag then take n source else replicate n zero.

Lemma read_into_all flag source n : (flag = true -> n <= length source)%nat ->
  read_into flag source n n = read_result flag source n.
Proof.
  intros H. unfold read_into, read_result. destruct flag; [|done].
  rewrite <-(length_replicate n zero) at 2. rewrite filled_all, length_replicate.
  apply total_seq. auto.
Qed.

(** The vectors that are read have at least as many elements as [min_position]. *)
Record readable (n : nat) (fb : fbs.JointLimits) : Prop := mkReadable {
  rd_size : Z.of_nat n <= kMaxSize;
  rd_min_position : exists v, fbs.min_position fb = Some v /\ length v = n;
  rd_max_position : exists v, fbs.max_position fb = Some v /\ (n <= length v)%nat;
  rd_max_velocity : scalar (fbs.has_velocity_limits fb) = true ->
    exists v, fbs.max_velocity fb = Some v /\ (n <= length v)%nat;
  rd_max_acceleration : scalar (fbs.has_acceleration_limits fb) = true ->
    exists v, fbs.max_acceleration fb = Some v /\ (n <= length v)%nat;
  rd_max_jerk : scalar (fbs.has_jerk_limits fb) = true ->
    exists v, fbs.max_jerk fb = Some v /\ (n <= length v)%nat;
  rd_max_effort : scalar (fbs.has_effort_limits fb) = true ->
    exists v, fbs.max_effort fb = Some v /\ (n <= length v)%nat }.

(** The limits after [i] joints. *)
Definition read_limits (read : bool -> list double -> nat -> VectorNd) (n : nat) (fb : fbs.JointLimits)
  : JointLimits :=
  let field flag source := read flag (default [] source) n in
  mkJointLimits (field true (fbs.min_position fb)) (field true (fbs.max_position fb))
    (field (scalar (fbs.has_velocity_limits fb)) (fbs.max_velocity fb))
    (field (scalar (fbs.has_acceleration_limits fb)) (fbs.max_acceleration fb))
    (field (scalar (fbs.has_jerk_limits fb)) (fbs.max_jerk fb))
    (field (scalar (fbs.has_effort_limits fb)) (fbs.max_effort fb)).

Lemma copy_joint_read n fb i : readable n fb -> (i < n)%nat ->
  copy_joint fb i (read_limits (fun f s n => read_into f s n i) n fb) =
  Returns (read_limits (fun f s n => read_into f s n (S i)) n fb).
Proof.
  intros [? (v1 & E1 & ?) (v2 & E2 & ?) ? ? ? ?] Hi. unfold copy_joint. simpl.
  pose proof (copy_element_read (Some true) (Some v1) n i Hi) as H1.
  pose proof (copy_element_read (Some true) (Some v2) n i Hi) as H2.
  unfold copy_element_if in H1, H2. simpl in H1, H2. rewrite E1, E2. simpl.
  rewrite H1 by (intros; eexists; split; [done|lia]). simpl.
  rewrite H2 by (intros; eexists; split; [done|lia]). simpl.
  do 4 (rewrite copy_element_read by done; simpl). unfold read_limits. by rewrite E1, E2.
Qed.

Lemma CopyTo_limits_readable n fb l : readable n fb ->
  CopyTo_limits fb l = Returns (RtOkStatus, read_limits read_result n fb).
Proof.
  intros Hr. pose proof Hr as [Hn (v1 & E1 & H1) (v2 & E2 & H2) Hv Ha Hj He]. unfold CopyTo_limits.
  rewrite E1. simpl. rewrite H1, SetSize_in by lia. simpl. rewrite Nat2Z.id, rt_return_ok by done.
  assert (uniform n zero zero zero zero zero zero =
          read_limits (fun f s n => read_into f s n 0) n fb) as ->.
  { unfold uniform, read_limits, read_into. f_equal; by case_match. }
  rewrite (for_loop_steps (fun i => read_limits (fun f s n => read_into f s n i) n fb))
    by (intros; by apply copy_joint_read). simpl. do 2 f_equal.
  unfold read_limits. rewrite E1, E2. f_equal; apply read_into_all; simpl; intros Hf; try lia.
  - by destruct (Hv Hf) as (? & -> & ?).
  - by destruct (Ha Hf) as (? & -> & ?).
  - by destruct (Hj Hf) as (? & -> & ?).
  - by destruct (He Hf) as (? & -> & ?).
Qed.

Lemma fbs_of_readable l : limits_wf l -> readable (length (min_position l)) (fbs_of l).
Proof.
  intros [Hs Hn]. apply IsSizeConsistent_spec in Hs as (? & ? & ? & ? & ?).
  constructor; simpl; eauto with lia.
Qed.

Lemma CopyTo_limits_fbs_of l l0 : limits_wf l -> CopyTo_limits (fbs_of l) l0 = Returns (RtOkStatus, l).
Proof.
  intros Hl. rewrite (CopyTo_limits_readable (length (min_position l))) by (by apply fbs_of_readable).
  destruct Hl as [(? & ? & ? & ? & ?)%IsSizeConsistent_spec _].
  destruct l. unfold read_limits, read_result, fbs_of. simpl in *. by rewrite !take_ge by lia.
Qed.

(** C32: Limits that were copied into a table of their size, whatever it held before, are
    read back unchanged into any struct. *)
Theorem limits_roundtrip l fb l0 : limits_wf l -> stored (length (min_position l)) fb ->
  exists fb', CopyTo_fbs l fb = Returns (RtOkStatus, fb') /\
    CopyTo_limits fb' l0 = Returns (RtOkStatus, l).
Proof.
  intros Hl Hfb. exists (fbs_of l). split; [apply CopyTo_fbs_stored; [apply Hl|done]|].
  by apply CopyTo_limits_fbs_of.
Qed.

Lemma limits_roundtrip_witness :
  exists fb', CopyTo_fbs ex_limits (BuildJointLimits 2) = Returns (RtOkStatus, fb') /\
    CopyTo_limits fb' default_JointLimits = Returns (RtOkStatus, ex_limits).
Proof.
  apply (limits_roundtrip ex_limits (BuildJointLimits 2) default_JointLimits).
  - split; [reflexivity | by vm_compute].
  - apply (BuildJointLimits_stored 2).
Defined.

(** ** Errors *)

(** The vectors of a table and the limits that are copied into them, in the order of
    the code. *)
Definition fb_fields (fb : fbs.JointLimits) : list fb_vector :=
  [fbs.min_position fb; fbs.max_position fb; fbs.max_velocity fb; fbs.max_acceleration fb;
   fbs.max_jerk fb; fbs.max_effort fb].

Definition limit_fields (l : JointLimits) : list VectorNd :=
  [min_position l; max_position l; max_velocity l; max_acceleration l; max_jerk l; max_torque l].

Definition fb_flags (fb : fbs.JointLimits) : list (option bool) :=
  [fbs.has_velocity_limits fb; fbs.has_acceleration_limits fb; fbs.has_jerk_limits fb;
   fbs.has_effort_limits fb].

(** A vector of the table has the size of the limits. *)
Definition fits (v : VectorNd) (f : fb_vector) : Prop := exists w, f = Some w /\ length w = length v.

(** A vector of at most [INT_MAX] elements is stored. *)
Definition int_sized (f : fb_vector) : Prop := exists w, f = Some w /\ Z.of_nat (length w) <= int_max.

(** The first [k] vectors of the table are overwritten. *)
Definition overwritten (k : nat) (l : JointLimits) (fb : fbs.JointLimits) : list fb_vector :=
  (Some <$> take k (limit_fields l)) ++ drop k (fb_fields fb).

(** One vector of [CopyTo_fbs]: go on, or stop at the [k]-th vector. *)
Ltac copy_field k :=
  match goal with
  | |- context [ToFlatbufferWithSizeCheck ?v (Some ?w) ?name] =>
      let st := fresh "st" in let fb' := fresh "fb" in let Hok := fresh "Hok" in
      destruct (ToFlatbuffer_cases v w name) as
        (st & fb' & -> & _ & [(Hok & ? & ->)|(Hok & ? & ? & ->)]); [done|done| |];
      simpl; rewrite ?(rt_return_ok _ _ _ Hok), ?(rt_return_error _ _ _ Hok); simpl;
      [|exists st; eexists; exists k; split; [done|]; split; [done|];
        split; [repeat constructor; eexists; by split|]; right; split; [done|]; split; [done|];
        eexists _, _; split; [done|]; split; [done|]; intros (? & [= <-] & ?); congruence]
  end.

(** C34: When a vector of the table has another size than the limits, the copy returns
    [kInvalidArgument]; the vectors before the first such vector are overwritten, all
    others and the flags are left alone.  Without one, the copy succeeds. *)
Theorem copy_stops_at_mismatch l fb :
  Forall int_sized (fb_fields fb) -> Forall (fun v => Z.of_nat (length v) <= int_max) (limit_fields l) ->
  exists st fb' k, CopyTo_fbs l fb = Returns (st, fb') /\ fb_fields fb' = overwritten k l fb /\
    Forall2 fits (take k (limit_fields l)) (take k (fb_fields fb)) /\
    (k = 6%nat /\ st = RtOkStatus \/
     rt_code st = kInvalidArgument /\ fb_flags fb' = fb_flags fb /\
     exists v f, limit_fields l !! k = Some v /\ fb_fields fb !! k = Some f /\ ~ fits v f).
Proof.
  destruct l as [l1 l2 l3 l4 l5 l6], fb as [p1 p2 hv v ha a hj j he e]. unfold fb_fields, limit_fields.
  simpl. rewrite !Forall_cons.
  intros ((?&->&?) & (?&->&?) & (?&->&?) & (?&->&?) & (?&->&?) & (?&->&?) & _) (? & ? & ? & ? & ? & ? & _).
  copy_field 0%nat. copy_field 1%nat. copy_field 2%nat. copy_field 3%nat. copy_field 4%nat.
  copy_field 5%nat.
  exists RtOkStatus. eexists. exists 6%nat. split; [done|]. split; [done|].
  split; [repeat constructor; eexists; by split|]. by left.
Qed.

Lemma copy_stops_at_mismatch_witness :
  exists st fb' k,
    CopyTo_fbs ex_limits (fbs_of (uniform 3 zero zero zero zero zero zero)) = Returns (st, fb') /\
    fb_fields fb' = overwritten k ex_limits (fbs_of (uniform 3 zero zero zero zero zero zero)) /\
    Forall2 fits (take k (limit_fields ex_limits))
      (take k (fb_fields (fbs_of (uniform 3 zero zero zero zero zero zero)))) /\
    (k = 6%nat /\ st = RtOkStatus \/
     rt_code st = kInvalidArgument /\
     fb_flags fb' = fb_flags (fbs_of (uniform 3 zero zero zero zero zero zero)) /\
     exists v f, limit_fields ex_limits !! k = Some v /\
       fb_fields (fbs_of (uniform 3 zero zero zero zero zero zero)) !! k = Some f /\ ~ fits v f).
Proof.
  apply (copy_stops_at_mismatch ex_limits (fbs_of (uniform 3 zero zero zero zero zero zero))).
  - repeat constructor; eexists; (split; [reflexivity|]); by vm_compute.
  - repeat constructor; by vm_compute.
Defined.

(** ** The sizes of limits *)

Lemma for_loop_invariant {S} (P : S -> Prop) (body : nat -> S -> checked S) n s s' :
  (forall i s s', P s -> body i s = Returns s' -> P s') -> P s -> for_loop n body s = Returns s' -> P s'.
Proof.
  intros Hb Hs. revert s'. induction n as [|n IH]; intros s'; simpl; [by intros [= <-]|].
  intros (t & Ht & ?)%cbind_returns. eauto.
Qed.

Lemma vec_set_length v i x v' : vec_set v i x = Returns v' -> length v' = length v.
Proof. unfold vec_set. intros (_ & _ & [= <-])%cbind_returns. apply length_insert. Qed.

Lemma copy_element_length source v i v' : copy_element source v i = Returns v' -> length v' = length v.
Proof.
  unfold copy_element. intros (? & _ & (? & _ & ?)%cbind_returns)%cbind_returns.
  by eapply vec_set_length.
Qed.

Lemma copy_element_if_length flag source v i v' :
  copy_element_if flag source v i = Returns v' -> length v' = length v.
Proof.
  unfold copy_element_if. case_match; [apply copy_element_length|by intros [= ->]].
Qed.

Lemma copy_joint_wf fb i l l' : limits_wf l -> copy_joint fb i l = Returns l' -> limits_wf l'.
Proof.
  unfold limits_wf, limits_size, vec_size. rewrite !IsSizeConsistent_spec.
  intros Hl. unfold copy_joint.
  intros (p1 & H1%copy_element_length & (p2 & H2%copy_element_length &
    (v & H3%copy_element_if_length & (a & H4%copy_element_if_length &
    (j & H5%copy_element_if_length & (e & H6%copy_element_if_length &
    [= <-])%cbind_returns)%cbind_returns)%cbind_returns)%cbind_returns)%cbind_returns)%cbind_returns.
  simpl in *. lia.
Qed.

(** C33: The type invariant of [JointLimits] (one size for all six vectors, at most
    [kMaxSize]): the default struct has it, and every operation that returns preserves
    it, on errors too, whatever the flatbuffer holds. *)
Theorem limits_type_invariant l : limits_wf l ->
  limits_wf default_JointLimits /\ limits_wf (SetUnlimited l) /\
  (forall size st l', SetSize size l = Returns (st, l') -> limits_wf l') /\
  (forall size l', Unlimited size = Returns (Value l') -> limits_wf l') /\
  (forall n p v a j l', CreateSimpleJointLimits n p v a j = Returns l' -> limits_wf l') /\
  (forall n p v a j f l', CreateSimpleJointLimits_effort n p v a j f = Returns l' -> limits_wf l') /\
  (forall fb st l', CopyTo_limits fb l = Returns (st, l') -> limits_wf l').
Proof.
  intros Hl. assert (limits_wf default_JointLimits) as H0 by (by split).
  refine (conj H0 (conj (SetUnlimited_wf l Hl) (conj _ (conj _ (conj _ (conj _ _)))))).
  - intros size st l' H. exact (SetSize_wf size l st l' Hl H).
  - unfold Unlimited. intros size l' ([st l1] & H1%SetSize_wf & H2)%cbind_returns; [|done].
    case_match; simplify_eq. by apply SetUnlimited_wf.
  - intros n p v a j l' H. destruct (decide (0 <= n <= kMaxSize)) as [?|Hn].
    + rewrite CreateSimpleJointLimits_in in H by done. simplify_eq. apply uniform_wf. lia.
    + pose proof (CreateSimpleJointLimits_out n p v a j Hn) as Ho. by rewrite H in Ho.
  - intros n p v a j f l' H. destruct (decide (0 <= n <= kMaxSize)) as [?|Hn].
    + rewrite CreateSimpleJointLimits_effort_in in H by done. simplify_eq. apply uniform_wf. lia.
    + pose proof (CreateSimpleJointLimits_effort_out n p v a j f Hn) as Ho. by rewrite H in Ho.
  - unfold CopyTo_limits.
    intros fb st l' (p1 & _ & ([st1 l1] & H1%SetSize_wf & H2)%cbind_returns)%cbind_returns; [|done].
    destruct (rt_ok st1) eqn:Hok;
      [rewrite rt_return_ok in H2 by done|rewrite rt_return_error in H2 by done; by simplify_eq].
    apply cbind_returns in H2 as (l2 & H2 & [= <- <-]).
    eapply for_loop_invariant; [|exact H1|exact H2]. intros. by eapply copy_joint_wf.
Qed.

Lemma limits_type_invariant_witness :
  limits_wf ex_limits /\
  (forall fb st l', CopyTo_limits fb ex_limits = Returns (st, l') -> limits_wf l').
Proof.
  assert (limits_wf ex_limits) as H by (split; [reflexivity | by vm_compute]).
  split; [exact H|]. destruct (limits_type_invariant ex_limits H) as (_ & _ & _ & _ & _ & _ & Hc).
  exact Hc.
Defined.

(** The reader takes its number of joints from [min_position] alone: a table whose
    [max_position] is shorter (both are data of another process) is read out of range. *)
Lemma reader_trusts_sizes :
  CopyTo_limits (fbs.mkJointLimits (Some [zero; zero]) (Some [zero]) None None None None None None None None)
    default_JointLimits = Aborts "index out of range".
Proof. reflexivity. Qed.

(** A table without velocity limits is read as limits of zero, and written back as a
    table with velocity limits of zero. *)
Lemma missing_limits_become_zero fb n l : readable n fb ->
  scalar (fbs.has_velocity_limits fb) = false ->
  exists l', CopyTo_limits fb l = Returns (RtOkStatus, l') /\ max_velocity l' = replicate n zero /\
    fbs.has_velocity_limits (fbs_of l') = Some true.
Proof.
  intros Hr Hf. eexists. split; [by apply (CopyTo_limits_readable n)|]. simpl.
  unfold read_limits, read_result. rewrite Hf. done.
Qed.

(** ** Commands *)

Definition command_fields (c : fbs.JointPositionCommand) : list fb_vector :=
  [fbs.position c; fbs.velocity_feedforward c; fbs.acceleration_feedforward c].

(** Copying a complete command into one of the same shape makes them equal; commands of
    different numbers of joints are refused without a change. *)
Lemma CopyTo_command_spec n m src dest :
  Forall (fun f => exists v, f = Some v /\ length v = n) (command_fields src) ->
  Forall (fun f => exists v, f = Some v /\ length v = m) (command_fields dest) ->
  match CopyTo_command src dest with
  | Returns (st, dest') => if decide (n = m) then st = RtOkStatus /\ dest' = src
                           else rt_code st = kOutOfRange /\ dest' = dest
  | Aborts _ => False
  end.
Proof.
  destruct src as [p v a], dest as [p' v' a']. unfold command_fields. simpl. rewrite !Forall_cons.
  intros ((pv&->&?) & (vv&->&?) & (av&->&?) & _) ((pw&->&?) & (vw&->&?) & (aw&->&?) & _).
  unfold copy_fb_vector. simpl. case_decide.
  - rewrite (proj1 (CopyFbsVector_spec pv pw)) by lia. simpl.
    rewrite (proj1 (CopyFbsVector_spec vv vw)) by lia. simpl.
    by rewrite (proj1 (CopyFbsVector_spec av aw)) by lia.
  - destruct (proj2 (CopyFbsVector_spec pv pw)) as [Hc Hw]; [lia|].
    destruct (CopyFbsVector pv pw) as [st d]. simpl in *. subst.
    assert (rt_ok st = false) as Hf by (apply rt_ok_false; by rewrite Hc). by rewrite rt_return_error.
Qed.

(** Commands built for the same number of joints can be copied. *)
Lemma built_commands_copy n : 
  CopyTo_command (BuildJointPositionCommand n) (BuildJointPositionCommand n) =
  Returns (RtOkStatus, BuildJointPositionCommand n).
Proof.
  pose proof (CopyTo_command_spec (Z.to_nat n) (Z.to_nat n)
    (BuildJointPositionCommand n) (BuildJointPositionCommand n)) as H.
  destruct (CopyTo_command _ _) as [[st d]|].
  - rewrite decide_True in H by done.
    destruct H as [-> ->]; [..|done]; repeat constructor; eexists; split; eauto using length_replicate.
  - destruct H; repeat constructor; eexists; split; eauto using length_replicate.
Qed.
