(* ===== verification/TimeFormat.v ===== *)
(** * Times as text ([icon/utils/time.{h,cc}])

    [FormatTime] maps a time of the steady clock to the system clock and formats it with
    ["{0:%F}T{0:%T}Z"] into an array of 21 characters; [operator<<] prints seconds and
    milliseconds.  Both are modelled down to the characters: the calendar of
    [std::chrono], the padding and the truncation.

    The resolution of [std::chrono::system_clock] is implementation-defined: a tick is
    [10 ^ -frac] seconds ([frac] is 9 for libstdc++ and 6 for libc++). *)
From S2P Require Import Prelude Time.

(** ** Digits *)

Definition digit (n : Z) : ascii := ascii_of_nat (48 + Z.to_nat (n mod 10)).

(** [k] decimal digits of [n], padded with zeros. *)
Fixpoint digits (k : nat) (n : Z) : list ascii :=
  match k with
  | O => []
  | S k' => digits k' (n / 10) ++ [digit n]
  end.

Definition digit_value (c : ascii) : Z := Z.of_nat (nat_of_ascii c) - 48.

Definition number (l : list ascii) : Z := fold_left (fun n c => 10 * n + digit_value c) l 0.

Lemma digit_value_digit n : digit_value (digit n) = n mod 10.
Proof.
  pose proof (Z.mod_pos_bound n 10 ltac:(lia)). unfold digit_value, digit.
  rewrite nat_ascii_embedding by lia. lia.
Qed.

Lemma digits_length k n : length (digits k n) = k.
Proof. revert n. induction k; intros n; simpl; [done|]. rewrite length_app, IHk. simpl. lia. Qed.

Lemma number_digits k n : 0 <= n < 10 ^ Z.of_nat k -> number (digits k n) = n.
Proof.
  revert n. induction k as [|k IH]; intros n Hn; [simpl in *; unfold number; simpl; lia|].
  rewrite Nat2Z.inj_succ, Z.pow_succ_r in Hn by lia. simpl. unfold number.
  rewrite fold_left_app. fold (number (digits k (n / 10))). rewrite IH.
  - simpl. rewrite digit_value_digit. pose proof (Z.div_mod n 10). lia.
  - split; [apply Z.div_pos; lia|]. apply Z.div_lt_upper_bound; lia.
Qed.

#[export] Hint Rewrite digits_length : icon.

(** ** The calendar: days since 1970-01-01 and dates of the Gregorian calendar *)

Record date := mkDate { year : Z; month : Z; day : Z }.

Definition days_per_era : Z := 146097.

(** The year of an era and the day of its year. *)
Definition year_of_era (doe : Z) : Z := (doe - doe / 1460 + doe / 36524 - doe / 146096) / 365.
Definition day_of_year (doe : Z) : Z :=
  let yoe := year_of_era doe in doe - (365 * yoe + yoe / 4 - yoe / 100).

(** The date of a day of an era of 400 years that starts on March 1st. *)
Definition date_of_era_day (doe : Z) : date :=
  let mp := (5 * day_of_year doe + 2) / 153 in
  let m := if mp <? 10 then mp + 3 else mp - 9 in
  mkDate (year_of_era doe + (if m <=? 2 then 1 else 0)) m
    (day_of_year doe - (153 * mp + 2) / 5 + 1).

(** [std::chrono::year_month_day] of a day *)
Definition civil_from_days (days : Z) : date :=
  let z := days + 719468 in
  let d := date_of_era_day (z mod days_per_era) in
  mkDate (year d + 400 * (z / days_per_era)) (month d) (day d).

(** The day of a date, for the reader of a formatted time. *)
Definition days_from_civil (d : date) : Z :=
  let y := year d - (if month d <=? 2 then 1 else 0) in
  let yoe := y mod 400 in
  let mp := if 2 <? month d then month d - 3 else month d + 9 in
  let doy := (153 * mp + 2) / 5 + day d - 1 in
  y / 400 * days_per_era + (yoe * 365 + yoe / 4 - yoe / 100 + doy) - 719468.

Lemma year_of_era_range doe : 0 <= doe < days_per_era ->
  0 <= year_of_era doe < 400 /\ 0 <= day_of_year doe <= 365.
Proof.
  unfold days_per_era, day_of_year, year_of_era. cbv zeta. intros H.
  assert (doe / 36524 = 0 \/ doe / 36524 = 1 \/ doe / 36524 = 2 \/ doe / 36524 = 3 \/ doe / 36524 = 4) as Hc
    by (Z.to_euclidean_division_equations; lia).
  destruct Hc as [Hc|[Hc|[Hc|[Hc|Hc]]]]; rewrite Hc; Z.to_euclidean_division_equations; lia.
Qed.
Lemma era_day_range days :
  let doe := (days + 719468) mod days_per_era in
  0 <= year_of_era doe < 400 /\ 0 <= (5 * day_of_year doe + 2) / 153 <= 11 /\
  1 <= day_of_year doe - (153 * ((5 * day_of_year doe + 2) / 153) + 2) / 5 + 1 <= 31.
Proof.
  simpl. destruct (year_of_era_range ((days + 719468) mod days_per_era)) as [? ?].
  { by apply Z.mod_pos_bound. }
  generalize dependent (day_of_year ((days + 719468) mod days_per_era)). intros doy Hd.
  split; [done|]. Z.to_euclidean_division_equations; lia.
Qed.

Lemma civil_ranges days :
  1 <= month (civil_from_days days) <= 12 /\ 1 <= day (civil_from_days days) <= 31.
Proof.
  destruct (era_day_range days) as (_ & Hm & Hd).
  unfold civil_from_days, date_of_era_day. cbn [month day]. split; [|lia]. case_match; lia.
Qed.

Lemma civil_roundtrip days : days_from_civil (civil_from_days days) = days.
Proof.
  destruct (era_day_range days) as (Hy & Hm & _).
  pose proof (Z.div_mod (days + 719468) days_per_era ltac:(done)) as Hd.
  unfold days_from_civil, civil_from_days, date_of_era_day. cbn [year month day].
  set (doe := (days + 719468) mod days_per_era) in *. set (era := (days + 719468) / days_per_era) in *.
  set (mp := (5 * day_of_year doe + 2) / 153) in *.
  set (b := if (if mp <? 10 then mp + 3 else mp - 9) <=? 2 then 1 else 0).
  replace (if 2 <? (if mp <? 10 then mp + 3 else mp - 9) then (if mp <? 10 then mp + 3 else mp - 9) - 3
           else (if mp <? 10 then mp + 3 else mp - 9) + 9) with mp
    by (repeat case_match; rewrite ?Z.ltb_lt, ?Z.ltb_ge in *; lia).
  replace (year_of_era doe + b + 400 * era - b) with (year_of_era doe + era * 400) by lia.
  rewrite Z_mod_plus_full, Z_div_plus_full, (Z.mod_small (year_of_era doe)),
    (Z.div_small (year_of_era doe)) by lia.
  unfold day_of_year. lia.
Qed.

(** ** [FormatTime] *)

(** [std::size(kTimeFormat)]: the 20 characters of ["yyyy-mm-ddThh:mm:ssZ"] and a zero. *)
Definition kTimeFormat : string := "yyyy-mm-ddThh:mm:ssZ".
Definition time_array_size : nat := S (String.length kTimeFormat).

(** [%Y]: at least four digits. *)
Definition format_year (y : Z) : list ascii :=
  let padded n := if n <? 10000 then digits 4 n else chars (pretty n) in
  if y <? 0 then "-"%char :: padded (- y) else padded y.

(** [%F] of a day *)
Definition format_date (days : Z) : list ascii :=
  let d := civil_from_days days in
  format_year (year d) ++ "-"%char :: digits 2 (month d) ++ "-"%char :: digits 2 (day d).

(** [%H:%M:%S] of a second of a day *)
Definition format_seconds (s : Z) : list ascii :=
  digits 2 (s / 3600) ++ ":"%char :: digits 2 (s / 60 mod 60) ++ ":"%char :: digits 2 (s mod 60).

Section Clock.
Context (frac : nat).

Definition ticks_per_sec : Z := 10 ^ Z.of_nat frac.

(** [to_sys]: [sys_now] and [steady_now] are the readings of the two clocks. *)
Definition to_sys (t sys_now steady_now : Z) : Z :=
  let delta := Z.quot (time_sub t steady_now) (10 ^ (9 - Z.of_nat frac)) in
  time_add sys_now delta.

(** The second of a time of the system clock. *)
Definition sys_second (sys_t : Z) : Z := sys_t / ticks_per_sec.

(** The fraction of [%T], which has the resolution of the clock. *)
Definition format_fraction (sys_t : Z) : list ascii :=
  match frac with O => [] | _ => "."%char :: digits frac (sys_t mod ticks_per_sec) end.

(** ["{0:%F}T{0:%T}Z"] *)
Definition format_text (sys_t : Z) : list ascii :=
  let s := sys_second sys_t in
  format_date (s / 86400) ++ "T"%char :: format_seconds (s mod 86400) ++ format_fraction sys_t
    ++ ["Z"%char].

(** [FormatTime]: [std::format_to_n] writes at most 20 characters of the text, and a
    zero is written after them. *)
Definition FormatTime (t sys_now steady_now : Z) : list ascii :=
  let sys_t := to_sys t sys_now steady_now in
  let out := take (time_array_size - 1) (format_text sys_t) in
  out ++ NUL :: replicate (time_array_size - 1 - length out) NUL.

(** A reader of the first 19 characters. *)
Definition read_second (l : list ascii) : Z :=
  let field i k := number (take k (drop i l)) in
  days_from_civil (mkDate (field 0%nat 4%nat) (field 5%nat 2%nat) (field 8%nat 2%nat)) * 86400
  + field 11%nat 2%nat * 3600 + field 14%nat 2%nat * 60 + field 17%nat 2%nat.

Lemma format_year_4 y : 0 <= y <= 9999 -> format_year y = digits 4 y.
Proof.
  intros. unfold format_year. rewrite (proj2 (Z.ltb_ge _ _)), (proj2 (Z.ltb_lt _ _)) by lia. done.
Qed.

Definition year_of (sys_t : Z) : Z := year (civil_from_days (sys_second sys_t / 86400)).

(** The character after the seconds. *)
Definition twentieth : ascii := match frac with O => "Z"%char | _ => "."%char end.

(** The 19 characters up to the seconds. *)
Definition stamp (sys_t : Z) : list ascii :=
  let s := sys_second sys_t in
  format_date (s / 86400) ++ "T"%char :: format_seconds (s mod 86400).

Lemma stamp_length sys_t : 0 <= year_of sys_t <= 9999 -> length (stamp sys_t) = 19%nat.
Proof.
  intros Hy. unfold stamp, format_date, format_seconds. rewrite format_year_4 by done.
  repeat (rewrite ?length_app, ?digits_length, ?length_cons). done.
Qed.

(** The text is the stamp, the twentieth character and a rest. *)
Lemma format_text_stamp sys_t :
  exists rest, format_text sys_t = stamp sys_t ++ twentieth :: rest.
Proof.
  unfold format_text, stamp, format_fraction, twentieth.
  generalize (format_date (sys_second sys_t / 86400)), (format_seconds (sys_second sys_t mod 86400)),
    (digits frac (sys_t mod ticks_per_sec)). intros d s f.
  destruct frac; eexists; rewrite <-app_assoc; reflexivity.
Qed.

Lemma FormatTime_stamp t sys_now steady_now :
  0 <= year_of (to_sys t sys_now steady_now) <= 9999 ->
  FormatTime t sys_now steady_now = stamp (to_sys t sys_now steady_now) ++ [twentieth; NUL].
Proof.
  intros Hy. pose proof (stamp_length _ Hy) as Hl. unfold FormatTime.
  destruct (format_text_stamp (to_sys t sys_now steady_now)) as [rest ->]. clear Hy.
  generalize dependent (stamp (to_sys t sys_now steady_now)). intros l Hl.
  change (time_array_size - 1)%nat with 20%nat. rewrite take_app_ge by lia. rewrite Hl.
  change (take (20 - 19) (twentieth :: rest)) with [twentieth].
  rewrite length_app, Hl. cbn [length Nat.add Nat.sub replicate]. by rewrite <-app_assoc.
Qed.
End Clock.

Lemma seconds_split r : 0 <= r < 86400 ->
  0 <= r / 3600 < 24 /\ 0 <= r / 60 mod 60 < 60 /\ 0 <= r mod 60 < 60 /\
  r / 3600 * 3600 + r / 60 mod 60 * 60 + r mod 60 = r.
Proof. intros. Z.to_euclidean_division_equations; lia. Qed.

(** Reading the fields of a text. *)
Lemma read_fields y m d h mi s tail :
  read_second (digits 4 y ++ "-"%char :: digits 2 m ++ "-"%char :: digits 2 d ++ "T"%char ::
    digits 2 h ++ ":"%char :: digits 2 mi ++ ":"%char :: digits 2 s ++ tail) =
  days_from_civil (mkDate (number (digits 4 y)) (number (digits 2 m)) (number (digits 2 d))) * 86400
  + number (digits 2 h) * 3600 + number (digits 2 mi) * 60 + number (digits 2 s).
Proof. reflexivity. Qed.

Lemma read_stamp frac sys_t tail : 0 <= year_of frac sys_t <= 9999 ->
  read_second (stamp frac sys_t ++ tail) = sys_second frac sys_t.
Proof.
  unfold year_of, stamp. generalize (sys_second frac sys_t). intros s Hy.
  pose proof (civil_ranges (s / 86400)) as [Hm Hd]. pose proof (civil_roundtrip (s / 86400)) as Hc.
  unfold format_date, format_seconds. rewrite format_year_4 by done.
  destruct (civil_from_days (s / 86400)) as [y m d]. cbn [year month day] in *.
  repeat first [rewrite <-app_assoc | progress cbn [app]]. rewrite read_fields.
  pose proof (seconds_split (s mod 86400) ltac:(by apply Z.mod_pos_bound)) as (Hh & Hmi & Hse & Hsum).
  pose proof (Z.div_mod s 86400 ltac:(lia)) as Hs.
  rewrite !number_digits, Hc by (change (10 ^ Z.of_nat 4) with 10000; change (10 ^ Z.of_nat 2) with 100; lia).
  lia.
Qed.

(** C36: The text of [FormatTime] determines its second: for a time in the years 0 to
    9999 of the system clock the array has 21 characters and ends in a zero, and the
    date and time read from it are those of the system clock, rounded down. *)
Theorem FormatTime_roundtrip frac t sys_now steady_now :
  0 <= year_of frac (to_sys frac t sys_now steady_now) <= 9999 ->
  length (FormatTime frac t sys_now steady_now) = time_array_size /\
  last (FormatTime frac t sys_now steady_now) = Some NUL /\
  read_second (FormatTime frac t sys_now steady_now) =
    sys_second frac (to_sys frac t sys_now steady_now).
Proof.
  intros Hy. rewrite FormatTime_stamp by done. pose proof (stamp_length frac _ Hy) as Hl.
  split; [by rewrite length_app, Hl|]. split; [|by apply read_stamp].
  change [twentieth frac; NUL] with ([twentieth frac] ++ [NUL]). by rewrite app_assoc, last_snoc.
Qed.

Lemma FormatTime_roundtrip_witness :
  length (FormatTime 9 5000000000 1767225600123456789 5000000000) = time_array_size /\
  last (FormatTime 9 5000000000 1767225600123456789 5000000000) = Some NUL /\
  read_second (FormatTime 9 5000000000 1767225600123456789 5000000000) =
    sys_second 9 (to_sys 9 5000000000 1767225600123456789 5000000000).
Proof.
  apply (FormatTime_roundtrip 9 5000000000 1767225600123456789 5000000000).
  vm_compute. split; intros [=].
Defined.

(** With a clock that has fractions of a second, the fraction of [%T] takes the place of
    the final [Z], and the truncation removes the [Z]. *)
Example FormatTime_loses_Z :
  str (until_nul (FormatTime 9 0 1767225600123456789 0)) = "2026-01-01T00:00:00."%string.
Proof. reflexivity. Qed.

(** ** [operator<<] *)

(** ["%03lld"] of a number of at most three digits *)
Definition printf_03 (n : Z) : list ascii :=
  if n <? 0 then "-"%char :: (if - n <? 100 then digits 2 (- n) else digits 3 (- n)) else digits 3 n.

(** [snprintf(buf, size, ...)]: the text is cut to leave room for the zero. *)
Definition snprintf (size : nat) (text : list ascii) : list ascii :=
  match size with O => [] | S n => take n text ++ [NUL] end.

(** [operator<<(Ostream&&, const Time&)]: what is written to the stream.  Casts of
    [std::chrono] truncate toward zero. *)
Definition print_time (time : Z) : list ascii :=
  let time_seconds := cast_seconds time in
  let fraction := time_sub time (seconds time_seconds) in
  let milliseconds := cast_milliseconds fraction in
  chars (pretty time_seconds) ++ "."%char :: until_nul (snprintf 4 (printf_03 milliseconds)).

Lemma digit_not_nul n : digit n <> NUL.
Proof.
  pose proof (Z.mod_pos_bound n 10 ltac:(lia)). intros Hn%(f_equal nat_of_ascii).
  unfold digit in Hn. rewrite nat_ascii_embedding in Hn by lia. change (nat_of_ascii NUL) with 0%nat in Hn. lia.
Qed.

Lemma digits_no_nul k n : no_nul (digits k n).
Proof.
  revert n. induction k; intros n; simpl; [constructor|].
  apply Forall_app. split; [apply IHk|]. constructor; [apply digit_not_nul|constructor].
Qed.

Lemma print_time_nonneg t : 0 <= t <= s64_max ->
  print_time t = chars (pretty (t / nanos_per_sec)) ++
    "."%char :: digits 3 (t mod nanos_per_sec / nanos_per_milli).
Proof.
  unfold s64_max. intros Ht. unfold print_time, cast_seconds, cast_milliseconds, seconds, time_sub.
  unfold nanos_per_sec, nanos_per_milli.
  rewrite (wrap_s_id _ (_ * _)) by (unfold in_s; Z.to_euclidean_division_equations; lia).
  rewrite wrap_s_id by (unfold in_s; Z.to_euclidean_division_equations; lia).
  assert (t ÷ 1000000000 = t / 1000000000) as -> by (Z.to_euclidean_division_equations; lia).
  assert (t - t / 1000000000 * 1000000000 = t mod 1000000000) as -> by (rewrite Z.mod_eq; lia).
  assert (t mod 1000000000 ÷ 1000000 = t mod 1000000000 / 1000000) as ->
    by (apply Z.quot_div_nonneg; [apply Z.mod_pos_bound; lia|lia]).
  do 2 f_equal. unfold printf_03.
  rewrite (proj2 (Z.ltb_ge _ _)) by (Z.to_euclidean_division_equations; lia).
  unfold snprintf. rewrite take_ge by (by rewrite digits_length).
  rewrite until_nul_app_nul. apply until_nul_no_nul, digits_no_nul.
Qed.

(** For times since the epoch the stream operator prints the millisecond exactly:
    two times have the same text if and only if they are in the same millisecond. *)
Theorem print_time_exact t u : 0 <= t <= s64_max -> 0 <= u <= s64_max ->
  print_time t = print_time u <-> t / nanos_per_milli = u / nanos_per_milli.
Proof.
  intros Ht Hu. rewrite !print_time_nonneg by done.
  assert (forall x, x / nanos_per_milli = x / nanos_per_sec * 1000 + x mod nanos_per_sec / nanos_per_milli)
    as Hx by (intros; unfold nanos_per_sec, nanos_per_milli; Z.to_euclidean_division_equations; lia).
  assert (forall x, 0 <= x mod nanos_per_sec / nanos_per_milli < 1000) as Hr
    by (intros; unfold nanos_per_sec, nanos_per_milli; Z.to_euclidean_division_equations; lia).
  pose proof (Hr t). pose proof (Hr u). split.
  - intros [Hs [= Hm]]%app_inj_2; [|by rewrite !length_cons, !digits_length].
    apply (f_equal str) in Hs. rewrite !str_chars in Hs. apply (inj pretty) in Hs.
    assert (digits 3 (t mod nanos_per_sec / nanos_per_milli) =
            digits 3 (u mod nanos_per_sec / nanos_per_milli)) as Hd by (simpl; congruence).
    apply (f_equal number) in Hd. rewrite !number_digits in Hd by done.
    rewrite (Hx t), (Hx u). lia.
  - rewrite (Hx t), (Hx u). intros He.
    assert (t / nanos_per_sec = u / nanos_per_sec) as -> by lia.
    by assert (t mod nanos_per_sec / nanos_per_milli = u mod nanos_per_sec / nanos_per_milli) as -> by lia.
Qed.

Lemma print_time_exact_witness :
  str (print_time 1500000000) = "1.500"%string /\
  (print_time 1500000000 = print_time 1500999999 <->
   1500000000 / nanos_per_milli = 1500999999 / nanos_per_milli).
Proof.
  split; [reflexivity|]. apply (print_time_exact 1500000000 1500999999);
    unfold s64_max; lia.
Defined.

(** A time before the epoch has a negative fraction, whose sign takes the place of a
    digit: half a second before the epoch is printed as [0.-50]. *)
Example print_time_negative :
  str (print_time (-500000000)) = "0.-50"%string /\
  str (print_time (-1500000000)) = "-1.-50"%string.
Proof. by vm_compute. Qed.
