(* ===== verification/Log.v ===== *)
(** * Logging, error texts and locks

    [icon/utils/log.h], [icon/utils/strerror.h] and [icon/utils/mutex.h].

    A sink is represented by the list of entries it has received, in order; the text
    that [std::format] produces for a call is an argument.  [strerror_r] of the C library
    and the texts it knows are arguments. *)
From S2P Require Import Prelude Status TimeFormat.

(** ** [Logger] *)

(** [Logger::kMaxLogLineLength] *)
Definition kMaxLogLineLength : nat := 4096.

(** [enum class Severity] *)
Inductive Severity : Set := kNone | kDebug | kInfo | kWarning | kError | kFatal.

Definition Severity_value (s : Severity) : Z :=
  match s with kNone => 0 | kDebug => 1 | kInfo => 2 | kWarning => 3 | kError => 4 | kFatal => 5 end.

(** [struct LogEntry]; the location is the line of the call. *)
Record LogEntry := mkLogEntry {
  msg : list ascii;
  loc : Z;
  severity : Severity }.

(** [class Logger]; [sink_cb_] is [false] for an empty [std::function]. *)
Record Logger := mkLogger {
  log_level_ : Severity;
  sink_cb_ : bool }.

(** [Logger::Log] *)
Definition Log (l : Logger) (loc : Z) (s : Severity) (text : list ascii) (sink : list LogEntry)
  : list LogEntry :=
  if Severity_value s <? Severity_value (log_level_ l) then sink
  else if negb (sink_cb_ l) then sink
  else
    let out := take kMaxLogLineLength text in
    sink ++ [mkLogEntry out loc s].

(** [LogWith(const Logger&, ...)] *)
Definition LogWith_ref (logger : Logger) (loc : Z) (s : Severity) (text : list ascii)
    (sink : list LogEntry) : list LogEntry :=
  Log logger loc s text sink.

(** [LogWith(const Logger*, ...)] *)
Definition LogWith (logger : option Logger) (loc : Z) (s : Severity) (text : list ascii)
    (sink : list LogEntry) : list LogEntry :=
  match logger with None => sink | Some l => Log l loc s text sink end.

(** [INTRINSIC_SHARED_MEMORY_LOG_DEBUG] to [..._ERROR] *)
Definition LOG_DEBUG logger loc text sink := LogWith logger loc kDebug text sink.
Definition LOG_INFO logger loc text sink := LogWith logger loc kInfo text sink.
Definition LOG_WARNING logger loc text sink := LogWith logger loc kWarning text sink.
Definition LOG_ERROR logger loc text sink := LogWith logger loc kError text sink.

(** [INTRINSIC_SHARED_MEMORY_LOG_FATAL]: what the sink has received, and the exit. *)
Definition LOG_FATAL (logger : option Logger) (loc : Z) (text : list ascii) (sink : list LogEntry)
  : list LogEntry * checked unit :=
  (LogWith logger loc kFatal text sink, Aborts "exit(EXIT_FAILURE)").

(** Whether a logger passes a severity on. *)
Definition accepts_severity (logger : option Logger) (s : Severity) : bool :=
  match logger with
  | Some l => sink_cb_ l && (Severity_value (log_level_ l) <=? Severity_value s)
  | None => false
  end.

(** Every call passes on at most one entry, exactly when the logger is there, has a sink
    and its level is not above the severity; the message is the text up to 4096
    characters.  A fatal message ends the process in every case. *)
Lemma LogWith_spec logger loc s text sink :
  LogWith logger loc s text sink =
    (if accepts_severity logger s then sink ++ [mkLogEntry (take kMaxLogLineLength text) loc s] else sink) /\
  has_returned (LOG_FATAL logger loc text sink).2 = false.
Proof.
  split; [|done]. destruct logger as [[level cb]|]; [|done]. unfold LogWith, Log, accepts_severity. simpl.
  destruct (Z.ltb_spec (Severity_value s) (Severity_value level)), cb; simpl; try done.
  - by rewrite (proj2 (Z.leb_gt _ _)) by lia.
  - by rewrite (proj2 (Z.leb_le _ _)) by lia.
Qed.

(** A sequence of log calls: the sink receives the accepted ones in order. *)
Definition log_all (logger : option Logger) (calls : list (Z * Severity * list ascii))
    (sink : list LogEntry) : list LogEntry :=
  fold_left (fun sink '(loc, s, text) => LogWith logger loc s text sink) calls sink.

Lemma log_all_filter logger calls sink :
  log_all logger calls sink =
  sink ++ ((fun '(loc, s, text) => mkLogEntry (take kMaxLogLineLength text) loc s)
             <$> filter (fun c => accepts_severity logger c.1.2 = true) calls).
Proof.
  unfold log_all. revert sink. induction calls as [|[[loc s] text] calls IH]; intros sink; simpl.
  { by rewrite app_nil_r. }
  rewrite IH, (proj1 (LogWith_spec logger loc s text sink)). rewrite filter_cons. simpl.
  case_decide as Hd; destruct (accepts_severity logger s); try done.
  by rewrite <-app_assoc.
Qed.

(** ** [StrError] *)

(** The result of [strerror_r]: GNU returns a pointer to a text (which can be the
    buffer), POSIX an [int]; both may have written to the buffer. *)
Inductive strerror_result :=
| GnuBuffer
| GnuStatic (text : list ascii)
| PosixInt.

(** [snprintf(buf, buflen, "%s", text)] on a buffer: the characters after the zero stay. *)
Definition snprintf_into (buf text : list ascii) : list ascii :=
  let out := snprintf (length buf) (until_nul text) in
  out ++ drop (length out) buf.

(** [HandleStrErrorR], both overloads *)
Definition HandleStrErrorR (buf : list ascii) (res : strerror_result) : list ascii :=
  match res with
  | GnuBuffer => buf
  | GnuStatic text => snprintf_into buf text
  | PosixInt => buf
  end.

Section strerror.
(** [::strerror_r(err, buf, N)]: the content of the buffer afterwards and the result. *)
Context (strerror_r : Z -> list ascii -> list ascii * strerror_result).

(** [StrError<N>] *)
Definition StrError (N : nat) (err : Z) : list ascii :=
  let '(buf, res) := strerror_r err (replicate N NUL) in
  HandleStrErrorR buf res.

(** The documented behaviour: the buffer keeps its size, and what was written to it ends
    in a zero. *)
Definition strerror_r_ok : Prop := forall err buf, buf <> [] -> NUL ∈ buf ->
  length (strerror_r err buf).1 = length buf /\ NUL ∈ (strerror_r err buf).1.

Lemma snprintf_length n text : (0 < n)%nat ->
  length (snprintf n text) = S (Nat.min (n - 1) (length text)).
Proof. destruct n; simpl; [lia|]. intros _. rewrite length_app, length_take. simpl. lia. Qed.

Lemma snprintf_into_spec buf text : buf <> [] ->
  length (snprintf_into buf text) = length buf /\ NUL ∈ snprintf_into buf text /\
  until_nul (snprintf_into buf text) = take (length buf - 1) (until_nul text).
Proof.
  intros Hb. assert (0 < length buf)%nat by (destruct buf; simpl; [done|lia]).
  pose proof (snprintf_length (length buf) (until_nul text) ltac:(done)) as Hl.
  unfold snprintf_into. split_and!.
  - rewrite length_app, length_drop, Hl. lia.
  - apply elem_of_app. left. destruct (length buf); [lia|]. simpl. set_solver.
  - destruct (length buf) as [|n] eqn:E; [lia|]. simpl snprintf.
    rewrite <-app_assoc. simpl. rewrite until_nul_app_nul, Nat.sub_0_r.
    apply until_nul_no_nul. auto with icon.
Qed.

(** The array of [StrError] has its size and is zero-terminated, whichever variant of
    [strerror_r] there is; a static text is cut to [N - 1] characters. *)
Lemma StrError_terminated N err : strerror_r_ok -> (0 < N)%nat ->
  length (StrError N err) = N /\ NUL ∈ StrError N err /\
  forall text, (strerror_r err (replicate N NUL)).2 = GnuStatic text ->
    until_nul (StrError N err) = take (N - 1) (until_nul text).
Proof.
  intros Hok HN. unfold StrError.
  destruct (Hok err (replicate N NUL)) as [Hl Hn].
  { destruct N; [lia|done]. }
  { destruct N; [lia|]. simpl. set_solver. }
  rewrite length_replicate in Hl. destruct (strerror_r err _) as [buf res]. simpl in *.
  assert (buf <> []) as Hb by (by destruct buf; [apply not_elem_of_nil in Hn|]).
  destruct res as [|text|]; simpl; [by split_and!| |by split_and!].
  destruct (snprintf_into_spec buf text Hb) as (H1 & H2 & H3). rewrite Hl in *.
  split_and!; [done..|]. by intros ? [= <-].
Qed.
End strerror.

(** ** [Mutex] and [MutexLock] *)

(** [class Mutex]: whether the [std::mutex] is locked. *)
Record Mutex := mkMutex { mu_ : bool }.

Definition new_Mutex : Mutex := mkMutex false.

(** [Lock()]: [None] while the caller blocks. *)
Definition Mutex_Lock (m : Mutex) : option Mutex := if mu_ m then None else Some (mkMutex true).

(** [Unlock()] *)
Definition Mutex_Unlock (m : Mutex) : Mutex := mkMutex false.

(** [TryLock()] *)
Definition TryLock (m : Mutex) : bool * Mutex := (negb (mu_ m), mkMutex true).

(** [MutexLock(Mutex* mu)]: the pointer is checked, then the mutex is locked. *)
Definition new_MutexLock_ptr (mu : option Mutex) : checked (option Mutex) :=
  let! _ := check (bool_decide (is_Some mu)) "Cannot construct MutexLock with nullptr" in
  Returns (mu ≫= Mutex_Lock).

(** [MutexLock(Mutex& mu)] *)
Definition new_MutexLock_ref (mu : Mutex) : option Mutex := Mutex_Lock mu.

(** [~MutexLock()] *)
Definition destroy_MutexLock (mu : Mutex) : Mutex := Mutex_Unlock mu.

(** A thread is outside of, or inside, a scope that holds the lock. *)
Inductive scope := SOutside | SInside.

Definition inside (s : scope) : nat := match s with SInside => 1 | SOutside => 0 end.

(** Threads enter a scope by a [MutexLock] (from a pointer or a reference) or by a
    successful [TryLock], and leave it by its destructor or by [Unlock]. *)
Inductive mstep : Mutex * list scope -> Mutex * list scope -> Prop :=
| ms_enter_ptr m m' ts i : ts !! i = Some SOutside ->
    new_MutexLock_ptr (Some m) = Returns (Some m') -> mstep (m, ts) (m', <[i := SInside]> ts)
| ms_enter_ref m m' ts i : ts !! i = Some SOutside ->
    new_MutexLock_ref m = Some m' -> mstep (m, ts) (m', <[i := SInside]> ts)
| ms_try m m' (r : bool) ts i : ts !! i = Some SOutside -> TryLock m = (r, m') ->
    mstep (m, ts) (m', <[i := if r then SInside else SOutside]> ts)
| ms_leave m ts i : ts !! i = Some SInside ->
    mstep (m, ts) (destroy_MutexLock m, <[i := SOutside]> ts).

(** The mutex is locked exactly while one thread is inside. *)
Definition lock_inv (c : Mutex * list scope) : Prop :=
  weight inside c.2 = (if mu_ c.1 then 1 else 0)%nat.

Lemma mstep_inv c c' : lock_inv c -> mstep c c' -> lock_inv c'.
Proof.
  unfold lock_inv. intros Hi Hs.
  destruct Hs as [m m' ts i Ht Hm|m m' ts i Ht Hm|m m' r ts i Ht Hm|m ts i Ht]; simpl in *;
    rewrite (weight_insert_eq _ _ _ _ _ Ht), Hi; simpl.
  - unfold new_MutexLock_ptr, Mutex_Lock in Hm. simpl in Hm.
    destruct (mu_ m); simplify_eq/=. lia.
  - unfold new_MutexLock_ref, Mutex_Lock in Hm. destruct (mu_ m); simplify_eq/=. lia.
  - unfold TryLock in Hm. simplify_eq. by destruct (mu_ m).
  - pose proof (weight_lookup_le inside ts i _ Ht). destruct (mu_ m); simpl in *; lia.
Qed.

(** At most one thread is inside a scope of a [Mutex]. *)
Lemma mutex_exclusive n c i j : rtc mstep (new_Mutex, replicate n SOutside) c ->
  c.2 !! i = Some SInside -> c.2 !! j = Some SInside -> i = j.
Proof.
  intros Hr Hi Hj. assert (lock_inv c) as Hc.
  { eapply rtc_invariant; [exact mstep_inv| |exact Hr]. unfold lock_inv. simpl.
    rewrite weight_replicate. simpl. lia. }
  destruct (decide (i = j)) as [|Hne]; [done|].
  pose proof (weight_two_le inside _ i j _ _ Hne Hi Hj) as Hw. unfold lock_inv in Hc.
  rewrite Hc in Hw. simpl in Hw. destruct (mu_ c.1); lia.
Qed.
