(* ===== verification/ClockInterface.v ===== *)
(** * The clock interface ([icon/control/realtime_clock_interface.{h,cc}])

    The abstract class is a type class over the state [W] its methods act on; the clock of
    a hardware module ([RealtimeClock]) is an instance.  The one method with a body,
    [TickBlockingWithTimeout], turns a timeout into a deadline, as
    [Lockstep::StartOperationAWithTimeout] and [StartOperationBWithTimeout] do; the
    theorems follow that deadline down to the timespec of the futex. *)
From S2P Require Import Prelude Status Time BinaryFutex Signal Lockstep.
From S2P Require Import SharedMemory MemorySegment RealtimeClock.

(** [class RealtimeClockInterface] *)
Class RealtimeClockInterface (C W : Type) := {
  interface_TickBlockingWithDeadline :
    C -> forall (current_timestamp deadline : Z), W -> checked (RealtimeStatus * W);
  interface_Reset : C -> forall (timeout : Z), W -> checked (RealtimeStatus * W) }.

(** [Now() + timeout] *)
Definition deadline_of (now timeout : Z) : Z := time_add now timeout.

(** [RealtimeClockInterface::TickBlockingWithTimeout]; [now] is the reading of [Now()]. *)
Definition TickBlockingWithTimeout {C W} `{RealtimeClockInterface C W} (now : Z) (c : C)
    (current_timestamp timeout : Z) (w : W) : checked (RealtimeStatus * W) :=
  interface_TickBlockingWithDeadline c current_timestamp (deadline_of now timeout) w.

(** [RealtimeClock] implements the interface.  [icon_until d] is what other processes do to
    the shared memory, before each step of the tick, up to the deadline [d]; [expired] is
    the status of a wait that times out. *)
Definition RealtimeClock_interface {F O} `{Signal F} (sizeof_header : Z) (expired : RealtimeStatus)
    (icon_until : Z -> list (world (clock_value F O) -> world (clock_value F O)))
  : RealtimeClockInterface RealtimeClock (world (clock_value F O)) := {|
  interface_TickBlockingWithDeadline c current_timestamp deadline w :=
    TickBlockingWithDeadline sizeof_header expired (icon_until deadline) c current_timestamp w;
  interface_Reset c timeout w := ResetClock sizeof_header expired c w |}.

(** ** Timeouts on the monotonic clock *)

(** A reading of the monotonic clock in nanoseconds. *)
Definition mono_ns (mono : timespec) : Z := tv_sec mono * nanos_per_sec + tv_nsec mono.

Record mono_ok (mono : timespec) : Prop := mkMonoOk {
  mono_sec : 0 <= tv_sec mono;
  mono_nsec : 0 <= tv_nsec mono < nanos_per_sec;
  mono_range : mono_ns mono <= s64_max }.

(** The timeout survives the wrap-around of the deadline. *)
Lemma deadline_duration now timeout : in_s 64 timeout ->
  time_sub (deadline_of now timeout) now = timeout.
Proof.
  intros Ht. unfold time_sub, deadline_of, time_add, wrap_s.
  replace ((now + timeout + 2 ^ (64 - 1)) mod 2 ^ 64 - 2 ^ (64 - 1) - now + 2 ^ (64 - 1))
    with ((now + timeout + 2 ^ (64 - 1)) mod 2 ^ 64 - now) by lia.
  rewrite Zminus_mod_idemp_l. replace (now + timeout + 2 ^ (64 - 1) - now) with (timeout + 2 ^ (64 - 1)) by lia.
  unfold in_s in Ht. rewrite Z.mod_small; lia.
Qed.

(** The timespec for a deadline [d] when the readings [t] and [mono] are taken: the
    point of the monotonic clock that is as far from [mono] as [d] is from [t], and the
    timespec zero when that point lies before the start of the clock. *)
Lemma deadline_timespec_at d t mono :
  mono_ok mono -> in_s 64 (d - t) -> in_s 64 (mono_ns mono + (d - t)) ->
  let ts := deadline_timespec d t mono in
  mono_ns ts = Z.max 0 (mono_ns mono + (d - t))
  /\ 0 <= tv_sec ts /\ 0 <= tv_nsec ts < nanos_per_sec.
Proof.
  intros [Hs Hn Hr] Hd Hm. unfold s64_max, mono_ns, nanos_per_sec in *.
  unfold deadline_timespec, seconds, cast_seconds, nanos_per_sec, time_add, time_sub.
  rewrite (wrap_s_id _ (d - t)) by done.
  rewrite (wrap_s_id _ (tv_sec mono * _)), (wrap_s_id _ (_ + tv_nsec mono)) by (unfold in_s; lia).
  set (m := tv_sec mono * 1000000000 + tv_nsec mono) in *.
  rewrite (wrap_s_id _ (m + (d - t))) by done. unfold in_s in Hm.
  rewrite (wrap_s_id _ (_ * _)) by (unfold in_s; Z.to_euclidean_division_equations; lia).
  rewrite wrap_s_id by (unfold in_s; Z.to_euclidean_division_equations; lia).
  cbn [tv_sec tv_nsec]. Z.to_euclidean_division_equations; lia.
Qed.

Lemma deadline_wraps now timeout mono : 0 <= timeout <= s64_max -> mono_ok mono ->
  s64_max < mono_ns mono + timeout ->
  deadline_timespec (deadline_of now timeout) now mono = mkTimespec 0 0.
Proof.
  intros Ht [Hs Hn Hr] Hm. unfold s64_max, mono_ns, nanos_per_sec in *.
  unfold deadline_timespec. rewrite deadline_duration by (unfold in_s; lia).
  unfold seconds, cast_seconds, nanos_per_sec, time_add, time_sub.
  rewrite (wrap_s_id _ (tv_sec mono * _)), (wrap_s_id _ (_ + tv_nsec mono)) by (unfold in_s; lia).
  set (m := tv_sec mono * 1000000000 + tv_nsec mono) in *.
  assert (wrap_s 64 (m + timeout) = m + timeout - 2 ^ 64) as ->.
  { unfold wrap_s. rewrite <-(Z_mod_plus_full _ (-1)), Z.mod_small; lia. }
  rewrite (wrap_s_id _ (_ * _)) by (unfold in_s; Z.to_euclidean_division_equations; lia).
  rewrite wrap_s_id by (unfold in_s; Z.to_euclidean_division_equations; lia).
  f_equal; Z.to_euclidean_division_equations; lia.
Qed.

(** C35: What becomes of a timeout.  [t0] is the reading of [Now()] with which the caller
    ([TickBlockingWithTimeout], [StartOperationAWithTimeout],
    [StartOperationBWithTimeout]) computes its deadline, [t1] and [mono] are the later
    readings of both clocks in [BinaryFutex::WaitUntil].  While no sum leaves the 64-bit
    range, the futex waits up to exactly the point of the monotonic clock that lies
    [timeout - (t1 - t0)] after [mono], that is [timeout] after the first reading; up to
    the start of that clock when the point would lie before it; and without a limit when
    the deadline is [Time::max()]. *)
Theorem timeout_on_monotonic_clock StrError f t0 timeout t1 mono start events :
  0 <= t0 <= t1 -> t1 <= s64_max -> 0 <= timeout -> t0 + timeout <= s64_max ->
  mono_ok mono -> mono_ns mono + timeout <= s64_max ->
  let wait := WaitUntil StrError f (deadline_of t0 timeout) (mkWaitClock t1 (inl mono) start) events in
  (t0 + timeout <> Time_max ->
     exists ts, wait = Wait_on StrError f (Some ts) start events
       /\ mono_ns ts = Z.max 0 (mono_ns mono + (timeout - (t1 - t0)))
       /\ 0 <= tv_sec ts /\ 0 <= tv_nsec ts < nanos_per_sec)
  /\ (t0 + timeout = Time_max -> wait = Wait_on StrError f None start events).
Proof.
  intros Ht H1 H2 H3 Hm H4. unfold deadline_of. rewrite time_add_exact by (unfold in_s, s64_max in *; lia).
  unfold WaitUntil. split; intros Hd; [|by rewrite decide_True].
  rewrite decide_False by done. cbn [wc_mono wc_now wc_start]. eexists. split; [reflexivity|].
  pose proof Hm as [Hs Hn _]. assert (0 <= mono_ns mono) by (unfold mono_ns, nanos_per_sec in *; lia).
  destruct (deadline_timespec_at (t0 + timeout) t1 mono Hm) as (E & Hts);
    [unfold in_s, s64_max in *; lia..|].
  split; [|exact Hts]. rewrite E. f_equal. lia.
Qed.

Definition ex_mono : timespec := mkTimespec 100 5.

(** A timeout of two seconds of which half a second has passed at the second reading. *)
Lemma timeout_on_monotonic_clock_witness :
  exists ts,
    WaitUntil (fun _ => "error") (new_BinaryFutex true false) (deadline_of 77 2000000000)
      (mkWaitClock 500000077 (inl ex_mono) 0) [] =
    Wait_on (fun _ => "error") (new_BinaryFutex true false) (Some ts) 0 []
    /\ mono_ns ts = mono_ns ex_mono + 1500000000.
Proof.
  assert (mono_ok ex_mono) as Hm by (constructor; vm_compute; repeat split; (reflexivity || intros [=])).
  destruct (timeout_on_monotonic_clock (fun _ => "error") (new_BinaryFutex true false) 77 2000000000
    500000077 ex_mono 0 []) as [H _]; [lia|unfold s64_max; lia|lia|unfold s64_max; lia|exact Hm
    |unfold s64_max, mono_ns, nanos_per_sec; simpl; lia|].
  destruct H as (ts & Hw & Hts & _); [vm_compute; intros [=]|].
  exists ts. split; [exact Hw|]. rewrite Hts. reflexivity.
Defined.

(** [std::chrono::nanoseconds::max()] means no timeout for [BinaryFutex::WaitFor], but for
    a timeout that is turned into a deadline it has passed already. *)
Lemma infinite_timeout_expires StrError f now mono start events :
  mono_ok mono -> 0 < mono_ns mono -> deadline_of now Time_max <> Time_max ->
  WaitFor StrError f Time_max now (mkWaitClock now (inl mono) start) events =
    Wait_on StrError f None start events /\
  WaitUntil StrError f (deadline_of now Time_max) (mkWaitClock now (inl mono) start) events =
    Wait_on StrError f (Some (mkTimespec 0 0)) start events.
Proof.
  intros Hm H0 Hne. unfold WaitFor, WaitUntil. rewrite decide_True by done. split; [done|].
  rewrite decide_False by done. simpl.
  rewrite deadline_wraps; [done|by vm_compute|done|]. unfold Time_max. lia.
Qed.
