(* ===== verification/EndToEnd.v ===== *)
(** * From the module to the control process

    The composition of the parts of a hardware interface: the registry of the module
    ([Interfaces]) adds a segment to its shared memory ([SharedMemory]); the domain socket
    server ([DomainSocketServer]) sends the descriptors of all segments; the client
    ([DomainSocket]) receives them; and the control process opens the segment from the
    map of descriptors that it got ([MemorySegment]) and checks it ([Interfaces]). *)
From S2P Require Import Prelude Doubles JointLimits JointData.
From S2P Require Import Status SegmentHeader SharedMemory SharedMemoryProofs MemorySegment.
From S2P Require Import MemorySegmentProofs SegmentRuns RealtimeClock Interfaces InterfacesProofs.
From S2P Require Import DomainSocket DomainSocketProofs DomainSocketServer DomainSocketServerProofs.

Section EndToEnd.
Context {P : Type} `{IterOrder}.
Context (StrError : Z -> string) (sizeof_header : Z).
Notation V := (payload P).
Implicit Types (w : world V) (m : SharedMemoryManager) (T : interface_type P).

(** The descriptors of the client process; files and mappings are shared. *)
Definition with_fds w (fds : gmap Z nat) : world V := mkWorld (w_files w) fds (w_maps w).

(** [SCM_RIGHTS]: a descriptor that was received denotes the file of the one that was
    sent. *)
Definition same_file w (fds : gmap Z nat) (fd fd' : Z) : Prop :=
  0 <= fd' /\ is_Some (w_fds w !! fd) /\ fds !! fd' = w_fds w !! fd.

(** One transfer of the map of a manager to a client, without errors: the server accepts
    the map, every message is sent, and arrives in pieces of any size. *)
Record transferred (kExpectedBytes : nat) (fcntl : Z -> option Z) (env : serve_env)
    (sv sv' : DomainSocketServer) (results : list (Z + Z)) (ins : list incoming)
    w (fds : gmap Z nat) (segments : gmap string Z) : Prop := mkTransferred {
  tr_bytes : (0 < kExpectedBytes)%nat;
  tr_servable : servable segments;
  tr_version : protocol_version_ sv = kDomainSocketProtocolVersion;
  tr_serve : ServeShmDescriptors StrError env segments sv = (OkStatus, sv');
  tr_results : length results = length (messages_ sv');
  tr_sent : Forall (fun r => r = inr (Z.of_nat kExpectedBytes)) results;
  tr_delivered : Forall2 (delivered kExpectedBytes fcntl (same_file w fds))
    (send_messages (Z.of_nat kExpectedBytes) (messages_ sv') results) ins }.

Lemma transferred_map kE fcntl env sv sv' results ins w fds segments :
  transferred kE fcntl env sv sv' results ins w fds segments ->
  exists segments', receive_loop StrError kE fcntl ins 1 0 ∅ = Some (Returns (Value segments'))
    /\ map_relation (fun _ => same_file w fds) (fun _ _ => False) (fun _ _ => False) segments segments'.
Proof.
  intros [Hk Hse Hv Hserve Hl Hr Hd]. apply Serve_messages in Hserve. rewrite Hv in Hserve.
  destruct (descriptors_roundtrip StrError kE fcntl (same_file w fds) segments Hse) as (ms & Hms & _ & Hrt).
  rewrite Hms in Hserve. injection Hserve as Hms'. apply Hrt.
  by rewrite sent_all in Hd by done; rewrite Hms'.
Qed.

Lemma served_interface k kc T name w m buffer n :
  reliable k -> reliable kc -> accepts m name (kTypeString T) ->
  0 <= sizeof_header -> 0 < sizeof_T T <= n -> sizeof_header + n < 2 ^ 64 -> verified T buffer n ->
  exists h w' m',
    AdvertiseMutableInterface StrError sizeof_header k T name buffer n w m = Returns (Value h, w', m')
    /\ forall kE fcntl env sv sv' results ins fds,
         transferred kE fcntl env sv sv' results ins w' fds (segment_name_to_file_descriptor_map_ m') ->
         exists segments' s w3, let hr := new_InterfaceHandle s in
           receive_loop StrError kE fcntl ins 1 0 ∅ = Some (Returns (Value segments'))
           /\ GetSegment StrError sizeof_header kReadOnly (sizeof_T T)
                (k_get kc (with_fds w' fds)) segments' name (with_fds w' fds) = (Value s, w3)
           /\ check_segment sizeof_header T name s w3 = Returns (Value hr, w3)
           /\ deref w3 hr = Some buffer
           /\ (exists hd, handle_header w3 hr = Some hd /\ ReaderRefCount hd = 1 /\ WriterRefCount hd = 1)
           /\ forall v, deref (mutate w3 h v) hr = Some v.
Proof.
  intros Hk Hkc Hacc H0 Ht Hn Hver.
  destruct (advertise_ok StrError sizeof_header kReadWrite k T name false buffer n w m)
    as (fd & i & a & b & Hu & Hadv); [done..|].
  set (N := sizeof_header + n) in *. set (w' := attached _ _ _ _ _ _ _ _ _) in *.
  set (m' := registered _ _ _ _ _ _) in *. set (s := mkMemorySegment _ _ _ _ _) in *.
  set (hd := opened kReadWrite (new_SegmentHeader (kTypeString T))).
  exists (new_InterfaceHandle s), w', m'. split; [exact Hadv|].
  intros kE fcntl env sv sv' results ins fds Htr.
  destruct (transferred_map _ _ _ _ _ _ _ _ _ _ Htr) as (segments' & Hrec & Hrel).
  specialize (Hrel name). rewrite (lookup_insert_eq _ name fd : segment_name_to_file_descriptor_map_ m' !! name = Some fd) in Hrel.
  destruct (segments' !! name) as [fd'|] eqn:Hfd'; [|done]. simpl in Hrel.
  destruct Hrel as (Hfd0 & _ & Hsame).
  rewrite (lookup_insert_eq _ fd i : w_fds w' !! fd = Some i) in Hsame.
  assert (w_files (with_fds w' fds) !! i = Some (mkFile N (Some hd) (Some buffer))) as Hf
    by (simpl; apply lookup_insert_eq).
  assert (TypeID (Type_ hd) = kTypeString T) as Hty.
  { change (Type_ hd) with (new_TypeInfo (kTypeString T)).
    rewrite TypeID_new, take_ge by apply Hacc. apply str_chars. }
  destruct (re_get kc Hkc (with_fds w' fds)) as (c & Ec & Hc).
  destruct (open_segment_cases StrError sizeof_header kReadOnly T _ name (with_fds w' fds)
    segments' c fd' i _ hd buffer Ec Hfd' Hfd0 Hsame Hf eq_refl eq_refl Hc)
    as (Hget & Hok & _ & Hval & Hhdr); try done; try (simpl; unfold int_max; lia).
  cbn [f_size] in *.
  eexists segments', _, _. split; [exact Hrec|]. split; [exact Hget|]. split; [apply Hok; [done|done|]|].
  { unfold N. by rewrite Z.add_simpl_l. }
  split; [unfold deref; simpl; exact Hval|].
  split; [eexists; split; [exact Hhdr|done]|].
  intros v. assert (b <> c) as Hbc.
  { intros <-. simpl in Hc. by rewrite lookup_insert_eq in Hc. }
  unfold deref, mutate, SetValue, GetValue, update_at, file_at, mapped. simpl.
  rewrite lookup_insert_ne, lookup_insert_eq by done. simpl.
  rewrite lookup_insert_eq. simpl. rewrite lookup_alter_eq, lookup_insert_eq. done.
Qed.

(** C16: An interface crosses the socket.  The module advertises an interface; a client to
    which the descriptors of the module's segments are transferred can open it by name and
    type, is counted as its reader, reads the message the module built, and from then on
    reads whatever the module writes through its own handle. *)
Theorem served_interface_is_read k kc T name w m buffer n :
  reliable k -> reliable kc -> accepts m name (kTypeString T) ->
  0 <= sizeof_header -> 0 < sizeof_T T <= n -> sizeof_header + n < 2 ^ 64 -> verified T buffer n ->
  exists h w' m',
    AdvertiseMutableInterface StrError sizeof_header k T name buffer n w m = Returns (Value h, w', m')
    /\ forall kE fcntl env sv sv' results ins fds,
         transferred kE fcntl env sv sv' results ins w' fds (segment_name_to_file_descriptor_map_ m') ->
         exists segments' s w3, let hr := new_InterfaceHandle s in
           receive_loop StrError kE fcntl ins 1 0 ∅ = Some (Returns (Value segments'))
           /\ GetSegment StrError sizeof_header kReadOnly (sizeof_T T)
                (k_get kc (with_fds w' fds)) segments' name (with_fds w' fds) = (Value s, w3)
           /\ check_segment sizeof_header T name s w3 = Returns (Value hr, w3)
           /\ deref w3 hr = Some buffer
           /\ (exists hd, handle_header w3 hr = Some hd /\ ReaderRefCount hd = 1 /\ WriterRefCount hd = 1)
           /\ forall v, deref (mutate w3 h v) hr = Some v.
Proof. apply served_interface. Qed.
End EndToEnd.

(** ** Joint limits on the same way *)

(** Joint limits reach the control process.  The module advertises a table for [n]
    joints and the client gets its descriptor; whenever the module then copies limits for
    [n] joints into the table, the copy succeeds, and what the client reads from its own
    handle converts back to exactly these limits. *)
Theorem joint_limits_reach_client `{IterOrder} StrError sizeof_header k kc
    (T : interface_type fbs.JointLimits) name w m (num_dof n : Z) :
  reliable k -> reliable kc -> accepts m name (kTypeString T) ->
  0 <= sizeof_header -> 0 < sizeof_T T <= n -> sizeof_header + n < 2 ^ 64 ->
  verified T (Payload (BuildJointLimits num_dof)) n ->
  exists h w' m',
    AdvertiseMutableInterface StrError sizeof_header k T name (Payload (BuildJointLimits num_dof)) n w m
      = Returns (Value h, w', m')
    /\ forall kE fcntl env sv sv' results ins fds,
         transferred StrError kE fcntl env sv sv' results ins w' fds
           (segment_name_to_file_descriptor_map_ m') ->
         exists segments' s w3, let hr := new_InterfaceHandle s in
           receive_loop StrError kE fcntl ins 1 0 ∅ = Some (Returns (Value segments'))
           /\ GetSegment StrError sizeof_header kReadOnly (sizeof_T T)
                (k_get kc (with_fds w' fds)) segments' name (with_fds w' fds) = (Value s, w3)
           /\ check_segment sizeof_header T name s w3 = Returns (Value hr, w3)
           /\ forall l l0, limits_wf l -> length (min_position l) = Z.to_nat num_dof ->
                exists fb, CopyTo_fbs l (BuildJointLimits num_dof) = Returns (RtOkStatus, fb)
                  /\ deref (mutate w3 h (Payload fb)) hr = Some (Payload fb)
                  /\ CopyTo_limits fb l0 = Returns (RtOkStatus, l).
Proof.
  intros. destruct (served_interface StrError sizeof_header k kc T name w m
    (Payload (BuildJointLimits num_dof)) n) as (h & w' & m' & Hadv & Hc); [done..|].
  exists h, w', m'. split; [exact Hadv|]. intros kE fcntl env sv sv' results ins fds Htr.
  destruct (Hc _ _ _ _ _ _ _ _ Htr) as (segments' & s & w3 & Hr & Hg & Hk & _ & _ & Hv).
  exists segments', s, w3. split; [exact Hr|]. split; [exact Hg|]. split; [exact Hk|]. intros l l0 Hl Hn.
  exists (fbs_of l). split_and!; [|apply Hv|by apply CopyTo_limits_fbs_of].
  apply CopyTo_fbs_stored; [apply Hl|]. rewrite Hn. apply BuildJointLimits_stored.
Qed.

(** ** A concrete run: one interface, one client *)

#[local] Existing Instance DomainSocketProofs.iter_map_to_list.

Definition ex_advertised :=
  AdvertiseMutableInterface (fun _ => "error") 256 (free_kernel _) ex_T "joint_state" (Payload 7%nat) 64
    ex_empty ex_no_segments.
Definition ex_module_world : world (payload nat) :=
  match ex_advertised with Returns (Value _, w, _) => w | _ => ex_empty end.
Definition ex_module_manager : SharedMemoryManager :=
  match ex_advertised with Returns (Value _, _, m) => m | _ => ex_no_segments end.

Definition ex_sent : list Message :=
  match PrepareMessages kDomainSocketProtocolVersion
          (segment_name_to_file_descriptor_map_ ex_module_manager) with
  | Value ms => ms
  | Unexpected _ => []
  end.

(** The client gets [fd + 10] for every descriptor [fd]. *)
Definition ex_client_fds : gmap Z nat := kmap (Z.add 10) (w_fds ex_module_world).

Lemma ex_delivered_to (w : world (payload nat)) fds m :
  Forall (fun fd => same_file w fds fd (fd + 10)) (cmsg_data (msg_control m)) ->
  delivered 3 (fun _ => None) (same_file w fds) m (ex_incoming m).
Proof.
  intros Hm. destruct (ex_delivered m) as [Hd Hr (fds' & Hc & _ & Hf)]. split; [done|done|].
  exists fds'. split; [done|]. split; [|done]. injection Hc as <-.
  apply Forall2_fmap_r. eapply Forall_Forall2_diag. exact Hm.
Qed.

Lemma ex_transferred :
  transferred (fun _ => "error") 3 (fun _ => None) ex_serve ex_server
    (with_messages ex_server ex_sent true true) [inr 3] (ex_incoming <$> ex_sent)
    ex_module_world ex_client_fds (segment_name_to_file_descriptor_map_ ex_module_manager).
Proof.
  split.
  - lia.
  - assert (segment_name_to_file_descriptor_map_ ex_module_manager = {[ "joint_state" := 1 ]}) as ->
      by (vm_compute; reflexivity).
    split; [done| |done]. intros name fd [<- _]%lookup_singleton_Some.
    split; [repeat constructor; done|unfold kMaxSegmentStringSize; simpl; lia].
  - reflexivity.
  - vm_compute. reflexivity.
  - vm_compute. reflexivity.
  - by constructor.
  - assert (send_messages (Z.of_nat 3) (messages_ (with_messages ex_server ex_sent true true)) [inr 3]
            = ex_sent) as -> by (vm_compute; reflexivity).
    apply Forall2_fmap_r, Forall_Forall2_diag.
    assert (Forall (fun m => Forall (fun fd => same_file ex_module_world ex_client_fds fd (fd + 10))
              (cmsg_data (msg_control m))) ex_sent) as Hs.
    { vm_compute. repeat constructor; try (intros [=]); eexists; reflexivity. }
    eapply Forall_impl; [exact Hs|]. intros m. apply ex_delivered_to.
Qed.

Lemma served_interface_is_read_witness :
  exists segments' s w3,
    receive_loop (fun _ => "error") 3 (fun _ => None) (ex_incoming <$> ex_sent) 1 0 ∅
      = Some (Returns (Value segments'))
    /\ GetSegment (fun _ => "error") 256 kReadOnly (sizeof_T ex_T)
         (k_get (free_kernel _) (with_fds ex_module_world ex_client_fds)) segments' "joint_state"
         (with_fds ex_module_world ex_client_fds) = (Value s, w3)
    /\ deref w3 (new_InterfaceHandle s) = Some (Payload 7%nat).
Proof.
  destruct (served_interface_is_read (fun _ => "error") 256 (free_kernel _) (free_kernel _) ex_T "joint_state"
    ex_empty ex_no_segments (Payload 7%nat) 64) as (h & w' & m' & Ha & Hc).
  - apply free_kernel_reliable.
  - apply free_kernel_reliable.
  - split; [cbn; rewrite map_size_empty; unfold kMaxNumberOfSegments; lia|cbn; unfold kMaxSize; lia|reflexivity..].
  - lia.
  - cbn. lia.
  - lia.
  - reflexivity.
  - fold ex_advertised in Ha.
    assert (ex_module_world = w') as <- by (unfold ex_module_world; rewrite Ha; reflexivity).
    assert (ex_module_manager = m') as <- by (unfold ex_module_manager; rewrite Ha; reflexivity).
    destruct (Hc _ _ _ _ _ _ _ _ ex_transferred) as (segments' & s & w3 & Hr & Hg & _ & Hd & _).
    exists segments', s, w3. exact (conj Hr (conj Hg Hd)).
Defined.
