(* ===== verification/ControlPeriod.v ===== *)
(** * The message about different control periods
    ([FormatControlPeriodMismatchError] of [icon/hal/interfaces/control_period_utils.cc])

    The frequencies are doubles; [{:.1f}] of [std::format] prints the decimal with one
    digit that is nearest to the exact value of the double, ties to even. *)
From S2P Require Import Prelude Doubles.

(** The conversion of an integer to [double]. *)
Definition double_of_int (n : Z) : double := binary_normalize prec emax n 0 false.

(** [x / y] *)
Definition div : double -> double -> double := SFdiv prec emax.

(** [std::nano::den] *)
Definition nano_den : Z := 1000000000.

(** The computation of [expected_hz] and [actual_hz]. *)
Definition hz (period : Z) : double :=
  if 0 <? period then div (double_of_int nano_den) (double_of_int period) else NaN.

(** The integer nearest to [num / den], ties to even. *)
Definition nearest_even (num den : Z) : Z :=
  let q := num / den in
  match 2 * (num mod den) ?= den with
  | Lt => q
  | Eq => if Z.even q then q else q + 1
  | Gt => q + 1
  end.

(** Tenths of the magnitude [m * 2 ^ e]. *)
Definition tenths (m : positive) (e : Z) : Z :=
  if 0 <=? e then 10 * Zpos m * 2 ^ e else nearest_even (10 * Zpos m) (2 ^ (- e)).

Definition sign_text (s : bool) : string := if s then "-" else "".

(** [{:.1f}] *)
Definition format_1f (x : double) : string :=
  match x with
  | S754_nan => "nan"
  | S754_infinity s => sign_text s +:+ "inf"
  | S754_zero s => sign_text s +:+ "0.0"
  | S754_finite s m e =>
      let n := tenths m e in sign_text s +:+ pretty (n / 10) +:+ "." +:+ pretty (n mod 10)
  end.

(** [FormatControlPeriodMismatchError] *)
Definition FormatControlPeriodMismatchError (module_name : string) (expected actual : Z) : string :=
  "Inconsistent configuration with Hardware Module '" +:+ module_name +:+ "'."
  +:+ " ICON ('control_frequency_hz'): " +:+ pretty expected +:+ " ns (" +:+ format_1f (hz expected)
  +:+ " Hz), Hardware Module reports: " +:+ pretty actual +:+ " ns (" +:+ format_1f (hz actual)
  +:+ " Hz). Check your configuration.".

(** The result of [nearest_even] is at most half a unit away. *)
Lemma nearest_even_close num den : 0 < den ->
  Z.abs (2 * num - 2 * den * nearest_even num den) <= den.
Proof.
  intros Hd. unfold nearest_even. pose proof (Z.div_mod num den ltac:(lia)) as Hq.
  pose proof (Z.mod_pos_bound num den Hd).
  destruct (Z.compare_spec (2 * (num mod den)) den); repeat case_match; nia.
Qed.

(** Periods that divide a second into a whole number of cycles are printed with their
    exact frequency. *)
Definition whole_frequency (a b : nat) : bool :=
  let period := 2 ^ Z.of_nat a * 5 ^ Z.of_nat b in
  bool_decide (format_1f (hz period) = pretty (nano_den / period) +:+ ".0").

Lemma whole_frequencies :
  forallb (fun a => forallb (whole_frequency a) (seq 0 10)) (seq 0 10) = true.
Proof. vm_compute. reflexivity. Qed.

Lemma exact_frequency a b : (a <= 9)%nat -> (b <= 9)%nat ->
  let period := 2 ^ Z.of_nat a * 5 ^ Z.of_nat b in
  format_1f (hz period) = pretty (nano_den / period) +:+ ".0".
Proof.
  intros Ha Hb. pose proof whole_frequencies as Hw. rewrite forallb_forall in Hw.
  specialize (Hw a ltac:(apply in_seq; lia)). rewrite forallb_forall in Hw.
  specialize (Hw b ltac:(apply in_seq; lia)). by apply bool_decide_eq_true in Hw.
Qed.

(** A period that is not positive has no frequency. *)
Lemma no_frequency period : period <= 0 -> format_1f (hz period) = "nan".
Proof. intros. unfold hz. by rewrite (proj2 (Z.ltb_ge _ _)) by lia. Qed.

Example mismatch_message :
  FormatControlPeriodMismatchError "arm" 1000000 4000001 =
  ("Inconsistent configuration with Hardware Module 'arm'."
   +:+ " ICON ('control_frequency_hz'): 1000000 ns (1000.0 Hz), Hardware Module "
   +:+ "reports: 4000001 ns (250.0 Hz). Check your configuration.")%string.
Proof. reflexivity. Qed.
