(* ===== verification/PromiseLocks.v ===== *)
(** * A context while a reset is in progress
    ([FuturePromiseContext::TestOnlyResetLock] and [TestOnlyResetUnlock] of
     [platform/common/buffers/rt_promise.h])

    The two functions take and release all locks of the context in the order of [Reset].
    The lemma shows what the other operations see in between. *)
From S2P Require Import Prelude Status Time BinaryFutex LockableBinaryFutex RtPromise.

Section Locks.
Context {T : Type} (StrError : Z -> string).
Notation Ctx := (Ctx T).
Implicit Type c : Ctx.

(** [<lock>.Lock()] *)
Definition lock_now (get : Ctx -> LockableBinaryFutex) (set : Ctx -> LockableBinaryFutex -> Ctx) c
  : outcome (RealtimeStatus * Ctx) :=
  let '(st, m, _) := Lock StrError (get c) (mkWaitClock 0 (inr 0) 0) [] in
  match st with Some st => Ret (st, set c m) | None => Block end.

(** [TestOnlyResetLock()] *)
Definition TestOnlyResetLock c : outcome (RealtimeStatus * Ctx) :=
  do! (status, c) := lock_now get_future_futex_ set_get_future c in
  do! (st, c) := lock_now get_promise_futex_ set_get_promise c in
  let status := OverwriteIfNotError_rt status st in
  do! (st, c) := lock_now read_value_futex_ set_read c in
  let status := OverwriteIfNotError_rt status st in
  do! (st, c) := lock_now write_value_futex_ set_write c in
  let status := OverwriteIfNotError_rt status st in
  do! (st, c) := lock_now cancel_futex_ set_cancel c in
  Ret (OverwriteIfNotError_rt status st, c).

(** [TestOnlyResetUnlock()] *)
Definition TestOnlyResetUnlock c : RealtimeStatus * Ctx :=
  let '(status, c) := unlock cancel_futex_ set_cancel c in
  let '(st, c) := unlock write_value_futex_ set_write c in
  let status := OverwriteIfNotError_rt status st in
  let '(st, c) := unlock read_value_futex_ set_read c in
  let status := OverwriteIfNotError_rt status st in
  let '(st, c) := unlock get_promise_futex_ set_get_promise c in
  let status := OverwriteIfNotError_rt status st in
  let '(st, c) := unlock get_future_futex_ set_get_future c in
  (OverwriteIfNotError_rt status st, c).

(** All locks of a context have the content [m]. *)
Definition all_locks (m : LockableBinaryFutex) c : Prop :=
  read_value_futex_ c = m /\ write_value_futex_ c = m /\ cancel_futex_ c = m /\
  get_future_futex_ c = m /\ get_promise_futex_ c = m.

Definition held_lock : LockableBinaryFutex := mkLockableBinaryFutex (new_BinaryFutex false true).

(** On a context with free locks the first function takes them all, both of its
    operations that must not wait then fail to take their locks, a second call blocks, and
    the second function restores the context. *)
Lemma reset_lock_roundtrip c : all_locks (new_LockableBinaryFutex true) c ->
  exists c', TestOnlyResetLock c = Ret (RtOkStatus, c') /\ all_locks held_lock c' /\
    (ReadTryLock c').1 = false /\ (WriteTryLock c').1 = false /\ TestOnlyResetLock c' = Block /\
    TestOnlyResetUnlock c' = (RtOkStatus, c).
Proof.
  destruct c. intros (H1 & H2 & H3 & H4 & H5). simpl in *. subst.
  eexists. split; [reflexivity|]. by repeat split.
Qed.

(** Without the locks, the second function reports that they were not held. *)
Lemma reset_unlock_unlocked c : all_locks (new_LockableBinaryFutex true) c ->
  rt_code (TestOnlyResetUnlock c).1 = kFailedPrecondition /\ (TestOnlyResetUnlock c).2 = c.
Proof.
  destruct c. intros (H1 & H2 & H3 & H4 & H5). simpl in *. by subst.
Qed.
End Locks.
