(* ===== verification/Cleanup.v ===== *)
(** * Scope guards ([icon/utils/cleanup.h])

    A [Cleanup] runs its callback when its scope ends, unless it was cancelled.  A scope is
    a body that gets the guard and hands it back; whatever the body returns, the destructor
    runs afterwards on the state it left. *)
From S2P Require Import Prelude Status SharedMemory SegmentRuns Interfaces HalRuntime ModuleRuntime.

(** [class Cleanup] without its callback *)
Record Cleanup := mkCleanup { active_ : bool }.

(** [Cleanup(Fn&& cb)] *)
Definition new_Cleanup : Cleanup := mkCleanup true.

(** [std::move(c).Cancel()] *)
Definition Cancel (c : Cleanup) : Cleanup := mkCleanup false.

(** [~Cleanup()]; [callback] may end the process. *)
Definition destroy_Cleanup {W} (callback : W -> checked W) (c : Cleanup) (w : W) : checked W :=
  if active_ c then callback w else Returns w.

(** A scope with a guard. *)
Definition scope {W R} (callback : W -> checked W) (body : Cleanup -> W -> checked (R * Cleanup * W))
    (w : W) : checked (R * W) :=
  let! (r, c, w1) := body new_Cleanup w in
  let! w2 := destroy_Cleanup callback c w1 in
  Returns (r, w2).

(** A body that disarms the guard only when its result is fine. *)
Definition cancel_if {W R} (fine : R -> bool) (body : W -> checked (R * W)) (c : Cleanup) (w : W)
  : checked (R * Cleanup * W) :=
  let! (r, w1) := body w in Returns (r, if fine r then Cancel c else c, w1).

(** The callback runs exactly once, after the body, in exactly the runs that are not
    fine. *)
Lemma scope_cancel_if {W R} (callback : W -> checked W) (fine : R -> bool) body (w : W) :
  scope callback (cancel_if fine body) w =
  let! (r, w1) := body w in
  if fine r then Returns (r, w1) else let! w2 := callback w1 in Returns (r, w2).
Proof.
  unfold scope, cancel_if. destruct (body w) as [[r w1]|]; [|done]. simpl.
  by destruct (fine r).
Qed.

(** ** [HardwareModuleRuntime::Run] is such a scope *)
Section RunScope.
Context {F O M : Type} `{HardwareModule M} `{IterOrder} (StrError : Z -> string).
Context (sizeof_header sizeof_futex : Z).
Notation state := (Runtime (M := M) * world (payload (rt_value F O)))%type.

(** [Cleanup([&]() noexcept { std::ignore = Stop(); })] *)
Definition stop_on_error (s : state) : checked state :=
  let! (_, r, w) := Stop s.1 s.2 in Returns (r, w).

Definition run_in_scope (k : kernel (payload (rt_value F O))) (env : run_env) (s : state)
  : checked (Status * state) :=
  scope stop_on_error
    (cancel_if status_ok (fun s =>
       let! (st, r, w) := run_body StrError sizeof_header sizeof_futex k env s.1 s.2 in
       Returns (st, (r, w)))) s.

Lemma Run_is_scope k env r w : has_stopped_ r = false ->
  Run StrError sizeof_header sizeof_futex k env r w =
  let! (st, s) := run_in_scope k env (r, w) in Returns (st, s.1, s.2).
Proof.
  intros Hs. unfold Run, run_in_scope. rewrite Hs, scope_cancel_if. simpl.
  destruct (run_body _ _ _ _ _ _ _) as [[[st r1] w1]|]; [|done]. simpl.
  destruct (status_ok st); [done|]. unfold stop_on_error. simpl.
  by destruct (Stop r1 w1) as [[[? ?] ?]|].
Qed.
End RunScope.
